(* ===== verification/_CoqProject ===== *)
-Q . S2P
Prelude.v
Planes.v
BitSlicer.v
IR.v
A64.v
Circuits.v
Registry.v
Analyzer.v
ExprCompiler.v
A64Mem.v
ExprBits.v
ExprCorrect.v
ExprKernel.v
ExprProps.v
ExprTotal.v
ScalarCompiler.v
ScalarCorrect.v
ScalarKernel.v
ScalarProps.v
KernelCall.v
Rows.v
Aggregate.v
Columns.v
Runner.v
RunnerCorrect.v
RunnerProps.v
ThreadPool.v
ThreadPoolProps.v
Forest.v
Msl.v
Shader.v
ShaderText.v
ShaderRun.v
ShaderLanes.v
Engine.v
EngineCorrect.v
ForestCorrect.v
SetExpression.v
ForestLogic.v
NativeCorrect.v
VectorCorrect.v
GpuCorrect.v
ShaderGen.v
ShaderCorrect.v
ShaderForest.v
EngineDemo.v
EngineProps.v
EntryProps.v
ShaderRace.v
ShaderProps.v
Invariant.v
Vsock.v
Policy.v
PolicyProps.v
Monitor.v
MonitorProps.v
Collector.v
CollectorProps.v
KillProps.v
CApi.v
CApiProps.v
Bindings.v
Guest.v
GuestProps.v
Sandbox.v
Metal.v
Esf.v
