(* ===== verification/Prelude.v ===== *)
(** * AarchGate: a verification development

    AarchGate is a query engine that compiles filter expressions to A64 machine code over
    bit planes (64 rows at a time), and a sandbox for package installation that
    uses the engine to police the system calls of a virtual machine.  This
    library models the program's own C++ (everything under src/ but the vendored code) and
    proves it correct where it is, or shows where it is not.

    ** The parts and their files

    The engine, from the bottom up.

    - Prelude.v (this file): 64-bit words as [Z], finite sums, arrays, the loop
      [mfold]; Planes.v: a word as 64 lanes, columns as planes, the one-lane
      laws of adder and comparator.
    - BitSlicer.v (src/compute/bit_slicer*.cpp): the 64x64 bit transpose, the number of SIMD
      lanes a parameter ([HwyTarget]).
    - IR.v (include/apex/jit/ir.hpp, src/jit/jit.cpp): the node pool, the
      builders, and the expressions [aexp], [bexp] a graph denotes
      ([denA], [denB]).
    - A64.v: the machine, an interpreter of the emitted instructions; A64Mem.v: addressing and frames.
    - Circuits.v (src/jit/circuit_library.cpp, compile_comparison); Analyzer.v
      (ConstPool, ScratchpadManager, ExpressionAnalyzer);
      ExprCompiler.v (compile_expression), proved correct in ExprBits.v,
      ExprCorrect.v, ExprKernel.v, ExprProps.v, ExprTotal.v; ScalarCompiler.v
      (compile_scalar_expression), proved correct in ScalarCorrect.v,
      ScalarKernel.v, ScalarProps.v: all of src/jit/compiler.cpp.
    - KernelCall.v: the call of a compiled kernel and [KernelSpec], the promise
      both compilers keep towards the engine and the runner.
    - Registry.v (src/core/registry.cpp, data_viewer.hpp): schemas and fields.
    - Rows.v, Aggregate.v, Columns.v: what a field of a row is, the three
      aggregators as sums over rows, the filling of the columns, and [LogicSpec], the promise of a
      stored logic on which every execution path is proved.
    - Runner.v, RunnerCorrect.v, RunnerProps.v (src/compute/parallel_runner.cpp):
      the workers, their shares and [run]; ThreadPool.v, ThreadPoolProps.v: the
      pool as interleaved steps, which refines the sequential [run].
    - Forest.v, Msl.v, Engine.v (src/api/engine.cpp, engine.hpp): every
      operation of [ApexEngine]; EngineCorrect.v, ForestCorrect.v,
      SetExpression.v, ForestLogic.v, NativeCorrect.v, VectorCorrect.v,
      GpuCorrect.v, EngineProps.v, EntryProps.v, Invariant.v: their proofs;
      EngineDemo.v: a concrete engine for the witnesses.
    - Shader.v (the Metal source of src/api/engine.cpp): the generated kernel as a program,
      its text, and its runs by two interleaved simdgroups; ShaderText.v: [generate_msl_source]
      prints that program; ShaderRun.v: interleavings; ShaderLanes.v: one statement;
      ShaderGen.v, ShaderCorrect.v, ShaderForest.v: the generator; ShaderRace.v: which
      kernels race; ShaderProps.v: the GPU mode end to end.
    - Metal.v (src/gpu/metal_device.mm): buffers, pipeline cache, dispatch.
    - CApi.v, CApiProps.v (src/api/aarchgate_c_api.cpp): handles and error codes;
      Bindings.v (bindings/python, bindings/java): the conversions in front of it.

    The sandbox, in the direction the data flows.

    - Guest.v, GuestProps.v (src/guest): the eBPF hooks and the agent.
    - Vsock.v (common/vsock_protocol.h, the reader of src/host/vm_controller.mm): the byte stream.
    - Policy.v, PolicyProps.v (src/host/policy_engine.cpp): process tree,
      classification, the compiled policy on the engine above.
    - Sandbox.v: the composition, from system call to verdict.
    - Collector.v, CollectorProps.v, KillProps.v (src/host/main.cpp, the controller of
      src/host/vm_controller.mm): the daemon's threads, the kill switch, and the steps of
      [VMController::stop], which takes no lock and may have several callers at once.
    - Monitor.v, MonitorProps.v (src/host/monitor.cpp): the telemetry model and
      the dashboard.
    - Esf.v (src/host/esf_manager.cpp): the endpoint security client.

    ** How code becomes definitions

    A [uint64_t] is a [Z] below 2^64 with the wrap-around written out; a node pointer is an
    index into the pool; a buffer is a list.  Objects are records and an operation
    returns the new one.  [option] stands for undefined behaviour or a fault ([None])
    unless a comment says otherwise; errors the code reports are values.
    Emitted code is the list of instructions the emitter appends, and it is run,
    not interpreted away: a theorem about a compiler is about running its
    output on A64.v's machine.  Hash-table order, allocation outcomes,
    Highway's lane count, the Metal framework, the BPF helpers, pybind11's casts and the
    results of system calls are parameters (classes [Host], [HwyTarget],
    [Framework], [Kernel], [Pybind]) with the documented facts used.  Threads are step
    relations: one step is what happens between two points where another
    thread can interfere.  A signed sum is kept modulo 2^64: where the code's [int64_t]
    additions overflow, which is undefined in C++, the model wraps around, and
    where they do not it is exact ([Aggregate.hybrid_sum_signed],
    [Aggregate.plane_sum_signed]).  Floating point is binary64, a division being the
    correctly rounded one or the product with the reciprocal, as the build's -ffast-math
    allows (the choice is [Host]'s).  The Metal kernel is run as 64 threads in two simdgroups of 32
    lanes: a simdgroup runs in lockstep, the two meet at barriers only; what
    a shuffle reads from an inactive lane is a parameter ([Gpu]) of which nothing is
    assumed but its width.

    ** What the theorems show

    - The engine computes the query: [execute] after [set_expression] returns
      the number of rows (boolean root), the sum of the values (arithmetic root) or
      the forest's sum (SUM of selections); [execute_parallel],
      [execute_native], [execute_vector], the threshold query and the C
      interface agree with it; the GPU path hands the device the right planes,
      and on a device that runs the generated kernel returns the forest's sum
      over whole blocks, for conditions that neither add nor subtract
      ([ShaderProps.gpu_sums_forest]).
    - The compilers are correct: kernels terminate without a fault, return
      the mask or leave the planes of the expression, keep the callee-saved
      registers and write only scratch memory and their frame; compilation succeeds
      within the stated bounds; the two backends agree; slots are never shared.
    - The components keep their contracts: the transpose, the comparison kernel,
      the analysis order, the registry, the node pool, the engine's invariant along
      any sequence of calls.
    - Concurrency: the pool's results do not depend on the interleaving, no
      slot is written twice, every call returns; no violation is lost by the
      daemon, a finished kill has stopped the machine, and one that has begun can be completed in
      eleven steps while no two threads have joined the same reader; the interleavings of a race-free kernel agree, and a
      kernel is race-free exactly when a comparison stands between any two
      additions ([ShaderRace.race_free_exactly]).
    - The sandbox: the stream reassembles however it is cut; the compiled policy
      counts the violations of every batch; a system call's verdict is the
      intended one; the monitor draws every process once; the framework's
      clients are released.
    - Where the code is wrong, a theorem or lemma says how: subtraction
      ([ExprProps.subtraction_wrong], described exactly by
      [compile_expression_lanes]), the seventh addition, a bare LOAD root, NOT
      in the scalar backend, an exec that clears a process's mark, the
      destructor's lost wakeup, two kills that join the same reader ([KillProps.double_join]), the race of two additions in the Metal kernel, the stale Metal pipeline, a short write of the agent.

    ** Bounds and fuel

    A recursion over a graph takes the number of nodes as fuel: children come
    before their parents, so a path visits no node twice; that the fuel suffices is
    proved ([Analyzer.analyze_topological], ForestCorrect.v, ShaderGen.v), as it is for the machine (one
    unit per instruction of a straight-line kernel, 64 rounds of the body for the scalar one), the
    reader's buffer (its length) and the process tree (the number of
    processes, [MonitorProps.monitor_draws_all]).  The compiler's limits are
    the code's: 32768 words of scratch memory, 128 fields, six carry registers, 4096 slots in reach of the
    scalar backend.

    ** Not modelled

    The vendored libraries (AsmJit, Highway, iceoryx and others) and what they
    do: instruction encoding, executable memory, the shared-memory transport.
    The Metal compiler: that the device runs the program whose text it is given is the hypothesis
    [runs_shader].  The configuration of the virtual machine, a sequence of
    framework calls.  Console output of the daemon and the agent.  The static
    Metal kernel, which nothing loads, the wrapper of the iceoryx subscriber and the modules
    with empty bodies (core.cpp, memory.cpp, telemetry.cpp).  Tests, benchmarks and examples. *)

From Stdlib Require Export ZArith Lia Bool.
From stdpp Require Export base list gmap strings.

#[global] Open Scope Z_scope.

(** ** 64-bit words

    A [uint64_t] is a [Z] in [0, 2^64); an operation that can leave the range
    writes its wrap-around out.  An [int64_t] is kept as the same 64 bits
    (two's complement) and read through [sint64] where its sign matters. *)

Definition u64 (x : Z) : Prop := 0 <= x < 2 ^ 64.
Definition ones64 : Z := 2 ^ 64 - 1.
Definition wrap64 (x : Z) : Z := x mod 2 ^ 64.
Definition lnot64 (x : Z) : Z := Z.lxor x ones64.
Definition sint64 (x : Z) : Z := if x <? 2 ^ 63 then x else x - 2 ^ 64.

(** The bit of a word as a number. *)
Definition bitz (x i : Z) : Z := Z.b2z (Z.testbit x i).

(** ** Bounded sums *)

Fixpoint zsum (n : nat) (f : nat -> Z) : Z :=
  match n with
  | O => 0
  | S n => zsum n f + f n
  end.

(** [popcount64 x] is [__builtin_popcountll(x)]. *)
Definition popcount64 (x : Z) : Z := zsum 64 (fun i => bitz x (Z.of_nat i)).

Lemma popcount64_unfold x : popcount64 x = zsum 64 (fun i => bitz x (Z.of_nat i)).
Proof. reflexivity. Qed.

(** ** Hint databases and tactics *)

Create Rewrite HintDb tb.
Create HintDb u64 discriminated.
#[export] Hint Constants Opaque : u64.
Create Rewrite HintDb len.

Lemma ones64_bits i : 0 <= i -> Z.testbit ones64 i = (i <? 64).
Proof.
  intros. change ones64 with (Z.ones 64).
  destruct (Z.ltb_spec i 64).
  - apply Z.ones_spec_low. lia.
  - apply Z.ones_spec_high. lia.
Qed.

Lemma lnot64_bits x i : 0 <= i < 64 -> Z.testbit (lnot64 x) i = negb (Z.testbit x i).
Proof.
  intros. unfold lnot64. rewrite Z.lxor_spec, ones64_bits by lia.
  rewrite (proj2 (Z.ltb_lt i 64)) by lia. apply xorb_true_r.
Qed.

Lemma u64_bits_high x i : u64 x -> 64 <= i -> Z.testbit x i = false.
Proof.
  unfold u64. intros Hx Hi.
  rewrite <- (Z.mod_small x (2 ^ 64)) by lia.
  apply Z.mod_pow2_bits_high. lia.
Qed.

Lemma u64_of_bits x :
  0 <= x -> (forall i, 64 <= i -> Z.testbit x i = false) -> u64 x.
Proof.
  intros Hx Hb. split; [done|].
  destruct (Z.eq_dec x 0) as [->|Hnz]; [lia|].
  destruct (Z.lt_ge_cases x (2 ^ 64)) as [|Hge]; [done|].
  assert (64 <= Z.log2 x) by (apply Z.log2_le_pow2; lia).
  pose proof (Z.bit_log2 x ltac:(lia)) as H1. rewrite Hb in H1 by lia. done.
Qed.

Lemma wrap64_bits x i : 0 <= i < 64 -> Z.testbit (wrap64 x) i = Z.testbit x i.
Proof. intros. apply Z.mod_pow2_bits_low. lia. Qed.

Lemma wrap64_u64 x : u64 (wrap64 x).
Proof. unfold u64, wrap64. apply Z.mod_pos_bound. lia. Qed.

Lemma wrap64_small x : u64 x -> wrap64 x = x.
Proof. intros. apply Z.mod_small. done. Qed.

Lemma u64_eq_bits x y :
  u64 x -> u64 y -> (forall i, 0 <= i < 64 -> Z.testbit x i = Z.testbit y i) -> x = y.
Proof.
  intros Hx Hy Hb. apply Z.bits_inj'. intros i Hi.
  destruct (Z.lt_ge_cases i 64); [by apply Hb|].
  by rewrite !u64_bits_high.
Qed.

Lemma u64_land x y : u64 x -> u64 y -> u64 (Z.land x y).
Proof.
  intros. apply u64_of_bits.
  - apply Z.land_nonneg. unfold u64 in *; lia.
  - intros. by rewrite Z.land_spec, u64_bits_high.
Qed.

Lemma u64_lor x y : u64 x -> u64 y -> u64 (Z.lor x y).
Proof.
  intros. apply u64_of_bits.
  - apply Z.lor_nonneg. unfold u64 in *; lia.
  - intros. by rewrite Z.lor_spec, !u64_bits_high.
Qed.

Lemma u64_lxor x y : u64 x -> u64 y -> u64 (Z.lxor x y).
Proof.
  intros. apply u64_of_bits.
  - apply Z.lxor_nonneg. unfold u64 in *; lia.
  - intros. by rewrite Z.lxor_spec, !u64_bits_high.
Qed.

Lemma u64_ldiff x y : u64 x -> u64 (Z.ldiff x y).
Proof.
  intros. apply u64_of_bits.
  - apply Z.ldiff_nonneg. unfold u64 in *; lia.
  - intros. by rewrite Z.ldiff_spec, u64_bits_high.
Qed.

Lemma u64_ones : u64 ones64.
Proof. unfold u64, ones64. lia. Qed.

Lemma u64_0 : u64 0.
Proof. unfold u64. lia. Qed.

Lemma u64_1 : u64 1.
Proof. unfold u64. lia. Qed.

Lemma u64_lnot64 x : u64 x -> u64 (lnot64 x).
Proof. intros. apply u64_lxor; [done | apply u64_ones]. Qed.

Lemma u64_shiftr x n : 0 <= n -> u64 x -> u64 (Z.shiftr x n).
Proof.
  intros. apply u64_of_bits.
  - apply Z.shiftr_nonneg. unfold u64 in *; lia.
  - intros. rewrite Z.shiftr_spec by lia. apply u64_bits_high; [done|lia].
Qed.

Lemma u64_b2z b : u64 (Z.b2z b).
Proof. destruct b; unfold u64; simpl; lia. Qed.

#[export] Hint Resolve u64_land u64_lor u64_lxor u64_ldiff u64_ones u64_0 u64_1
  u64_lnot64 wrap64_u64 u64_b2z : u64.
#[export] Hint Rewrite Z.land_spec Z.lor_spec Z.lxor_spec Z.ldiff_spec Z.bits_0 : tb.
#[export] Hint Rewrite lnot64_bits ones64_bits wrap64_bits using lia : tb.

(** Prove an equality of two words bit by bit. *)
Ltac word_bits :=
  apply u64_eq_bits; [eauto 8 with u64 | eauto 8 with u64 | intros ?i ?Hi; autorewrite with tb].

Ltac split_bools :=
  repeat match goal with
  | |- context [Z.testbit ?x ?i] => destruct (Z.testbit x i) eqn:?; simpl
  end.

(** ** Lemmas on bounded sums *)

Lemma zsum_ext n f g : (forall i, (i < n)%nat -> f i = g i) -> zsum n f = zsum n g.
Proof.
  induction n as [|n IH]; intros H; simpl; [done|].
  rewrite IH, H; auto with lia.
Qed.

Lemma zsum_0 n : zsum n (fun _ => 0) = 0.
Proof. induction n; simpl; lia. Qed.

Lemma zsum_add n f g : zsum n (fun i => f i + g i) = zsum n f + zsum n g.
Proof. induction n; simpl; lia. Qed.

Lemma zsum_mul n c f : zsum n (fun i => c * f i) = c * zsum n f.
Proof. induction n; simpl; lia. Qed.

Lemma zsum_mul_r n c f : zsum n (fun i => f i * c) = zsum n f * c.
Proof. induction n; simpl; lia. Qed.

Lemma zsum_const n c : zsum n (fun _ => c) = Z.of_nat n * c.
Proof. induction n; simpl zsum; lia. Qed.

Lemma zsum_nonneg n f : (forall i, (i < n)%nat -> 0 <= f i) -> 0 <= zsum n f.
Proof.
  induction n as [|n IH]; intros H; simpl; [lia|].
  assert (0 <= zsum n f) by (apply IH; auto with lia).
  specialize (H n ltac:(lia)). lia.
Qed.

Lemma zsum_le n f g : (forall i, (i < n)%nat -> f i <= g i) -> zsum n f <= zsum n g.
Proof.
  induction n as [|n IH]; intros H; simpl; [lia|].
  assert (zsum n f <= zsum n g) by (apply IH; auto with lia).
  specialize (H n ltac:(lia)). lia.
Qed.

Lemma zsum_swap n m f :
  zsum n (fun i => zsum m (fun j => f i j)) = zsum m (fun j => zsum n (fun i => f i j)).
Proof.
  induction n as [|n IH]; simpl; [by rewrite zsum_0|].
  by rewrite IH, <- zsum_add.
Qed.

Lemma zsum_split n m f : zsum (n + m) f = zsum n f + zsum m (fun i => f (n + i)%nat).
Proof.
  induction m as [|m IH]; simpl.
  - rewrite Nat.add_0_r. lia.
  - rewrite Nat.add_succ_r. simpl. rewrite IH. lia.
Qed.

(** A sum whose terms vanish from [k] on is the sum of the first [k]. *)
Lemma zsum_cut n k f :
  (k <= n)%nat -> (forall i, (k <= i < n)%nat -> f i = 0) -> zsum n f = zsum k f.
Proof.
  intros Hk H. replace n with (k + (n - k))%nat by lia.
  rewrite zsum_split, (zsum_ext (n - k) _ (fun _ => 0)), zsum_0 by (intros; apply H; lia).
  lia.
Qed.

Lemma bitz_01 x i : 0 <= bitz x i <= 1.
Proof. unfold bitz. destruct (Z.testbit x i); simpl; lia. Qed.

Lemma popcount64_bounds x : 0 <= popcount64 x <= 64.
Proof.
  unfold popcount64. split.
  - apply zsum_nonneg. intros. apply bitz_01.
  - transitivity (zsum 64 (fun _ => 1)); [|by rewrite zsum_const].
    apply zsum_le. intros. apply bitz_01.
Qed.

(** ** Arrays of words

    A C array of [n] words is a [list Z] of length [n]; [arr f n] is the array
    whose cell [i] is [f i]. *)

Definition arr (n : nat) (f : nat -> Z) : list Z := f <$> seq 0 n.

Lemma length_arr n f : length (arr n f) = n.
Proof. unfold arr. by rewrite length_fmap, length_seq. Qed.

Lemma arr_lookup n f i : (i < n)%nat -> arr n f !! i = Some (f i).
Proof.
  intros. unfold arr. rewrite list_lookup_fmap, lookup_seq_lt by done. done.
Qed.

Lemma arr_total n f i : (i < n)%nat -> arr n f !!! i = f i.
Proof. intros. by rewrite list_lookup_total_alt, arr_lookup. Qed.

Lemma arr_ext n f g : (forall i, (i < n)%nat -> f i = g i) -> arr n f = arr n g.
Proof.
  intros H. apply list_eq_same_length with n; rewrite ?length_arr; try done.
  intros i x y Hi. rewrite !arr_lookup by done. intros. simplify_eq. by apply H.
Qed.

Lemma arr_eta n (A : list Z) : length A = n -> arr n (fun i => A !!! i) = A.
Proof.
  intros H. apply list_eq_same_length with n; rewrite ?length_arr; try done.
  intros i x y Hi. rewrite arr_lookup by done. intros [= <-] Hy.
  by apply list_lookup_total_correct in Hy.
Qed.

Lemma arr_insert n f k v :
  (k < n)%nat -> <[k := v]> (arr n f) = arr n (fun i => if decide (i = k) then v else f i).
Proof.
  intros Hk. apply list_eq_same_length with n; rewrite ?length_insert, ?length_arr; try done.
  intros i x y Hi. rewrite list_lookup_insert, !arr_lookup, length_arr by done.
  repeat case_decide; intros; simplify_eq; try done; naive_solver.
Qed.

#[export] Hint Rewrite length_arr @length_insert : len.

(** A property of every index below a concrete bound, checked by evaluation. *)
Lemma forall_below (n : nat) (P : nat -> bool) :
  forallb P (seq 0 n) = true -> forall i, (i < n)%nat -> P i = true.
Proof. intros H i Hi. rewrite forallb_forall in H. apply H, in_seq. lia. Qed.

(** [steps lo hi st] are the values of [k] in [for (k = lo; k < hi; k += st)]. *)
Definition steps (lo hi st : nat) : list nat :=
  (fun i => lo + i * st)%nat <$> seq 0 ((hi - lo + st - 1) / st).

(** The loop visits exactly the multiples of the step from [lo] below [hi]. *)
Lemma elem_of_steps lo hi st k :
  (0 < st)%nat ->
  k ∈ steps lo hi st <-> (lo <= k < hi)%nat /\ ((k - lo) mod st = 0)%nat.
Proof.
  intros Hst. unfold steps. rewrite list_elem_of_fmap. split.
  - intros [i [-> Hi]]. apply elem_of_seq in Hi.
    assert (i * st < hi - lo)%nat.
    { assert (i + 1 <= (hi - lo + st - 1) / st)%nat by lia.
      pose proof (Nat.Div0.mul_div_le (hi - lo + st - 1) st). nia. }
    split; [lia|]. replace (lo + i * st - lo)%nat with (i * st)%nat by lia.
    apply Nat.Div0.mod_mul.
  - intros [Hk Hm]. exists ((k - lo) / st)%nat.
    pose proof (Nat.div_mod_eq (k - lo) st). split; [lia|].
    apply elem_of_seq. split; [lia|]. simpl.
    apply Nat.Div0.div_lt_upper_bound.
    pose proof (Nat.div_mod_eq (hi - lo + st - 1) st).
    pose proof (Nat.mod_upper_bound (hi - lo + st - 1) st). nia.
Qed.

(** ** Loops *)

(** A loop over [l] whose body can fault. *)
Fixpoint mfold {A B} (f : B -> A -> option A) (l : list B) (a : A) : option A :=
  match l with
  | [] => Some a
  | b :: l => a ← f b a; mfold f l a
  end.

Lemma bind_Some {A B} (f : A -> option B) x : Some x ≫= f = f x.
Proof. reflexivity. Qed.

Lemma mfold_app {A B} (f : B -> A -> option A) l1 l2 a :
  mfold f (l1 ++ l2) a = mfold f l1 a ≫= mfold f l2.
Proof. revert a. induction l1 as [|b l1 IH]; intros a; simpl; [done|]. destruct (f b a); simpl; [apply IH|done]. Qed.

(** The loop rule: an invariant on the elements done so far. *)
Lemma mfold_rule {A B} (f : B -> A -> option A) (I : list B -> A -> Prop) l a :
  I [] a ->
  (forall l1 b l2 a, l = l1 ++ b :: l2 -> I l1 a -> exists a', f b a = Some a' /\ I (l1 ++ [b]) a') ->
  exists a', mfold f l a = Some a' /\ I l a'.
Proof.
  intros H0 Hs. assert (forall l1 l2 a, l = l1 ++ l2 -> I l1 a -> exists a', mfold f l2 a = Some a' /\ I l a') as H.
  { intros l1 l2. revert l1. induction l2 as [|b l2 IH]; intros l1 a1 El Hi.
    - exists a1. rewrite app_nil_r in El. by subst.
    - destruct (Hs l1 b l2 a1 El Hi) as (a2 & E & Hi2). simpl. rewrite E. simpl.
      apply (IH (l1 ++ [b])); [|done]. by rewrite <- app_assoc. }
  by apply (H [] l).
Qed.

(** The same for a loop over [lo, lo + n). *)
Lemma mfold_seq_rule {A} (f : nat -> A -> option A) (I : nat -> A -> Prop) lo n a :
  I lo a ->
  (forall i a, (lo <= i < lo + n)%nat -> I i a -> exists a', f i a = Some a' /\ I (S i) a') ->
  exists a', mfold f (seq lo n) a = Some a' /\ I (lo + n)%nat a'.
Proof.
  revert lo a. induction n as [|n IH]; intros lo a H0 Hs.
  - exists a. by rewrite Nat.add_0_r.
  - destruct (Hs lo a) as (a' & E & Hi); [lia|done|]. simpl. rewrite E. simpl.
    rewrite Nat.add_succ_r. apply (IH (S lo)); [done|]. intros i b Hb. apply Hs. lia.
Qed.

Lemma mfold_ext {A B} (f g : B -> A -> option A) l a :
  (forall b a, b ∈ l -> f b a = g b a) -> mfold f l a = mfold g l a.
Proof.
  revert a. induction l as [|b l IH]; intros a H; simpl; [done|].
  rewrite (H b a) by (by left). destruct (g b a); simpl; [|done]. apply IH. intros. apply H. by right.
Qed.

(** A pure body. *)
Lemma mfold_pure {A B} (f : B -> A -> A) l a : mfold (fun b a => Some (f b a)) l a = Some (foldl (fun a b => f b a) a l).
Proof. revert a. induction l as [|b l IH]; intros a; simpl; [done|]. by rewrite IH. Qed.

(** The indices of [for (; i + k <= n; i += k)]. *)
Definition blocks_of (k n : nat) : list nat := (fun b => b * k)%nat <$> seq 0 (n / k).

(** An unrolled loop: blocks of [k] indices, then the rest one by one. *)
Definition unrolled (k n : nat) : list nat :=
  mjoin ((fun i => seq i k) <$> blocks_of k n) ++ seq (n / k * k) (n mod k).

Lemma blocks_seq k m : mjoin ((fun i => seq i k) <$> ((fun b => b * k)%nat <$> seq 0 m)) = seq 0 (m * k).
Proof.
  induction m as [|m IH]; [done|]. rewrite seq_S, !fmap_app, join_app, IH. cbn [fmap list_fmap mjoin list_join Nat.add].
  rewrite app_nil_r, <- seq_app. f_equal. lia.
Qed.

Lemma unrolled_seq k n : k <> 0%nat -> unrolled k n = seq 0 n.
Proof.
  intros Hk. unfold unrolled, blocks_of. rewrite blocks_seq.
  pose proof (seq_app (n / k * k) (n mod k) 0) as H. cbn [Nat.add] in H. rewrite <- H.
  f_equal. pose proof (Nat.div_mod_eq n k). lia.
Qed.

(** A loop over blocks of [k] whose body does the [k] steps. *)
Lemma mfold_blocks {A} (f : nat -> A -> option A) k n a :
  k <> 0%nat ->
  mfold (fun i a => mfold f (seq i k) a) (blocks_of k n) a ≫= mfold f (seq (n / k * k) (n mod k)) =
  mfold f (seq 0 n) a.
Proof.
  intros Hk. rewrite <- (unrolled_seq k n) by done. unfold unrolled. rewrite mfold_app. f_equal.
  generalize (blocks_of k n). intros l. revert a. induction l as [|b l IH]; intros a; [done|].
  cbn [fmap list_fmap mjoin list_join mfold]. rewrite mfold_app. by destruct (mfold f (seq b k) a); cbn.
Qed.
