(* ===== verification/Planes.v ===== *)
(** * Bit-planes: words as 64 lanes

    A bit-plane is a word whose bit [r] belongs to row [r] of a block of 64
    rows; a column is a list of planes, plane [b] holding bit [b] of the 64
    values.  This file gives the correspondence between planes and row values,
    the one-lane laws of the ripple adder and of the ripple comparator that the
    kernels use, and the counting laws of the aggregators. *)

From S2P Require Import Prelude.

(** [mask64 f] is the word whose bit [i] is [f i]. *)
Definition mask64 (f : nat -> bool) : Z := zsum 64 (fun i => Z.b2z (f i) * 2 ^ Z.of_nat i).

Lemma mask64_unfold f : mask64 f = zsum 64 (fun i => Z.b2z (f i) * 2 ^ Z.of_nat i).
Proof. reflexivity. Qed.

(** The value row [r] has in a column of planes. *)
Definition row_value (planes : nat -> Z) (r : nat) : Z :=
  mask64 (fun b => Z.testbit (planes b) (Z.of_nat r)).

(** The column whose rows are the words [A]: plane [b], bit [r] is bit [b] of row [r]. *)
Definition plane_of (rows : nat -> Z) (b : nat) : Z :=
  mask64 (fun r => Z.testbit (rows r) (Z.of_nat b)).

Lemma zsum_bits_bound n f : 0 <= zsum n (fun i => Z.b2z (f i) * 2 ^ Z.of_nat i) < 2 ^ Z.of_nat n.
Proof.
  induction n as [|n IH]; simpl zsum; [done|].
  rewrite Nat2Z.inj_succ, Z.pow_succ_r by lia. destruct (f n); simpl Z.b2z; lia.
Qed.

Lemma add_high_bit x b n i :
  0 <= n -> 0 <= x < 2 ^ n -> 0 <= i <= n ->
  Z.testbit (x + Z.b2z b * 2 ^ n) i = if i =? n then b else Z.testbit x i.
Proof.
  intros Hn Hx Hi. destruct (Z.eqb_spec i n) as [->|Hne].
  - rewrite Z.testbit_odd, Z.shiftr_div_pow2, Z.div_add, Z.div_small, Z.add_0_l by lia.
    by destruct b.
  - rewrite <- (Z.mod_pow2_bits_low _ n i), Z.mod_add, Z.mod_small by lia. done.
Qed.

Lemma zsum_bits n f i :
  (i < n)%nat -> Z.testbit (zsum n (fun i => Z.b2z (f i) * 2 ^ Z.of_nat i)) (Z.of_nat i) = f i.
Proof.
  induction n as [|n IH]; intros Hi; [lia|]. simpl zsum.
  rewrite add_high_bit by (try apply zsum_bits_bound; lia).
  destruct (Z.eqb_spec (Z.of_nat i) (Z.of_nat n)).
  - f_equal. lia.
  - apply IH. lia.
Qed.

Lemma mask64_u64 f : u64 (mask64 f).
Proof. unfold u64. rewrite mask64_unfold. apply (zsum_bits_bound 64). Qed.
#[export] Hint Resolve mask64_u64 : u64.

Lemma mask64_bit f i : (i < 64)%nat -> Z.testbit (mask64 f) (Z.of_nat i) = f i.
Proof. intros. rewrite mask64_unfold. by apply zsum_bits. Qed.

Lemma mask64_ext f g : (forall i, (i < 64)%nat -> f i = g i) -> mask64 f = mask64 g.
Proof. intros H. rewrite !mask64_unfold. apply zsum_ext. intros. by rewrite H. Qed.

(** Two words are equal when their 64 bits are. *)
Lemma u64_eq_nbits x y :
  u64 x -> u64 y ->
  (forall i, (i < 64)%nat -> Z.testbit x (Z.of_nat i) = Z.testbit y (Z.of_nat i)) -> x = y.
Proof.
  intros Hx Hy H. apply u64_eq_bits; try done. intros i Hi.
  specialize (H (Z.to_nat i) ltac:(lia)). by rewrite Z2Nat.id in H by lia.
Qed.

Lemma mask64_eta x : u64 x -> mask64 (fun i => Z.testbit x (Z.of_nat i)) = x.
Proof. intros. apply u64_eq_nbits; eauto with u64. intros. by rewrite mask64_bit. Qed.

Lemma row_value_u64 planes r : u64 (row_value planes r).
Proof. apply mask64_u64. Qed.
#[export] Hint Resolve row_value_u64 : u64.

Lemma plane_of_u64 rows b : u64 (plane_of rows b).
Proof. apply mask64_u64. Qed.
#[export] Hint Resolve plane_of_u64 : u64.

Lemma row_value_bit planes r b :
  (b < 64)%nat -> Z.testbit (row_value planes r) (Z.of_nat b) = Z.testbit (planes b) (Z.of_nat r).
Proof. apply mask64_bit. Qed.

Lemma plane_of_bit rows b r :
  (r < 64)%nat -> Z.testbit (plane_of rows b) (Z.of_nat r) = Z.testbit (rows r) (Z.of_nat b).
Proof. apply mask64_bit. Qed.

(** Slicing then reading a row back gives the row. *)
Lemma row_value_plane_of rows r :
  (r < 64)%nat -> u64 (rows r) -> row_value (plane_of rows) r = rows r.
Proof.
  intros Hr Hu. rewrite <- (mask64_eta (rows r)) by done.
  apply mask64_ext. intros b Hb. by rewrite plane_of_bit.
Qed.

Lemma row_value_ext p q r :
  (forall b, (b < 64)%nat -> p b = q b) -> row_value p r = row_value q r.
Proof. intros H. apply mask64_ext. intros. by rewrite H. Qed.

(** A word is the sum of its bits. *)
Lemma u64_sum_bits x :
  u64 x -> zsum 64 (fun b => bitz x (Z.of_nat b) * 2 ^ Z.of_nat b) = x.
Proof.
  intros H. transitivity (mask64 (fun i => Z.testbit x (Z.of_nat i))).
  - rewrite mask64_unfold. by apply zsum_ext.
  - by apply mask64_eta.
Qed.

(** ** Counting rows *)

(** The population count of a mask is the number of rows it selects. *)
Lemma popcount_mask64 f : popcount64 (mask64 f) = zsum 64 (fun r => Z.b2z (f r)).
Proof. unfold popcount64. apply zsum_ext. intros. unfold bitz. by rewrite mask64_bit. Qed.

(** [rows_mask]: the [n] low lanes, as the aggregators build it. *)
Definition rows_mask (n : nat) : Z :=
  if (n =? 64)%nat then ones64 else wrap64 (Z.shiftl 1 (Z.of_nat n)) - 1.

Lemma rows_mask_bit n r :
  (n <= 64)%nat -> (r < 64)%nat -> Z.testbit (rows_mask n) (Z.of_nat r) = (r <? n)%nat.
Proof.
  intros Hn Hr. unfold rows_mask. destruct (Nat.eqb_spec n 64) as [->|Hne].
  - rewrite ones64_bits by lia. rewrite (proj2 (Nat.ltb_lt _ _)) by done. by apply Z.ltb_lt; lia.
  - rewrite wrap64_small.
    2:{ rewrite Z.shiftl_1_l. unfold u64. pose proof (Z.pow_lt_mono_r 2 (Z.of_nat n) 64). lia. }
    rewrite Z.shiftl_1_l.
    replace (2 ^ Z.of_nat n - 1) with (Z.ones (Z.of_nat n)) by (rewrite Z.ones_equiv; lia).
    destruct (Nat.ltb_spec r n).
    + apply Z.ones_spec_low. lia.
    + apply Z.ones_spec_high. lia.
Qed.

Lemma rows_mask_u64 n : (n <= 64)%nat -> u64 (rows_mask n).
Proof.
  intros Hn. unfold rows_mask. destruct (Nat.eqb_spec n 64); [eauto with u64|].
  rewrite Z.shiftl_1_l, wrap64_small.
  - unfold u64. pose proof (Z.pow_lt_mono_r 2 (Z.of_nat n) 64 ltac:(lia) ltac:(lia) ltac:(lia)).
    pose proof (Z.pow_pos_nonneg 2 (Z.of_nat n)). lia.
  - unfold u64. pose proof (Z.pow_lt_mono_r 2 (Z.of_nat n) 64 ltac:(lia) ltac:(lia) ltac:(lia)).
    pose proof (Z.pow_pos_nonneg 2 (Z.of_nat n)). lia.
Qed.

(** Counting under [rows_mask n] counts the first [n] rows only. *)
Lemma popcount_rows_mask x n :
  (n <= 64)%nat ->
  popcount64 (Z.land x (rows_mask n)) = zsum n (fun r => bitz x (Z.of_nat r)).
Proof.
  intros Hn. unfold popcount64.
  rewrite (zsum_cut 64 n) by (try done; intros i Hi; unfold bitz;
    rewrite Z.land_spec, rows_mask_bit by lia;
    rewrite (proj2 (Nat.ltb_ge i n)) by lia; by rewrite andb_false_r).
  apply zsum_ext. intros i Hi. unfold bitz.
  rewrite Z.land_spec, rows_mask_bit by lia.
  rewrite (proj2 (Nat.ltb_lt i n)) by lia. by rewrite andb_true_r.
Qed.

(** Weighting the population counts of the planes by the powers of two sums the
    row values: the aggregation of a BITPLANE result. *)
Lemma plane_popcount_sum planes n :
  (n <= 64)%nat ->
  zsum 64 (fun b => popcount64 (Z.land (planes b) (rows_mask n)) * 2 ^ Z.of_nat b)
  = zsum n (fun r => row_value planes r).
Proof.
  intros Hn.
  rewrite (zsum_ext 64 _ (fun b => zsum n (fun r => bitz (planes b) (Z.of_nat r) * 2 ^ Z.of_nat b))).
  2:{ intros b Hb. by rewrite popcount_rows_mask, <- zsum_mul_r. }
  rewrite zsum_swap. apply zsum_ext. intros r Hr.
  unfold row_value. rewrite mask64_unfold. by apply zsum_ext.
Qed.

(** ** The ripple adder, one lane

    [carry_bit a b c k] is the carry into bit [k] of [a + b + c]. *)

Definition carry_bit (a b : Z) (c : bool) (k : Z) : bool :=
  2 ^ k <=? a mod 2 ^ k + b mod 2 ^ k + Z.b2z c.

Lemma mod_pow2_S a k : 0 <= k -> a mod 2 ^ (k + 1) = a mod 2 ^ k + 2 ^ k * bitz a k.
Proof.
  intros Hk. unfold bitz. rewrite Z.pow_add_r, Z.pow_1_r by lia.
  rewrite Z.rem_mul_r by (try lia; apply Z.pow_nonzero; lia).
  by rewrite <- Z.testbit_spec'.
Qed.

Lemma carry_bit_0 a b c : carry_bit a b c 0 = c.
Proof. unfold carry_bit. rewrite !Z.mod_1_r. by destruct c. Qed.

Lemma carry_bit_S a b c k :
  0 <= k ->
  carry_bit a b c (k + 1) =
    (Z.testbit a k && Z.testbit b k) || (xorb (Z.testbit a k) (Z.testbit b k) && carry_bit a b c k).
Proof.
  intros Hk. unfold carry_bit. rewrite !mod_pow2_S, Z.pow_add_r, Z.pow_1_r by lia.
  pose proof (Z.mod_pos_bound a (2 ^ k) ltac:(apply Z.pow_pos_nonneg; lia)).
  pose proof (Z.mod_pos_bound b (2 ^ k) ltac:(apply Z.pow_pos_nonneg; lia)).
  assert (0 <= Z.b2z c <= 1) by (destruct c; simpl; lia).
  unfold bitz.
  destruct (Z.testbit a k), (Z.testbit b k); simpl;
    match goal with |- context [?x <=? ?y] => destruct (Z.leb_spec x y) end;
    repeat match goal with |- context [?x <=? ?y] => destruct (Z.leb_spec x y) end; simpl; try done; lia.
Qed.

Lemma sum_bit a b c k :
  0 <= k ->
  Z.testbit (a + b + Z.b2z c) k = xorb (xorb (Z.testbit a k) (Z.testbit b k)) (carry_bit a b c k).
Proof.
  intros Hk.
  assert (0 < 2 ^ k) as Hp by (apply Z.pow_pos_nonneg; lia).
  pose proof (Z.mod_pos_bound a (2 ^ k) Hp). pose proof (Z.mod_pos_bound b (2 ^ k) Hp).
  rewrite <- (Z.mod_pow2_bits_low (a + b + Z.b2z c) (k + 1)) by lia.
  assert (0 < 2 ^ (k + 1)) as Hp1 by (apply Z.pow_pos_nonneg; lia).
  rewrite <- (Z.add_mod_idemp_l (a + b)), (Z.add_mod a b), Z.add_mod_idemp_l by lia.
  rewrite Z.mod_pow2_bits_low, (mod_pow2_S a), (mod_pow2_S b) by lia.
  assert (0 <= Z.b2z c <= 1) by (destruct c; simpl; lia).
  set (x := a mod 2 ^ k) in *. set (y := b mod 2 ^ k) in *.
  replace (x + 2 ^ k * bitz a k + (y + 2 ^ k * bitz b k) + Z.b2z c)
    with ((x + y + Z.b2z c) + (bitz a k + bitz b k) * 2 ^ k) by lia.
  rewrite Z.testbit_odd, Z.shiftr_div_pow2, Z.div_add by lia.
  unfold carry_bit, bitz. fold x. fold y.
  destruct (Z.leb_spec (2 ^ k) (x + y + Z.b2z c)) as [Hc|Hc].
  - replace ((x + y + Z.b2z c) / 2 ^ k) with 1 by (apply Z.div_unique with (x + y + Z.b2z c - 2 ^ k); lia).
    by destruct (Z.testbit a k), (Z.testbit b k).
  - rewrite Z.div_small by lia. by destruct (Z.testbit a k), (Z.testbit b k).
Qed.

(** ** The ripple comparator, one lane

    After the bits down to [k] have been read, [gt_from] and [eq_from] are the
    state of the comparator. *)

Definition gt_from (a b k : Z) : bool := b / 2 ^ k <? a / 2 ^ k.
Definition eq_from (a b k : Z) : bool := a / 2 ^ k =? b / 2 ^ k.

Lemma div_pow2_S a k : 0 <= k -> a / 2 ^ k = 2 * (a / 2 ^ (k + 1)) + bitz a k.
Proof.
  intros Hk. unfold bitz. rewrite Z.pow_add_r, Z.pow_1_r by lia.
  rewrite <- Z.div_div by (try lia; apply Z.pow_nonzero; lia).
  rewrite Z.testbit_spec' by done. pose proof (Z.div_mod (a / 2 ^ k) 2). lia.
Qed.

Lemma gt_from_step a b k :
  0 <= k ->
  gt_from a b k = gt_from a b (k + 1) || (Z.testbit a k && negb (Z.testbit b k) && eq_from a b (k + 1)).
Proof.
  intros Hk. unfold gt_from, eq_from. rewrite (div_pow2_S a k), (div_pow2_S b k) by done.
  unfold bitz. generalize (a / 2 ^ (k + 1)) (b / 2 ^ (k + 1)). intros x y.
  destruct (Z.testbit a k), (Z.testbit b k); simpl Z.b2z; simpl negb; simpl andb;
    destruct (Z.ltb_spec y x), (Z.eqb_spec x y); simpl; (apply Z.ltb_lt || apply Z.ltb_ge); lia.
Qed.

Lemma eq_from_step a b k :
  0 <= k ->
  eq_from a b k = eq_from a b (k + 1) && negb (xorb (Z.testbit a k) (Z.testbit b k)).
Proof.
  intros Hk. unfold eq_from. rewrite (div_pow2_S a k), (div_pow2_S b k) by done.
  unfold bitz. generalize (a / 2 ^ (k + 1)) (b / 2 ^ (k + 1)). intros x y.
  destruct (Z.testbit a k), (Z.testbit b k); simpl Z.b2z; simpl;
    destruct (Z.eqb_spec x y); simpl; (apply Z.eqb_eq || apply Z.eqb_neq); lia.
Qed.

Lemma gt_from_64 a b : u64 a -> u64 b -> gt_from a b 64 = false.
Proof. intros. unfold gt_from. rewrite !Z.div_small by done. done. Qed.

Lemma eq_from_64 a b : u64 a -> u64 b -> eq_from a b 64 = true.
Proof. intros. unfold eq_from. rewrite !Z.div_small by done. done. Qed.

Lemma gt_from_0 a b : gt_from a b 0 = (b <? a).
Proof. unfold gt_from. by rewrite !Z.div_1_r. Qed.

Lemma eq_from_0 a b : eq_from a b 0 = (a =? b).
Proof. unfold eq_from. by rewrite !Z.div_1_r. Qed.

(** ** Columns, all lanes at once

    [col_gt A B k] and [col_eq A B k] are the comparator's masks once the planes
    from 63 down to [k] of the columns [A] and [B] have been read; [col_carry A B
    c k] is the adder's carry plane into bit [k], when the
    carry-in of lane [r] is [c r].  One step of the gates goes
    from one bit to the next in all 64 lanes. *)

Definition col_gt (A B : nat -> Z) (k : nat) : Z :=
  mask64 (fun r => gt_from (row_value A r) (row_value B r) (Z.of_nat k)).
Definition col_eq (A B : nat -> Z) (k : nat) : Z :=
  mask64 (fun r => eq_from (row_value A r) (row_value B r) (Z.of_nat k)).
Definition col_carry (A B : nat -> Z) (c : nat -> bool) (k : nat) : Z :=
  mask64 (fun r => carry_bit (row_value A r) (row_value B r) (c r) (Z.of_nat k)).
Definition col_add (A B : nat -> Z) (c : nat -> bool) (k : nat) : Z :=
  plane_of (fun r => wrap64 (row_value A r + row_value B r + Z.b2z (c r))) k.

Lemma col_gt_u64 A B k : u64 (col_gt A B k).
Proof. apply mask64_u64. Qed.
Lemma col_eq_u64 A B k : u64 (col_eq A B k).
Proof. apply mask64_u64. Qed.
Lemma col_carry_u64 A B c k : u64 (col_carry A B c k).
Proof. apply mask64_u64. Qed.
Lemma col_add_u64 A B c k : u64 (col_add A B c k).
Proof. apply mask64_u64. Qed.
#[export] Hint Resolve col_gt_u64 col_eq_u64 col_carry_u64 col_add_u64 : u64.

(** Lane [r] of the masks. *)
Lemma col_gt_bit A B k r : (r < 64)%nat ->
  Z.testbit (col_gt A B k) (Z.of_nat r) = gt_from (row_value A r) (row_value B r) (Z.of_nat k).
Proof. apply mask64_bit. Qed.
Lemma col_eq_bit A B k r : (r < 64)%nat ->
  Z.testbit (col_eq A B k) (Z.of_nat r) = eq_from (row_value A r) (row_value B r) (Z.of_nat k).
Proof. apply mask64_bit. Qed.
Lemma col_carry_bit A B c k r : (r < 64)%nat ->
  Z.testbit (col_carry A B c k) (Z.of_nat r) = carry_bit (row_value A r) (row_value B r) (c r) (Z.of_nat k).
Proof. apply mask64_bit. Qed.

Lemma col_gt_step A B k :
  (k < 64)%nat -> u64 (A k) -> u64 (B k) ->
  Z.lor (col_gt A B (S k)) (Z.land (col_eq A B (S k)) (Z.ldiff (A k) (B k))) = col_gt A B k.
Proof.
  intros Hk Ha Hb. apply u64_eq_nbits; [eauto with u64 | apply col_gt_u64 |].
  intros r Hr. rewrite Z.lor_spec, Z.land_spec, Z.ldiff_spec, !col_gt_bit, col_eq_bit by done.
  rewrite (gt_from_step _ _ (Z.of_nat k)), !row_value_bit, Nat2Z.inj_succ by (done || lia).
  f_equal. apply andb_comm.
Qed.

Lemma col_eq_step A B k :
  (k < 64)%nat -> u64 (A k) -> u64 (B k) ->
  Z.ldiff (col_eq A B (S k)) (Z.lxor (A k) (B k)) = col_eq A B k.
Proof.
  intros Hk Ha Hb. apply u64_eq_nbits; [eauto with u64 | apply col_eq_u64 |].
  intros r Hr. rewrite Z.ldiff_spec, Z.lxor_spec, !col_eq_bit by done.
  by rewrite (eq_from_step _ _ (Z.of_nat k)), !row_value_bit, Nat2Z.inj_succ by (done || lia).
Qed.

Lemma col_add_bit A B c k r : (r < 64)%nat -> (k < 64)%nat ->
  Z.testbit (col_add A B c k) (Z.of_nat r) =
  xorb (xorb (Z.testbit (A k) (Z.of_nat r)) (Z.testbit (B k) (Z.of_nat r)))
       (carry_bit (row_value A r) (row_value B r) (c r) (Z.of_nat k)).
Proof.
  intros Hr Hk. unfold col_add. rewrite plane_of_bit, wrap64_bits by (done || lia).
  by rewrite sum_bit, !row_value_bit by (done || lia).
Qed.

Lemma col_add_step A B c k :
  (k < 64)%nat -> u64 (A k) -> u64 (B k) ->
  Z.lxor (Z.lxor (A k) (B k)) (col_carry A B c k) = col_add A B c k.
Proof.
  intros Hk Ha Hb. apply u64_eq_nbits; [eauto with u64 | apply col_add_u64 |].
  intros r Hr. by rewrite !Z.lxor_spec, col_carry_bit, col_add_bit.
Qed.

Lemma col_carry_step A B c k :
  (k < 64)%nat -> u64 (A k) -> u64 (B k) ->
  Z.lor (Z.land (A k) (B k)) (Z.land (Z.lxor (A k) (B k)) (col_carry A B c k)) = col_carry A B c (S k).
Proof.
  intros Hk Ha Hb. apply u64_eq_nbits; [eauto with u64 | apply col_carry_u64 |].
  intros r Hr. rewrite Z.lor_spec, !Z.land_spec, Z.lxor_spec, !col_carry_bit by done.
  rewrite Nat2Z.inj_succ. unfold Z.succ. by rewrite carry_bit_S, !row_value_bit by (done || lia).
Qed.

Lemma col_gt_64 A B : col_gt A B 64 = 0.
Proof.
  apply u64_eq_nbits; [apply col_gt_u64 | apply u64_0 |].
  intros r Hr. rewrite col_gt_bit, Z.bits_0 by done. by apply gt_from_64; apply row_value_u64.
Qed.

Lemma col_eq_64 A B : col_eq A B 64 = ones64.
Proof.
  apply u64_eq_nbits; [apply col_eq_u64 | apply u64_ones |].
  intros r Hr. rewrite col_eq_bit, ones64_bits by (done || lia).
  rewrite (proj2 (Z.ltb_lt _ _)) by lia. by apply eq_from_64; apply row_value_u64.
Qed.

Lemma col_carry_0 A B c : col_carry A B c 0 = mask64 c.
Proof. apply mask64_ext. intros r Hr. apply carry_bit_0. Qed.

Lemma mask64_false : mask64 (fun _ => false) = 0.
Proof.
  apply u64_eq_nbits; [apply mask64_u64 | apply u64_0 |].
  intros r Hr. by rewrite mask64_bit, Z.bits_0.
Qed.

Lemma mask64_true : mask64 (fun _ => true) = ones64.
Proof.
  apply u64_eq_nbits; [apply mask64_u64 | apply u64_ones |].
  intros r Hr. rewrite mask64_bit, ones64_bits by (done || lia). symmetry. apply Z.ltb_lt. lia.
Qed.

(** The word 1 selects lane 0 alone. *)
Lemma mask64_lane0 : mask64 (fun r => (r =? 0)%nat) = 1.
Proof.
  apply u64_eq_nbits; [apply mask64_u64 | apply u64_1 |].
  intros [|r] Hr; rewrite mask64_bit by done; [done|].
  change 1 with (2 ^ 0). rewrite Z.pow2_bits_false by lia. done.
Qed.

Lemma col_gt_0 A B : col_gt A B 0 = mask64 (fun r => row_value B r <? row_value A r).
Proof. apply mask64_ext. intros. apply gt_from_0. Qed.

Lemma col_eq_0 A B : col_eq A B 0 = mask64 (fun r => row_value A r =? row_value B r).
Proof. apply mask64_ext. intros. apply eq_from_0. Qed.

(** The complement of every plane. *)
Lemma row_value_lnot B r :
  (r < 64)%nat -> row_value (fun b => lnot64 (B b)) r = ones64 - row_value B r.
Proof.
  intros Hr. assert (row_value (fun b => lnot64 (B b)) r = lnot64 (row_value B r)) as ->.
  { apply u64_eq_nbits; [apply row_value_u64 | apply u64_lnot64, row_value_u64 |].
    intros b Hb. rewrite row_value_bit, !lnot64_bits, row_value_bit by (done || lia). done. }
  generalize (row_value B r) (row_value_u64 B r). intros x Hx. unfold u64 in Hx.
  assert (x + lnot64 x = ones64); [|lia].
  rewrite Z.add_nocarry_lxor.
  - unfold lnot64. by rewrite <- Z.lxor_assoc, Z.lxor_nilpotent, Z.lxor_0_l.
  - apply Z.bits_inj'. intros i Hi. rewrite Z.land_spec, Z.bits_0.
    destruct (Z.lt_ge_cases i 64).
    + rewrite lnot64_bits by lia. apply andb_negb_r.
    + by rewrite (u64_bits_high x i).
Qed.

#[global] Opaque mask64 popcount64.
