(* ===== verification/BitSlicer.v ===== *)
(** * The bit-slicer (src/compute/bit_slicer.cpp, src/compute/bit_slicer_fast.cpp)

    [Slice_impl] transposes a 64x64 bit matrix in place with six stages of
    masked swaps.  Stages 5 to 1 are written with Highway vectors: a vector of
    [Lanes(d)] words is loaded, combined word by word and stored back.  The
    number of lanes of [CappedTag<uint64_t, cap>] is decided by the target the
    dynamic dispatch picks, so it is a parameter of the model: class
    [HwyTarget] carries it with the documented facts used here (positive, and a
    divisor of the cap).

    The theorems show that every target computes the same exact transpose:
    plane [i], bit [r] of the output is bit [i] of word [r] of the input. *)

From S2P Require Import Prelude Planes.

(** [hn::CappedTag<uint64_t, cap>]: at most [cap] lanes, a power of two, so a
    divisor of the caps the code uses (which are powers of two). *)
Class HwyTarget := {
  Lanes : nat -> nat;
  Lanes_pos : forall cap, (0 < cap)%nat -> (0 < Lanes cap)%nat;
  Lanes_divide : forall cap, cap ∈ [2; 4; 8; 16; 32]%nat -> (Lanes cap | cap)%nat
}.

(** ** Vector operations *)

(** [hn::Load(d, A + k)] with [N] lanes. *)
Definition vload (A : list Z) (k N : nat) : list Z := take N (drop k A).

(** [hn::Store(v, d, A + k)]. *)
Definition vstore (A : list Z) (k : nat) (v : list Z) : list Z :=
  take k A ++ v ++ drop (k + length v) A.

(** [hn::ShiftLeft<j>] on 64-bit lanes. *)
Definition shl64 (x : Z) (j : nat) : Z := wrap64 (Z.shiftl x (Z.of_nat j)).
Definition shr64 (x : Z) (j : nat) : Z := Z.shiftr x (Z.of_nat j).

(** One iteration of the loop body shared by the vector stages, at word [k]. *)
Definition vec_swap (j : nat) (mask : Z) (N : nat) (A : list Z) (k : nat) : list Z :=
  let va := vload A k N in
  let vb := vload A (k + j) N in
  let vt := zip_with (fun a b => Z.land (Z.lxor (shr64 a j) b) mask) va vb in
  let A := vstore A (k + j) (zip_with Z.lxor vb vt) in
  vstore A k (zip_with Z.lxor va ((fun t => shl64 t j) <$> vt)).

(** ** The stages, as the code writes them *)

Section Stages.
Context {T : HwyTarget}.

Definition Stage5 (A : list Z) : list Z :=
  let N := Lanes 32 in
  foldl (vec_swap 32 0x00000000FFFFFFFF N) A (steps 0 32 N).

Definition Stage4 (A : list Z) : list Z :=
  let N := Lanes 16 in
  foldl (fun A block => foldl (vec_swap 16 0x0000FFFF0000FFFF N) A (steps block (block + 16) N))
    A (steps 0 64 32).

Definition Stage3 (A : list Z) : list Z :=
  let N := Lanes 8 in
  foldl (fun A block => foldl (vec_swap 8 0x00FF00FF00FF00FF N) A (steps block (block + 8) N))
    A (steps 0 64 16).

Definition Stage2 (A : list Z) : list Z :=
  let N := Lanes 4 in
  foldl (fun A block => foldl (vec_swap 4 0x0F0F0F0F0F0F0F0F N) A (steps block (block + 4) N))
    A (steps 0 64 8).

Definition Stage1 (A : list Z) : list Z :=
  let N := Lanes 2 in
  foldl (fun A block => foldl (vec_swap 2 0x3333333333333333 N) A (steps block (block + 2) N))
    A (steps 0 64 4).

Definition kMask0 : Z := 0x5555555555555555.

(** The body of the scalar stage: two read-modify-writes per pair of words. *)
Definition scalar_swap (A : list Z) (i : nat) : list Z :=
  let t := Z.land (Z.lxor (shr64 (A !!! i) 1) (A !!! (i + 1)%nat)) kMask0 in
  let A := <[(i + 1)%nat := Z.lxor (A !!! (i + 1)%nat) t]> A in
  <[i := Z.lxor (A !!! i) (shl64 t 1)]> A.

Definition Stage0 (A : list Z) : list Z := foldl scalar_swap A (steps 0 64 2).

Definition Transpose64x64 (A : list Z) : list Z :=
  Stage0 (Stage1 (Stage2 (Stage3 (Stage4 (Stage5 A))))).

End Stages.

(** ** What one pass of swaps does

    [pass j mask S A] swaps, for every word index [i] selected by [S], the
    masked bits of words [i] and [i + j]. *)

Definition swap_t (j : nat) (mask a b : Z) : Z := Z.land (Z.lxor (shr64 a j) b) mask.
Definition swap_lo (j : nat) (mask a b : Z) : Z := Z.lxor a (shl64 (swap_t j mask a b) j).
Definition swap_hi (j : nat) (mask a b : Z) : Z := Z.lxor b (swap_t j mask a b).

Definition pass (j : nat) (mask : Z) (S : nat -> bool) (A : list Z) : list Z :=
  arr 64 (fun i =>
    if S i then swap_lo j mask (A !!! i) (A !!! (i + j)%nat)
    else if (j <=? i)%nat && S (i - j)%nat
         then swap_hi j mask (A !!! (i - j)%nat) (A !!! i)
         else A !!! i).

(** The word indices whose bit of weight [j] is clear. *)
Definition lower (j i : nat) : bool := Nat.even (i / j).

Definition selects_lower (j : nat) (S : nat -> bool) : Prop :=
  forall i, S i = true -> (i + j < 64)%nat /\ lower j i = true.

Lemma lower_add j i : (0 < j)%nat -> lower j (i + j) = negb (lower j i).
Proof.
  intros. unfold lower. replace (i + j)%nat with (i + 1 * j)%nat by lia.
  rewrite Nat.div_add by lia. rewrite Nat.add_1_r, Nat.even_succ.
  by rewrite <- Nat.negb_even.
Qed.

Lemma lower_sub j i : (0 < j)%nat -> (j <= i)%nat -> lower j (i - j) = negb (lower j i).
Proof.
  intros. replace i with ((i - j) + j)%nat at 2 by lia.
  rewrite lower_add by done. by rewrite negb_involutive.
Qed.

Lemma pass_ext j mask S1 S2 A :
  (forall i, (i < 64)%nat -> S1 i = S2 i) -> pass j mask S1 A = pass j mask S2 A.
Proof.
  intros H. apply arr_ext. intros i Hi. rewrite <- (H i Hi).
  destruct (S1 i); [done|]. destruct (Nat.leb_spec j i); simpl; [|done].
  by rewrite <- (H (i - j)%nat) by lia.
Qed.

Lemma pass_none j mask A : length A = 64%nat -> pass j mask (fun _ => false) A = A.
Proof.
  intros. rewrite <- (arr_eta 64 A) at 2 by done.
  apply arr_ext. intros. by rewrite andb_false_r.
Qed.

Lemma length_pass j mask S A : length (pass j mask S A) = 64%nat.
Proof. apply length_arr. Qed.

Lemma pass_total j mask S A i :
  (i < 64)%nat ->
  pass j mask S A !!! i =
    if S i then swap_lo j mask (A !!! i) (A !!! (i + j)%nat)
    else if (j <=? i)%nat && S (i - j)%nat
         then swap_hi j mask (A !!! (i - j)%nat) (A !!! i)
         else A !!! i.
Proof. intros. unfold pass. by rewrite arr_total. Qed.

(** Passes over disjoint sets of lower words commute into one pass. *)
Lemma pass_pass j mask S1 S2 A :
  (0 < j)%nat -> selects_lower j S1 -> selects_lower j S2 ->
  (forall i, S1 i = true -> S2 i = true -> False) ->
  pass j mask S2 (pass j mask S1 A) = pass j mask (fun i => S1 i || S2 i) A.
Proof.
  intros Hj H1 H2 Hd. unfold pass at 1 3. apply arr_ext. intros i Hi.
  assert (Hup : forall k, (j <= k)%nat -> lower j k = true -> S1 (k - j)%nat = false /\ S2 (k - j)%nat = false).
  { intros k Hk Hl. pose proof (lower_sub j k Hj Hk) as Hs. rewrite Hl in Hs. simpl in Hs.
    split; [destruct (S1 (k - j)%nat) eqn:E; [apply H1 in E|] | destruct (S2 (k - j)%nat) eqn:E; [apply H2 in E|]];
      naive_solver congruence. }
  assert (Hnot : forall k, lower j k = false -> S1 k = false /\ S2 k = false).
  { intros k Hl. split; [destruct (S1 k) eqn:E; [apply H1 in E|] | destruct (S2 k) eqn:E; [apply H2 in E|]];
      naive_solver congruence. }
  destruct (S2 i) eqn:E2.
  - destruct (H2 i E2) as [Hb Hl].
    assert (S1 i = false) as E1 by (destruct (S1 i) eqn:?; [exfalso; eauto|done]).
    rewrite !pass_total by lia. rewrite E1. simpl.
    replace (i + j - j)%nat with i by lia. rewrite E1, !andb_false_r.
    destruct (Hnot (i + j)%nat) as [-> _]; [rewrite lower_add, Hl by done; done|].
    destruct (Nat.leb_spec j i); simpl; [|done].
    destruct (Hup i) as [-> _]; done.
  - rewrite orb_false_r. destruct (Nat.leb_spec j i) as [Hji|Hji]; simpl.
    + destruct (S2 (i - j)%nat) eqn:E2'.
      * destruct (H2 _ E2') as [_ Hl].
        assert (S1 (i - j)%nat = false) as E1 by (destruct (S1 (i - j)%nat) eqn:?; [exfalso; eauto|done]).
        assert (lower j i = false) as Hli
          by (rewrite lower_sub in Hl by done; by destruct (lower j i)).
        rewrite !pass_total by lia. rewrite E1.
        destruct (Hnot i Hli) as [-> _].
        rewrite (proj2 (Nat.leb_le j i)) by done. simpl. rewrite ?E1. simpl.
        destruct (Nat.leb_spec j (i - j)%nat); simpl; [|done].
        destruct (Hup (i - j)%nat) as [-> _]; done.
      * rewrite pass_total by lia. rewrite orb_false_r.
        by rewrite (proj2 (Nat.leb_le j i)) by done.
    + rewrite pass_total by lia. by rewrite (proj2 (Nat.leb_gt j i)) by done.
Qed.

Definition between (lo n i : nat) : bool := (lo <=? i)%nat && (i <? lo + n)%nat.

Lemma between_true lo n i : between lo n i = true <-> (lo <= i < lo + n)%nat.
Proof. unfold between. rewrite andb_true_iff, Nat.leb_le, Nat.ltb_lt. lia. Qed.

Lemma vstore_total A k v i :
  (k + length v <= length A)%nat -> (i < length A)%nat ->
  vstore A k v !!! i = if between k (length v) i then v !!! (i - k)%nat else A !!! i.
Proof.
  intros Hk Hi. unfold vstore. rewrite !list_lookup_total_alt.
  destruct (between k (length v) i) eqn:E.
  - apply between_true in E.
    rewrite lookup_app_r by (rewrite length_take; lia).
    rewrite length_take, lookup_app_l by lia. by replace (k `min` length A)%nat with k by lia.
  - apply not_true_iff_false in E. rewrite between_true in E.
    destruct (decide (i < k)%nat).
    + rewrite lookup_app_l by (rewrite length_take; lia). by rewrite lookup_take_lt.
    + rewrite lookup_app_r by (rewrite length_take; lia).
      rewrite length_take, lookup_app_r by lia. rewrite lookup_drop.
      do 2 f_equal. lia.
Qed.

Lemma length_vstore A k v :
  (k + length v <= length A)%nat -> length (vstore A k v) = length A.
Proof. intros. unfold vstore. rewrite !length_app, length_take, length_drop. lia. Qed.

Lemma length_vload A k N : (k + N <= length A)%nat -> length (vload A k N) = N.
Proof. intros. unfold vload. rewrite length_take, length_drop. lia. Qed.

Lemma vload_lookup A k N i :
  (k + N <= length A)%nat -> (i < N)%nat -> vload A k N !! i = Some (A !!! (k + i)%nat).
Proof.
  intros. unfold vload. rewrite lookup_take_lt, lookup_drop by done.
  apply list_lookup_lookup_total_lt. lia.
Qed.

(** One vector iteration is the pass over its [N] lower words, provided the
    vector does not overlap its partner. *)
Lemma vec_swap_pass j mask N A k :
  (0 < N <= j)%nat -> (k + j + N <= 64)%nat -> length A = 64%nat ->
  vec_swap j mask N A k = pass j mask (between k N) A.
Proof.
  intros HN Hk HA. unfold vec_swap.
  set (va := vload A k N). set (vb := vload A (k + j) N).
  assert (length va = N) as Hva by (apply length_vload; lia).
  assert (length vb = N) as Hvb by (apply length_vload; lia).
  set (vt := zip_with _ va vb).
  assert (length vt = N) as Hvt by (subst vt; rewrite length_zip_with; lia).
  assert (forall i, (i < N)%nat ->
    vt !! i = Some (swap_t j mask (A !!! (k + i)%nat) (A !!! (k + j + i)%nat))) as Ht.
  { intros i Hi. subst vt va vb. rewrite lookup_zip_with.
    rewrite !vload_lookup by lia. done. }
  set (vh := zip_with Z.lxor vb vt). set (vl := zip_with Z.lxor va _).
  assert (length vh = N) as Hvh by (subst vh; rewrite length_zip_with; lia).
  assert (length vl = N) as Hvl by (subst vl; rewrite length_zip_with, length_fmap; lia).
  assert (length (vstore A (k + j) vh) = 64%nat) as Hl1 by (rewrite length_vstore; lia).
  apply list_eq_same_length with 64%nat;
    [apply length_pass | rewrite length_vstore; lia |].
  intros i x y Hi Hx Hy.
  apply list_lookup_total_correct in Hx as <-. apply list_lookup_total_correct in Hy as <-.
  rewrite pass_total by done. rewrite vstore_total by lia. rewrite Hvl.
  destruct (between k N i) eqn:E.
  { apply between_true in E. subst vl va. rewrite list_lookup_total_alt, lookup_zip_with.
    rewrite vload_lookup, list_lookup_fmap, Ht by lia. simpl.
    by replace (k + (i - k))%nat with i by lia; replace (k + j + (i - k))%nat with (i + j)%nat by lia. }
  rewrite vstore_total by lia. rewrite Hvh.
  destruct (between (k + j) N i) eqn:E2.
  - apply between_true in E2. rewrite (proj2 (Nat.leb_le j i)) by lia.
    rewrite (proj2 (between_true k N (i - j)%nat)) by lia. simpl.
    subst vh vb. rewrite list_lookup_total_alt, lookup_zip_with, vload_lookup, Ht by lia. simpl.
    by replace (k + j + (i - (k + j)))%nat with i by lia;
       replace (k + (i - (k + j)))%nat with (i - j)%nat by lia.
  - destruct (Nat.leb_spec j i); simpl; [|done].
    destruct (between k N (i - j)) eqn:E3; [|done].
    apply between_true in E3. apply not_true_iff_false in E2. rewrite between_true in E2. lia.
Qed.

(** ** A whole stage is one pass over all the lower words *)

Definition covers (N : nat) (ks : list nat) (i : nat) : bool :=
  existsb (fun k => between k N i) ks.

Lemma covers_true N ks i : covers N ks i = true <-> exists k, k ∈ ks /\ (k <= i < k + N)%nat.
Proof.
  unfold covers. rewrite existsb_exists.
  split; intros (k & Hk & Hb); exists k; rewrite ?between_true in *;
    rewrite ?list_elem_of_In in *; done.
Qed.

(** A list of vector starts inside lower halves, sorted and non-overlapping. *)
Definition starts_ok (j N : nat) (ks : list nat) : Prop :=
  (forall k i, k ∈ ks -> (k <= i < k + N)%nat -> (i + j < 64)%nat /\ lower j i = true) /\
  (forall k, k ∈ ks -> (k + j + N <= 64)%nat) /\
  (forall k k', k ∈ ks -> k' ∈ ks -> (k < k')%nat -> (k + N <= k')%nat) /\ NoDup ks.

Lemma foldl_vec_swap j mask N ks A :
  (0 < N <= j)%nat -> length A = 64%nat -> starts_ok j N ks ->
  foldl (vec_swap j mask N) A ks = pass j mask (covers N ks) A.
Proof.
  intros HN HA. induction ks as [|k ks IH] using rev_ind; intros (Hlow & Hin & Hgap & Hnd).
  - simpl. rewrite (pass_ext _ _ _ (fun _ => false)), pass_none; done.
  - apply NoDup_app in Hnd as (Hnd & Hdis & _).
    rewrite foldl_app. simpl. rewrite IH.
    2:{ split_and!; intros; [eapply Hlow | eapply Hin | eapply Hgap | done]; set_solver. }
    rewrite vec_swap_pass; [|done|apply Hin; set_solver|apply length_pass].
    rewrite pass_pass.
    + apply pass_ext. intros i _. unfold covers. rewrite existsb_app. simpl. by rewrite orb_false_r.
    + lia.
    + intros i [k' [Hk' Hi]]%covers_true. eapply Hlow; [|done]. set_solver.
    + intros i Hi%between_true. eapply Hlow; [|done]. set_solver.
    + intros i [k' [Hk' Hi]]%covers_true Hi2%between_true.
      assert (k <> k') by set_solver.
      destruct (Nat.lt_ge_cases k k').
      * assert (k + N <= k')%nat by (apply Hgap; set_solver). lia.
      * assert (k' + N <= k)%nat by (apply Hgap; [set_solver|set_solver|lia]). lia.
Qed.

(** The starts a stage visits: in every block of [2j] words, the vectors of the
    lower [j] words. *)
Definition stage_starts (j N : nat) : list nat :=
  mjoin ((fun block => steps block (block + j) N) <$> steps 0 64 (2 * j)).

Definition stride_ok (j : nat) : Prop := j ∈ [1; 2; 4; 8; 16; 32]%nat.

(** The starts of a stage are in order, in range, pairwise apart, and cover
    exactly the lower words: a finite fact, checked for every stride and every
    divisor of it as the number of lanes. *)
Definition stage_check (j N : nat) : bool :=
  let ks := stage_starts j N in
  forallb (fun k =>
    (k + j + N <=? 64)%nat &&
    forallb (fun i => (i + j <? 64)%nat && lower j i) (seq k N) &&
    forallb (fun k' => (k' <=? k)%nat || (k + N <=? k')%nat) ks) ks
  && bool_decide (NoDup ks)
  && forallb (fun i => Bool.eqb (covers N ks i) (lower j i)) (seq 0 64).

Lemma stage_check_all :
  forallb (fun j => forallb (fun N => negb (j mod N =? 0)%nat || stage_check j N) (seq 1 j))
    [1; 2; 4; 8; 16; 32]%nat = true.
Proof. vm_compute. reflexivity. Qed.

Lemma stage_check_ok j N :
  stride_ok j -> (0 < N)%nat -> (N | j)%nat -> stage_check j N = true.
Proof.
  intros Hj HN Hd. pose proof stage_check_all as H.
  rewrite forallb_forall in H. specialize (H j (proj1 (list_elem_of_In _ _) Hj)).
  rewrite forallb_forall in H.
  assert (0 < j)%nat by (unfold stride_ok in Hj; set_solver by lia).
  pose proof (Nat.divide_pos_le N j ltac:(lia) Hd).
  specialize (H N). rewrite in_seq in H. specialize (H ltac:(lia)).
  apply Nat.Lcm0.mod_divide in Hd. by rewrite Hd in H.
Qed.

Lemma stage_check_starts j N :
  stage_check j N = true ->
  starts_ok j N (stage_starts j N) /\
  (forall i, (i < 64)%nat -> covers N (stage_starts j N) i = lower j i).
Proof.
  unfold stage_check. rewrite !andb_true_iff, bool_decide_eq_true.
  intros [[Hk Hnd] Hc]. rewrite forallb_forall in Hk. split; [split_and!|].
  - intros k i Hin Hi. specialize (Hk k (proj1 (list_elem_of_In _ _) Hin)).
    rewrite !andb_true_iff in Hk. destruct Hk as [[_ Hk] _].
    rewrite forallb_forall in Hk. specialize (Hk i). rewrite in_seq in Hk.
    specialize (Hk Hi). rewrite andb_true_iff, Nat.ltb_lt in Hk. done.
  - intros k Hin. specialize (Hk k (proj1 (list_elem_of_In _ _) Hin)).
    rewrite !andb_true_iff, Nat.leb_le in Hk. naive_solver.
  - intros k k' Hin Hin' Hlt. specialize (Hk k (proj1 (list_elem_of_In _ _) Hin)).
    rewrite !andb_true_iff in Hk. destruct Hk as [_ Hk].
    rewrite forallb_forall in Hk. specialize (Hk k' (proj1 (list_elem_of_In _ _) Hin')).
    rewrite orb_true_iff, !Nat.leb_le in Hk. lia.
  - done.
  - intros i Hi. apply (forall_below 64 _ Hc) in Hi. by apply eqb_prop.
Qed.

Lemma stage_pass j mask N A :
  stride_ok j -> (0 < N)%nat -> (N | j)%nat -> length A = 64%nat ->
  foldl (vec_swap j mask N) A (stage_starts j N) = pass j mask (lower j) A.
Proof.
  intros Hj HN Hd HA.
  destruct (stage_check_starts j N (stage_check_ok j N Hj HN Hd)) as [Hs Hc].
  assert (0 < j)%nat by (unfold stride_ok in Hj; set_solver by lia).
  pose proof (Nat.divide_pos_le N j ltac:(lia) Hd).
  rewrite foldl_vec_swap by (done || lia). by apply pass_ext.
Qed.

Lemma foldl_join {A B} (f : A -> B -> A) (l : list (list B)) a :
  foldl f a (mjoin l) = foldl (fun a l => foldl f a l) a l.
Proof. revert a. induction l as [|x l IH]; intros a; simpl; [done|]. by rewrite foldl_app, IH. Qed.

Lemma foldl_fmap_arg {A B C} (f : A -> C -> A) (g : B -> C) (l : list B) a :
  foldl f a (g <$> l) = foldl (fun a x => f a (g x)) a l.
Proof. revert a. induction l as [|x l IH]; intros a; simpl; [done|]. by rewrite IH. Qed.

(** ** Every stage of the code is the full pass of its stride *)

Lemma vec_stage_pass `{HwyTarget} cap mask A :
  cap ∈ [2; 4; 8; 16; 32]%nat -> length A = 64%nat ->
  foldl (fun A block => foldl (vec_swap cap mask (Lanes cap)) A (steps block (block + cap) (Lanes cap)))
    A (steps 0 64 (2 * cap)) = pass cap mask (lower cap) A.
Proof.
  intros Hcap HA. rewrite <- (stage_pass cap mask (Lanes cap)).
  - unfold stage_starts. by rewrite foldl_join, foldl_fmap_arg.
  - unfold stride_ok. set_solver.
  - apply Lanes_pos. set_solver by lia.
  - by apply Lanes_divide.
  - done.
Qed.

Lemma Stage5_pass `{HwyTarget} A :
  length A = 64%nat -> Stage5 A = pass 32 0x00000000FFFFFFFF (lower 32) A.
Proof.
  intros. rewrite <- vec_stage_pass by (done || set_solver). done.
Qed.

Lemma Stage4_pass `{HwyTarget} A :
  length A = 64%nat -> Stage4 A = pass 16 0x0000FFFF0000FFFF (lower 16) A.
Proof. intros. by rewrite <- vec_stage_pass by (done || set_solver). Qed.

Lemma Stage3_pass `{HwyTarget} A :
  length A = 64%nat -> Stage3 A = pass 8 0x00FF00FF00FF00FF (lower 8) A.
Proof. intros. by rewrite <- vec_stage_pass by (done || set_solver). Qed.

Lemma Stage2_pass `{HwyTarget} A :
  length A = 64%nat -> Stage2 A = pass 4 0x0F0F0F0F0F0F0F0F (lower 4) A.
Proof. intros. by rewrite <- vec_stage_pass by (done || set_solver). Qed.

Lemma Stage1_pass `{HwyTarget} A :
  length A = 64%nat -> Stage1 A = pass 2 0x3333333333333333 (lower 2) A.
Proof. intros. by rewrite <- vec_stage_pass by (done || set_solver). Qed.

(** The scalar stage swaps the same way as a one-lane vector. *)
Lemma scalar_swap_pass A i :
  (i + 2 <= 64)%nat -> length A = 64%nat ->
  scalar_swap A i = vec_swap 1 kMask0 1 A i.
Proof.
  intros Hi HA. rewrite vec_swap_pass by lia. unfold scalar_swap. cbv zeta.
  etransitivity; [symmetry; apply (arr_eta 64); by rewrite !length_insert|].
  unfold pass. apply arr_ext. intros k Hk.
  destruct (decide (k = i)) as [->|Hne].
  - rewrite (proj2 (between_true i 1 i)) by lia.
    rewrite list_lookup_total_insert_eq by (rewrite length_insert; lia).
    by rewrite list_lookup_total_insert_ne by lia.
  - destruct (between i 1 k) eqn:E; [apply between_true in E; lia|].
    rewrite list_lookup_total_insert_ne by done.
    destruct (decide (k = (i + 1)%nat)) as [->|Hne2].
    + replace (i + 1 - 1)%nat with i by lia.
      rewrite (proj2 (between_true i 1 i)), (proj2 (Nat.leb_le 1 (i + 1))) by lia.
      by rewrite list_lookup_total_insert_eq by lia.
    + rewrite list_lookup_total_insert_ne by done. destruct (Nat.leb_spec 1 k); simpl; [|done].
      destruct (between i 1 (k - 1)) eqn:E2; [apply between_true in E2; lia|]. done.
Qed.

Lemma Stage0_pass A :
  length A = 64%nat -> Stage0 A = pass 1 kMask0 (lower 1) A.
Proof.
  intros HA. rewrite <- (stage_pass 1 kMask0 1) by (done || (unfold stride_ok; set_solver) || apply Nat.divide_refl).
  change (stage_starts 1 1) with (steps 0 64 2). unfold Stage0.
  assert (forall k, k ∈ steps 0 64 2 -> (k + 2 <= 64)%nat) as Hin.
  { intros k [Hk Hm]%elem_of_steps; [|lia]. rewrite Nat.sub_0_r in Hm.
    pose proof (Nat.div_mod_eq k 2). lia. }
  revert A HA Hin. generalize (steps 0 64 2) as ks. intros ks.
  induction ks as [|k ks IH]; intros A HA Hin; [done|].
  cbn [foldl]. rewrite (scalar_swap_pass A k) by (try apply Hin; set_solver).
  apply IH; [|set_solver].
  rewrite vec_swap_pass by (done || (pose proof (Hin k ltac:(set_solver)); lia)). apply length_pass.
Qed.

(** ** The effect of a pass on single bits *)

Lemma shr64_bits a j i : 0 <= i -> Z.testbit (shr64 a j) i = Z.testbit a (i + Z.of_nat j).
Proof. intros. unfold shr64. by rewrite Z.shiftr_spec. Qed.

Lemma shl64_bits a j i :
  0 <= i < 64 -> Z.testbit (shl64 a j) i = (Z.of_nat j <=? i) && Z.testbit a (i - Z.of_nat j).
Proof.
  intros. unfold shl64. rewrite wrap64_bits, Z.shiftl_spec by lia.
  destruct (Z.leb_spec (Z.of_nat j) i); simpl; [done|]. by rewrite Z.testbit_neg_r by lia.
Qed.

(** A stage's mask selects the columns whose bit of weight [j] is clear. *)
Definition mask_ok (j : nat) (mask : Z) : bool :=
  forallb (fun c => Bool.eqb (Z.testbit mask (Z.of_nat c)) (lower j c)) (seq 0 64).

Lemma mask_ok_bit j mask c :
  mask_ok j mask = true -> (c < 64)%nat -> Z.testbit mask (Z.of_nat c) = lower j c.
Proof. intros H Hc. apply eqb_prop. exact (forall_below 64 _ H c Hc). Qed.

(** Where bit [c] of word [i] comes from in a pass of stride [j]: position
    [(i, c)] keeps its value when row and column agree on the bit of weight
    [j], and swaps it otherwise. *)
Definition swap_pos (j : nat) (p : nat * nat) : nat * nat :=
  let '(i, c) := p in
  if Bool.eqb (lower j i) (lower j c) then (i, c)
  else if lower j i then (i + j, c - j)%nat else (i - j, c + j)%nat.

Definition in_matrix (p : nat * nat) : Prop := (p.1 < 64)%nat /\ (p.2 < 64)%nat.

Lemma lower_room j c : stride_ok j -> (c < 64)%nat ->
  if lower j c then (c + j < 64)%nat else (j <= c)%nat.
Proof.
  intros Hj Hc. unfold stride_ok in Hj.
  assert (forallb (fun j => forallb (fun c =>
    if lower j c then (c + j <? 64)%nat else (j <=? c)%nat) (seq 0 64)) [1; 2; 4; 8; 16; 32]%nat = true) as H
    by (vm_compute; reflexivity).
  rewrite forallb_forall in H. specialize (H j (proj1 (list_elem_of_In _ _) Hj)).
  apply (forall_below 64 _ H) in Hc. cbv beta in Hc.
  destruct (lower j c); [by apply Nat.ltb_lt|by apply Nat.leb_le].
Qed.

Lemma swap_pos_in j p : stride_ok j -> in_matrix p -> in_matrix (swap_pos j p).
Proof.
  intros Hj [Hi Hc]. destruct p as [i c]; simpl in *. unfold in_matrix.
  pose proof (lower_room j i Hj Hi). pose proof (lower_room j c Hj Hc).
  destruct (lower j i), (lower j c); simpl; lia.
Qed.

Definition bit_at (A : list Z) (p : nat * nat) : bool := Z.testbit (A !!! p.1) (Z.of_nat p.2).

Lemma pass_bits j mask A p :
  stride_ok j -> mask_ok j mask = true -> in_matrix p ->
  bit_at (pass j mask (lower j) A) p = bit_at A (swap_pos j p).
Proof.
  destruct p as [i c]. intros Hj Hm [Hi Hc]. unfold bit_at, swap_pos; simpl in *.
  pose proof (lower_room j i Hj Hi) as Ri. pose proof (lower_room j c Hj Hc) as Rc.
  assert (0 < j)%nat as Hj0 by (unfold stride_ok in Hj; set_solver by lia).
  rewrite pass_total by done.
  destruct (lower j i) eqn:Li.
  - unfold swap_lo, swap_t. rewrite Z.lxor_spec, shl64_bits by lia.
    destruct (Z.leb_spec (Z.of_nat j) (Z.of_nat c)) as [Hjc|Hjc]; simpl.
    + rewrite Z.land_spec, Z.lxor_spec.
      replace (Z.of_nat c - Z.of_nat j) with (Z.of_nat (c - j)) by lia.
      rewrite shr64_bits, (mask_ok_bit j mask) by (done || lia).
      rewrite lower_sub by lia.
      destruct (lower j c); simpl; rewrite ?andb_false_r, ?xorb_false_r, ?andb_true_r; [done|].
      replace (Z.of_nat (c - j) + Z.of_nat j) with (Z.of_nat c) by lia.
      by destruct (Z.testbit (A !!! i) (Z.of_nat c)), (Z.testbit (A !!! (i + j)%nat) (Z.of_nat (c - j))).
    + destruct (lower j c); [|lia]. simpl. by rewrite xorb_false_r.
  - rewrite (proj2 (Nat.leb_le j i)) by done. rewrite lower_sub, Li by done. simpl.
    unfold swap_hi, swap_t. rewrite Z.lxor_spec, Z.land_spec, Z.lxor_spec.
    rewrite shr64_bits, (mask_ok_bit j mask) by (done || lia).
    destruct (lower j c); simpl; rewrite ?andb_false_r, ?xorb_false_r, ?andb_true_r; [|done].
    replace (Z.of_nat c + Z.of_nat j) with (Z.of_nat (c + j)) by lia.
    by destruct (Z.testbit (A !!! i) (Z.of_nat c)), (Z.testbit (A !!! (i - j)%nat) (Z.of_nat (c + j))).
Qed.

Lemma length_Transpose `{HwyTarget} A : length A = 64%nat -> length (Transpose64x64 A) = 64%nat.
Proof.
  intros. unfold Transpose64x64.
  rewrite Stage5_pass, Stage4_pass, Stage3_pass, Stage2_pass, Stage1_pass, Stage0_pass
    by (done || apply length_pass). apply length_pass.
Qed.

Lemma swap_pos_all :
  forallb (fun i => forallb (fun c =>
    bool_decide (swap_pos 32 (swap_pos 16 (swap_pos 8 (swap_pos 4 (swap_pos 2 (swap_pos 1 (i, c)))))) = (c, i)))
    (seq 0 64)) (seq 0 64) = true.
Proof. vm_compute. reflexivity. Qed.

(** The six stages exchange the six bits of the row index with those of the
    column index: they transpose the matrix. *)
Lemma Transpose_bit_at `{HwyTarget} A i c :
  length A = 64%nat -> (i < 64)%nat -> (c < 64)%nat ->
  bit_at (Transpose64x64 A) (i, c) = bit_at A (c, i).
Proof.
  intros HA Hi Hc. unfold Transpose64x64.
  rewrite Stage5_pass, Stage4_pass, Stage3_pass, Stage2_pass, Stage1_pass, Stage0_pass
    by (done || apply length_pass).
  assert (forall j, j ∈ [1; 2; 4; 8; 16; 32]%nat -> stride_ok j) as Hs by done.
  rewrite !pass_bits; try (by vm_compute);
    try (apply Hs; set_solver); repeat (apply swap_pos_in; [apply Hs; set_solver|]); try done.
  pose proof (forall_below 64 _ swap_pos_all i Hi) as H1. cbv beta in H1.
  pose proof (forall_below 64 _ H1 c Hc) as H2. apply bool_decide_eq_true in H2. by rewrite H2.
Qed.

(** ** 64-bit range of the transpose *)

Definition words (A : list Z) : Prop := length A = 64%nat /\ Forall u64 A.

Lemma words_total A i : words A -> (i < 64)%nat -> u64 (A !!! i).
Proof.
  intros [HA HF] Hi. rewrite Forall_lookup in HF. apply (HF i).
  apply list_lookup_lookup_total_lt. lia.
Qed.

Lemma words_arr f : (forall i, (i < 64)%nat -> u64 (f i)) -> words (arr 64 f).
Proof.
  intros H. split; [apply length_arr|]. apply Forall_lookup. intros i x Hx.
  assert (i < 64)%nat as Hi by (apply lookup_lt_Some in Hx; by rewrite length_arr in Hx).
  rewrite arr_lookup in Hx by done. simplify_eq. by apply H.
Qed.

Lemma words_eq A B :
  words A -> words B -> (forall i, (i < 64)%nat -> A !!! i = B !!! i) -> A = B.
Proof.
  intros [HA _] [HB _] H. rewrite <- (arr_eta 64 A), <- (arr_eta 64 B) by done. by apply arr_ext.
Qed.

Lemma words_insert A k v : words A -> u64 v -> words (<[k := v]> A).
Proof.
  intros [HA HF] Hv. split; [by rewrite length_insert|]. by apply Forall_insert.
Qed.

Lemma swap_t_u64 j mask a b : u64 mask -> u64 (swap_t j mask a b).
Proof.
  intros Hm. unfold swap_t. apply u64_of_bits.
  - apply Z.land_nonneg. unfold u64 in Hm. lia.
  - intros. by rewrite Z.land_spec, (u64_bits_high mask), andb_false_r.
Qed.

Lemma pass_words j mask S A :
  selects_lower j S -> u64 mask -> words A -> words (pass j mask S A).
Proof.
  intros HS Hm HA. apply words_arr. intros i Hi.
  assert (forall i, (i < 64)%nat -> u64 (A !!! i)) as Hw by (intros; by apply words_total).
  destruct (S i) eqn:E; [|destruct (Nat.leb_spec j i); simpl; [|by apply Hw]; destruct (S (i - j)%nat)].
  - apply u64_lxor; [by apply Hw|]. apply wrap64_u64.
  - apply u64_lxor; [by apply Hw|]. by apply swap_t_u64.
  - by apply Hw.
Qed.

Lemma selects_lower_all j : stride_ok j -> selects_lower j (fun i => lower j i && (i <? 64)%nat).
Proof.
  intros Hj i [Hl Hi%Nat.ltb_lt]%andb_true_iff. split; [|done].
  pose proof (lower_room j i Hj Hi) as H. by rewrite Hl in H.
Qed.

Lemma stage_words j mask A : stride_ok j -> u64 mask -> words A -> words (pass j mask (lower j) A).
Proof.
  intros Hj Hm HA. rewrite (pass_ext _ _ _ (fun i => lower j i && (i <? 64)%nat)).
  - apply pass_words; [by apply selects_lower_all|done|done].
  - intros i Hi. by rewrite (proj2 (Nat.ltb_lt i 64) Hi), andb_true_r.
Qed.

Lemma Transpose_words `{HwyTarget} A : words A -> words (Transpose64x64 A).
Proof.
  intros HA. unfold Transpose64x64.
  assert (forall j, j ∈ [1; 2; 4; 8; 16; 32]%nat -> stride_ok j) as Hs by done.
  rewrite Stage5_pass, Stage4_pass, Stage3_pass, Stage2_pass, Stage1_pass, Stage0_pass
    by (apply length_pass || apply HA).
  repeat (apply stage_words; [apply Hs; set_solver | unfold u64, kMask0; lia |]). done.
Qed.

(** The transpose, as the planes of the rows. *)
Lemma Transpose_planes `{HwyTarget} A :
  words A -> Transpose64x64 A = arr 64 (plane_of (fun r => A !!! r)).
Proof.
  intros HA. apply words_eq.
  - by apply Transpose_words.
  - apply words_arr. intros. apply mask64_u64.
  - intros b Hb. rewrite arr_total by done.
    apply u64_eq_nbits; [apply words_total; [by apply Transpose_words|done] | apply mask64_u64 |].
    intros r Hr. rewrite plane_of_bit by done.
    apply (Transpose_bit_at A b r); [apply HA | done | done].
Qed.

Lemma Transpose_row `{HwyTarget} A r :
  words A -> (r < 64)%nat -> row_value (fun b => Transpose64x64 A !!! b) r = A !!! r.
Proof.
  intros HA Hr. rewrite Transpose_planes by done.
  rewrite (row_value_ext _ (plane_of (fun r => A !!! r))) by (intros; by rewrite arr_total).
  apply row_value_plane_of; [done|]. by apply words_total.
Qed.

(** ** The entry points

    [BitSlicer::slice] and [slice_n] take pointers to 64-word buffers that may
    be the same buffer; the model is a store of buffers.  A pointer that is not
    in the store (no object of 64 words there) is [None]. *)

Abbreviation bufs := (gmap Z (list Z)).

Section Entry.
Context {T : HwyTarget}.

Definition Slice_impl (pin pout : Z) (m : bufs) : option bufs :=
  A ← m !! pin;
  m ← (if decide (pin = pout) then Some m
       else _ ← m !! pout; Some (<[pout := A]> m));
  B ← m !! pout;
  Some (<[pout := Transpose64x64 B]> m).

Definition slice (pin pout : Z) (m : bufs) : option bufs := Slice_impl pin pout m.

(** [for (int b = n; b < 64; ++b) out_planes[b] = 0]; a negative [n] would
    write in front of the buffer. *)
Definition clear_from (n : Z) (A : list Z) : option (list Z) :=
  if n <? 0 then None
  else Some (foldl (fun A b => <[b := 0]> A) A (steps (Z.to_nat n) 64 1)).

Definition slice_n (data out : Z) (n : Z) (m : bufs) : option bufs :=
  m ← (if decide (data = out) then Some m
       else A ← m !! data; _ ← m !! out; Some (<[out := A]> m));
  m ← slice out out m;
  P ← m !! out;
  P ← clear_from n P;
  Some (<[out := P]> m).

End Entry.

Lemma foldl_clear ks A i :
  words A -> (i < 64)%nat ->
  foldl (fun A b => <[b := 0]> A) A ks !!! i = if decide (i ∈ ks) then 0 else A !!! i.
Proof.
  revert A. induction ks as [|k ks IH]; intros A HA Hi; simpl; [done|].
  rewrite IH by (done || by apply words_insert, u64_0).
  destruct (decide (i ∈ ks)); [by rewrite decide_True by set_solver|].
  destruct (decide (i = k)) as [->|].
  - rewrite list_lookup_total_insert_eq, decide_True by (set_solver || (destruct HA; lia)). done.
  - rewrite list_lookup_total_insert_ne by done. by rewrite decide_False by set_solver.
Qed.

Lemma foldl_clear_words ks A : words A -> words (foldl (fun A b => <[b := 0]> A) A ks).
Proof. revert A. induction ks as [|k ks IH]; intros A HA; simpl; [done|]. by apply IH, words_insert, u64_0. Qed.

(** The planes [slice_n] leaves: the low [n] planes of the rows, then zeros. *)
Definition low_planes (n : Z) (A : list Z) : list Z :=
  arr 64 (fun b => if Z.of_nat b <? n then plane_of (fun r => A !!! r) b else 0).

Lemma clear_from_planes `{HwyTarget} n A :
  0 <= n -> words A -> clear_from n (Transpose64x64 A) = Some (low_planes n A).
Proof.
  intros Hn HA. unfold clear_from. rewrite (proj2 (Z.ltb_ge n 0)) by done. f_equal.
  apply words_eq.
  - apply foldl_clear_words. apply Transpose_words. done.
  - apply words_arr. intros. destruct (_ <? _); eauto with u64.
  - intros b Hb. rewrite foldl_clear by (done || by apply Transpose_words).
    unfold low_planes. rewrite arr_total by done.
    rewrite Transpose_planes, arr_total by done.
    case_decide as Hin; rewrite elem_of_steps in Hin by lia; destruct (Z.ltb_spec (Z.of_nat b) n); try done.
    + lia.
    + exfalso. apply Hin. rewrite Nat.mod_1_r. lia.
Qed.

Lemma low_planes_row n A r :
  0 <= n -> (r < 64)%nat -> words A ->
  row_value (fun b => low_planes n A !!! b) r = (A !!! r) mod 2 ^ n.
Proof.
  intros Hn Hr HA. apply u64_eq_nbits.
  - apply mask64_u64.
  - destruct (words_total A r HA Hr) as [Hlo Hhi].
    assert (0 < 2 ^ n) as Hp by (apply Z.pow_pos_nonneg; lia).
    pose proof (Z.mod_pos_bound (A !!! r) (2 ^ n) Hp).
    pose proof (Z.mod_le (A !!! r) (2 ^ n) Hlo Hp). unfold u64. lia.
  - intros b Hb. rewrite row_value_bit by done. unfold low_planes. rewrite arr_total by done.
    destruct (Z.ltb_spec (Z.of_nat b) n).
    + by rewrite plane_of_bit, Z.mod_pow2_bits_low by (done || lia).
    + by rewrite Z.bits_0, Z.mod_pow2_bits_high by lia.
Qed.

Lemma slice_n_eq `{HwyTarget} data out n m A B :
  0 <= n -> m !! data = Some A -> m !! out = Some B -> words A ->
  slice_n data out n m = Some (<[out := low_planes n A]> m).
Proof.
  intros Hn Hd Ho HA. unfold slice_n, slice, Slice_impl.
  destruct (decide (data = out)) as [->|Hne].
  - repeat (simpl; first [rewrite Hd | rewrite decide_True by done | rewrite lookup_insert_eq
      | rewrite clear_from_planes by done]). simpl. by rewrite insert_insert_eq.
  - repeat (simpl; first [rewrite Hd | rewrite Ho | rewrite decide_True by done
      | rewrite lookup_insert_eq | rewrite clear_from_planes by done]). simpl. by rewrite !insert_insert_eq.
Qed.

(** Two concrete targets: the scalar fallback, and 128-bit vectors (NEON). *)
Lemma lanes_scalar_divide cap : cap ∈ [2; 4; 8; 16; 32]%nat -> (1 | cap)%nat.
Proof. intros _. apply Nat.divide_1_l. Qed.

#[export] Instance hwy_scalar : HwyTarget :=
  {| Lanes := fun _ => 1%nat; Lanes_pos := fun _ _ => Nat.lt_0_1;
     Lanes_divide := lanes_scalar_divide |}.

Lemma lanes_neon_pos cap : (0 < cap)%nat -> (0 < Nat.min 2 cap)%nat.
Proof. lia. Qed.

Lemma lanes_neon_divide cap : cap ∈ [2; 4; 8; 16; 32]%nat -> (Nat.min 2 cap | cap)%nat.
Proof.
  intros Hc. apply Nat.Lcm0.mod_divide.
  repeat (apply elem_of_cons in Hc as [->|Hc]; [reflexivity|]). by apply elem_of_nil in Hc.
Qed.

Definition hwy_neon : HwyTarget :=
  {| Lanes := Nat.min 2; Lanes_pos := lanes_neon_pos; Lanes_divide := lanes_neon_divide |}.

(** ** Properties *)

(** C9: [BitSlicer::slice] writes into [out] the exact 64x64 bit transpose of
    [in], on every SIMD target: bit [c] of plane [i] is bit [i] of row [c], so
    row [c] of the planes reads back as the input word; every other buffer, and
    [in] itself when the two are distinct, is unchanged. *)
Theorem slice_transposes `{HwyTarget} pin pout m A B :
  m !! pin = Some A -> m !! pout = Some B -> words A ->
  exists P, slice pin pout m = Some (<[pout := P]> m) /\ words P /\
    (forall i c, (i < 64)%nat -> (c < 64)%nat ->
       Z.testbit (P !!! i) (Z.of_nat c) = Z.testbit (A !!! c) (Z.of_nat i)) /\
    (forall c, (c < 64)%nat -> row_value (fun b => P !!! b) c = A !!! c).
Proof.
  intros Hi Ho HA. exists (Transpose64x64 A). split_and!.
  - unfold slice, Slice_impl. destruct (decide (pin = pout)) as [->|Hne].
    + rewrite Hi. simpl. by rewrite Hi.
    + rewrite Hi. simpl. rewrite Ho. simpl. rewrite lookup_insert_eq. simpl.
      by rewrite insert_insert_eq.
  - by apply Transpose_words.
  - intros i c Hi' Hc. apply (Transpose_bit_at A i c); [apply HA | done | done].
  - intros c Hc. by apply Transpose_row.
Qed.

Definition demo_rows : list Z := arr 64 (fun i => Z.of_nat i * 72057594037927937).

Lemma demo_rows_words : words demo_rows.
Proof. split; [reflexivity|]. apply Forall_forall. intros x Hx. apply list_elem_of_In in Hx.
  vm_compute in Hx. unfold u64. repeat (destruct Hx as [<-|Hx]; [lia|]). done. Qed.

Lemma slice_transposes_witness :
  exists P, slice (T := hwy_neon) 8 16 {[8 := demo_rows; 16 := demo_rows]} = Some (<[16 := P]> {[8 := demo_rows; 16 := demo_rows]})
    /\ row_value (fun b => P !!! b) 3 = demo_rows !!! 3%nat.
Proof.
  destruct (@slice_transposes hwy_neon 8 16 {[8 := demo_rows; 16 := demo_rows]} demo_rows demo_rows) as (P & HP & _ & _ & Hr);
    [reflexivity | reflexivity | exact demo_rows_words |].
  exists P. split; [exact HP | apply Hr; lia].
Defined.

(** Slicing is an involution: slicing a buffer in place twice, even on two
    different SIMD targets, restores it. *)
Theorem slice_slice (T1 T2 : HwyTarget) p m A :
  m !! p = Some A -> words A ->
  (m1 ← slice (T := T1) p p m; slice (T := T2) p p m1) = Some m.
Proof.
  intros Hp HA. unfold slice, Slice_impl.
  rewrite Hp. simpl. rewrite decide_True by done. simpl. rewrite Hp. simpl.
  rewrite lookup_insert_eq. simpl. rewrite decide_True by done. simpl.
  rewrite lookup_insert_eq. simpl. rewrite insert_insert_eq.
  f_equal. apply insert_id. rewrite Hp. f_equal.
  symmetry. apply words_eq; [by apply Transpose_words; apply Transpose_words | done |].
  intros i Hi. apply u64_eq_nbits.
  - apply words_total; [|done]. by apply Transpose_words; apply Transpose_words.
  - by apply words_total.
  - intros c Hc.
    assert (words (@Transpose64x64 T1 A)) as HA1 by by apply Transpose_words.
    pose proof (@Transpose_bit_at T2 (@Transpose64x64 T1 A) i c (proj1 HA1) Hi Hc) as E.
    unfold bit_at in E. simpl in E. rewrite E.
    apply (@Transpose_bit_at T1 A c i); [apply HA|done|done].
Qed.

Lemma slice_slice_witness :
  (m1 ← slice (T := hwy_scalar) 0 0 {[0 := demo_rows]}; slice (T := hwy_neon) 0 0 m1) = Some {[0 := demo_rows]}.
Proof. apply (slice_slice hwy_scalar hwy_neon 0 _ demo_rows); [reflexivity | exact demo_rows_words]. Defined.

(** [slice_n] keeps the low [n] bits of every row and nothing else: row [r]
    of the planes it writes is [data[r]] modulo [2^n], whether or not [data] and
    [out_planes] are the same buffer, and it touches no other buffer. *)
Theorem slice_n_rows `{HwyTarget} data out n m A B :
  0 <= n -> m !! data = Some A -> m !! out = Some B -> words A ->
  exists P, slice_n data out n m = Some (<[out := P]> m) /\ words P /\
    forall r, (r < 64)%nat -> row_value (fun b => P !!! b) r = (A !!! r) mod 2 ^ n.
Proof.
  intros Hn Hd Ho HA. exists (low_planes n A). split_and!.
  - by apply slice_n_eq with B.
  - apply words_arr. intros. destruct (_ <? _); eauto with u64.
  - intros r Hr. by apply low_planes_row.
Qed.

Lemma slice_n_rows_witness :
  exists P, slice_n (T := hwy_neon) 0 0 10 {[0 := demo_rows]} = Some (<[0 := P]> {[0 := demo_rows]})
    /\ row_value (fun b => P !!! b) 5 = (demo_rows !!! 5%nat) mod 2 ^ 10.
Proof.
  destruct (@slice_n_rows hwy_neon 0 0 10 {[0 := demo_rows]} demo_rows demo_rows) as (P & HP & _ & Hr);
    [lia | reflexivity | reflexivity | exact demo_rows_words |].
  exists P. split; [exact HP | apply Hr; lia].
Defined.
