(* ===== verification/IR.v ===== *)
(** * Expression nodes, the node pool and the builders
      (include/apex/jit/ir.hpp, src/jit/jit.cpp)

    An [ir::Node*] is [option nat]: [None] is [nullptr], [Some i] is
    [&storage[i]] of the global pool.  The pool is a growing array of nodes
    with a capacity; each builder allocates a node and fills it in.  The file
    also gives the meaning of a node graph: the expression tree a node denotes
    and the value of that tree on a row, which is what the compilers of the
    later files are proved against. *)

From S2P Require Import Prelude.

(** ** Data (ir.hpp) *)

Inductive NodeKind :=
  | K_LOAD | K_CONST | K_ADD | K_SUB | K_GT | K_LT | K_GE | K_LE | K_EQ | K_AND | K_OR
  | K_NOT | K_SELECT | K_MUL | K_POPCNT | K_LSL | K_LSR | K_SUM | K_INFERENCE_COUNT.

#[export] Instance NodeKind_eq_dec : EqDecision NodeKind.
Proof. solve_decision. Defined.

Inductive ResultKind := BITPLANE | BITMASK.

#[export] Instance ResultKind_eq_dec : EqDecision ResultKind.
Proof. solve_decision. Defined.

Abbreviation ptr := (option nat).

Record Node := mkNode {
  kind : NodeKind;
  result_kind : ResultKind;
  field_name : string;        (* char[64], as the C string it holds *)
  const_value : Z;            (* int64_t *)
  weight : Z;                 (* int64_t *)
  shift_amount : Z;
  left : ptr;
  right : ptr;
  cond : ptr;
  operands : list ptr;
  slot_id : Z;
  eq_slot_id : Z;
  field_idx : Z;
  carry_reg : Z;
  skip_jit : bool;
  active_bits : Z
}.

(** [ir::Node()]: the members' default initialisers; [kind], which has none, is
    zero-initialised to the first enumerator. *)
Definition Node_init : Node :=
  {| kind := K_LOAD; result_kind := BITPLANE; field_name := ""; const_value := 0; weight := 0;
     shift_amount := 0; left := None; right := None; cond := None; operands := [];
     slot_id := -1; eq_slot_id := -1; field_idx := -1; carry_reg := -1; skip_jit := false;
     active_bits := 64 |}.

(** ** The node pool *)

Definition MAX_NODES : Z := 2097152.

(** [storage_ok] is whether the constructor's [malloc] succeeded; the nodes
    below [next_idx] are the list. *)
Record NodePool := mkPool { storage_ok : bool; nodes : list Node }.

Definition next_idx (p : NodePool) : nat := length (nodes p).

Definition pool_alloc (p : NodePool) : NodePool * ptr :=
  if negb (storage_ok p) || (MAX_NODES <=? Z.of_nat (next_idx p)) then (p, None)
  else (mkPool true (nodes p ++ [Node_init]), Some (next_idx p)).

Definition pool_reset (p : NodePool) : NodePool :=
  if negb (storage_ok p) then p else mkPool true [].

(** ** The builders (jit.cpp)

    [g_pool] is a pointer to a pool, created on the first builder call;
    [malloc_ok] is the outcome of the pool's [malloc]. *)

Section Builders.
Variable malloc_ok : bool.

Definition ensure_pool (g : option NodePool) : NodePool :=
  match g with Some p => p | None => mkPool malloc_ok [] end.

(** The shape the builders share: allocate, return [nullptr] on failure,
    otherwise fill the node in. *)
Definition build (fill : Node -> Node) (g : option NodePool) : option NodePool * ptr :=
  let '(p, n) := pool_alloc (ensure_pool g) in
  match n with
  | None => (Some p, None)
  | Some i => (Some (mkPool (storage_ok p) (alter fill i (nodes p))), Some i)
  end.

(** [std::strncpy(dst, src, 63)] into a zeroed [char[64]]. *)
Fixpoint strncpy (n : nat) (s : string) : string :=
  match n, s with
  | S n, String c s => if Ascii.eqb c Ascii.zero then EmptyString else String c (strncpy n s)
  | _, _ => EmptyString
  end.

Definition set_kind (k : NodeKind) (r : ResultKind) (a b : ptr) (n : Node) : Node :=
  {| kind := k; result_kind := r; field_name := field_name n; const_value := const_value n;
     weight := weight n; shift_amount := shift_amount n; left := a; right := b; cond := cond n;
     operands := operands n; slot_id := slot_id n; eq_slot_id := eq_slot_id n;
     field_idx := field_idx n; carry_reg := carry_reg n; skip_jit := skip_jit n;
     active_bits := active_bits n |}.

Definition set_field_name (s : string) (n : Node) : Node :=
  {| kind := kind n; result_kind := result_kind n; field_name := s; const_value := const_value n;
     weight := weight n; shift_amount := shift_amount n; left := left n; right := right n;
     cond := cond n; operands := operands n; slot_id := slot_id n; eq_slot_id := eq_slot_id n;
     field_idx := field_idx n; carry_reg := carry_reg n; skip_jit := skip_jit n;
     active_bits := active_bits n |}.

Definition set_const (v : Z) (n : Node) : Node :=
  {| kind := kind n; result_kind := result_kind n; field_name := field_name n; const_value := v;
     weight := weight n; shift_amount := shift_amount n; left := left n; right := right n;
     cond := cond n; operands := operands n; slot_id := slot_id n; eq_slot_id := eq_slot_id n;
     field_idx := field_idx n; carry_reg := carry_reg n; skip_jit := skip_jit n;
     active_bits := active_bits n |}.

Definition set_weight (v : Z) (n : Node) : Node :=
  {| kind := kind n; result_kind := result_kind n; field_name := field_name n;
     const_value := const_value n; weight := v; shift_amount := shift_amount n; left := left n;
     right := right n; cond := cond n; operands := operands n; slot_id := slot_id n;
     eq_slot_id := eq_slot_id n; field_idx := field_idx n; carry_reg := carry_reg n;
     skip_jit := skip_jit n; active_bits := active_bits n |}.

Definition set_shift (v : Z) (n : Node) : Node :=
  {| kind := kind n; result_kind := result_kind n; field_name := field_name n;
     const_value := const_value n; weight := weight n; shift_amount := v; left := left n;
     right := right n; cond := cond n; operands := operands n; slot_id := slot_id n;
     eq_slot_id := eq_slot_id n; field_idx := field_idx n; carry_reg := carry_reg n;
     skip_jit := skip_jit n; active_bits := active_bits n |}.

Definition set_cond (c : ptr) (n : Node) : Node :=
  {| kind := kind n; result_kind := result_kind n; field_name := field_name n;
     const_value := const_value n; weight := weight n; shift_amount := shift_amount n;
     left := left n; right := right n; cond := c; operands := operands n; slot_id := slot_id n;
     eq_slot_id := eq_slot_id n; field_idx := field_idx n; carry_reg := carry_reg n;
     skip_jit := skip_jit n; active_bits := active_bits n |}.

Definition set_operands (l : list ptr) (n : Node) : Node :=
  {| kind := kind n; result_kind := result_kind n; field_name := field_name n;
     const_value := const_value n; weight := weight n; shift_amount := shift_amount n;
     left := left n; right := right n; cond := cond n; operands := l; slot_id := slot_id n;
     eq_slot_id := eq_slot_id n; field_idx := field_idx n; carry_reg := carry_reg n;
     skip_jit := skip_jit n; active_bits := active_bits n |}.

Definition Load (name : string) :=
  build (fun n => set_field_name (strncpy 63 name) (set_kind K_LOAD BITPLANE (left n) (right n) n)).
Definition Const (value : Z) :=
  build (fun n => set_const value (set_kind K_CONST BITPLANE (left n) (right n) n)).
Definition Add (a b : ptr) := build (set_kind K_ADD BITPLANE a b).
Definition Sub (a b : ptr) := build (set_kind K_SUB BITPLANE a b).
Definition GT (a b : ptr) := build (set_kind K_GT BITMASK a b).
Definition LT (a b : ptr) := build (set_kind K_LT BITMASK a b).
Definition GE (a b : ptr) := build (set_kind K_GE BITMASK a b).
Definition LE (a b : ptr) := build (set_kind K_LE BITMASK a b).
Definition EQ (a b : ptr) := build (set_kind K_EQ BITMASK a b).
Definition And (a b : ptr) := build (set_kind K_AND BITMASK a b).
Definition Or (a b : ptr) := build (set_kind K_OR BITMASK a b).
Definition Not (a : ptr) := build (fun n => set_kind K_NOT BITMASK a (right n) n).
Definition Select (c a b : ptr) := build (fun n => set_cond c (set_kind K_SELECT BITPLANE a b n)).
Definition Mul (a b : ptr) := build (set_kind K_MUL BITPLANE a b).
Definition Popcnt (a : ptr) := build (fun n => set_kind K_POPCNT BITPLANE a (right n) n).
Definition LSL (a : ptr) (shift : Z) :=
  build (fun n => set_shift shift (set_kind K_LSL BITPLANE a (right n) n)).
Definition LSR (a : ptr) (shift : Z) :=
  build (fun n => set_shift shift (set_kind K_LSR BITPLANE a (right n) n)).
Definition Sum (ops : list ptr) :=
  build (fun n => set_operands ops (set_kind K_SUM BITPLANE (left n) (right n) n)).
Definition InferenceCount (c : ptr) :=
  build (fun n => set_cond c (set_kind K_INFERENCE_COUNT BITPLANE (left n) (right n) n)).

End Builders.

(** ** Well-formed graphs

    A builder can only point at nodes that exist already, so children have
    smaller indices than their parents: the graph is acyclic. *)

Definition children (n : Node) : list ptr := left n :: right n :: cond n :: operands n.

Definition ptr_below (b : nat) (p : ptr) : Prop :=
  match p with None => True | Some i => (i < b)%nat end.

Definition wf_nodes (ns : list Node) : Prop :=
  forall i n, ns !! i = Some n -> Forall (ptr_below i) (children n).

Lemma ptr_below_le b b' p : (b <= b')%nat -> ptr_below b p -> ptr_below b' p.
Proof. destruct p; simpl; lia. Qed.

Lemma build_cases m fill g :
  let p := ensure_pool m g in
  if negb (storage_ok p) || (MAX_NODES <=? Z.of_nat (next_idx p))
  then build m fill g = (Some p, None)
  else build m fill g = (Some (mkPool true (nodes p ++ [fill Node_init])), Some (next_idx p)).
Proof.
  intros p. unfold build, pool_alloc. fold p.
  destruct (negb (storage_ok p) || (MAX_NODES <=? Z.of_nat (next_idx p))) eqn:E; [done|].
  simpl. repeat f_equal. unfold next_idx. rewrite alter_app_r_alt by lia.
  by rewrite Nat.sub_diag.
Qed.

(** The state of the builders' world: the pool has been made or not. *)
Definition pool_of (g : option NodePool) : list Node :=
  match g with Some p => nodes p | None => [] end.

Lemma build_new m fill g g' i :
  build m fill g = (g', Some i) ->
  pool_of g' = pool_of g ++ [fill Node_init] /\ i = length (pool_of g).
Proof.
  intros Hb. pose proof (build_cases m fill g) as H. cbv zeta in H.
  destruct (negb _ || _); rewrite H in Hb; simplify_eq; destruct g; done.
Qed.

Lemma build_null m fill g g' :
  build m fill g = (g', None) -> pool_of g' = pool_of g.
Proof.
  intros Hb. pose proof (build_cases m fill g) as H. cbv zeta in H.
  destruct (negb _ || _); rewrite H in Hb; simplify_eq; destruct g; done.
Qed.

Lemma wf_nodes_app ns n :
  wf_nodes ns -> Forall (ptr_below (length ns)) (children n) -> wf_nodes (ns ++ [n]).
Proof.
  intros Hwf Hn i x Hx. apply lookup_app_Some in Hx as [Hx|[Hi Hx]]; [by eapply Hwf|].
  apply list_lookup_singleton_Some in Hx as [Hi' <-].
  by replace i with (length ns) by lia.
Qed.

Lemma build_wf m fill g g' i :
  build m fill g = (g', Some i) ->
  Forall (ptr_below (length (pool_of g))) (children (fill Node_init)) ->
  wf_nodes (pool_of g) -> wf_nodes (pool_of g').
Proof. intros [-> _]%build_new Hc Hwf. by apply wf_nodes_app. Qed.

Lemma strncpy_short n s :
  (String.length s <= n)%nat -> (forall i c, String.get i s = Some c -> c <> Ascii.zero) ->
  strncpy n s = s.
Proof.
  revert n. induction s as [|c s IH]; intros [|n] Hlen Hnz; simpl in *; try done; [lia|].
  destruct (Ascii.eqb_spec c Ascii.zero) as [->|_].
  - by destruct (Hnz 0%nat Ascii.zero).
  - f_equal. apply IH; [lia|]. intros i c' Hc. by apply (Hnz (S i)).
Qed.

Lemma strncpy_length n s : (String.length (strncpy n s) <= n)%nat.
Proof.
  revert s. induction n as [|n IH]; intros [|c s]; simpl; try lia.
  destruct (Ascii.eqb c Ascii.zero); simpl; [lia|]. specialize (IH s). lia.
Qed.

(** ** Expressions and their value on a row

    Arithmetic expressions have BITPLANE results, boolean ones BITMASK
    results.  All arithmetic is modulo 2^64 and comparisons are unsigned. *)

Inductive cmpop := C_GT | C_LT | C_GE | C_LE | C_EQ.

#[export] Instance cmpop_eq_dec : EqDecision cmpop.
Proof. solve_decision. Defined.

Inductive aexp :=
  | ALoad (f : string)
  | AConst (c : Z)
  | AAdd (a b : aexp)
  | ASub (a b : aexp)
  | ASelect (c : bexp) (a b : aexp)
with bexp :=
  | BCmp (op : cmpop) (a b : aexp)
  | BAnd (a b : bexp)
  | BOr (a b : bexp)
  | BNot (a : bexp).

Definition cmp_eval (op : cmpop) (x y : Z) : bool :=
  match op with
  | C_GT => y <? x
  | C_LT => x <? y
  | C_GE => y <=? x
  | C_LE => x <=? y
  | C_EQ => x =? y
  end.

Fixpoint aeval (row : string -> Z) (e : aexp) : Z :=
  match e with
  | ALoad f => row f
  | AConst c => wrap64 c
  | AAdd a b => wrap64 (aeval row a + aeval row b)
  | ASub a b => wrap64 (aeval row a - aeval row b)
  | ASelect c a b => if beval row c then aeval row a else aeval row b
  end
with beval (row : string -> Z) (e : bexp) : bool :=
  match e with
  | BCmp op a b => cmp_eval op (aeval row a) (aeval row b)
  | BAnd a b => beval row a && beval row b
  | BOr a b => beval row a || beval row b
  | BNot a => negb (beval row a)
  end.

Definition cmp_kind (op : cmpop) : NodeKind :=
  match op with C_GT => K_GT | C_LT => K_LT | C_GE => K_GE | C_LE => K_LE | C_EQ => K_EQ end.

Scheme aexp_mut := Induction for aexp Sort Prop
  with bexp_mut := Induction for bexp Sort Prop.
Combined Scheme expr_mutind from aexp_mut, bexp_mut.

Lemma aeval_u64 row e : (forall f, u64 (row f)) -> u64 (aeval row e).
Proof.
  intros Hr. apply (aexp_mut (fun e => u64 (aeval row e)) (fun _ => True)); simpl; intros; auto;
    try apply wrap64_u64. by destruct (beval row c).
Qed.

(** ** What a node of a graph denotes *)

Inductive denA (ns : list Node) : nat -> aexp -> Prop :=
  | denA_load i n :
      ns !! i = Some n -> kind n = K_LOAD -> children n = [None; None; None] ->
      denA ns i (ALoad (field_name n))
  | denA_const i n :
      ns !! i = Some n -> kind n = K_CONST -> children n = [None; None; None] ->
      denA ns i (AConst (const_value n))
  | denA_add i n a b ea eb :
      ns !! i = Some n -> kind n = K_ADD -> children n = [Some a; Some b; None] ->
      denA ns a ea -> denA ns b eb -> denA ns i (AAdd ea eb)
  | denA_sub i n a b ea eb :
      ns !! i = Some n -> kind n = K_SUB -> children n = [Some a; Some b; None] ->
      denA ns a ea -> denA ns b eb -> denA ns i (ASub ea eb)
  | denA_select i n c a b ec ea eb :
      ns !! i = Some n -> kind n = K_SELECT -> children n = [Some a; Some b; Some c] ->
      denB ns c ec -> denA ns a ea -> denA ns b eb -> denA ns i (ASelect ec ea eb)
with denB (ns : list Node) : nat -> bexp -> Prop :=
  | denB_cmp op i n a b ea eb :
      ns !! i = Some n -> kind n = cmp_kind op -> children n = [Some a; Some b; None] ->
      denA ns a ea -> denA ns b eb -> denB ns i (BCmp op ea eb)
  | denB_and i n a b ea eb :
      ns !! i = Some n -> kind n = K_AND -> children n = [Some a; Some b; None] ->
      denB ns a ea -> denB ns b eb -> denB ns i (BAnd ea eb)
  | denB_or i n a b ea eb :
      ns !! i = Some n -> kind n = K_OR -> children n = [Some a; Some b; None] ->
      denB ns a ea -> denB ns b eb -> denB ns i (BOr ea eb)
  | denB_not i n a ea :
      ns !! i = Some n -> kind n = K_NOT -> children n = [Some a; None; None] ->
      denB ns a ea -> denB ns i (BNot ea).

Scheme denA_mut := Minimality for denA Sort Prop
  with denB_mut := Minimality for denB Sort Prop.
Combined Scheme den_mutind from denA_mut, denB_mut.

(** The part of a node its meaning depends on. *)
Definition core (n : Node) := (kind n, field_name n, const_value n, children n).

Lemma core_eq n n' :
  core n' = core n -> kind n' = kind n /\ field_name n' = field_name n /\
    const_value n' = const_value n /\ children n' = children n.
Proof. unfold core. rewrite !pair_equal_spec. tauto. Qed.

(** Graphs with the same cores denote the same. *)
Lemma den_core ns ns' :
  (forall i n, ns !! i = Some n -> exists n', ns' !! i = Some n' /\ core n' = core n) ->
  (forall i e, denA ns i e -> denA ns' i e) /\ (forall i e, denB ns i e -> denB ns' i e).
Proof.
  intros H. apply den_mutind; intros;
    match goal with Hn : ns !! _ = Some _ |- _ =>
      apply H in Hn as (n' & Hn' & (Hk & Hf & Hv & Hl)%core_eq)
    end.
  - rewrite <- Hf. apply denA_load; congruence.
  - rewrite <- Hv. apply denA_const; congruence.
  - eapply denA_add; [done | congruence | by etrans | done..].
  - eapply denA_sub; [done | congruence | by etrans | done..].
  - eapply denA_select; [done | congruence | by etrans | done..].
  - eapply denB_cmp; [done | congruence | by etrans | done..].
  - eapply denB_and; [done | congruence | by etrans | done..].
  - eapply denB_or; [done | congruence | by etrans | done..].
  - eapply denB_not; [done | congruence | by etrans | done..].
Qed.

Lemma build_denote m fill g g' i :
  build m fill g = (g', Some i) ->
  pool_of g' !! i = Some (fill Node_init) /\
  (forall j e, denA (pool_of g) j e -> denA (pool_of g') j e) /\
  (forall j e, denB (pool_of g) j e -> denB (pool_of g') j e).
Proof.
  intros [-> ->]%build_new. split; [by apply list_lookup_middle|].
  apply den_core. intros j n Hn. exists n. split; [|done]. by apply lookup_app_l_Some.
Qed.

Definition cmp_builder (op : cmpop) (m : bool) (a b : ptr) :=
  match op with
  | C_GT => GT m a b | C_LT => LT m a b | C_GE => GE m a b | C_LE => LE m a b | C_EQ => EQ m a b
  end.

(** A call of one of the nineteen builders. *)
Inductive builder_call :=
  | B_Load (name : string) | B_Const (value : Z)
  | B_Add (a b : ptr) | B_Sub (a b : ptr) | B_Cmp (op : cmpop) (a b : ptr)
  | B_And (a b : ptr) | B_Or (a b : ptr) | B_Not (a : ptr) | B_Select (c a b : ptr)
  | B_Mul (a b : ptr) | B_Popcnt (a : ptr) | B_LSL (a : ptr) (shift : Z) | B_LSR (a : ptr) (shift : Z)
  | B_Sum (ops : list ptr) | B_InferenceCount (c : ptr).

Definition call_builder (m : bool) (q : builder_call) : option NodePool -> option NodePool * ptr :=
  match q with
  | B_Load name => Load m name | B_Const v => Const m v
  | B_Add a b => Add m a b | B_Sub a b => Sub m a b | B_Cmp op a b => cmp_builder op m a b
  | B_And a b => And m a b | B_Or a b => Or m a b | B_Not a => Not m a | B_Select c a b => Select m c a b
  | B_Mul a b => Mul m a b | B_Popcnt a => Popcnt m a | B_LSL a k => LSL m a k | B_LSR a k => LSR m a k
  | B_Sum ops => Sum m ops | B_InferenceCount c => InferenceCount m c
  end.

(** What a call over nodes that denote expressions is meant to denote. *)
Inductive call_A (ns : list Node) : builder_call -> aexp -> Prop :=
  | call_load name : call_A ns (B_Load name) (ALoad (strncpy 63 name))
  | call_const v : call_A ns (B_Const v) (AConst v)
  | call_add a b ea eb : denA ns a ea -> denA ns b eb -> call_A ns (B_Add (Some a) (Some b)) (AAdd ea eb)
  | call_sub a b ea eb : denA ns a ea -> denA ns b eb -> call_A ns (B_Sub (Some a) (Some b)) (ASub ea eb)
  | call_select c a b ec ea eb : denB ns c ec -> denA ns a ea -> denA ns b eb ->
      call_A ns (B_Select (Some c) (Some a) (Some b)) (ASelect ec ea eb).

Inductive call_B (ns : list Node) : builder_call -> bexp -> Prop :=
  | call_cmp op a b ea eb : denA ns a ea -> denA ns b eb -> call_B ns (B_Cmp op (Some a) (Some b)) (BCmp op ea eb)
  | call_and a b ea eb : denB ns a ea -> denB ns b eb -> call_B ns (B_And (Some a) (Some b)) (BAnd ea eb)
  | call_or a b ea eb : denB ns a ea -> denB ns b eb -> call_B ns (B_Or (Some a) (Some b)) (BOr ea eb)
  | call_not a ea : denB ns a ea -> call_B ns (B_Not (Some a)) (BNot ea).

(** What the calls without a denotation leave in the node: kind, children, shift amount. *)
Definition call_shape (q : builder_call) : option (NodeKind * list ptr * Z) :=
  match q with
  | B_Mul a b => Some (K_MUL, [a; b; None], 0)
  | B_Popcnt a => Some (K_POPCNT, [a; None; None], 0)
  | B_LSL a k => Some (K_LSL, [a; None; None], k)
  | B_LSR a k => Some (K_LSR, [a; None; None], k)
  | B_Sum ops => Some (K_SUM, None :: None :: None :: ops, 0)
  | B_InferenceCount c => Some (K_INFERENCE_COUNT, [None; None; c], 0)
  | _ => None
  end.

(** Every builder appends the node it returns, or changes nothing. *)
Lemma call_builder_appends m q : exists fill, call_builder m q = build m fill.
Proof. destruct q; try (destruct op); by eexists. Qed.

Lemma call_A_denotes m q g g' i e : call_builder m q g = (g', Some i) -> call_A (pool_of g) q e -> denA (pool_of g') i e.
Proof.
  intros Hb Hq. destruct Hq; apply build_denote in Hb as (Hi & HA & HB).
  - by apply (denA_load _ _ _ Hi).
  - by apply (denA_const _ _ _ Hi).
  - eapply (denA_add _ _ _ a b); eauto.
  - eapply (denA_sub _ _ _ a b); eauto.
  - eapply (denA_select _ _ _ c a b); eauto.
Qed.

Lemma call_B_denotes m q g g' i e : call_builder m q g = (g', Some i) -> call_B (pool_of g) q e -> denB (pool_of g') i e.
Proof.
  intros Hb Hq. destruct Hq.
  - assert (exists fill, build m fill g = (g', Some i) /\
      kind (fill Node_init) = cmp_kind op /\ children (fill Node_init) = [Some a; Some b; None])
      as (fill & Hf & Hk & Hch) by (destruct op; by eexists).
    apply build_denote in Hf as (Hi & HA & _). eapply (denB_cmp _ _ _ _ a b); eauto.
  - apply build_denote in Hb as (Hi & _ & HB). eapply (denB_and _ _ _ a b); eauto.
  - apply build_denote in Hb as (Hi & _ & HB). eapply (denB_or _ _ _ a b); eauto.
  - apply build_denote in Hb as (Hi & _ & HB). eapply (denB_not _ _ _ a); eauto.
Qed.

(** ** Properties *)

(** C29: the builders.  A call of any of the nineteen builders leaves every node there was, and
    what it denotes, as it is.  When it returns a node, that is a new one at the next
    index; over operands that denote, it denotes the expression the builder is named
    after (names longer than 63 characters are cut), and for the builders of nodes outside the
    expressions (multiplication, population count, shifts, sums, inference counts) it has the kind,
    the operands and the shift amount of the call.  When it returns [nullptr] the pool holds
    the nodes it held. *)
Theorem builders_denote m q g g' p :
  call_builder m q g = (g', p) ->
  (forall j, (j < length (pool_of g))%nat -> pool_of g' !! j = pool_of g !! j) /\
  (forall j e, denA (pool_of g) j e -> denA (pool_of g') j e) /\
  (forall j e, denB (pool_of g) j e -> denB (pool_of g') j e) /\
  match p with
  | None => pool_of g' = pool_of g
  | Some i =>
      i = length (pool_of g) /\ length (pool_of g') = S i /\
      (forall e, call_A (pool_of g) q e -> denA (pool_of g') i e) /\
      (forall e, call_B (pool_of g) q e -> denB (pool_of g') i e) /\
      forall k ch sh, call_shape q = Some (k, ch, sh) ->
        exists n, pool_of g' !! i = Some n /\ kind n = k /\ children n = ch /\ shift_amount n = sh
  end.
Proof.
  intros Hq. destruct (call_builder_appends m q) as [fill E]. pose proof Hq as Hb. rewrite E in Hb.
  destruct p as [i|].
  - destruct (build_denote _ _ _ _ _ Hb) as (Hi & HA & HB). destruct (build_new _ _ _ _ _ Hb) as [Ep Ei].
    split_and!; [|done|done|done|by rewrite Ep, length_app, Ei; cbn; lia| | |].
    + intros j Hj. rewrite Ep. by apply lookup_app_l.
    + intros e. by apply (call_A_denotes m q g g').
    + intros e. by apply (call_B_denotes m q g g').
    + intros k ch sh Hs. destruct q; try discriminate Hs; injection Hs as <- <- <-;
        destruct (build_denote _ _ _ _ _ Hq) as (Hn & _); eexists; (split; [exact Hn|done]).
  - by rewrite (build_null _ _ _ _ Hb).
Qed.

(** [price > 100 AND NOT (qty <= 7)], built with the builders. *)
Definition demo_graph : option NodePool * ptr :=
  let '(g, price) := Load true "price" None in
  let '(g, hundred) := Const true 100 g in
  let '(g, qty) := Load true "qty" g in
  let '(g, seven) := Const true 7 g in
  let '(g, gt) := GT true price hundred g in
  let '(g, le) := LE true qty seven g in
  let '(g, nle) := Not true le g in
  And true gt nle g.

Definition demo_nodes : list Node := pool_of (fst demo_graph).
Definition demo_bexp : bexp :=
  BAnd (BCmp C_GT (ALoad "price") (AConst 100)) (BNot (BCmp C_LE (ALoad "qty") (AConst 7))).

Lemma demo_pool :
  fst demo_graph = Some (mkPool true demo_nodes) /\ length demo_nodes = 8%nat /\ snd demo_graph = Some 7%nat.
Proof. by vm_compute. Qed.

Lemma demo_leaf i s :
  demo_nodes !! i = Some (set_field_name s (set_kind K_LOAD BITPLANE None None Node_init)) ->
  denA demo_nodes i (ALoad s).
Proof. intros Hi. by apply (denA_load _ _ _ Hi). Qed.

Lemma demo_const i v :
  demo_nodes !! i = Some (set_const v (set_kind K_CONST BITPLANE None None Node_init)) ->
  denA demo_nodes i (AConst v).
Proof. intros Hi. by apply (denA_const _ _ _ Hi). Qed.

Lemma demo_den : denB demo_nodes 7 demo_bexp.
Proof.
  eapply (denB_and _ _ _ 4 6); [reflexivity..| |].
  - eapply (denB_cmp _ C_GT _ _ 0 1); [reflexivity..| |].
    + by apply demo_leaf.
    + by apply demo_const.
  - eapply (denB_not _ _ _ 5); [reflexivity..|].
    eapply (denB_cmp _ C_LE _ _ 2 3); [reflexivity..| |].
    + by apply demo_leaf.
    + by apply demo_const.
Qed.

(** [price + 100] and [price * 100] over the nodes of the demo graph. *)
Definition demo_add := Add true (Some 0%nat) (Some 1%nat) (Some (mkPool true demo_nodes)).
Definition demo_mul := Mul true (Some 0%nat) (Some 1%nat) demo_add.1.

Lemma builders_denote_witness :
  denA (pool_of demo_add.1) 8 (AAdd (ALoad "price") (AConst 100)) /\
  denB (pool_of demo_add.1) 7 demo_bexp /\
  denA (pool_of demo_mul.1) 8 (AAdd (ALoad "price") (AConst 100)) /\
  exists n, pool_of demo_mul.1 !! 9%nat = Some n /\ kind n = K_MUL /\ children n = [Some 0%nat; Some 1%nat; None] /\ shift_amount n = 0.
Proof.
  destruct (builders_denote true (B_Add (Some 0%nat) (Some 1%nat)) (Some (mkPool true demo_nodes)) demo_add.1 (Some 8%nat))
    as (_ & _ & HB & _ & _ & HA & _); [by vm_compute|].
  destruct (builders_denote true (B_Mul (Some 0%nat) (Some 1%nat)) demo_add.1 demo_mul.1 (Some 9%nat))
    as (_ & HA' & _ & _ & _ & _ & _ & Hs); [by vm_compute|].
  assert (denA (pool_of demo_add.1) 8 (AAdd (ALoad "price") (AConst 100))) as H8.
  { apply HA, call_add; [by apply demo_leaf|by apply demo_const]. }
  split_and!; [exact H8|apply HB, demo_den|by apply HA'|by apply Hs].
Defined.

(** A builder grows the pool by exactly the node it returns, at the next
    index, as long as there is room; when storage was never obtained or 2^21
    nodes are in use it returns [nullptr] and no node changes.  A graph whose
    builder was given nodes of the pool stays well founded (children before
    parents). *)
Theorem build_pool m fill g :
  let '(g', p) := build m fill g in
  let ok := storage_ok (ensure_pool m g) && (Z.of_nat (length (pool_of g)) <? MAX_NODES) in
  p = (if ok then Some (length (pool_of g)) else None) /\
  pool_of g' = pool_of g ++ (if ok then [fill Node_init] else []) /\
  (wf_nodes (pool_of g) -> Forall (ptr_below (length (pool_of g))) (children (fill Node_init)) ->
   wf_nodes (pool_of g')).
Proof.
  pose proof (build_cases m fill g) as H. cbv zeta in H.
  assert (next_idx (ensure_pool m g) = length (pool_of g)) as Hn by (by destruct g).
  assert (nodes (ensure_pool m g) = pool_of g) as Hp by (by destruct g).
  rewrite Hn, Hp in H.
  destruct (storage_ok (ensure_pool m g)); cbn [negb orb andb] in *;
    [|rewrite H; cbn; rewrite app_nil_r, Hp; done].
  rewrite Z.leb_antisym in H. destruct (Z.of_nat (length (pool_of g)) <? MAX_NODES); cbn [negb] in H; rewrite H; cbn.
  - split_and!; [done..|]. intros. by apply wf_nodes_app.
  - by rewrite app_nil_r, Hp.
Qed.

(** Deciding well-foundedness, and a predicate of all nodes. *)
Definition all_nodesb (P : nat -> Node -> bool) (ns : list Node) : bool :=
  forallb (fun i => match ns !! i with Some n => P i n | None => true end) (seq 0 (length ns)).

Lemma all_nodesb_spec P ns i n : all_nodesb P ns = true -> ns !! i = Some n -> P i n = true.
Proof.
  intros H Hn. pose proof (lookup_lt_Some _ _ _ Hn) as Hlt.
  pose proof (forall_below (length ns) _ H i Hlt) as Hi. cbv beta in Hi. by rewrite Hn in Hi.
Qed.

Definition wf_nodesb : list Node -> bool :=
  all_nodesb (fun i n => forallb (fun p => match p with Some c => (c <? i)%nat | None => true end) (children n)).

Lemma wf_nodesb_spec ns : wf_nodesb ns = true -> wf_nodes ns.
Proof.
  intros H i n Hn. pose proof (all_nodesb_spec _ _ _ _ H Hn) as Hf. cbv beta in Hf.
  rewrite forallb_forall in Hf. apply Forall_forall. intros p Hp%list_elem_of_In.
  specialize (Hf p Hp). destruct p as [c|]; [|done]. by apply Nat.ltb_lt in Hf.
Qed.
