(* ===== verification/A64.v ===== *)
(** * The target of the JIT: the A64 instructions the emitters use

    The compilers of src/jit emit machine code through the AsmJit assembler.
    Their output is a list of the instructions below, in emission order, and
    this file gives those instructions the meaning the Arm Architecture
    Reference Manual documents, on an executable machine:

    - registers hold 64-bit integers or pointers.  A pointer is a memory object
      and a byte offset in it, as in the C abstract machine: an access outside
      its object, or through an integer, faults, so a kernel that runs without
      a fault stays inside the objects it was given;
    - memory holds one 64-bit value per 8-byte cell and accesses are aligned;
    - only the flags the code tests ([Z], [C]) are kept, and the low half of
      one vector register.

    Registers are numbered: 0 to 30 are [x0] to [x30], 31 is [xzr], 32 is [sp]. *)

From S2P Require Import Prelude.

Inductive val := Int (z : Z) | Ptr (b : nat) (off : Z).

#[export] Instance val_eq_dec : EqDecision val.
Proof. solve_decision. Defined.

Abbreviation reg := nat (only parsing).
Abbreviation xzr := 31%nat.
Abbreviation sp := 32%nat.

Inductive condcode := kEQ | kNE | kHS | kLO | kHI | kLS.

(** Addressing modes: [Mem(base, imm)], [Mem(base, index)],
    [Mem(base, index, lsl(3))], [Mem(base).post(imm)]. *)
Inductive amode :=
  | Off (base : reg) (imm : Z)
  | Idx (base index : reg)
  | IdxLsl3 (base index : reg)
  | Post (base : reg) (imm : Z).

Inductive instr :=
  | I_movz (d : reg) (imm sh : Z)
  | I_movk (d : reg) (imm sh : Z)
  | I_movi (d : reg) (imm : Z)
  | I_mov (d n : reg)
  | I_mvn (d n : reg)
  | I_neg (d n : reg)
  | I_and (d n m : reg)
  | I_andi (d n : reg) (imm : Z)
  | I_orr (d n m : reg)
  | I_eor (d n m : reg)
  | I_bic (d n m : reg)
  | I_add (d n m : reg)
  | I_addi (d n : reg) (imm : Z)
  | I_add_lsl3 (d n m : reg)
  | I_sub (d n m : reg)
  | I_lsl (d n m : reg)
  | I_lsr (d n m : reg)
  | I_cmp (n m : reg)
  | I_cmpi (n : reg) (imm : Z)
  | I_cset (d : reg) (c : condcode)
  | I_csel (d n m : reg) (c : condcode)
  | I_ldr (d : reg) (a : amode)
  | I_str (s : reg) (a : amode)
  | I_stp_pre (s1 s2 base : reg) (imm : Z)
  | I_ldp_post (d1 d2 base : reg) (imm : Z)
  | I_fmov_to (n : reg)          (* fmov d0, n *)
  | I_cnt                        (* cnt v0.8b, v0.8b *)
  | I_addv                       (* addv b0, v0.8b *)
  | I_fmov_from (d : reg)        (* fmov d, d0 *)
  | I_bind (l : nat)
  | I_b (l : nat)
  | I_bcond (c : condcode) (l : nat)
  | I_ret (n : reg).

(** ** The machine *)

Record state := mkState {
  rf : gmap nat val;
  flagZ : bool;
  flagC : bool;
  v0 : Z;
  mem : gmap (nat * Z) val      (* (object, 8-byte cell) *)
}.

Definition get (r : reg) (s : state) : option val :=
  if decide (r = xzr) then Some (Int 0) else rf s !! r.

Definition set (r : reg) (v : val) (s : state) : state :=
  if decide (r = xzr) then s
  else {| rf := <[r := v]> (rf s); flagZ := flagZ s; flagC := flagC s; v0 := v0 s; mem := mem s |}.

Definition set_flags (z c : bool) (s : state) : state :=
  {| rf := rf s; flagZ := z; flagC := c; v0 := v0 s; mem := mem s |}.

Definition set_v0 (v : Z) (s : state) : state :=
  {| rf := rf s; flagZ := flagZ s; flagC := flagC s; v0 := v; mem := mem s |}.

Definition set_mem (m : gmap (nat * Z) val) (s : state) : state :=
  {| rf := rf s; flagZ := flagZ s; flagC := flagC s; v0 := v0 s; mem := m |}.

Definition get_int (r : reg) (s : state) : option Z :=
  v ← get r s; match v with Int z => Some z | Ptr _ _ => None end.

Definition add_val (v : val) (k : Z) : val :=
  match v with Int z => Int (wrap64 (z + k)) | Ptr b o => Ptr b (wrap64 (o + k)) end.

(** Addition of two registers: two integers, or a pointer and an integer. *)
Definition add_vals (v w : val) : option val :=
  match v, w with
  | Int a, Int b => Some (Int (wrap64 (a + b)))
  | Ptr p o, Int k | Int k, Ptr p o => Some (Ptr p (wrap64 (o + k)))
  | Ptr _ _, Ptr _ _ => None
  end.

(** The cell a pointer designates. *)
Definition cell (v : val) : option (nat * Z) :=
  match v with
  | Ptr b o => if o mod 8 =? 0 then Some (b, o / 8) else None
  | Int _ => None
  end.

Definition load (v : val) (s : state) : option val := c ← cell v; mem s !! c.

Definition store (v w : val) (s : state) : option state :=
  c ← cell v;
  match mem s !! c with
  | Some _ => Some (set_mem (<[c := w]> (mem s)) s)
  | None => None
  end.

(** The address of a mode, and the state after its base update. *)
Definition address (a : amode) (s : state) : option (val * state) :=
  match a with
  | Off b imm => v ← get b s; Some (add_val v imm, s)
  | Idx b i => v ← get b s; k ← get_int i s; Some (add_val v k, s)
  | IdxLsl3 b i => v ← get b s; k ← get_int i s; Some (add_val v (wrap64 (8 * k)), s)
  | Post b imm => v ← get b s; Some (v, set b (add_val v imm) s)
  end.

Definition test (c : condcode) (s : state) : bool :=
  match c with
  | kEQ => flagZ s
  | kNE => negb (flagZ s)
  | kHS => flagC s
  | kLO => negb (flagC s)
  | kHI => flagC s && negb (flagZ s)
  | kLS => negb (flagC s) || flagZ s
  end.

(** [cnt]: the population count of each byte; [addv]: the sum of the bytes. *)
Definition byte_of (x : Z) (i : nat) : Z := Z.land (Z.shiftr x (8 * Z.of_nat i)) 255.
Definition cnt8 (x : Z) : Z :=
  zsum 8 (fun i => zsum 8 (fun b => bitz (byte_of x i) (Z.of_nat b)) * 2 ^ (8 * Z.of_nat i)).
Definition addv8 (x : Z) : Z := zsum 8 (fun i => byte_of x i) mod 256.

Definition bin (f : Z -> Z -> Z) (d n m : reg) (s : state) : option state :=
  a ← get_int n s; b ← get_int m s; Some (set d (Int (f a b)) s).

Definition un (f : Z -> Z) (d n : reg) (s : state) : option state :=
  a ← get_int n s; Some (set d (Int (f a)) s).

(** One instruction other than a branch. *)
Definition step (i : instr) (s : state) : option state :=
  match i with
  | I_movz d imm sh => Some (set d (Int (wrap64 (Z.shiftl imm sh))) s)
  | I_movk d imm sh =>
      un (fun a => Z.lor (Z.ldiff a (Z.shiftl 65535 sh)) (wrap64 (Z.shiftl imm sh))) d d s
  | I_movi d imm => Some (set d (Int (wrap64 imm)) s)
  | I_mov d n => v ← get n s; Some (set d v s)
  | I_mvn d n => un lnot64 d n s
  | I_neg d n => un (fun a => wrap64 (- a)) d n s
  | I_and d n m => bin Z.land d n m s
  | I_andi d n imm => un (fun a => Z.land a imm) d n s
  | I_orr d n m => bin Z.lor d n m s
  | I_eor d n m => bin Z.lxor d n m s
  | I_bic d n m => bin Z.ldiff d n m s
  | I_add d n m => a ← get n s; b ← get m s; v ← add_vals a b; Some (set d v s)
  | I_addi d n imm => a ← get n s; Some (set d (add_val a imm) s)
  | I_add_lsl3 d n m =>
      a ← get n s; b ← get_int m s; Some (set d (add_val a (wrap64 (8 * b))) s)
  | I_sub d n m => bin (fun a b => wrap64 (a - b)) d n m s
  | I_lsl d n m => bin (fun a b => wrap64 (Z.shiftl a (b mod 64))) d n m s
  | I_lsr d n m => bin (fun a b => Z.shiftr a (b mod 64)) d n m s
  | I_cmp n m => a ← get_int n s; b ← get_int m s; Some (set_flags (a =? b) (b <=? a) s)
  | I_cmpi n imm => a ← get_int n s; Some (set_flags (a =? imm) (imm <=? a) s)
  | I_cset d c => Some (set d (Int (Z.b2z (test c s))) s)
  | I_csel d n m c =>
      a ← get n s; b ← get m s; Some (set d (if test c s then a else b) s)
  | I_ldr d a => p ← address a s; v ← load (fst p) s; Some (set d v (snd p))
  | I_str r a => p ← address a s; v ← get r s; store (fst p) v (snd p)
  | I_stp_pre r1 r2 b imm =>
      v ← get b s; v1 ← get r1 s; v2 ← get r2 s;
      s ← store (add_val v imm) v1 s;
      s ← store (add_val v (imm + 8)) v2 s;
      Some (set b (add_val v imm) s)
  | I_ldp_post d1 d2 b imm =>
      v ← get b s; v1 ← load v s; v2 ← load (add_val v 8) s;
      Some (set b (add_val v imm) (set d2 v2 (set d1 v1 s)))
  | I_fmov_to n => a ← get_int n s; Some (set_v0 a s)
  | I_cnt => Some (set_v0 (cnt8 (v0 s)) s)
  | I_addv => Some (set_v0 (addv8 (v0 s)) s)
  | I_fmov_from d => Some (set d (Int (v0 s)) s)
  | I_bind _ | I_b _ | I_bcond _ _ | I_ret _ => None
  end.

(** Straight-line code. *)
Fixpoint exec (c : list instr) (s : state) : option state :=
  match c with
  | [] => Some s
  | i :: c => s ← step i s; exec c s
  end.

(** Whole functions, with branches: labels are positions of [I_bind]. *)
Inductive outcome := Done (s : state) | Fault | OutOfFuel.

Fixpoint find_label (l : nat) (c : list instr) : option nat :=
  match c with
  | [] => None
  | I_bind l' :: c => if decide (l = l') then Some 0%nat else S <$> find_label l c
  | _ :: c => S <$> find_label l c
  end.

Fixpoint run (c : list instr) (fuel pc : nat) (s : state) : outcome :=
  match fuel with
  | O => OutOfFuel
  | S fuel =>
      let jump l := match find_label l c with Some p => run c fuel p s | None => Fault end in
      match c !! pc with
      | None => Fault
      | Some (I_ret n) => match get n s with Some _ => Done s | None => Fault end
      | Some (I_b l) => jump l
      | Some (I_bcond k l) => if test k s then jump l else run c fuel (S pc) s
      | Some (I_bind _) => run c fuel (S pc) s
      | Some i => match step i s with Some s' => run c fuel (S pc) s' | None => Fault end
      end
  end.

(** ** Lemmas *)

Lemma exec_app c1 c2 s : exec (c1 ++ c2) s = (s ← exec c1 s; exec c2 s).
Proof.
  revert s. induction c1 as [|i c1 IH]; intros s; simpl; [done|].
  destruct (step i s); simpl; [apply IH|done].
Qed.

Lemma exec_app_Some c1 c2 s s1 s2 :
  exec c1 s = Some s1 -> exec c2 s1 = Some s2 -> exec (c1 ++ c2) s = Some s2.
Proof. intros H1 H2. by rewrite exec_app, H1. Qed.

Lemma step_run i s s' c fuel pc :
  c !! pc = Some i -> step i s = Some s' -> run c (S fuel) pc s = run c fuel (S pc) s'.
Proof.
  intros Hi Hs. cbn [run]. rewrite Hi.
  destruct i; try discriminate Hs; cbv beta iota zeta; rewrite Hs; reflexivity.
Qed.

(** A straight-line block inside a function. *)
Lemma run_block blk pre post s s' fuel :
  exec blk s = Some s' ->
  run (pre ++ blk ++ post) (length blk + fuel) (length pre) s =
  run (pre ++ blk ++ post) fuel (length pre + length blk) s'.
Proof.
  revert pre s. induction blk as [|i blk IH]; intros pre s He; simpl in He.
  - simplify_eq. simpl. by rewrite Nat.add_0_r.
  - destruct (step i s) as [s1|] eqn:E; simpl in He; [|done].
    cbn [length Nat.add]. rewrite (step_run i s s1).
    + replace (pre ++ (i :: blk) ++ post) with ((pre ++ [i]) ++ blk ++ post)
        by (by rewrite <- app_assoc).
      replace (S (length pre)) with (length (pre ++ [i])) by (rewrite length_app; simpl; lia).
      rewrite IH by done. f_equal. rewrite length_app. simpl. lia.
    + rewrite lookup_app_r, Nat.sub_diag by lia. done.
    + done.
Qed.

(** ** Registers and memory *)

Lemma get_set_eq r v s : r <> xzr -> get r (set r v s) = Some v.
Proof. intros. unfold get, set. rewrite !decide_False by done. simpl. apply lookup_insert_eq. Qed.

Lemma get_set_ne r r' v s : r <> r' -> get r (set r' v s) = get r s.
Proof.
  intros. unfold get, set. destruct (decide (r = xzr)); [done|].
  destruct (decide (r' = xzr)); [done|]. simpl. by apply lookup_insert_ne.
Qed.

Lemma get_xzr s : get xzr s = Some (Int 0).
Proof. unfold get. by rewrite decide_True. Qed.

Lemma set_set r v w s : set r v (set r w s) = set r v s.
Proof.
  unfold set. destruct (decide (r = xzr)); [done|]. simpl. by rewrite insert_insert_eq.
Qed.

Lemma mem_set r v s : mem (set r v s) = mem s.
Proof. unfold set. by destruct (decide _). Qed.

Lemma get_set_mem r m s : get r (set_mem m s) = get r s.
Proof. done. Qed.

Lemma mem_set_mem m s : mem (set_mem m s) = m.
Proof. done. Qed.

Lemma get_set_flags r a b s : get r (set_flags a b s) = get r s.
Proof. done. Qed.

Lemma mem_set_flags a b s : mem (set_flags a b s) = mem s.
Proof. done. Qed.

Lemma get_set_v0 r v s : get r (set_v0 v s) = get r s.
Proof. done. Qed.

Lemma get_int_get r s z : get_int r s = Some z <-> get r s = Some (Int z).
Proof.
  unfold get_int. destruct (get r s) as [[z'|b o]|]; simpl; split; intros; simplify_eq; done.
Qed.

Lemma get_int_set_eq r z s : r <> xzr -> get_int r (set r (Int z) s) = Some z.
Proof. intros. apply get_int_get. by apply get_set_eq. Qed.

Lemma get_int_set_ne r r' v s : r <> r' -> get_int r (set r' v s) = get_int r s.
Proof. intros. unfold get_int. by rewrite get_set_ne. Qed.

Lemma get_int_xzr s : get_int xzr s = Some 0.
Proof. apply get_int_get, get_xzr. Qed.

Lemma get_int_set_mem r m s : get_int r (set_mem m s) = get_int r s.
Proof. done. Qed.

Lemma get_int_set_flags r a b s : get_int r (set_flags a b s) = get_int r s.
Proof. done. Qed.

Lemma get_int_set_v0 r v s : get_int r (set_v0 v s) = get_int r s.
Proof. done. Qed.

Ltac reg_side := first [discriminate | congruence | lia].

Create Rewrite HintDb a64.
#[export] Hint Rewrite get_set_eq get_int_set_eq using reg_side : a64.
#[export] Hint Rewrite get_set_ne get_int_set_ne using reg_side : a64.
#[export] Hint Rewrite get_xzr get_int_xzr mem_set get_set_mem get_int_set_mem mem_set_mem
  get_set_flags get_int_set_flags mem_set_flags get_set_v0 get_int_set_v0 : a64.

(** ** Symbolic execution

    One lemma per instruction, with its operands as premises; [a64_step] picks
    the lemma and reads the operands through the register updates. *)

Lemma step_movi d imm s : step (I_movi d imm) s = Some (set d (Int (wrap64 imm)) s).
Proof. done. Qed.
Lemma step_movz d imm sh s : step (I_movz d imm sh) s = Some (set d (Int (wrap64 (Z.shiftl imm sh))) s).
Proof. done. Qed.
Lemma step_movk d imm sh s a :
  get_int d s = Some a ->
  step (I_movk d imm sh) s =
    Some (set d (Int (Z.lor (Z.ldiff a (Z.shiftl 65535 sh)) (wrap64 (Z.shiftl imm sh)))) s).
Proof. intros H. cbn [step]. unfold un. by rewrite H. Qed.
Lemma step_mov d n s v : get n s = Some v -> step (I_mov d n) s = Some (set d v s).
Proof. intros H. cbn [step]. by rewrite H. Qed.
Lemma step_mvn d n s a : get_int n s = Some a -> step (I_mvn d n) s = Some (set d (Int (lnot64 a)) s).
Proof. intros H. cbn [step]. unfold un. by rewrite H. Qed.
Lemma step_neg d n s a : get_int n s = Some a -> step (I_neg d n) s = Some (set d (Int (wrap64 (- a))) s).
Proof. intros H. cbn [step]. unfold un. by rewrite H. Qed.
Lemma step_andi d n imm s a :
  get_int n s = Some a -> step (I_andi d n imm) s = Some (set d (Int (Z.land a imm)) s).
Proof. intros H. cbn [step]. unfold un. by rewrite H. Qed.
Lemma step_and d n m s a b :
  get_int n s = Some a -> get_int m s = Some b -> step (I_and d n m) s = Some (set d (Int (Z.land a b)) s).
Proof. intros H1 H2. cbn [step]. unfold bin. by rewrite H1, H2. Qed.
Lemma step_orr d n m s a b :
  get_int n s = Some a -> get_int m s = Some b -> step (I_orr d n m) s = Some (set d (Int (Z.lor a b)) s).
Proof. intros H1 H2. cbn [step]. unfold bin. by rewrite H1, H2. Qed.
Lemma step_eor d n m s a b :
  get_int n s = Some a -> get_int m s = Some b -> step (I_eor d n m) s = Some (set d (Int (Z.lxor a b)) s).
Proof. intros H1 H2. cbn [step]. unfold bin. by rewrite H1, H2. Qed.
Lemma step_bic d n m s a b :
  get_int n s = Some a -> get_int m s = Some b -> step (I_bic d n m) s = Some (set d (Int (Z.ldiff a b)) s).
Proof. intros H1 H2. cbn [step]. unfold bin. by rewrite H1, H2. Qed.
Lemma step_sub d n m s a b :
  get_int n s = Some a -> get_int m s = Some b -> step (I_sub d n m) s = Some (set d (Int (wrap64 (a - b))) s).
Proof. intros H1 H2. cbn [step]. unfold bin. by rewrite H1, H2. Qed.
Lemma step_lsl d n m s a b :
  get_int n s = Some a -> get_int m s = Some b ->
  step (I_lsl d n m) s = Some (set d (Int (wrap64 (Z.shiftl a (b mod 64)))) s).
Proof. intros H1 H2. cbn [step]. unfold bin. by rewrite H1, H2. Qed.
Lemma step_lsr d n m s a b :
  get_int n s = Some a -> get_int m s = Some b ->
  step (I_lsr d n m) s = Some (set d (Int (Z.shiftr a (b mod 64))) s).
Proof. intros H1 H2. cbn [step]. unfold bin. by rewrite H1, H2. Qed.
Lemma step_add d n m s v w u :
  get n s = Some v -> get m s = Some w -> add_vals v w = Some u -> step (I_add d n m) s = Some (set d u s).
Proof. intros H1 H2 H3. cbn [step]. rewrite H1, H2. simpl. by rewrite H3. Qed.
Lemma step_addi d n imm s v :
  get n s = Some v -> step (I_addi d n imm) s = Some (set d (add_val v imm) s).
Proof. intros H. cbn [step]. by rewrite H. Qed.
Lemma step_add_lsl3 d n m s v b :
  get n s = Some v -> get_int m s = Some b ->
  step (I_add_lsl3 d n m) s = Some (set d (add_val v (wrap64 (8 * b))) s).
Proof. intros H1 H2. cbn [step]. by rewrite H1, H2. Qed.
Lemma step_cmp n m s a b :
  get_int n s = Some a -> get_int m s = Some b ->
  step (I_cmp n m) s = Some (set_flags (a =? b) (b <=? a) s).
Proof. intros H1 H2. cbn [step]. by rewrite H1, H2. Qed.
Lemma step_cmpi n imm s a :
  get_int n s = Some a -> step (I_cmpi n imm) s = Some (set_flags (a =? imm) (imm <=? a) s).
Proof. intros H. cbn [step]. by rewrite H. Qed.
Lemma step_cset d c s : step (I_cset d c) s = Some (set d (Int (Z.b2z (test c s))) s).
Proof. done. Qed.
Lemma step_csel d n m c s a b :
  get n s = Some a -> get m s = Some b ->
  step (I_csel d n m c) s = Some (set d (if test c s then a else b) s).
Proof. intros H1 H2. cbn [step]. by rewrite H1, H2. Qed.
Lemma step_ldr d a s p v :
  address a s = Some (p, s) -> load p s = Some v -> step (I_ldr d a) s = Some (set d v s).
Proof. intros H1 H2. cbn [step]. rewrite H1. simpl. by rewrite H2. Qed.
Lemma step_ldr_post d b imm s p v :
  get b s = Some p -> load p s = Some v ->
  step (I_ldr d (Post b imm)) s = Some (set d v (set b (add_val p imm) s)).
Proof. intros H1 H2. cbn [step address]. rewrite H1. simpl. by rewrite H2. Qed.
Lemma step_str r a s p v s' :
  address a s = Some (p, s) -> get r s = Some v -> store p v s = Some s' -> step (I_str r a) s = Some s'.
Proof. intros H1 H2 H3. cbn [step]. rewrite H1. simpl. by rewrite H2. Qed.
Lemma step_fmov_to n s a : get_int n s = Some a -> step (I_fmov_to n) s = Some (set_v0 a s).
Proof. intros H. cbn [step]. by rewrite H. Qed.
Lemma step_cnt s : step I_cnt s = Some (set_v0 (cnt8 (v0 s)) s).
Proof. done. Qed.
Lemma step_addv s : step I_addv s = Some (set_v0 (addv8 (v0 s)) s).
Proof. done. Qed.
Lemma step_fmov_from d s : step (I_fmov_from d) s = Some (set d (Int (v0 s)) s).
Proof. done. Qed.

Lemma exec_cons i c s s1 (P : state -> Prop) :
  step i s = Some s1 -> (exists s', exec c s1 = Some s' /\ P s') ->
  exists s', exec (i :: c) s = Some s' /\ P s'.
Proof. intros H [s' [He HP]]. exists s'. cbn [exec]. by rewrite H. Qed.

Lemma exec_nil s (P : state -> Prop) : P s -> exists s', exec [] s = Some s' /\ P s'.
Proof. by exists s. Qed.

Lemma exec_seq c1 c2 s (P : state -> Prop) :
  (exists s1, exec c1 s = Some s1 /\ exists s', exec c2 s1 = Some s' /\ P s') ->
  exists s', exec (c1 ++ c2) s = Some s' /\ P s'.
Proof. intros (s1 & H1 & s' & H2 & HP). exists s'. by rewrite exec_app, H1. Qed.

Ltac a64_get := autorewrite with a64; first [reflexivity | eassumption].

Ltac a64_step :=
  eapply exec_cons;
  [ first
    [ apply step_movi | apply step_movz | eapply step_movk; a64_get | eapply step_mov; a64_get
    | eapply step_mvn; a64_get | eapply step_neg; a64_get | eapply step_andi; a64_get
    | eapply step_and; a64_get | eapply step_orr; a64_get | eapply step_eor; a64_get
    | eapply step_bic; a64_get | eapply step_sub; a64_get | eapply step_lsl; a64_get
    | eapply step_lsr; a64_get | eapply step_cmp; a64_get | eapply step_cmpi; a64_get
    | apply step_cset | eapply step_csel; a64_get | eapply step_addi; a64_get
    | eapply step_add_lsl3; a64_get
    | eapply step_fmov_to; a64_get | apply step_cnt | apply step_addv | apply step_fmov_from ]
  | ].

Ltac a64_run := repeat a64_step; try apply exec_nil.

(** [frame R s s']: registers outside [R] keep their value. *)
Definition frame (R : list nat) (s s' : state) : Prop :=
  forall r, r ∉ R -> get r s' = get r s.

Lemma frame_refl R s : frame R s s.
Proof. done. Qed.

Lemma frame_trans R s1 s2 s3 : frame R s1 s2 -> frame R s2 s3 -> frame R s1 s3.
Proof. intros H1 H2 r Hr. by rewrite H2, H1. Qed.

Lemma frame_weaken R R' s s' : R ⊆ R' -> frame R s s' -> frame R' s s'.
Proof. intros Hs H r Hr. apply H. set_solver. Qed.

Lemma frame_set R r v s s' : r ∈ R -> frame R s s' -> frame R s (set r v s').
Proof. intros Hin H r' Hr. rewrite get_set_ne by set_solver. by apply H. Qed.

Lemma frame_set_mem R m s s' : frame R s s' -> frame R s (set_mem m s').
Proof. done. Qed.

Lemma frame_set_flags R a b s s' : frame R s s' -> frame R s (set_flags a b s').
Proof. done. Qed.

Lemma frame_set_v0 R v s s' : frame R s s' -> frame R s (set_v0 v s').
Proof. done. Qed.

(** Close a frame goal: peel the updates off. *)
Ltac solve_frame :=
  repeat first
    [ apply frame_set; [solve [repeat first [apply list_elem_of_here | apply list_elem_of_further]]|]
    | apply frame_set_mem | apply frame_set_flags | apply frame_set_v0 ];
  first [assumption | apply frame_refl].

(** Inclusion between, and absence from, concrete register lists. *)
Ltac solve_incl := clear; intros ?x; rewrite ?elem_of_cons; tauto.
Ltac solve_notin := rewrite ?elem_of_cons, ?elem_of_nil; lia.

Lemma frame_get_int R s s' r : frame R s s' -> r ∉ R -> get_int r s' = get_int r s.
Proof. intros H Hr. unfold get_int. by rewrite H. Qed.

(** A pointer to cell [i] of object [b]. *)
Lemma cell_ptr b i : cell (Ptr b (8 * i)) = Some (b, i).
Proof.
  unfold cell. rewrite Z.mul_comm, Z.mod_mul, Z.div_mul by lia. done.
Qed.

Lemma add_val_ptr b i k :
  0 <= i + k < 2 ^ 61 -> add_val (Ptr b (8 * i)) (8 * k) = Ptr b (8 * (i + k)).
Proof.
  intros. simpl. f_equal. rewrite wrap64_small; [lia|]. unfold u64. lia.
Qed.

Lemma load_ptr b i s : load (Ptr b (8 * i)) s = mem s !! (b, i).
Proof. unfold load. by rewrite cell_ptr. Qed.

Lemma store_ptr b i v w s :
  mem s !! (b, i) = Some w -> store (Ptr b (8 * i)) v s = Some (set_mem (<[(b, i) := v]> (mem s)) s).
Proof. intros H. unfold store. rewrite cell_ptr. simpl. by rewrite H. Qed.

(** A function made of a straight-line body and a return. *)
Lemma run_exec_ret blk n s s' v fuel :
  exec blk s = Some s' -> get n s' = Some v -> (length blk < fuel)%nat ->
  run (blk ++ [I_ret n]) fuel 0 s = Done s'.
Proof.
  intros He Hn Hf. replace fuel with (length blk + S (fuel - length blk - 1))%nat by lia.
  pose proof (run_block blk [] [I_ret n] s s' (S (fuel - length blk - 1)) He) as H.
  cbn [app length Nat.add] in H. rewrite H. cbn [run].
  rewrite lookup_app_r, Nat.sub_diag by lia. cbn. by rewrite Hn.
Qed.

(** A machine with the given registers and memory cells. *)
Definition mk_machine (rs : list (nat * val)) (cells : list ((nat * Z) * val)) : state :=
  {| rf := list_to_map rs; flagZ := false; flagC := false; v0 := 0; mem := list_to_map cells |}.

(** The cells of an object of words. *)
Definition object (b : nat) (n : nat) (f : nat -> Z) : list ((nat * Z) * val) :=
  (fun i => ((b, Z.of_nat i), Int (f i))) <$> seq 0 n.

Lemma object_lookup b n f i :
  (i < n)%nat ->
  (list_to_map (object b n f) : gmap (nat * Z) val) !! (b, Z.of_nat i) = Some (Int (f i)).
Proof.
  intros Hi. apply elem_of_list_to_map_1.
  - unfold object. rewrite <- list_fmap_compose. apply NoDup_fmap; [|apply NoDup_seq].
    intros x y Hxy. cbn in Hxy. injection Hxy. lia.
  - apply list_elem_of_fmap. exists i. split; [done|]. apply elem_of_seq. lia.
Qed.
