(* ===== verification/Circuits.v ===== *)
(** * The circuit library and the comparison kernel
      (src/jit/circuit_library.cpp, compile_comparison of src/jit/compiler.cpp)

    Each [CircuitLibrary::emit_*] appends a few instructions to the assembler;
    its model is the list it appends.  [compile_comparison] emits 64 unrolled
    blocks, one per bit of the threshold from the most significant down; its
    model is the whole function, and its theorem runs that function on the
    machine: the mask it returns has bit [r] set exactly when row [r] is above
    the threshold. *)

From S2P Require Import Prelude Planes A64.

(** ** The emitters *)

Definition emit_gt_64 (a_bit b_bit gt_mask eq_mask : reg) : list instr :=
  let temp := 6%nat in
  let eq_and_temp := 7%nat in
  [ I_bic temp a_bit b_bit;
    I_and eq_and_temp eq_mask temp;
    I_orr gt_mask gt_mask eq_and_temp;
    I_eor temp a_bit b_bit;
    I_bic eq_mask eq_mask temp ].

Definition emit_mux (cond a_mask b_mask out tmp : reg) : list instr :=
  [ I_and tmp cond a_mask;
    I_bic out b_mask cond;
    I_orr out tmp out ].

Definition emit_add_64 (a_plane b_plane carry sum tmp1 tmp2 : reg) : list instr :=
  [ I_eor tmp1 a_plane b_plane;
    I_eor sum tmp1 carry;
    I_and tmp2 a_plane b_plane;
    I_and tmp1 tmp1 carry;
    I_orr carry tmp1 tmp2 ].

(** The loop over the set bits of the constant has an empty body. *)
Definition emit_mul_64 (a_plane : reg) (constant bit_index : Z) (carries : list reg)
    (sum tmp1 tmp2 : reg) : list instr :=
  foldl (fun code i => if Z.testbit constant (Z.of_nat i) then code ++ [] else code) []
    (seq 0 (Z.to_nat (Z.min (bit_index + 1) 64))).

Definition emit_csa (a_in b_in c_in sum_out carry_out tmp : reg) : list instr :=
  [ I_eor tmp a_in b_in;
    I_eor sum_out tmp c_in;
    I_and sum_out a_in b_in;
    I_and tmp tmp c_in;
    I_orr carry_out tmp sum_out;
    I_eor tmp a_in b_in;
    I_eor sum_out tmp c_in ].

Definition emit_popcnt_mask (mask out : reg) : list instr :=
  [ I_fmov_to mask; I_cnt; I_addv; I_fmov_from out; I_andi out out 255 ].

(** [emit_mov_imm64]: a 64-bit immediate in four pieces. *)
Definition emit_mov_imm64 (dst : reg) (imm : Z) : list instr :=
  [ I_movz dst (Z.land imm 65535) 0;
    I_movk dst (Z.land (Z.shiftr imm 16) 65535) 16;
    I_movk dst (Z.land (Z.shiftr imm 32) 65535) 32;
    I_movk dst (Z.land (Z.shiftr imm 48) 65535) 48 ].

(** One unrolled block of [compile_comparison]. *)
Definition cmp_block (threshold : Z) (bit : nat) : list instr :=
  let gt_mask := 9%nat in let eq_mask := 10%nat in let pointer_walker := 11%nat in
  let a_bitplane := 12%nat in let tmp := 13%nat in
  I_ldr a_bitplane (Post pointer_walker (-8)) ::
  (if Z.land (Z.shiftr threshold (Z.of_nat bit)) 1 =? 0 then
     [ I_and tmp eq_mask a_bitplane;
       I_orr gt_mask gt_mask tmp;
       I_bic eq_mask eq_mask a_bitplane ]
   else
     [ I_and eq_mask eq_mask a_bitplane ]).

Definition compile_comparison (threshold : Z) : list instr :=
  let gt_mask := 9%nat in let eq_mask := 10%nat in let pointer_walker := 11%nat in
  [ I_orr gt_mask xzr xzr;
    I_movi eq_mask (-1);
    I_addi pointer_walker 0%nat 504 ]
  ++ mjoin (cmp_block threshold <$> rev (seq 0 64))
  ++ [ I_mov 0%nat gt_mask ] ++ [ I_ret 30%nat ].

(** ** Immediates *)

Lemma mov_imm64_value imm :
  u64 imm ->
  let piece n := wrap64 (Z.shiftl (Z.land (Z.shiftr imm n) 65535) n) in
  let ins a n := Z.lor (Z.ldiff a (Z.shiftl 65535 n)) (piece n) in
  ins (ins (ins (wrap64 (Z.shiftl (Z.land imm 65535) 0)) 16) 32) 48 = imm.
Proof.
  intros Hu piece ins. subst piece ins. cbv beta.
  change 65535 with (Z.ones 16).
  apply u64_eq_bits; [repeat (apply u64_lor; [apply u64_ldiff|]); apply wrap64_u64 | done |].
  intros i Hi.
  do 4 (rewrite ?Z.lor_spec, ?Z.ldiff_spec; rewrite ?wrap64_bits by lia; rewrite ?Z.shiftl_spec by lia).
  assert (forall n, 0 <= n -> n + 16 <= 64 ->
    Z.testbit (Z.land (Z.shiftr imm n) (Z.ones 16)) (i - n) = (n <=? i) && (i <? n + 16) && Z.testbit imm i) as Hp.
  { intros n Hn Hn2. rewrite Z.land_spec.
    destruct (Z.leb_spec n i); simpl; [|by rewrite Z.testbit_neg_r by lia].
    rewrite Z.shiftr_spec by lia. replace (i - n + n) with i by lia.
    destruct (Z.ltb_spec i (n + 16)).
    - rewrite Z.ones_spec_low by lia. by rewrite andb_true_r.
    - rewrite Z.ones_spec_high by lia. by rewrite andb_false_r. }
  assert (forall n, 0 <= n -> Z.testbit (Z.ones 16) (i - n) = (n <=? i) && (i <? n + 16)) as Hm.
  { intros n Hn. destruct (Z.leb_spec n i); simpl; [|by rewrite Z.testbit_neg_r by lia].
    destruct (Z.ltb_spec i (n + 16)); [apply Z.ones_spec_low; lia | apply Z.ones_spec_high; lia]. }
  assert (Z.testbit (Z.land imm (Z.ones 16)) (i - 0) = (i <? 16) && Z.testbit imm i) as H0.
  { rewrite <- (Z.shiftr_0_r imm) at 1. rewrite (Hp 0) by lia.
    by rewrite (proj2 (Z.leb_le 0 i)) by lia. }
  rewrite H0, !Hp, !Hm by lia.
  destruct (Z.testbit imm i); rewrite ?andb_true_r, ?andb_false_r;
    repeat match goal with |- context [?x <=? ?y] => destruct (Z.leb_spec x y); try lia end;
    repeat match goal with |- context [?x <? ?y] => destruct (Z.ltb_spec x y); try lia end; done.
Qed.

Lemma exec_mov_imm64 dst imm s :
  dst <> xzr -> u64 imm -> exec (emit_mov_imm64 dst imm) s = Some (set dst (Int imm) s).
Proof.
  intros Hd Hu.
  assert (exists s', exec (emit_mov_imm64 dst imm) s = Some s' /\ s' = set dst (Int imm) s) as (s' & -> & ->); [|done].
  unfold emit_mov_imm64. a64_run. rewrite !set_set. do 2 f_equal. by apply mov_imm64_value.
Qed.

(** ** What the emitters compute *)

Lemma exec_gt_64 a b gt eq s va vb vg ve :
  a ∉ [6; 7; gt]%nat -> b ∉ [6; 7; gt]%nat -> gt ∉ [6; 7; xzr; eq]%nat -> eq ∉ [6; 7; xzr]%nat ->
  get_int a s = Some va -> get_int b s = Some vb -> get_int gt s = Some vg -> get_int eq s = Some ve ->
  exists s', exec (emit_gt_64 a b gt eq) s = Some s' /\ mem s' = mem s /\
    frame [6; 7; gt; eq]%nat s s' /\
    get_int gt s' = Some (Z.lor vg (Z.land ve (Z.ldiff va vb))) /\
    get_int eq s' = Some (Z.ldiff ve (Z.lxor va vb)).
Proof.
  rewrite !not_elem_of_cons. intros (Ha1 & Ha2 & Ha3 & _) (Hb1 & Hb2 & Hb3 & _)
    (Hg1 & Hg2 & Hg3 & Hg4 & _) (He1 & He2 & He3 & _) Ha Hb Hg He.
  unfold emit_gt_64. a64_run. split_and!; [by rewrite !mem_set | solve_frame | a64_get | a64_get].
Qed.

Lemma exec_mux c a b out tmp s vc va vb :
  c ∉ [tmp; xzr]%nat -> b ∉ [tmp]%nat -> out ∉ [tmp; xzr]%nat -> tmp <> xzr ->
  get_int c s = Some vc -> get_int a s = Some va -> get_int b s = Some vb ->
  exists s', exec (emit_mux c a b out tmp) s = Some s' /\ mem s' = mem s /\
    frame [out; tmp] s s' /\
    get_int out s' = Some (Z.lor (Z.land vc va) (Z.ldiff vb vc)).
Proof.
  rewrite !not_elem_of_cons. intros (Hc1 & Hc2 & _) (Hb1 & _) (Ho1 & Ho2 & _) Ht Hc Ha Hb.
  unfold emit_mux. a64_run. split_and!; [by rewrite !mem_set | solve_frame | a64_get].
Qed.

Lemma exec_add_64 a b carry sum t1 t2 s va vb vc :
  a ∉ [t1; sum] -> b ∉ [t1; sum] -> carry ∉ [t1; t2; sum; xzr] ->
  sum ∉ [t1; t2; xzr] -> t1 ∉ [t2; xzr] -> t2 <> xzr ->
  get_int a s = Some va -> get_int b s = Some vb -> get_int carry s = Some vc ->
  exists s', exec (emit_add_64 a b carry sum t1 t2) s = Some s' /\ mem s' = mem s /\
    frame [carry; sum; t1; t2] s s' /\
    get_int sum s' = Some (Z.lxor (Z.lxor va vb) vc) /\
    get_int carry s' = Some (Z.lor (Z.land (Z.lxor va vb) vc) (Z.land va vb)).
Proof.
  rewrite !not_elem_of_cons. intros (Ha1 & Ha2 & _) (Hb1 & Hb2 & _) (Hc1 & Hc2 & Hc3 & Hc4 & _)
    (Hs1 & Hs2 & Hs3 & _) (Ht1 & Ht2 & _) Ht Ha Hb Hc.
  unfold emit_add_64. a64_run. split_and!; [by rewrite !mem_set | solve_frame | a64_get | a64_get].
Qed.

Lemma exec_csa a b c sum carry tmp s va vb vc :
  a ∉ [tmp; sum; carry] -> b ∉ [tmp; sum; carry] -> c ∉ [tmp; sum; carry] ->
  sum ∉ [tmp; carry; xzr] -> carry ∉ [tmp; xzr] -> tmp <> xzr ->
  get_int a s = Some va -> get_int b s = Some vb -> get_int c s = Some vc ->
  exists s', exec (emit_csa a b c sum carry tmp) s = Some s' /\ mem s' = mem s /\
    frame [sum; carry; tmp] s s' /\
    get_int sum s' = Some (Z.lxor (Z.lxor va vb) vc) /\
    get_int carry s' = Some (Z.lor (Z.land (Z.lxor va vb) vc) (Z.land va vb)).
Proof.
  rewrite !not_elem_of_cons. intros (Ha1 & Ha2 & Ha3 & _) (Hb1 & Hb2 & Hb3 & _) (Hc1 & Hc2 & Hc3 & _)
    (Hs1 & Hs2 & Hs3 & _) (Hy1 & Hy2 & _) Ht Ha Hb Hc.
  unfold emit_csa. a64_run. split_and!; [by rewrite !mem_set | solve_frame | a64_get | a64_get].
Qed.

(** In every lane the adder gates add three bits. *)
Lemma full_adder_lane a b c r :
  bitz (Z.lxor (Z.lxor a b) c) r + 2 * bitz (Z.lor (Z.land (Z.lxor a b) c) (Z.land a b)) r
  = bitz a r + bitz b r + bitz c r.
Proof. unfold bitz. autorewrite with tb. split_bools; done. Qed.

Lemma byte_of_div x i : byte_of x i = (x / 2 ^ (8 * Z.of_nat i)) mod 2 ^ 8.
Proof.
  unfold byte_of. change 255 with (Z.ones 8).
  by rewrite Z.land_ones, Z.shiftr_div_pow2 by lia.
Qed.

Lemma bitz_byte_of x i b :
  (b < 8)%nat -> bitz (byte_of x i) (Z.of_nat b) = bitz x (Z.of_nat (8 * i + b)).
Proof.
  intros Hb. unfold bitz, byte_of. change 255 with (Z.ones 8).
  rewrite Z.land_spec, Z.shiftr_spec, Z.ones_spec_low, andb_true_r by lia.
  do 2 f_equal. lia.
Qed.

(** The byte digits of a sum of small digits. *)
Lemma byte_digits n (d : nat -> Z) i :
  (i < n)%nat -> (forall i, 0 <= d i < 256) ->
  byte_of (zsum n (fun i => d i * 2 ^ (8 * Z.of_nat i))) i = d i.
Proof.
  intros Hi Hd. rewrite byte_of_div.
  assert (forall k, 0 <= zsum k (fun i => d i * 2 ^ (8 * Z.of_nat i)) < 2 ^ (8 * Z.of_nat k)) as Hb.
  { induction k as [|k IH]; simpl zsum; [done|]. specialize (Hd k).
    replace (8 * Z.of_nat (S k)) with (8 * Z.of_nat k + 8) by lia.
    rewrite Z.pow_add_r by lia. nia. }
  replace n with ((S i) + (n - S i))%nat by lia. rewrite zsum_split. simpl zsum at 1.
  set (hi := zsum (n - S i) _).
  assert (exists q, hi = q * 2 ^ (8 * Z.of_nat i + 8)) as [q ->].
  { exists (zsum (n - S i) (fun k => d (S i + k)%nat * 2 ^ (8 * Z.of_nat k))).
    rewrite <- zsum_mul_r. apply zsum_ext. intros k _.
    rewrite <- Z.mul_assoc, <- Z.pow_add_r by lia. do 2 f_equal. lia. }
  rewrite Z.pow_add_r by lia.
  replace (zsum i _ + d i * 2 ^ (8 * Z.of_nat i) + q * (2 ^ (8 * Z.of_nat i) * 2 ^ 8))
    with (zsum i (fun i => d i * 2 ^ (8 * Z.of_nat i)) + (d i + q * 2 ^ 8) * 2 ^ (8 * Z.of_nat i)) by ring.
  rewrite Z.div_add, Z.div_small, Z.add_0_l, Z.mod_add, Z.mod_small;
    try done; try lia; try apply Hb; try apply Hd.
Qed.

Lemma popcnt_bytes x : Z.land (addv8 (cnt8 x)) 255 = popcount64 x.
Proof.
  unfold addv8, cnt8.
  assert (forall i, 0 <= zsum 8 (fun b => bitz (byte_of x i) (Z.of_nat b)) <= 8) as Hd.
  { intros i. split; [apply zsum_nonneg; intros; apply bitz_01|].
    transitivity (zsum 8 (fun _ => 1)); [|by rewrite zsum_const]. apply zsum_le. intros. apply bitz_01. }
  rewrite (zsum_ext 8 _ (fun i => zsum 8 (fun b => bitz x (Z.of_nat (8 * i + b))))).
  2:{ intros i Hi. rewrite byte_digits by (done || (intros j; specialize (Hd j); lia)).
      apply zsum_ext. intros b Hb. by apply bitz_byte_of. }
  assert (zsum 8 (fun i => zsum 8 (fun b => bitz x (Z.of_nat (8 * i + b)))) = popcount64 x) as ->.
  { rewrite popcount64_unfold. cbn [zsum Nat.mul Nat.add]. lia. }
  change 255 with (Z.ones 8). rewrite Z.land_ones by lia.
  pose proof (popcount64_bounds x). rewrite Z.mod_mod, Z.mod_small by lia. done.
Qed.

(** ** The comparison kernel *)

Section Compare.
Variables (threshold : Z) (p : nat) (planes : nat -> Z).
Hypothesis Ht : u64 threshold.

Definition planes_at (s : state) : Prop :=
  forall b, (b < 64)%nat -> mem s !! (p, Z.of_nat b) = Some (Int (planes b)).

Definition gt_mask_from (k : nat) : Z :=
  mask64 (fun r => gt_from (row_value planes r) threshold (Z.of_nat k)).
Definition eq_mask_from (k : nat) : Z :=
  mask64 (fun r => eq_from (row_value planes r) threshold (Z.of_nat k)).

Lemma cmp_gt_0 k : (k < 64)%nat -> u64 (planes k) -> Z.testbit threshold (Z.of_nat k) = false ->
  Z.lor (gt_mask_from (S k)) (Z.land (eq_mask_from (S k)) (planes k)) = gt_mask_from k.
Proof.
  intros Hk Hu Hb. apply u64_eq_nbits; unfold gt_mask_from, eq_mask_from; eauto with u64.
  intros r Hr. rewrite Z.lor_spec, Z.land_spec, !mask64_bit by done.
  rewrite (gt_from_step _ _ (Z.of_nat k)), Hb, row_value_bit, Nat2Z.inj_succ by (done || lia).
  unfold Z.succ. rewrite andb_true_r. by rewrite (andb_comm (Z.testbit _ _)).
Qed.

Lemma cmp_eq_0 k : (k < 64)%nat -> u64 (planes k) -> Z.testbit threshold (Z.of_nat k) = false ->
  Z.ldiff (eq_mask_from (S k)) (planes k) = eq_mask_from k.
Proof.
  intros Hk Hu Hb. apply u64_eq_nbits; unfold eq_mask_from; eauto with u64.
  intros r Hr. rewrite Z.ldiff_spec, !mask64_bit by done.
  rewrite (eq_from_step _ _ (Z.of_nat k)), Hb, row_value_bit, Nat2Z.inj_succ by (done || lia).
  by rewrite xorb_false_r.
Qed.

Lemma cmp_gt_1 k : (k < 64)%nat -> Z.testbit threshold (Z.of_nat k) = true ->
  gt_mask_from (S k) = gt_mask_from k.
Proof.
  intros Hk Hb. apply mask64_ext. intros r Hr.
  rewrite (gt_from_step _ _ (Z.of_nat k)), Hb, Nat2Z.inj_succ by lia.
  by rewrite andb_false_r, andb_false_l, orb_false_r.
Qed.

Lemma cmp_eq_1 k : (k < 64)%nat -> u64 (planes k) -> Z.testbit threshold (Z.of_nat k) = true ->
  Z.land (eq_mask_from (S k)) (planes k) = eq_mask_from k.
Proof.
  intros Hk Hu Hb. apply u64_eq_nbits; unfold eq_mask_from; eauto with u64.
  intros r Hr. rewrite Z.land_spec, !mask64_bit by done.
  rewrite (eq_from_step _ _ (Z.of_nat k)), Hb, row_value_bit, Nat2Z.inj_succ by (done || lia).
  by rewrite xorb_true_r, negb_involutive.
Qed.

(** The state between two blocks: bits [k] and up have been read. *)
Record cmp_inv (k : nat) (s0 s : state) : Prop := {
  ci_gt : get_int 9 s = Some (gt_mask_from k);
  ci_eq : get_int 10 s = Some (eq_mask_from k);
  ci_walk : get 11 s = Some (Ptr p (wrap64 (8 * (Z.of_nat k - 1))));
  ci_mem : mem s = mem s0;
  ci_frame : frame [9; 10; 11; 12; 13]%nat s0 s
}.

Lemma exec_cmp_block k s0 s :
  (k < 64)%nat -> (forall b, u64 (planes b)) -> planes_at s0 -> cmp_inv (S k) s0 s ->
  exists s', exec (cmp_block threshold k) s = Some s' /\ cmp_inv k s0 s'.
Proof.
  intros Hk Hu Hp [Hg He Hw Hm Hf].
  assert (load (Ptr p (wrap64 (8 * (Z.of_nat (S k) - 1)))) s = Some (Int (planes k))) as Hload.
  { rewrite wrap64_small by (unfold u64; lia).
    replace (Z.of_nat (S k) - 1) with (Z.of_nat k) by lia.
    by rewrite load_ptr, Hm, Hp. }
  assert (wrap64 (wrap64 (8 * (Z.of_nat (S k) - 1)) + -8) = wrap64 (8 * (Z.of_nat k - 1))) as Hadd.
  { unfold wrap64. rewrite Zplus_mod_idemp_l. f_equal. lia. }
  unfold cmp_block.
  eapply exec_cons; [by eapply step_ldr_post|]. simpl add_val. rewrite Hadd.
  replace (Z.land (Z.shiftr threshold (Z.of_nat k)) 1) with (Z.b2z (Z.testbit threshold (Z.of_nat k))).
  2:{ change 1 with (Z.ones 1). rewrite Z.land_ones, Z.shiftr_div_pow2 by lia.
      change (2 ^ 1) with 2. by rewrite <- Z.testbit_spec' by lia. }
  destruct (Z.testbit threshold (Z.of_nat k)) eqn:Hb; simpl Z.eqb; cbv iota.
  - a64_run. split; [| | a64_get | by rewrite !mem_set | solve_frame].
    + rewrite <- (cmp_gt_1 k) by done. a64_get.
    + rewrite <- (cmp_eq_1 k) by done. a64_get.
  - a64_run. split; [| | a64_get | by rewrite !mem_set | solve_frame].
    + rewrite <- (cmp_gt_0 k) by done. a64_get.
    + rewrite <- (cmp_eq_0 k) by done. a64_get.
Qed.

Lemma exec_cmp_blocks n s0 s :
  (n <= 64)%nat -> (forall b, u64 (planes b)) -> planes_at s0 -> cmp_inv n s0 s ->
  exists s', exec (mjoin (cmp_block threshold <$> rev (seq 0 n))) s = Some s' /\ cmp_inv 0 s0 s'.
Proof.
  intros Hn Hu Hp. revert s. induction n as [|n IH]; intros s Hs.
  - by exists s.
  - rewrite seq_S, rev_app_distr, Nat.add_0_l.
    change (mjoin (cmp_block threshold <$> rev [n] ++ rev (seq 0 n)))
      with (cmp_block threshold n ++ mjoin (cmp_block threshold <$> rev (seq 0 n))).
    destruct (exec_cmp_block n s0 s) as (s1 & E1 & H1); [lia|done..|].
    destruct (IH ltac:(lia) s1 H1) as (s2 & E2 & H2).
    exists s2. split; [|done]. exact (exec_app_Some _ _ s s1 s2 E1 E2).
Qed.

(** The masks before any bit has been read, and after all of them. *)
Lemma gt_mask_from_64 : gt_mask_from 64 = 0.
Proof.
  apply u64_eq_nbits; [apply mask64_u64 | apply u64_0 |].
  intros r Hr. unfold gt_mask_from. rewrite mask64_bit, Z.bits_0 by done.
  by apply gt_from_64; [apply row_value_u64|].
Qed.

Lemma eq_mask_from_64 : eq_mask_from 64 = ones64.
Proof.
  apply u64_eq_nbits; [apply mask64_u64 | apply u64_ones |].
  intros r Hr. unfold eq_mask_from. rewrite mask64_bit, ones64_bits by (done || lia).
  rewrite (proj2 (Z.ltb_lt _ _)) by lia. by apply eq_from_64; [apply row_value_u64|].
Qed.

Lemma gt_mask_from_0 : gt_mask_from 0 = mask64 (fun r => threshold <? row_value planes r).
Proof. apply mask64_ext. intros. apply gt_from_0. Qed.

Lemma exec_cmp_init s :
  get 0 s = Some (Ptr p 0) ->
  exists s', exec [ I_orr 9 xzr xzr; I_movi 10 (-1); I_addi 11 0 504 ] s = Some s' /\ cmp_inv 64 s s'.
Proof.
  intros H0. a64_run. split; [| | a64_get | by rewrite !mem_set | solve_frame].
  - rewrite gt_mask_from_64. a64_get.
  - rewrite eq_mask_from_64. a64_get.
Qed.

Lemma exec_comparison s :
  (forall b, u64 (planes b)) -> planes_at s -> get 0 s = Some (Ptr p 0) ->
  exists s', exec (([ I_orr 9 xzr xzr; I_movi 10 (-1); I_addi 11 0 504 ]
      ++ mjoin (cmp_block threshold <$> rev (seq 0 64))) ++ [ I_mov 0 9 ])%nat s = Some s' /\
    get_int 0 s' = Some (mask64 (fun r => threshold <? row_value planes r)) /\
    mem s' = mem s /\ frame [0; 9; 10; 11; 12; 13]%nat s s'.
Proof.
  intros Hu Hp H0. destruct (exec_cmp_init s H0) as (s1 & E1 & I1).
  destruct (exec_cmp_blocks 64 s s1) as (s2 & E2 & I2); [lia|done..|].
  destruct I2 as [Hg _ _ Hm Hf]. apply exec_seq.
  exists s2. split; [exact (exec_app_Some _ _ s s1 s2 E1 E2)|].
  apply get_int_get in Hg.
  rewrite <- gt_mask_from_0. a64_step; apply exec_nil. split_and!; [a64_get | by rewrite mem_set |].
  apply frame_set; [apply list_elem_of_here|]. eapply frame_weaken; [|done]. solve_incl.
Qed.

End Compare.

Lemma length_cmp_blocks threshold l :
  (length (mjoin (cmp_block threshold <$> l)) <= 4 * length l)%nat.
Proof.
  induction l as [|b l IH]; [simpl; lia|].
  change (mjoin (cmp_block threshold <$> b :: l))
    with (cmp_block threshold b ++ mjoin (cmp_block threshold <$> l)).
  rewrite length_app. cbn [length].
  assert (length (cmp_block threshold b) <= 4)%nat by (unfold cmp_block; destruct (_ =? 0); simpl; lia).
  lia.
Qed.

(** ** Properties *)

(** C10: the kernel emitted by [compile_comparison] terminates without a fault on
    every column of 64 planes and returns in [x0] the mask whose bit [r] is
    set exactly when row [r] exceeds the threshold (unsigned); memory and every
    register outside the six it uses are unchanged.  262 instructions of fuel
    are enough. *)
Theorem compile_comparison_correct threshold p planes s ra fuel :
  u64 threshold -> (forall b, u64 (planes b)) -> planes_at p planes s ->
  get 0 s = Some (Ptr p 0) -> get 30 s = Some ra -> (262 <= fuel)%nat ->
  exists s', run (compile_comparison threshold) fuel 0 s = Done s' /\
    get_int 0 s' = Some (mask64 (fun r => threshold <? row_value planes r)) /\
    mem s' = mem s /\ frame [0; 9; 10; 11; 12; 13]%nat s s'.
Proof.
  intros Ht Hu Hp H0 H30 Hfuel.
  destruct (exec_comparison threshold p planes Ht s Hu Hp H0) as (s' & E & Hr & Hm & Hf).
  exists s'. split; [|done]. unfold compile_comparison. rewrite !app_assoc.
  eapply run_exec_ret; [exact E | by rewrite Hf by solve_notin |].
  rewrite !length_app. cbn [length].
  pose proof (length_cmp_blocks threshold (rev (seq 0 64))) as Hl.
  rewrite length_rev, length_seq in Hl. lia.
Qed.

(** A column of planes holding 100, 101, ... in rows 0, 1, ... *)
Definition demo_column : nat -> Z := plane_of (fun r => 100 + Z.of_nat r).
Definition demo_machine : state :=
  mk_machine [(0%nat, Ptr 7 0); (30%nat, Int 64)] (object 7 64 demo_column).

Lemma demo_planes_at : planes_at 7 demo_column demo_machine.
Proof.
  intros b Hb. by apply object_lookup.
Qed.

Lemma compile_comparison_correct_witness :
  exists s', run (compile_comparison 110) 262 0 demo_machine = Done s' /\
    get_int 0 s' = Some (mask64 (fun r => 110 <? row_value demo_column r)) /\
    mem s' = mem demo_machine /\ frame [0; 9; 10; 11; 12; 13]%nat demo_machine s'.
Proof.
  apply (compile_comparison_correct 110 7 demo_column demo_machine (Int 64)).
  - by unfold u64.
  - intros b. apply plane_of_u64.
  - apply demo_planes_at.
  - by vm_compute.
  - by vm_compute.
  - lia.
Defined.

(** [emit_gt_64] is one step of the ripple comparator in all 64 lanes: given
    the masks of the columns' planes above [k] and the two planes [k], it
    leaves the masks of the planes from [k] up.  Started from 0 and all ones
    and applied from plane 63 down to 0 it therefore decides [>] and [=]
    ([col_gt_64], [col_gt_0]). *)
Theorem emit_gt_64_ripple A B k a b gt eq s :
  a ∉ [6; 7; gt]%nat -> b ∉ [6; 7; gt]%nat -> gt ∉ [6; 7; xzr; eq]%nat -> eq ∉ [6; 7; xzr]%nat ->
  (k < 64)%nat -> u64 (A k) -> u64 (B k) ->
  get_int a s = Some (A k) -> get_int b s = Some (B k) ->
  get_int gt s = Some (col_gt A B (S k)) -> get_int eq s = Some (col_eq A B (S k)) ->
  exists s', exec (emit_gt_64 a b gt eq) s = Some s' /\ mem s' = mem s /\
    frame [6; 7; gt; eq]%nat s s' /\
    get_int gt s' = Some (col_gt A B k) /\ get_int eq s' = Some (col_eq A B k).
Proof.
  intros H1 H2 H3 H4 Hk HA HB Ha Hb Hg He.
  destruct (exec_gt_64 a b gt eq s _ _ _ _ H1 H2 H3 H4 Ha Hb Hg He) as (s' & E & Hm & Hf & G & Q).
  exists s'. rewrite col_gt_step in G by done. rewrite col_eq_step in Q by done. done.
Qed.

Lemma emit_gt_64_ripple_witness :
  let s := mk_machine [(2, Int (demo_column 63)); (3, Int (demo_column 63)); (4, Int 0); (5, Int ones64)]%nat [] in
  exists s', exec (emit_gt_64 2 3 4 5) s = Some s' /\ mem s' = mem s /\ frame [6; 7; 4; 5]%nat s s' /\
    get_int 4 s' = Some (col_gt demo_column demo_column 63) /\
    get_int 5 s' = Some (col_eq demo_column demo_column 63).
Proof.
  intros s. apply (emit_gt_64_ripple demo_column demo_column 63 2 3 4 5 s).
  1-4: solve_notin.
  - lia.
  - apply plane_of_u64.
  - apply plane_of_u64.
  - reflexivity.
  - reflexivity.
  - by rewrite col_gt_64.
  - by rewrite col_eq_64.
Defined.

(** [emit_add_64] is one step of the ripple-carry adder in all 64 lanes:
    given the planes [k] of two columns and the lanes' carries into bit [k] (lane [r] started with [c r]), it
    leaves plane [k] of the row-wise sum modulo 2^64 and the carries into bit
    [k + 1]. *)
Theorem emit_add_64_ripple A B c k a b carry sum t1 t2 s :
  a ∉ [t1; sum] -> b ∉ [t1; sum] -> carry ∉ [t1; t2; sum; xzr] ->
  sum ∉ [t1; t2; xzr] -> t1 ∉ [t2; xzr] -> t2 <> xzr ->
  (k < 64)%nat -> u64 (A k) -> u64 (B k) ->
  get_int a s = Some (A k) -> get_int b s = Some (B k) ->
  get_int carry s = Some (col_carry A B c k) ->
  exists s', exec (emit_add_64 a b carry sum t1 t2) s = Some s' /\ mem s' = mem s /\
    frame [carry; sum; t1; t2] s s' /\
    get_int sum s' =
      Some (plane_of (fun r => wrap64 (row_value A r + row_value B r + Z.b2z (c r))) k) /\
    get_int carry s' = Some (col_carry A B c (S k)).
Proof.
  intros H1 H2 H3 H4 H5 H6 Hk HA HB Ha Hb Hc.
  destruct (exec_add_64 a b carry sum t1 t2 s _ _ _ H1 H2 H3 H4 H5 H6 Ha Hb Hc)
    as (s' & E & Hm & Hf & S1 & C1).
  exists s'. rewrite col_add_step in S1 by done.
  rewrite Z.lor_comm, col_carry_step in C1 by done. done.
Qed.

Lemma emit_add_64_ripple_witness :
  let s := mk_machine [(2, Int (demo_column 0)); (3, Int (demo_column 0)); (4, Int 0)]%nat [] in
  exists s', exec (emit_add_64 2 3 4 5 6 7) s = Some s' /\ mem s' = mem s /\
    frame [4; 5; 6; 7]%nat s s' /\
    get_int 5 s' =
      Some (plane_of (fun r => wrap64 (row_value demo_column r + row_value demo_column r + Z.b2z false)) 0) /\
    get_int 4 s' = Some (col_carry demo_column demo_column (fun _ => false) 1).
Proof.
  intros s. apply (emit_add_64_ripple demo_column demo_column (fun _ => false) 0 2 3 4 5 6 7 s).
  1-5: solve_notin.
  - discriminate.
  - lia.
  - apply plane_of_u64.
  - apply plane_of_u64.
  - reflexivity.
  - reflexivity.
  - rewrite col_carry_0, mask64_false. reflexivity.
Defined.

(** [emit_csa] is a 3:2 compressor: in every lane, sum + 2 * carry is the
    number of inputs that are set. *)
Theorem emit_csa_compresses a b c sum carry tmp s va vb vc :
  a ∉ [tmp; sum; carry] -> b ∉ [tmp; sum; carry] -> c ∉ [tmp; sum; carry] ->
  sum ∉ [tmp; carry; xzr] -> carry ∉ [tmp; xzr] -> tmp <> xzr ->
  get_int a s = Some va -> get_int b s = Some vb -> get_int c s = Some vc ->
  exists s' vs vk, exec (emit_csa a b c sum carry tmp) s = Some s' /\ mem s' = mem s /\
    frame [sum; carry; tmp] s s' /\
    get_int sum s' = Some vs /\ get_int carry s' = Some vk /\
    forall r, bitz vs r + 2 * bitz vk r = bitz va r + bitz vb r + bitz vc r.
Proof.
  intros H1 H2 H3 H4 H5 H6 Ha Hb Hc.
  destruct (exec_csa a b c sum carry tmp s _ _ _ H1 H2 H3 H4 H5 H6 Ha Hb Hc)
    as (s' & E & Hm & Hf & S1 & C1).
  do 3 eexists. split_and!; [exact E | done.. |]. intros. apply full_adder_lane.
Qed.

Lemma emit_csa_compresses_witness :
  let s := mk_machine [(2, Int 12); (3, Int 10); (4, Int 6)]%nat [] in
  exists s' vs vk, exec (emit_csa 2 3 4 5 6 7) s = Some s' /\ mem s' = mem s /\
    frame [5; 6; 7]%nat s s' /\ get_int 5 s' = Some vs /\ get_int 6 s' = Some vk /\
    forall r, bitz vs r + 2 * bitz vk r = bitz 12 r + bitz 10 r + bitz 6 r.
Proof.
  intros s. apply (emit_csa_compresses 2 3 4 5 6 7 s 12 10 6).
  1-5: solve_notin.
  - discriminate.
  - reflexivity.
  - reflexivity.
  - reflexivity.
Defined.

(** [emit_popcnt_mask] leaves the number of set bits of the mask, from 0 to
    64, in the output register. *)
Theorem emit_popcnt_mask_counts mask out s x :
  out <> xzr -> get_int mask s = Some x ->
  exists s', exec (emit_popcnt_mask mask out) s = Some s' /\ mem s' = mem s /\
    frame [out] s s' /\ get_int out s' = Some (popcount64 x).
Proof.
  intros Ho Hx. unfold emit_popcnt_mask. a64_run.
  split_and!; [by rewrite !mem_set | solve_frame |].
  rewrite <- popcnt_bytes. a64_get.
Qed.

Lemma emit_popcnt_mask_counts_witness :
  let s := mk_machine [(2%nat, Int ones64)] [] in
  exists s', exec (emit_popcnt_mask 2 0) s = Some s' /\ mem s' = mem s /\
    frame [0]%nat s s' /\ get_int 0 s' = Some (popcount64 ones64).
Proof. intros s. apply (emit_popcnt_mask_counts 2 0 s ones64); [discriminate | reflexivity]. Defined.

(** The body of [emit_mul_64] is empty: it is not the shift-and-add it is
    documented to be. *)
Lemma emit_mul_64_nothing a constant bit_index carries sum t1 t2 :
  emit_mul_64 a constant bit_index carries sum t1 t2 = [].
Proof.
  unfold emit_mul_64. generalize (seq 0 (Z.to_nat (Z.min (bit_index + 1) 64))).
  induction l as [|i l IH]; [done|]. simpl. by destruct (Z.testbit _ _).
Qed.
