(* ===== verification/Registry.v ===== *)
(** * Schemas and rows
      (include/apex/core/types.hpp, include/apex/core/registry.hpp,
      src/core/registry.cpp, include/apex/memory/data_viewer.hpp)

    A schema maps field names to descriptors; the registry maps schema names to
    schemas.  Both maps are filled with [emplace], which keeps the entry that
    is already there.  A row is a run of bytes; [DataViewer::get_value] reads a
    field of it, little-endian, at the descriptor's offset. *)

From S2P Require Import Prelude.

Inductive DataType := UINT64 | INT64 | UINT32 | INT32 | FLOAT64.

Record FieldDescriptor := mkField {
  name : string;
  offset : nat;      (* uint32_t *)
  bit_width : nat;   (* uint32_t *)
  type : DataType
}.

(** [unordered_map::emplace]: insert unless the key is present. *)
Definition emplace {A} (k : string) (v : A) (m : gmap string A) : gmap string A :=
  match m !! k with Some _ => m | None => <[k := v]> m end.

Abbreviation FieldMap := (gmap string FieldDescriptor).
Abbreviation SchemaRegistry := (gmap string FieldMap).

Definition field_map_of (fields : list FieldDescriptor) : FieldMap :=
  foldl (fun m f => emplace (name f) f m) ∅ fields.

Definition register_schema (schema_name : string) (fields : list FieldDescriptor)
    (schemas_ : SchemaRegistry) : SchemaRegistry :=
  emplace schema_name (field_map_of fields) schemas_.

Definition get_field (schemas_ : SchemaRegistry) (schema_name field_name : string) :
    option FieldDescriptor :=
  match schemas_ !! schema_name with
  | None => None
  | Some m => m !! field_name
  end.

Definition has_schema (schemas_ : SchemaRegistry) (schema_name : string) : bool :=
  bool_decide (is_Some (schemas_ !! schema_name)).

(** ** Bytes of a row *)

(** [n] bytes at [off], least significant first; [None] past the end. *)
Fixpoint read_le (data : list Z) (off n : nat) : option Z :=
  match n with
  | O => Some 0
  | S n =>
      match data !! off, read_le data (S off) n with
      | Some b, Some hi => Some (b + 256 * hi)
      | _, _ => None
      end
  end.

(** [get_value<T>] with [sizeof(T) = size]; a missing field is a null
    dereference. *)
Definition get_value (size : nat) (base : list Z) (schemas_ : SchemaRegistry)
    (schema field : string) : option Z :=
  match get_field schemas_ schema field with
  | None => None
  | Some desc => read_le base (offset desc) size
  end.

(** ** Lemmas *)

Definition byte (b : Z) : Prop := 0 <= b < 256.

Lemma read_le_bound data off n v :
  Forall byte data -> read_le data off n = Some v -> 0 <= v < 2 ^ (8 * Z.of_nat n).
Proof.
  intros Hd. revert off v. induction n as [|n IH]; intros off v Hr; cbn [read_le] in Hr.
  - simplify_eq. by cbn.
  - destruct (data !! off) as [b|] eqn:Hb; [|done].
    destruct (read_le data (S off) n) as [hi|] eqn:Hhi; [|done]. simplify_eq.
    apply IH in Hhi. rewrite Forall_lookup in Hd. apply Hd in Hb. unfold byte in Hb.
    replace (8 * Z.of_nat (S n)) with (8 + 8 * Z.of_nat n) by lia.
    rewrite Z.pow_add_r by lia. lia.
Qed.

Lemma read_le_some data off n :
  (off + n <= length data)%nat -> is_Some (read_le data off n).
Proof.
  revert off. induction n as [|n IH]; intros off Hl; cbn [read_le]; [done|].
  destruct (lookup_lt_is_Some_2 data off) as [b ->]; [lia|].
  destruct (IH (S off)) as [hi ->]; [lia|done].
Qed.

Lemma read_le_none data off n :
  (length data < off + n)%nat -> n <> 0%nat -> read_le data off n = None.
Proof.
  revert off. induction n as [|n IH]; intros off Hl Hn; [done|]. cbn [read_le].
  destruct (data !! off) eqn:Hb; [|done]. destruct n as [|n].
  - apply lookup_lt_Some in Hb. lia.
  - by rewrite IH by lia.
Qed.

(** The bytes of the value read are the bytes of the row. *)
Lemma read_le_byte data off n v i :
  Forall byte data -> read_le data off n = Some v -> (i < n)%nat ->
  data !! (off + i)%nat = Some (v / 2 ^ (8 * Z.of_nat i) mod 256).
Proof.
  intros Hd. revert off v i. induction n as [|n IH]; intros off v i Hr Hi; [lia|].
  cbn [read_le] in Hr.
  destruct (data !! off) as [b|] eqn:Hb; [|done].
  destruct (read_le data (S off) n) as [hi|] eqn:Hhi; [|done]. simplify_eq.
  assert (byte b) as Hbb by (rewrite Forall_lookup in Hd; by eapply Hd). unfold byte in Hbb.
  rewrite (Z.mul_comm 256). destruct i as [|i].
  - rewrite Nat.add_0_r, Hb, Z.div_1_r, Z.mod_add, Z.mod_small by lia. done.
  - replace (off + S i)%nat with (S off + i)%nat by lia.
    rewrite (IH _ _ i Hhi) by lia.
    replace (8 * Z.of_nat (S i)) with (8 + 8 * Z.of_nat i) by lia.
    rewrite Z.pow_add_r, <- Z.div_div by lia. change (2 ^ 8) with 256.
    by rewrite Z.div_add, (Z.div_small b), Z.add_0_l by lia.
Qed.

(** A read only depends on the bytes it covers. *)
Lemma read_le_drop data k off n : read_le (drop k data) off n = read_le data (k + off) n.
Proof.
  revert off. induction n as [|n IH]; intros off; cbn [read_le]; [done|].
  rewrite lookup_drop, IH. by replace (k + S off)%nat with (S (k + off)) by lia.
Qed.

Lemma emplace_lookup {A} k v k' (m : gmap string A) :
  emplace k v m !! k' = if decide (k = k') then Some (default v (m !! k')) else m !! k'.
Proof.
  unfold emplace. destruct (decide (k = k')) as [<-|Hne].
  - destruct (m !! k) eqn:E; simpl; [done|]. by rewrite lookup_insert_eq.
  - destruct (m !! k); [done|]. by rewrite lookup_insert_ne.
Qed.

(** Membership in [fields] by name: the first declaration. *)
Fixpoint first_named (n : string) (fields : list FieldDescriptor) : option FieldDescriptor :=
  match fields with
  | [] => None
  | f :: fs => if decide (name f = n) then Some f else first_named n fs
  end.

Lemma foldl_emplace_lookup fields m n :
  foldl (fun m f => emplace (name f) f m) m fields !! n =
  match m !! n with Some f => Some f | None => first_named n fields end.
Proof.
  revert m. induction fields as [|f fs IH]; intros m; cbn [foldl first_named].
  - by destruct (m !! n).
  - rewrite IH, emplace_lookup. destruct (decide (name f = n)); simpl; by destruct (m !! n).
Qed.

Lemma field_map_of_lookup fields n : field_map_of fields !! n = first_named n fields.
Proof. unfold field_map_of. by rewrite foldl_emplace_lookup, lookup_empty. Qed.

Lemma register_schema_new schemas s fields :
  schemas !! s = None ->
  forall n, get_field (register_schema s fields schemas) s n = first_named n fields.
Proof.
  intros Hs n. unfold get_field, register_schema.
  rewrite emplace_lookup, decide_True, Hs by done. apply field_map_of_lookup.
Qed.

Lemma register_schema_other schemas s fields s' n :
  s <> s' -> get_field (register_schema s fields schemas) s' n = get_field schemas s' n.
Proof. intros. unfold get_field, register_schema. by rewrite emplace_lookup, decide_False. Qed.

(** ** Properties *)

(** C30: after a schema is registered, a lookup in it returns the descriptor the
    registry already had for it when the name was taken, and otherwise the
    first descriptor of that name in the list: the first registration wins, for
    schemas and for fields.  Every other schema is untouched. *)
Theorem register_schema_get_field schemas s fields s' n :
  get_field (register_schema s fields schemas) s' n =
  if decide (s = s' /\ has_schema schemas s = false) then first_named n fields
  else get_field schemas s' n.
Proof.
  unfold has_schema. destruct (decide (s = s')) as [<-|Hne].
  - destruct (schemas !! s) eqn:E.
    + rewrite decide_False by (rewrite bool_decide_eq_true_2 by done; naive_solver).
      unfold get_field, register_schema. by rewrite emplace_lookup, decide_True, E.
    + rewrite decide_True.
      * by apply register_schema_new.
      * split; [done|]. by apply bool_decide_eq_false, is_Some_None.
  - rewrite decide_False by naive_solver. by apply register_schema_other.
Qed.

(** [get_value] of a declared field whose bytes lie inside the row returns
    the little-endian value of those bytes, which fits the width read; it
    fails exactly when the field is unknown or reaches past the row. *)
Theorem get_value_reads size base schemas schema field :
  Forall byte base ->
  match get_field schemas schema field with
  | None => get_value size base schemas schema field = None
  | Some d =>
      if decide (offset d + size <= length base \/ size = 0)%nat
      then exists v, get_value size base schemas schema field = Some v /\
        0 <= v < 2 ^ (8 * Z.of_nat size) /\
        (forall i, (i < size)%nat ->
           base !! (offset d + i)%nat = Some (v / 2 ^ (8 * Z.of_nat i) mod 256))
      else get_value size base schemas schema field = None
  end.
Proof.
  intros Hb. unfold get_value. destruct (get_field schemas schema field) as [d|]; [|done].
  destruct (decide (offset d + size <= length base \/ size = 0)%nat) as [Hl|Hl].
  - assert (is_Some (read_le base (offset d) size)) as [v Hv].
    { destruct Hl as [Hl| ->]; [by apply read_le_some | done]. }
    exists v. split_and!; [done | apply (read_le_bound _ _ _ _ Hb Hv) .. |].
    intros i Hi. by apply (read_le_byte _ _ size).
  - apply read_le_none; lia.
Qed.

Definition demo_fields : list FieldDescriptor :=
  [mkField "price" 0 64 INT64; mkField "qty" 8 64 UINT64; mkField "price" 16 64 INT64].

Lemma get_value_reads_witness :
  let reg := register_schema "trade" demo_fields ∅ in
  let row := [7; 1; 0; 0; 0; 0; 0; 0; 9; 0; 0; 0; 0; 0; 0; 0] in
  get_field reg "trade" "qty" = Some (mkField "qty" 8 64 UINT64) /\
  exists v, get_value 8 row reg "trade" "qty" = Some v /\ 0 <= v < 2 ^ (8 * Z.of_nat 8) /\
    (forall i, (i < 8)%nat -> row !! (8 + i)%nat = Some (v / 2 ^ (8 * Z.of_nat i) mod 256)).
Proof.
  intros reg row. split; [reflexivity|].
  apply (get_value_reads 8 row reg "trade" "qty").
  repeat (constructor; [unfold byte; lia|]). constructor.
Defined.
