(* ===== verification/Analyzer.v ===== *)
(** * The passes before code generation
      (ConstPool, ScratchpadManager and ExpressionAnalyzer of src/jit/compiler.cpp)

    [ExpressionAnalyzer] walks the graph depth first and lists every node once,
    children before parents; [ScratchpadManager] hands out slots of the kernel's
    scratch memory, one at a time or as aligned blocks of 64; [ConstPool] keeps
    the planes of the constants.  The nodes are objects of the pool that the
    passes update in place, so the passes take the pool's nodes and return
    them. *)

From S2P Require Import Prelude Planes IR.

(** ** Field updates of a node *)

Definition set_analysis (r : ResultKind) (a : Z) (n : Node) : Node :=
  {| kind := kind n; result_kind := r; field_name := field_name n; const_value := const_value n;
     weight := weight n; shift_amount := shift_amount n; left := left n; right := right n;
     cond := cond n; operands := operands n; slot_id := slot_id n; eq_slot_id := eq_slot_id n;
     field_idx := field_idx n; carry_reg := carry_reg n; skip_jit := skip_jit n; active_bits := a |}.

Definition set_field_idx (v : Z) (n : Node) : Node :=
  {| kind := kind n; result_kind := result_kind n; field_name := field_name n;
     const_value := const_value n; weight := weight n; shift_amount := shift_amount n;
     left := left n; right := right n; cond := cond n; operands := operands n;
     slot_id := slot_id n; eq_slot_id := eq_slot_id n; field_idx := v;
     carry_reg := carry_reg n; skip_jit := skip_jit n; active_bits := active_bits n |}.

Definition set_slots (slot eq_slot carry : Z) (n : Node) : Node :=
  {| kind := kind n; result_kind := result_kind n; field_name := field_name n;
     const_value := const_value n; weight := weight n; shift_amount := shift_amount n;
     left := left n; right := right n; cond := cond n; operands := operands n;
     slot_id := slot; eq_slot_id := eq_slot; field_idx := field_idx n;
     carry_reg := carry; skip_jit := skip_jit n; active_bits := active_bits n |}.

Definition set_skip_jit (b : bool) (n : Node) : Node :=
  {| kind := kind n; result_kind := result_kind n; field_name := field_name n;
     const_value := const_value n; weight := weight n; shift_amount := shift_amount n;
     left := left n; right := right n; cond := cond n; operands := operands n;
     slot_id := slot_id n; eq_slot_id := eq_slot_id n; field_idx := field_idx n;
     carry_reg := carry_reg n; skip_jit := b; active_bits := active_bits n |}.

Definition is_cmp (k : NodeKind) : bool :=
  match k with K_GT | K_LT | K_GE | K_LE | K_EQ => true | _ => false end.
Definition is_logic (k : NodeKind) : bool :=
  match k with K_AND | K_OR | K_NOT => true | _ => false end.
Definition is_arith (k : NodeKind) : bool :=
  match k with K_ADD | K_SUB => true | _ => false end.
Definition is_leaf (k : NodeKind) : bool :=
  match k with K_LOAD | K_CONST => true | _ => false end.

(** ** The constant pool *)

Module ConstPool.

Abbreviation t := (gmap Z (list Z)).

Definition bit_planes (const_value : Z) : list Z :=
  arr 64 (fun bit => if Z.land (Z.shiftr const_value (Z.of_nat bit)) 1 =? 0 then 0 else ones64).

Definition get_or_create (const_value : Z) (pools : t) : t * list Z :=
  match pools !! const_value with
  | Some planes => (pools, planes)
  | None => (<[const_value := bit_planes const_value]> pools, bit_planes const_value)
  end.

(** Every cached entry holds the planes of its constant. *)
Definition wf (pools : t) : Prop := forall c planes, pools !! c = Some planes -> planes = bit_planes c.

Lemma bit_planes_bit c b r :
  (b < 64)%nat -> (r < 64)%nat ->
  Z.testbit (bit_planes c !!! b) (Z.of_nat r) = Z.testbit c (Z.of_nat b).
Proof.
  intros Hb Hr. unfold bit_planes. rewrite arr_total by done.
  replace (Z.land (Z.shiftr c (Z.of_nat b)) 1) with (Z.b2z (Z.testbit c (Z.of_nat b))).
  2:{ change 1 with (Z.ones 1). rewrite Z.land_ones, Z.shiftr_div_pow2 by lia.
      change (2 ^ 1) with 2. by rewrite <- Z.testbit_spec' by lia. }
  destruct (Z.testbit c (Z.of_nat b)); simpl Z.eqb; cbv iota; [|apply Z.bits_0].
  rewrite ones64_bits by lia. apply Z.ltb_lt. lia.
Qed.

Lemma get_or_create_wf c pools :
  wf pools -> wf (get_or_create c pools).1 /\ (get_or_create c pools).2 = bit_planes c.
Proof.
  intros Hwf. unfold get_or_create. destruct (pools !! c) eqn:E; simpl.
  - split; [done|]. by apply Hwf.
  - split; [|done]. intros c' planes. destruct (decide (c' = c)) as [->|Hne].
    + rewrite lookup_insert_eq. congruence.
    + rewrite lookup_insert_ne by done. apply Hwf.
Qed.

End ConstPool.

(** ** The scratchpad *)

Module ScratchpadManager.

Definition MAX_SLOTS : nat := Z.to_nat 32768.

Definition init : list bool := replicate MAX_SLOTS false.

(** The index of the first clear entry. *)
Fixpoint first_clear (used_ : list bool) : option nat :=
  match used_ with
  | [] => None
  | b :: l => if b then S <$> first_clear l else Some 0%nat
  end.

Definition alloc_slot (used_ : list bool) : list bool * Z :=
  match first_clear used_ with
  | Some i => (<[i := true]> used_, Z.of_nat i)
  | None => (used_, -1)
  end.

Definition block_free (used_ : list bool) (i : nat) : bool :=
  forallb (fun j => negb (used_ !!! (i + j)%nat)) (seq 0 64).

Definition alloc_block (used_ : list bool) : list bool * Z :=
  match find (block_free used_) (steps 0 (MAX_SLOTS - 64 + 1) 64) with
  | Some i => (foldl (fun u j => <[(i + j)%nat := true]> u) used_ (seq 0 64), Z.of_nat i)
  | None => (used_, -1)
  end.

Definition free_slot (id : Z) (used_ : list bool) : list bool :=
  if (0 <=? id) && (id <? Z.of_nat MAX_SLOTS) then <[Z.to_nat id := false]> used_ else used_.

End ScratchpadManager.

(** ** The analyzer *)

Record ExpressionAnalyzer := mkAnalyzer {
  node_map : gmap nat nat;
  arithmetic_nodes : list nat;
  comparison_nodes : list nat;
  select_nodes : list nat;
  all_nodes : list nat
}.

Definition analyzer_init : ExpressionAnalyzer := mkAnalyzer ∅ [] [] [] [].

(** The kind of result and the list a node goes to. *)
Definition result_of (k : NodeKind) : ResultKind :=
  if is_cmp k || is_logic k then BITMASK else BITPLANE.
Definition is_select (k : NodeKind) : bool :=
  match k with K_SELECT | K_POPCNT | K_SUM | K_INFERENCE_COUNT => true | _ => false end.

(** [64 - __builtin_clzll(v)] for [v <> 0]. *)
Definition width64 (v : Z) : Z := Z.log2 v + 1.

Definition active_bits_of (ns : list Node) (n : Node) : Z :=
  match kind n with
  | K_CONST => if const_value n =? 0 then 0 else width64 (wrap64 (const_value n))
  | K_LOAD => 64
  | K_GT | K_LT =>
      match right n ≫= (fun r => ns !! r) with
      | Some rn => if decide (kind rn = K_CONST) then Z.max 10 (active_bits rn) else 64
      | None => 64
      end
  | _ => active_bits n
  end.

(** The body of [analyze] after the children's visits. *)
Definition visit (i : nat) (st : list Node * ExpressionAnalyzer) :
    option (list Node * ExpressionAnalyzer) :=
  let '(ns, an) := st in
  n ← ns !! i;
  let k := kind n in
  Some (<[i := set_analysis (result_of k) (active_bits_of ns n) n]> ns,
    {| node_map := <[i := length (all_nodes an)]> (node_map an);
       arithmetic_nodes :=
         if negb (is_select k) && negb (is_cmp k || is_logic k)
         then arithmetic_nodes an ++ [i] else arithmetic_nodes an;
       comparison_nodes :=
         if is_cmp k || is_logic k then comparison_nodes an ++ [i] else comparison_nodes an;
       select_nodes := if is_select k then select_nodes an ++ [i] else select_nodes an;
       all_nodes := all_nodes an ++ [i] |}).

(** [fuel] bounds the depth of the recursion; a cyclic graph exhausts it. *)
Fixpoint analyze (fuel : nat) (node : ptr) (st : list Node * ExpressionAnalyzer) :
    option (list Node * ExpressionAnalyzer) :=
  match node with
  | None => Some st
  | Some i =>
      match fuel with
      | O => None
      | S fuel =>
          match node_map (snd st) !! i with
          | Some _ => Some st
          | None =>
              n ← fst st !! i;
              st ← analyze fuel (left n) st;
              st ← analyze fuel (right n) st;
              st ← analyze fuel (cond n) st;
              st ← foldl (fun o op => st ← o; analyze fuel op st) (Some st) (operands n);
              visit i st
          end
      end
  end.

(** ** What the analyzer establishes *)

(** [child ns i j]: node [i] has [j] among its children. *)
Definition child (ns : list Node) (i j : nat) : Prop :=
  exists n, ns !! i = Some n /\ Some j ∈ children n.

Definition reach (ns : list Node) : nat -> nat -> Prop := rtc (child ns).

(** [topo ns l]: [l] lists nodes without repetition, children before parents. *)
Inductive topo (ns : list Node) : list nat -> Prop :=
  | topo_nil : topo ns []
  | topo_snoc l i n :
      topo ns l -> ns !! i = Some n -> i ∉ l ->
      (forall c, Some c ∈ children n -> c ∈ l) -> topo ns (l ++ [i]).

(** [analyzed n0 n]: the analyzer changed nothing but the two fields it sets. *)
Definition analyzed (n0 n : Node) : Prop := exists r a, n = set_analysis r a n0.

Record an_inv (ns0 : list Node) (st : list Node * ExpressionAnalyzer) : Prop := {
  ai_shape : Forall2 analyzed ns0 (fst st);
  ai_topo : topo ns0 (all_nodes (snd st));
  ai_map : forall i, is_Some (node_map (snd st) !! i) <-> i ∈ all_nodes (snd st);
  ai_kind : forall i n, i ∈ all_nodes (snd st) -> fst st !! i = Some n -> result_kind n = result_of (kind n);
  ai_arith : forall i n, fst st !! i = Some n ->
    (i ∈ arithmetic_nodes (snd st) <-> i ∈ all_nodes (snd st) /\
      is_select (kind n) = false /\ result_of (kind n) = BITPLANE);
  ai_count : (length (arithmetic_nodes (snd st)) <= length (all_nodes (snd st)))%nat
}.

Lemma analyzed_refl n : analyzed n n.
Proof. exists (result_kind n), (active_bits n). by destruct n. Qed.

Lemma analyzed_set r a n0 n : analyzed n0 n -> analyzed n0 (set_analysis r a n).
Proof. intros (r' & a' & ->). by exists r, a. Qed.

Lemma analyzed_children n0 n : analyzed n0 n -> children n = children n0.
Proof. by intros (r & a & ->). Qed.

Lemma analyzed_kind n0 n : analyzed n0 n -> kind n = kind n0.
Proof. by intros (r & a & ->). Qed.

Lemma reach_le ns i j : wf_nodes ns -> reach ns i j -> (j <= i)%nat.
Proof.
  intros Hwf. induction 1 as [|i k j (n & Hi & Hk) _ IH]; [done|].
  pose proof (Hwf i n Hi) as Hf. rewrite Forall_forall in Hf.
  specialize (Hf _ Hk). simpl in Hf. lia.
Qed.

Lemma topo_NoDup ns l : topo ns l -> NoDup l.
Proof.
  induction 1 as [|l i n _ IH _ Hni _]; [constructor|].
  apply NoDup_app. split_and!; [done | set_solver | apply NoDup_singleton].
Qed.

(** The nodes before an occurrence contain its children. *)
Lemma topo_lookup ns l i n c :
  topo ns l -> i ∈ l -> ns !! i = Some n -> Some c ∈ children n -> c ∈ l.
Proof.
  induction 1 as [|l j m Ht IH Hj Hnj Hc]; intros Hi Hn Hin; [set_solver|].
  apply elem_of_app in Hi as [Hi|Hi]; [set_solver|].
  apply list_elem_of_singleton in Hi as ->. simplify_eq. set_solver.
Qed.

Lemma topo_split ns l i rest :
  topo ns (l ++ i :: rest) ->
  i ∉ l /\ (forall n c, ns !! i = Some n -> Some c ∈ children n -> c ∈ l).
Proof.
  induction rest as [|j rest IH] using rev_ind; intros Ht.
  - inversion Ht as [Hnil|l' i' n' Ht' Hn' Hni' Hc' Heq].
    + by destruct l.
    + apply app_inj_tail in Heq as [-> ->]. split; [done|]. intros n c Hn Hin. simplify_eq. by apply Hc'.
  - inversion Ht as [Hnil|l' i' n' Ht' Hn' Hni' Hc' Heq].
    + by destruct l.
    + rewrite app_comm_cons, app_assoc in Heq. apply app_inj_tail in Heq as [-> ->]. by apply IH.
Qed.

Section Analyze.
Variable ns0 : list Node.
Hypothesis Hwf : wf_nodes ns0.

Definition analyze_list (fuel : nat) (ps : list ptr) (st : list Node * ExpressionAnalyzer) :=
  foldl (fun o op => st ← o; analyze fuel op st) (Some st) ps.

Lemma analyze_list_none fuel ps :
  foldl (fun o op => st ← o; analyze fuel op st) None ps = None.
Proof. by induction ps. Qed.

Lemma analyze_list_cons fuel p ps st :
  analyze_list fuel (p :: ps) st = (st ← analyze fuel p st; analyze_list fuel ps st).
Proof.
  unfold analyze_list. cbn [foldl mbind option_bind].
  destruct (analyze fuel p st); [done|]. apply analyze_list_none.
Qed.

(** A visit is the visit of the children in order, then of the node. *)
Lemma analyze_unfold fuel i st n :
  node_map (snd st) !! i = None -> fst st !! i = Some n ->
  analyze (S fuel) (Some i) st = (st ← analyze_list fuel (children n) st; visit i st).
Proof.
  intros Hm Hn. cbn [analyze]. rewrite Hm, Hn. unfold children.
  rewrite !analyze_list_cons. cbn [mbind option_bind].
  destruct (analyze fuel (left n) st) as [st1|]; cbn [mbind option_bind]; [|done].
  rewrite analyze_list_cons.
  destruct (analyze fuel (right n) st1) as [st2|]; cbn [mbind option_bind]; [|done].
  rewrite analyze_list_cons.
  by destruct (analyze fuel (cond n) st2) as [st3|]; cbn [mbind option_bind].
Qed.

Lemma visit_inv i st n :
  an_inv ns0 st -> ns0 !! i = Some n -> i ∉ all_nodes (snd st) ->
  (forall c, Some c ∈ children n -> c ∈ all_nodes (snd st)) ->
  exists st', visit i st = Some st' /\ an_inv ns0 st' /\
    all_nodes (snd st') = all_nodes (snd st) ++ [i].
Proof.
  intros [Hs Ht Hm Hk Ha Hcnt] Hn Hi Hc. destruct st as [ns an]. cbn [fst snd] in *.
  destruct (Forall2_lookup_l _ _ _ _ _ Hs Hn) as (n' & Hn' & Han).
  unfold visit. rewrite Hn'. cbn [mbind option_bind]. eexists. split; [reflexivity|].
  pose proof (lookup_lt_Some _ _ _ Hn') as Hlt.
  split; [|done]. split; cbn [fst snd all_nodes node_map arithmetic_nodes].
  - apply Forall2_lookup. intros j. destruct (decide (j = i)) as [->|Hne].
    + rewrite list_lookup_insert_eq, Hn by done. constructor. by apply analyzed_set.
    + rewrite list_lookup_insert_ne by done. by apply Forall2_lookup.
  - by apply topo_snoc with n.
  - intros j. rewrite elem_of_app, list_elem_of_singleton, <- Hm.
    rewrite lookup_insert. case_decide; naive_solver.
  - intros j m. rewrite elem_of_app, list_elem_of_singleton.
    destruct (decide (j = i)) as [->|Hne].
    + rewrite list_lookup_insert_eq by done. intros _ [= <-]. done.
    + rewrite list_lookup_insert_ne by done. intros [Hj|]; [by eapply Hk|done].
  - intros j m Hj. destruct (decide (j = i)) as [->|Hne].
    + rewrite list_lookup_insert_eq in Hj by done. injection Hj as <-.
      cbn [kind set_analysis]. unfold result_of.
      specialize (Ha i n' Hn'). destruct (is_select (kind n')) eqn:E1; cbn [negb andb].
      * rewrite elem_of_app, list_elem_of_singleton. naive_solver.
      * destruct (is_cmp (kind n') || is_logic (kind n')) eqn:E2; cbn [negb];
          rewrite !elem_of_app, !list_elem_of_singleton; naive_solver.
    + rewrite list_lookup_insert_ne in Hj by done. specialize (Ha j m Hj).
      destruct (_ && _); rewrite ?elem_of_app, ?list_elem_of_singleton; naive_solver.
  - destruct (_ && _); rewrite ?length_app; cbn [length]; lia.
Qed.

(** [grows ps st st']: the analysis went on, and the nodes it added are
    reachable from [ps], which are all listed. *)
Definition grows (ps : list ptr) (st st' : list Node * ExpressionAnalyzer) : Prop :=
  (exists l, all_nodes (snd st') = all_nodes (snd st) ++ l /\
     forall j, j ∈ l -> exists c, Some c ∈ ps /\ reach ns0 c j) /\
  (forall c, Some c ∈ ps -> c ∈ all_nodes (snd st')).

Lemma grows_cons p ps st st1 st2 :
  grows [p] st st1 -> grows ps st1 st2 -> grows (p :: ps) st st2.
Proof.
  intros [(l1 & E1 & R1) C1] [(l2 & E2 & R2) C2]. split.
  - exists (l1 ++ l2). split; [by rewrite E2, E1, app_assoc|].
    intros j [Hj|Hj]%elem_of_app.
    + destruct (R1 j Hj) as (c & Hc & Hr). exists c. set_solver.
    + destruct (R2 j Hj) as (c & Hc & Hr). exists c. set_solver.
  - intros c [Hc|Hc]%elem_of_cons; [|by apply C2].
    rewrite E2. apply elem_of_app. left. apply C1. set_solver.
Qed.

Definition analyze_ok (fuel : nat) (p : ptr) : Prop :=
  forall st, an_inv ns0 st -> ptr_below fuel p -> ptr_below (length ns0) p ->
  exists st', analyze fuel p st = Some st' /\ an_inv ns0 st' /\ grows [p] st st'.

Lemma analyze_list_ok fuel ps st :
  (forall p, analyze_ok fuel p) -> an_inv ns0 st ->
  Forall (ptr_below fuel) ps -> Forall (ptr_below (length ns0)) ps ->
  exists st', analyze_list fuel ps st = Some st' /\ an_inv ns0 st' /\ grows ps st st'.
Proof.
  intros Hok. revert st. induction ps as [|p ps IH]; intros st Hst Hf Hl.
  - exists st. split_and!; [done..|]. split; [exists []; rewrite app_nil_r|]; set_solver.
  - inversion_clear Hf; inversion_clear Hl.
    destruct (Hok p st) as (st1 & E1 & I1 & G1); [done..|].
    destruct (IH st1) as (st2 & E2 & I2 & G2); [done..|].
    exists st2. split_and!; [|done | by eapply grows_cons].
    rewrite analyze_list_cons, E1. done.
Qed.

Lemma analyze_all_ok fuel p : analyze_ok fuel p.
Proof.
  revert p. induction fuel as [|fuel IH]; intros [i|] st Hst Hf Hl; simpl in Hf, Hl; try lia.
  1, 3: exists st; split_and!; [done..|]; split; [exists []; rewrite app_nil_r|]; set_solver.
  destruct (lookup_lt_is_Some_2 ns0 i Hl) as [n Hn].
  destruct (Forall2_lookup_l _ _ _ _ _ (ai_shape _ _ Hst) Hn) as (n' & Hn' & Han).
  destruct (node_map (snd st) !! i) as [k|] eqn:Hm.
  - exists st. cbn [analyze]. rewrite Hm. split_and!; [done..|].
    split; [exists []; rewrite app_nil_r; set_solver|].
    intros c [= ->]%list_elem_of_singleton. apply (ai_map _ _ Hst). by rewrite Hm.
  - rewrite (analyze_unfold fuel i st n') by done.
    rewrite (analyzed_children n n') by done.
    pose proof (Hwf i n Hn) as Hch.
    destruct (analyze_list_ok fuel (children n) st) as (st1 & E1 & I1 & [(l & El & Rl) Cl]); try done.
    { eapply Forall_impl; [exact Hch|]. intros p. apply ptr_below_le. lia. }
    { eapply Forall_impl; [exact Hch|]. intros p. apply ptr_below_le. lia. }
    rewrite E1. cbn [mbind option_bind].
    assert (i ∉ all_nodes (snd st1)) as Hni.
    { rewrite El, elem_of_app. intros [Hi|Hi].
      - apply (ai_map _ _ Hst) in Hi. rewrite Hm in Hi. by destruct Hi.
      - destruct (Rl i Hi) as (c & Hc & Hr). apply reach_le in Hr; [|done].
        rewrite Forall_forall in Hch. specialize (Hch _ Hc). simpl in Hch. lia. }
    destruct (visit_inv i st1 n I1 Hn Hni Cl) as (st2 & E2 & I2 & A2).
    exists st2. split_and!; [done..|]. split.
    + exists (l ++ [i]). split; [by rewrite A2, El, app_assoc|].
      intros j Hj. exists i. split; [set_solver|].
      apply elem_of_app in Hj as [Hj|Hj].
      * destruct (Rl j Hj) as (c & Hc & Hr). apply rtc_l with c; [|done]. by exists n.
      * apply list_elem_of_singleton in Hj as ->. apply rtc_refl.
    + intros c [= ->]%list_elem_of_singleton. rewrite A2. set_solver.
Qed.

End Analyze.

Lemma an_inv_init ns : an_inv ns (ns, analyzer_init).
Proof.
  split; cbn.
  - apply Forall_Forall2_diag, Forall_forall. intros n _. apply analyzed_refl.
  - constructor.
  - intros i. rewrite lookup_empty. split; [by intros [? ?]|set_solver].
  - set_solver.
  - set_solver.
  - lia.
Qed.

(** From the empty analyzer, everything at once. *)
Lemma analyze_init ns root :
  wf_nodes ns -> (root < length ns)%nat ->
  exists st, analyze (length ns) (Some root) (ns, analyzer_init) = Some st /\
    an_inv ns st /\ (forall j, j ∈ all_nodes (snd st) <-> reach ns root j).
Proof.
  intros Hwf Hr.
  destruct (analyze_all_ok ns Hwf (length ns) (Some root) (ns, analyzer_init))
    as (st & E & I & [(l & El & Rl) C]); [apply an_inv_init|done..|].
  exists st. split_and!; [done..|]. intros j. split.
  - rewrite El. cbn. intros Hj. destruct (Rl j Hj) as (c & Hc & Hreach).
    apply list_elem_of_singleton in Hc. by simplify_eq.
  - intros Hreach. assert (root ∈ all_nodes (snd st)) as H0 by (apply C; set_solver).
    revert H0. clear -I Hreach. induction Hreach as [|i k j (n & Hi & Hk) _ IH]; [done|].
    intros H0. apply IH. by eapply (topo_lookup ns); [apply I|..].
Qed.

(** ** Properties *)

(** C28: on an acyclic graph the analysis terminates (with fuel the number of
    nodes of the pool) and lists exactly the nodes reachable from the root, each
    once, children before parents; apart from [result_kind] and [active_bits] it
    leaves every node as it was, and the BITMASK nodes are exactly the
    comparisons and the logic nodes. *)
Theorem analyze_topological ns root :
  wf_nodes ns -> (root < length ns)%nat ->
  exists ns' an, analyze (length ns) (Some root) (ns, analyzer_init) = Some (ns', an) /\
    NoDup (all_nodes an) /\
    (forall j, j ∈ all_nodes an <-> reach ns root j) /\
    (forall l1 i l2 n c, all_nodes an = l1 ++ i :: l2 -> ns !! i = Some n -> Some c ∈ children n -> c ∈ l1) /\
    Forall2 analyzed ns ns' /\
    (forall i n, i ∈ all_nodes an -> ns' !! i = Some n ->
       (result_kind n = BITMASK <-> is_cmp (kind n) || is_logic (kind n) = true)).
Proof.
  intros Hwf Hr. destruct (analyze_init ns root Hwf Hr) as ([ns' an] & E & I & R).
  exists ns', an. split_and!; [done | eapply topo_NoDup, I | done | | apply I |].
  - intros l1 i l2 n c Heq Hi Hc. pose proof (ai_topo _ _ I) as Ht. cbn [snd] in Ht. rewrite Heq in Ht.
    by eapply topo_split.
  - intros i n Hi Hn. rewrite (ai_kind _ _ I i n Hi Hn). unfold result_of.
    by destruct (is_cmp (kind n) || is_logic (kind n)).
Qed.

Lemma analyze_topological_witness :
  exists ns' an, analyze (length demo_nodes) (Some 7%nat) (demo_nodes, analyzer_init) = Some (ns', an) /\
    NoDup (all_nodes an) /\
    (forall j, j ∈ all_nodes an <-> reach demo_nodes 7 j) /\
    (forall l1 i l2 n c, all_nodes an = l1 ++ i :: l2 -> demo_nodes !! i = Some n -> Some c ∈ children n -> c ∈ l1) /\
    Forall2 analyzed demo_nodes ns' /\
    (forall i n, i ∈ all_nodes an -> ns' !! i = Some n ->
       (result_kind n = BITMASK <-> is_cmp (kind n) || is_logic (kind n) = true)).
Proof.
  apply (analyze_topological demo_nodes 7).
  - apply wf_nodesb_spec. by vm_compute.
  - apply Nat.ltb_lt. by vm_compute.
Defined.

(** The constant pool returns, for every constant, the 64 planes of a column
    whose 64 rows all hold the constant modulo 2^64, whether the entry was
    cached or not, and stays consistent. *)
Theorem const_pool_planes c pools r :
  ConstPool.wf pools -> (r < 64)%nat ->
  row_value (fun b => (ConstPool.get_or_create c pools).2 !!! b) r = wrap64 c /\
  ConstPool.wf (ConstPool.get_or_create c pools).1 /\
  (ConstPool.get_or_create c pools).1 !! c = Some (ConstPool.get_or_create c pools).2.
Proof.
  intros Hwf Hr. destruct (ConstPool.get_or_create_wf c pools Hwf) as [H1 H2]. split_and!; [|done|].
  - rewrite H2. apply u64_eq_nbits; [apply row_value_u64 | apply wrap64_u64 |]. intros b Hb.
    rewrite row_value_bit, ConstPool.bit_planes_bit, wrap64_bits by (done || lia). done.
  - unfold ConstPool.get_or_create. destruct (pools !! c) eqn:E; simpl; [done|]. apply lookup_insert_eq.
Qed.

Lemma const_pool_planes_witness :
  row_value (fun b => (ConstPool.get_or_create (-5) ∅).2 !!! b) 9 = wrap64 (-5) /\
  ConstPool.wf (ConstPool.get_or_create (-5) ∅).1 /\
  (ConstPool.get_or_create (-5) ∅).1 !! (-5) = Some (ConstPool.get_or_create (-5) ∅).2.
Proof.
  apply (const_pool_planes (-5) ∅ 9).
  - intros c planes H. by rewrite lookup_empty in H.
  - lia.
Defined.
