(* ===== verification/ExprCompiler.v ===== *)
(** * The bit-sliced expression compiler
      ([JitCompiler::compile_expression] of src/jit/compiler.cpp)

    The compiler analyses the graph, numbers the fields, reserves scratch slots
    and carry registers, and then emits, for every node in topological order,
    straight-line code that computes the node's result for 64 rows: 64 planes
    in scratch memory for an arithmetic node, one mask for a boolean one.  The
    model returns the emitted instructions.  This file holds the definitions
    and the properties of the allocation; ExprCorrect.v proves the emitted code
    correct. *)

From S2P Require Import Prelude Planes IR A64 Circuits Analyzer.

#[export] Instance Node_inhabited : Inhabited Node := populate Node_init.

(** Nodes on the analyzer's lists exist: they are read totally. *)
Abbreviation node ns i := (ns !!! i).

(** ** Field indices and constants *)

Record field_pass := mkFP { fp_nodes : list Node; fp_idx : gmap string Z; fp_ok : bool }.

(** One iteration of the loop over the LOAD nodes; [fp_ok] is false after
    [return nullptr]. *)
Definition assign_field (st : field_pass) (i : nat) : field_pass :=
  let n := node (fp_nodes st) i in
  if negb (fp_ok st) then st
  else if decide (kind n = K_LOAD) then
    match fp_idx st !! field_name n with
    | Some k => mkFP (<[i := set_field_idx k n]> (fp_nodes st)) (fp_idx st) true
    | None =>
        if (128 <=? size (fp_idx st))%nat then mkFP (fp_nodes st) (fp_idx st) false
        else
          let k := Z.of_nat (size (fp_idx st)) in
          mkFP (<[i := set_field_idx k n]> (fp_nodes st)) (<[field_name n := k]> (fp_idx st)) true
    end
  else st.

Definition assign_fields (arith : list nat) (ns : list Node) : field_pass :=
  foldl assign_field (mkFP ns ∅ true) arith.

Definition assign_const (st : list Node * ConstPool.t) (i : nat) : list Node * ConstPool.t :=
  let n := node (fst st) i in
  if decide (kind n = K_CONST) then
    (<[i := set_field_idx (-2) n]> (fst st), (ConstPool.get_or_create (const_value n) (snd st)).1)
  else st.

Definition assign_consts (arith : list nat) (ns : list Node) (pools : ConstPool.t) :=
  foldl assign_const (ns, pools) arith.

(** ** Slots and carry registers *)

Record alloc_pass := mkAP {
  ap_nodes : list Node;
  ap_used : list bool;
  ap_carry : Z;
  ap_ok : bool
}.

Definition alloc_node (st : alloc_pass) (i : nat) : alloc_pass :=
  let n := node (ap_nodes st) i in
  if negb (ap_ok st) then st
  else if is_leaf (kind n) then st
  else
    let '(used1, slot) :=
      if decide (result_kind n = BITPLANE) then ScratchpadManager.alloc_block (ap_used st)
      else ScratchpadManager.alloc_slot (ap_used st) in
    let n1 := set_slots slot (eq_slot_id n) (carry_reg n) n in
    let ns1 := <[i := n1]> (ap_nodes st) in
    if slot <? 0 then mkAP ns1 used1 (ap_carry st) false
    else
      let '(used2, eq_slot) :=
        if is_cmp (kind n) then ScratchpadManager.alloc_slot used1 else (used1, eq_slot_id n) in
      let n2 := set_slots slot eq_slot (carry_reg n) n in
      let ns2 := <[i := n2]> (ap_nodes st) in
      if is_cmp (kind n) && (eq_slot <? 0) then mkAP ns2 used2 (ap_carry st) false
      else if is_arith (kind n) && (ap_carry st <? 6) then
        mkAP (<[i := set_slots slot eq_slot (ap_carry st) n]> (ap_nodes st)) used2 (ap_carry st + 1) true
      else mkAP ns2 used2 (ap_carry st) true.

Definition alloc_nodes (all : list nat) (ns : list Node) : alloc_pass :=
  foldl alloc_node (mkAP ns ScratchpadManager.init 0 true) all.

(** ** Registers *)

Abbreviation field_planes_ptr := 19%nat.
Abbreviation scratch_ptr := 20%nat.
Abbreviation bit_index := 21%nat.
Abbreviation temp_ptr := 22%nat.
Abbreviation plane_a := 2%nat.
Abbreviation plane_b := 3%nat.
Abbreviation result := 4%nat.
Abbreviation mask_gt := 5%nat.
Abbreviation mask_eq := 6%nat.
Abbreviation scratch1 := 7%nat.
Abbreviation hoisted_left := 16%nat.
Abbreviation hoisted_right := 17%nat.

Definition carry_regs : list nat := [23; 24; 25; 26; 27; 28]%nat.
Definition cache_regs : list nat := [8; 9; 10; 11; 12; 13; 14; 15]%nat.

(** [carry_regs[k]]: out of bounds is undefined. *)
Definition carry_reg_of (k : Z) : option nat :=
  if 0 <=? k then carry_regs !! Z.to_nat k else None.

(** [static_cast<uint64_t>(slot) * 8]. *)
Definition slot_offset (slot : Z) : Z := wrap64 (wrap64 slot * 8).

(** ** The register cache of mask slots *)

Module ScratchpadCache.

Record t := mk {
  next_reg : nat;
  slot_to_reg : gmap Z nat;
  reg_to_slot : list Z
}.

Definition init : t := mk 0 ∅ (replicate 8 (-1)).

(** Take the next register, evicting the slot it holds, for [slot]. *)
Definition claim (slot : Z) (c : t) : nat * t :=
  let r_idx := next_reg c in
  let old_slot := reg_to_slot c !!! r_idx in
  let s2r := if old_slot =? -1 then slot_to_reg c else delete old_slot (slot_to_reg c) in
  (r_idx, mk ((next_reg c + 1) mod 8) (<[slot := r_idx]> s2r) (<[r_idx := slot]> (reg_to_slot c))).

Definition store_slot (slot : Z) (val_reg : nat) (c : t) : list instr * t :=
  let '(r_idx, c') :=
    match slot_to_reg c !! slot with
    | Some r => (r, mk (next_reg c) (<[slot := r]> (slot_to_reg c)) (<[r := slot]> (reg_to_slot c)))
    | None => claim slot c
    end in
  (emit_mov_imm64 temp_ptr (slot_offset slot) ++
   [ I_str val_reg (Idx scratch_ptr temp_ptr);
     I_mov (cache_regs !!! r_idx) val_reg ], c').

Definition load_slot (slot : Z) (dest_reg : nat) (c : t) : list instr * t :=
  match slot_to_reg c !! slot with
  | Some r => ([ I_mov dest_reg (cache_regs !!! r) ], c)
  | None =>
      let '(r_idx, c') := claim slot c in
      (emit_mov_imm64 temp_ptr (slot_offset slot) ++
       [ I_ldr dest_reg (Idx scratch_ptr temp_ptr);
         I_mov (cache_regs !!! r_idx) dest_reg ], c')
  end.

End ScratchpadCache.

(** ** Code for one node *)

Definition emit_load_op (op : Node) (reg : nat) : list instr :=
  match kind op with
  | K_LOAD =>
      [ I_ldr temp_ptr (Off field_planes_ptr (field_idx op * 8));
        I_ldr reg (IdxLsl3 temp_ptr bit_index) ]
  | K_CONST =>
      emit_mov_imm64 scratch1 (wrap64 (const_value op)) ++
      [ I_lsr reg scratch1 bit_index; I_andi reg reg 1; I_neg reg reg ]
  | _ =>
      emit_mov_imm64 scratch1 (slot_offset (slot_id op)) ++
      [ I_add_lsl3 scratch1 scratch1 bit_index; I_ldr reg (Idx scratch_ptr scratch1) ]
  end.

(** The base of an operand, loaded once per node. *)
Definition hoist (op : Node) (h : nat) : list instr :=
  match kind op with
  | K_LOAD => [ I_ldr h (Off field_planes_ptr (field_idx op * 8)) ]
  | K_CONST => emit_mov_imm64 h (wrap64 (const_value op))
  | _ => emit_mov_imm64 h (slot_offset (slot_id op)) ++ [ I_add h h scratch_ptr ]
  end.

(** Plane [bit] of an operand. *)
Definition load_bit (op : Node) (dst h : nat) (bit : nat) : list instr :=
  match kind op with
  | K_CONST =>
      if Z.land (Z.shiftr (wrap64 (const_value op)) (Z.of_nat bit)) 1 =? 0
      then [ I_mov dst xzr ] else [ I_mvn dst xzr ]
  | _ => [ I_ldr dst (Off h (Z.of_nat bit * 8)) ]
  end.

Definition emit_arith_bit (n l r : Node) (carry : nat) (bit : nat) : list instr :=
  load_bit l plane_a hoisted_left bit ++
  load_bit r plane_b hoisted_right bit ++
  (if decide (kind n = K_SUB) then [ I_mvn plane_b plane_b ] else []) ++
  [ I_eor result plane_a plane_b;
    I_eor scratch1 result carry;
    I_and plane_a plane_a plane_b;
    I_and result result carry;
    I_orr carry plane_a result;
    I_str scratch1 (Off temp_ptr (Z.of_nat bit * 8)) ].

Definition emit_arith (n l r : Node) (carry active_bits : nat) : list instr :=
  [ I_movi carry (if decide (kind n = K_SUB) then 1 else 0) ] ++
  hoist l hoisted_left ++ hoist r hoisted_right ++
  emit_mov_imm64 temp_ptr (slot_offset (slot_id n)) ++
  [ I_add temp_ptr temp_ptr scratch_ptr ] ++
  mjoin (emit_arith_bit n l r carry <$> seq 0 active_bits).

(** [GT]/[GE]/[EQ] compare left with right, [LT]/[LE] the other way round. *)
Definition swapped (k : NodeKind) : bool :=
  match k with K_LT | K_LE => true | _ => false end.

Definition emit_cmp_bit (n l r : Node) (bit : nat) : list instr :=
  let '(op_a, h_a, op_b, h_b) :=
    if swapped (kind n) then (r, hoisted_right, l, hoisted_left)
    else (l, hoisted_left, r, hoisted_right) in
  load_bit op_a plane_a h_a bit ++
  load_bit op_b plane_b h_b bit ++
  [ I_bic result plane_a plane_b;
    I_and result result mask_eq;
    I_orr mask_gt mask_gt result;
    I_eor result plane_a plane_b;
    I_bic mask_eq mask_eq result ].

Definition emit_cmp (n l r : Node) (active_bits : nat) (c : ScratchpadCache.t) :
    list instr * ScratchpadCache.t :=
  let '(c1, c) := ScratchpadCache.load_slot (eq_slot_id n) mask_eq c in
  let '(c2, c) := ScratchpadCache.load_slot (slot_id n) mask_gt c in
  let '(c3, c) := ScratchpadCache.store_slot (slot_id n) mask_gt c in
  let '(c4, c) := ScratchpadCache.store_slot (eq_slot_id n) mask_eq c in
  let code :=
    c1 ++ c2 ++ hoist l hoisted_left ++ hoist r hoisted_right ++
    mjoin (emit_cmp_bit n l r <$> rev (seq 0 active_bits)) ++ c3 ++ c4 in
  match kind n with
  | K_GE | K_LE | K_EQ =>
      let '(c5, c) := ScratchpadCache.load_slot (slot_id n) plane_a c in
      let '(c6, c) := ScratchpadCache.load_slot (eq_slot_id n) plane_b c in
      let '(c7, c) := ScratchpadCache.store_slot (slot_id n) result c in
      (code ++ c5 ++ c6 ++
       [ if decide (kind n = K_EQ) then I_mov result plane_b else I_orr result plane_a plane_b ] ++
       c7, c)
  | _ => (code, c)
  end.

(** A missing right operand makes the node a NOT, whatever its kind. *)
Definition emit_logic (n l : Node) (r : option Node) (c : ScratchpadCache.t) :
    list instr * ScratchpadCache.t :=
  let '(c1, c) := ScratchpadCache.load_slot (slot_id l) plane_a c in
  let '(c2, c) :=
    match r with
    | Some r =>
        let '(c2, c) := ScratchpadCache.load_slot (slot_id r) plane_b c in
        (c2 ++ [ if decide (kind n = K_AND) then I_and result plane_a plane_b
                 else I_orr result plane_a plane_b ], c)
    | None => ([ I_mvn result plane_a ], c)
    end in
  let '(c3, c) := ScratchpadCache.store_slot (slot_id n) result c in
  (c1 ++ c2 ++ c3, c).

Definition emit_select_bit (n l r : Node) (bit : nat) : list instr :=
  [ I_movi bit_index (Z.of_nat bit) ] ++
  emit_load_op l plane_a ++ emit_load_op r plane_b ++
  [ I_and scratch1 mask_gt plane_a;
    I_bic temp_ptr plane_b mask_gt;
    I_orr scratch1 scratch1 temp_ptr ] ++
  emit_mov_imm64 temp_ptr (wrap64 (slot_offset (slot_id n) + Z.of_nat bit * 8)) ++
  [ I_str scratch1 (Idx scratch_ptr temp_ptr) ].

Definition emit_select (n c l r : Node) (active_bits : nat) (ca : ScratchpadCache.t) :
    list instr * ScratchpadCache.t :=
  let '(c1, ca) := ScratchpadCache.load_slot (slot_id c) mask_gt ca in
  (c1 ++ mjoin (emit_select_bit n l r <$> seq 0 active_bits), ca).

(** One iteration of the main loop; [None] is undefined behaviour: a null
    operand, or a carry register that was never assigned. *)
Definition emit_node (ns : list Node) (active_bits : nat) (i : nat) (c : ScratchpadCache.t) :
    option (list instr * ScratchpadCache.t) :=
  let n := node ns i in
  if skip_jit n then Some ([], c)
  else if is_arith (kind n) then
    carry ← carry_reg_of (carry_reg n);
    l ← left n; r ← right n;
    Some (emit_arith n (node ns l) (node ns r) carry active_bits, c)
  else if is_cmp (kind n) then
    l ← left n; r ← right n;
    Some (emit_cmp n (node ns l) (node ns r) active_bits c)
  else if is_logic (kind n) then
    l ← left n;
    Some (emit_logic n (node ns l) ((fun r => node ns r) <$> right n) c)
  else if decide (kind n = K_SELECT) then
    x ← cond n; l ← left n; r ← right n;
    Some (emit_select n (node ns x) (node ns l) (node ns r) active_bits c)
  else Some ([], c).

Definition emit_nodes (ns : list Node) (active_bits : nat) (all : list nat) :
    option (list instr * ScratchpadCache.t) :=
  foldl (fun o i =>
    '(code, c) ← o;
    '(code', c') ← emit_node ns active_bits i c;
    Some (code ++ code', c')) (Some ([], ScratchpadCache.init)) all.

(** ** The whole function *)

Definition prologue : list instr :=
  [ I_stp_pre 29 30 sp (-16);
    I_mov 29 sp;
    I_stp_pre 19 20 sp (-16);
    I_stp_pre 21 22 sp (-16);
    I_stp_pre 23 24 sp (-16);
    I_stp_pre 25 26 sp (-16);
    I_stp_pre 27 28 sp (-16);
    I_mov field_planes_ptr 0;
    I_mov scratch_ptr 1 ]%nat ++
  ((fun r => I_movi r 0) <$> carry_regs).

(** The masks of the comparisons start at 0 (greater) and all ones (equal). *)
Definition init_node (ns : list Node) (i : nat) : option (list instr) :=
  let n := node ns i in
  carry ← (if (0 <=? carry_reg n) && bool_decide (kind n = K_SUB) then
             r ← carry_reg_of (carry_reg n); Some [ I_movi r 1 ]
           else Some []);
  Some (carry ++
    if (0 <=? slot_id n) && bool_decide (result_kind n = BITMASK) then
      emit_mov_imm64 temp_ptr (slot_offset (slot_id n)) ++
      [ I_str xzr (Idx scratch_ptr temp_ptr) ] ++
      (if 0 <=? eq_slot_id n then
         emit_mov_imm64 temp_ptr (slot_offset (eq_slot_id n)) ++
         [ I_movi scratch1 (-1); I_str scratch1 (Idx scratch_ptr temp_ptr) ]
       else [])
    else []).

Definition init_nodes (ns : list Node) (all : list nat) : option (list instr) :=
  foldl (fun o i => code ← o; code' ← init_node ns i; Some (code ++ code')) (Some []) all.

(** The final result: the root's mask in [x0], or its planes at slots 0 to 63. *)
Definition final_code (root : Node) : list instr :=
  if skip_jit root then [ I_movi 0 0 ]
  else match result_kind root with
  | BITPLANE =>
      emit_mov_imm64 temp_ptr (slot_offset (slot_id root)) ++
      mjoin ((fun i : nat =>
        [ I_ldr result (Idx scratch_ptr temp_ptr);
          I_str result (Off scratch_ptr (Z.of_nat i * 8));
          I_addi temp_ptr temp_ptr 8 ]) <$> seq 0 64) ++
      [ I_movi 0 0 ]
  | BITMASK =>
      emit_mov_imm64 temp_ptr (slot_offset (slot_id root)) ++
      [ I_ldr 0 (Idx scratch_ptr temp_ptr) ]
  end.

Definition epilogue : list instr :=
  [ I_ldp_post 27 28 sp 16;
    I_ldp_post 25 26 sp 16;
    I_ldp_post 23 24 sp 16;
    I_ldp_post 21 22 sp 16;
    I_ldp_post 19 20 sp 16;
    I_ldp_post 29 30 sp 16 ]%nat.

Inductive compiled := Kernel (code : list instr) | NullKernel | Undefined.

(** The pool's nodes after the call, the constant pool, and the kernel. *)
Definition compile_expression (root : ptr) (active_bits : nat) (ns : list Node)
    (pools : ConstPool.t) : list Node * ConstPool.t * compiled :=
  match root with
  | None => (ns, pools, NullKernel)
  | Some r =>
      match analyze (length ns) root (ns, analyzer_init) with
      | None => (ns, pools, Undefined)
      | Some (ns, an) =>
          let fp := assign_fields (arithmetic_nodes an) ns in
          if negb (fp_ok fp) then (fp_nodes fp, pools, NullKernel)
          else
            let '(ns, pools) := assign_consts (arithmetic_nodes an) (fp_nodes fp) pools in
            let ap := alloc_nodes (all_nodes an) ns in
            let ns := ap_nodes ap in
            if negb (ap_ok ap) then (ns, pools, NullKernel)
            else
              (ns, pools,
               match init_nodes ns (all_nodes an), emit_nodes ns active_bits (all_nodes an) with
               | Some ini, Some (body, _) =>
                   Kernel ((prologue ++ ini ++ body ++ final_code (node ns r) ++ epilogue) ++ [ I_ret 30 ])
               | _, _ => Undefined
               end)
      end
  end.

(** ** The scratchpad hands out free slots *)

Lemma MAX_SLOTS_eq : ScratchpadManager.MAX_SLOTS = Z.to_nat 32768.
Proof. reflexivity. Qed.

#[global] Opaque ScratchpadManager.MAX_SLOTS.

(** [takes u u' P]: the slots of [P] were free in [u] and are taken in [u']; the
    others are as they were. *)
Definition takes (u u' : list bool) (P : nat -> Prop) : Prop :=
  length u' = length u /\
  (forall k, P k -> u !! k = Some false /\ u' !! k = Some true) /\
  (forall k, ~ P k -> u' !! k = u !! k).

Lemma takes_none u P : (forall k, ~ P k) -> takes u u P.
Proof. intros H. split_and!; [done| |done]. intros k Hk. by destruct (H k). Qed.

Lemma takes_ext u u' P Q : (forall k, P k <-> Q k) -> takes u u' P -> takes u u' Q.
Proof. intros H (Hl & H1 & H2). split_and!; [done|..]; intros k Hk; [apply H1 | apply H2]; naive_solver. Qed.

Lemma takes_trans u u1 u2 P Q :
  takes u u1 P -> takes u1 u2 Q -> takes u u2 (fun k => P k \/ Q k) /\ (forall k, P k -> ~ Q k).
Proof.
  intros (L1 & A1 & B1) (L2 & A2 & B2).
  assert (forall k, P k -> ~ Q k) as Hd.
  { intros k HP HQ. destruct (A1 k HP) as [_ E1]. destruct (A2 k HQ) as [E2 _]. congruence. }
  split; [|done]. split_and!; [congruence|..].
  - intros k [HP|HQ].
    + destruct (A1 k HP) as [E1 E1']. split; [done|]. rewrite B2; naive_solver.
    + destruct (A2 k HQ) as [E2 E2']. split; [|done]. rewrite <- B1; naive_solver.
  - intros k Hk. rewrite B2, B1; naive_solver.
Qed.

Lemma first_clear_Some u i : ScratchpadManager.first_clear u = Some i -> u !! i = Some false.
Proof.
  revert i. induction u as [|b u IH]; intros i H; simpl in H; [done|].
  destruct b; [|by simplify_eq].
  destruct (ScratchpadManager.first_clear u) as [j|]; simpl in H; simplify_eq. by apply IH.
Qed.

Lemma alloc_slot_takes u u' id :
  ScratchpadManager.alloc_slot u = (u', id) -> 0 <= id ->
  takes u u' (fun k => Z.of_nat k = id) /\ id < Z.of_nat (length u).
Proof.
  unfold ScratchpadManager.alloc_slot. intros H Hid.
  destruct (ScratchpadManager.first_clear u) as [i|] eqn:E; simplify_eq; [|lia].
  apply first_clear_Some in E. pose proof (lookup_lt_Some _ _ _ E) as Hlt.
  split; [|lia]. split_and!; [by rewrite length_insert|..].
  - intros k Hk. replace k with i by lia. by rewrite list_lookup_insert_eq.
  - intros k Hk. apply list_lookup_insert_ne. lia.
Qed.

Lemma mark_block u i n :
  let u' := foldl (fun u j => <[(i + j)%nat := true]> u) u (seq 0 n) in
  length u' = length u /\
  forall k, u' !! k = if decide (i <= k < i + n)%nat then (if decide (k < length u)%nat then Some true else None)
                      else u !! k.
Proof.
  induction n as [|n [IHl IH]].
  - split; [done|]. intros k. by rewrite decide_False by lia.
  - rewrite seq_S, foldl_app. cbn [foldl Nat.add]. split; [by rewrite length_insert|].
    intros k. rewrite list_lookup_insert, IH, IHl.
    repeat case_decide; try lia; try done. apply lookup_ge_None. lia.
Qed.

Lemma alloc_block_takes u u' id :
  length u = ScratchpadManager.MAX_SLOTS ->
  ScratchpadManager.alloc_block u = (u', id) -> 0 <= id ->
  takes u u' (fun k => id <= Z.of_nat k < id + 64) /\ id + 64 <= Z.of_nat (length u) /\ id mod 64 = 0.
Proof.
  unfold ScratchpadManager.alloc_block. intros Hl H Hid.
  remember (steps 0 (ScratchpadManager.MAX_SLOTS - 64 + 1) 64) as st eqn:Est.
  destruct (find _ st) as [i|] eqn:E; [|injection H as _ <-; lia].
  apply find_some in E as [Hin Hfree]. apply list_elem_of_In in Hin. subst st.
  apply elem_of_steps in Hin as [Hi Hm]; [|apply Nat.lt_0_succ].
  rewrite Nat.sub_0_r in Hm. injection H as <- <-.
  rewrite MAX_SLOTS_eq in *. destruct (mark_block u i 64) as [Hl' Hk'].
  split_and!; [split_and!; [done|..] | lia |].
  - intros k Hk. rewrite Hk', decide_True, decide_True by lia. split; [|done].
    unfold ScratchpadManager.block_free in Hfree. rewrite forallb_forall in Hfree.
    specialize (Hfree (k - i)%nat ltac:(apply in_seq; lia)).
    replace (i + (k - i))%nat with k in Hfree by lia.
    destruct (lookup_lt_is_Some_2 u k) as [b Hb]; [lia|].
    rewrite (list_lookup_total_correct _ _ _ Hb) in Hfree. by destruct b.
  - intros k Hk. rewrite Hk'. apply decide_False. lia.
  - apply Nat.Lcm0.mod_divide in Hm as [q ->]. rewrite Nat2Z.inj_mul. by apply Z.mod_mul.
Qed.

(** ** What the allocation establishes *)

(** The slots a node owns. *)
Definition owned (n : Node) (k : nat) : Prop :=
  is_leaf (kind n) = false /\
  ((result_kind n = BITPLANE /\ slot_id n <= Z.of_nat k < slot_id n + 64) \/
   (result_kind n = BITMASK /\ Z.of_nat k = slot_id n) \/
   (is_cmp (kind n) = true /\ Z.of_nat k = eq_slot_id n)).

(** They lie in the scratch memory, and a comparison's two slots differ. *)
Definition slots_ok (n : Node) : Prop :=
  is_leaf (kind n) = false ->
  0 <= slot_id n /\
  (result_kind n = BITPLANE -> slot_id n + 64 <= 32768 /\ slot_id n mod 64 = 0) /\
  (result_kind n = BITMASK -> slot_id n < 32768) /\
  (is_cmp (kind n) = true -> 0 <= eq_slot_id n < 32768 /\ eq_slot_id n <> slot_id n).

(** [carries_ok n]: an addition or subtraction has a carry register. *)
Definition carries_ok (n : Node) : Prop := is_arith (kind n) = true -> 0 <= carry_reg n < 6.

(** [slotted n0 n]: the allocation changes the slots and nothing else, and the
    second slot of a comparison only. *)
Definition slotted (n0 n : Node) : Prop :=
  exists s e c, n = set_slots s e c n0 /\ (is_cmp (kind n0) = false -> e = eq_slot_id n0).

Lemma slotted_refl n : slotted n n.
Proof. exists (slot_id n), (eq_slot_id n), (carry_reg n). by destruct n. Qed.

(** The first allocation of a node: a block or a slot, by the kind of result. *)
Lemma alloc_first (b : bool) u u' id :
  length u = ScratchpadManager.MAX_SLOTS ->
  (if b then ScratchpadManager.alloc_block u else ScratchpadManager.alloc_slot u) = (u', id) ->
  0 <= id ->
  takes u u' (fun k => id <= Z.of_nat k < id + (if b then 64 else 1)) /\
  id + (if b then 64 else 1) <= 32768 /\ (b = true -> id mod 64 = 0).
Proof.
  intros Hl H Hid. assert (Z.of_nat (length u) = 32768) as HL by (rewrite Hl, MAX_SLOTS_eq; lia).
  destruct b.
  - apply alloc_block_takes in H as (Ht & Hb & Hm); [|done..]. rewrite HL in Hb. done.
  - apply alloc_slot_takes in H as (Ht & Hb); [|done..]. split_and!; [|lia|done].
    eapply takes_ext; [|exact Ht]. intros k. cbv beta. lia.
Qed.

(** The second one, for the comparisons. *)
Lemma alloc_second (b : bool) u u' id e :
  length u = ScratchpadManager.MAX_SLOTS ->
  (if b then ScratchpadManager.alloc_slot u else (u, e)) = (u', id) ->
  b && (id <? 0) = false ->
  takes u u' (fun k => b = true /\ Z.of_nat k = id) /\ (b = true -> 0 <= id < 32768).
Proof.
  intros Hl H Hid. destruct b; cbn [andb] in Hid.
  - apply Z.ltb_ge in Hid. apply alloc_slot_takes in H as (Ht & Hb); [|done].
    rewrite Hl, MAX_SLOTS_eq in Hb. split; [|lia].
    eapply takes_ext; [|exact Ht]. intros k. cbv beta. tauto.
  - injection H as <- <-. split; [|done]. apply takes_none. by intros k [? _].
Qed.

(** One step of the pass, when it does not give up. *)
Lemma alloc_node_spec st i :
  length (ap_used st) = ScratchpadManager.MAX_SLOTS ->
  ap_ok (alloc_node st i) = true ->
  ap_ok st = true /\
  exists n, ap_nodes (alloc_node st i) = <[i := n]> (ap_nodes st) /\
    slotted (node (ap_nodes st) i) n /\ slots_ok n /\
    takes (ap_used st) (ap_used (alloc_node st i)) (owned n).
Proof.
  intros Hl. unfold alloc_node. destruct (ap_ok st) eqn:Eok; cbn [negb]; [|congruence].
  set (n := node (ap_nodes st) i).
  destruct (is_leaf (kind n)) eqn:Eleaf.
  { intros _. split; [done|]. exists n. split_and!.
    - symmetry. apply list_insert_id'. intros Hlt. by apply list_lookup_lookup_total_lt.
    - apply slotted_refl.
    - congruence.
    - apply takes_none. intros k [Hk _]. congruence. }
  destruct (if decide (result_kind n = BITPLANE) then _ else _) as [u1 slot] eqn:E1.
  destruct (Z.ltb_spec slot 0) as [|Hslot]; [done|].
  destruct (if is_cmp (kind n) then _ else _) as [u2 eq_slot] eqn:E2.
  destruct (is_cmp (kind n) && (eq_slot <? 0)) eqn:Eeq; [done|].
  pose proof (alloc_first (bool_decide (result_kind n = BITPLANE)) (ap_used st) u1 slot Hl) as H1.
  rewrite bool_decide_decide in H1.
  destruct H1 as (T1 & B1 & M1); [by destruct (decide _)|done|].
  assert (length u1 = ScratchpadManager.MAX_SLOTS) as Hl1 by (destruct T1 as [-> _]; done).
  destruct (alloc_second _ _ _ _ _ Hl1 E2 Eeq) as (T2 & B2).
  destruct (takes_trans _ _ _ _ _ T1 T2) as (T & D).
  assert (forall n', slotted n n' -> slot_id n' = slot -> eq_slot_id n' = eq_slot ->
    slots_ok n' /\ takes (ap_used st) u2 (owned n')) as Hgen.
  { intros n' (s & e & c & -> & _) Hs He. simpl in Hs, He. subst s e. split.
    - intros _. cbn. destruct (decide (result_kind n = BITPLANE)) as [Hk|Hk].
      + split_and!; [done | by intros; split; [lia | apply M1] | congruence |].
        intros Hc. split; [by apply B2|]. intros ->.
        destruct (D (Z.to_nat slot)); [lia | split; [done|lia]].
      + split_and!; [done | congruence | lia |].
        intros Hc. split; [by apply B2|]. intros ->.
        destruct (D (Z.to_nat slot)); [lia | split; [done|lia]].
    - eapply takes_ext; [|exact T]. intros k. unfold owned. cbn. rewrite Eleaf.
      destruct (decide (result_kind n = BITPLANE)) as [Hk|Hk];
        destruct (result_kind n); try congruence; intuition lia. }
  assert (forall c, slotted n (set_slots slot eq_slot c n)) as Hsl.
  { intros c. exists slot, eq_slot, c. split; [done|]. intros Hc. rewrite Hc in E2. by injection E2. }
  destruct (is_arith (kind n) && (ap_carry st <? 6)); intros _; (split; [done|]);
    eexists; (split; [reflexivity|]); (split; [by apply Hsl|]); cbn [ap_used]; apply Hgen; try done;
    by apply Hsl.
Qed.

(** The carry registers are given out in order to the first six. *)
Lemma alloc_node_carry st i :
  ap_ok (alloc_node st i) = true ->
  let n := node (ap_nodes st) i in
  ap_carry (alloc_node st i) = ap_carry st + Z.b2z (is_arith (kind n) && (ap_carry st <? 6)) /\
  (is_arith (kind n) && (ap_carry st <? 6) = true -> (i < length (ap_nodes st))%nat ->
   carry_reg (node (ap_nodes (alloc_node st i)) i) = ap_carry st).
Proof.
  intros Hok n. revert Hok. unfold alloc_node. fold n.
  destruct (ap_ok st) eqn:Eok; cbn [negb]; [|congruence].
  destruct (is_leaf (kind n)) eqn:Eleaf.
  { intros _. assert (is_arith (kind n) = false) as -> by (by destruct (kind n)).
    split; [simpl; lia|done]. }
  destruct (if decide (result_kind n = BITPLANE) then _ else _) as [u1 slot] eqn:E1.
  destruct (Z.ltb_spec slot 0) as [|Hslot]; [done|].
  destruct (if is_cmp (kind n) then _ else _) as [u2 eq_slot] eqn:E2.
  destruct (is_cmp (kind n) && (eq_slot <? 0)) eqn:Eeq; [done|].
  destruct (is_arith (kind n) && (ap_carry st <? 6)) eqn:Ea; intros _; cbn [ap_carry ap_nodes].
  - split; [done|]. intros _ Hi. by rewrite list_lookup_total_insert_eq.
  - split; [simpl; lia|done].
Qed.

(** After the nodes [done]: they own disjoint slots. *)
Record alloc_inv (ns0 : list Node) (done : list nat) (ns : list Node) (used : list bool) : Prop := {
  av_used_len : length used = ScratchpadManager.MAX_SLOTS;
  av_len : length ns = length ns0;
  av_slotted : forall i, slotted (node ns0 i) (node ns i);
  av_rest : forall i, i ∉ done -> node ns i = node ns0 i;
  av_ok : forall i, i ∈ done -> slots_ok (node ns i);
  av_used : forall i k, i ∈ done -> owned (node ns i) k -> used !! k = Some true;
  av_disj : forall i j k, i ∈ done -> j ∈ done -> i <> j ->
    owned (node ns i) k -> ~ owned (node ns j) k
}.

Lemma alloc_node_ok st i : ap_ok (alloc_node st i) = true -> ap_ok st = true.
Proof. unfold alloc_node. destruct (ap_ok st) eqn:E; cbn [negb]; congruence. Qed.

Lemma alloc_inv_step ns0 done st i :
  alloc_inv ns0 done (ap_nodes st) (ap_used st) -> i ∉ done -> (i < length ns0)%nat ->
  ap_ok (alloc_node st i) = true ->
  alloc_inv ns0 (done ++ [i]) (ap_nodes (alloc_node st i)) (ap_used (alloc_node st i)).
Proof.
  intros I Hi Hlt Hok.
  destruct (alloc_node_spec st i (av_used_len _ _ _ _ I) Hok) as (_ & n & En & Hsl & Hso & T).
  destruct T as (TL & T1 & T2).
  assert (node (ap_nodes (alloc_node st i)) i = n) as Hn.
  { rewrite En. apply list_lookup_total_insert_eq. by rewrite (av_len _ _ _ _ I). }
  assert (forall j, j <> i -> node (ap_nodes (alloc_node st i)) j = node (ap_nodes st) j) as Hne.
  { intros j Hj. rewrite En. by apply list_lookup_total_insert_ne. }
  assert (forall j k, j ∈ done -> owned (node (ap_nodes st) j) k -> ~ owned n k) as Hfresh.
  { intros j k Hj Ho Hon. destruct (T1 k Hon) as [Hf _].
    rewrite (av_used _ _ _ _ I j k Hj Ho) in Hf. done. }
  split.
  - rewrite TL. apply I.
  - rewrite En, length_insert. apply I.
  - intros j. destruct (decide (j = i)) as [->|Hj].
    + rewrite Hn. by rewrite (av_rest _ _ _ _ I) in Hsl by done.
    + rewrite Hne by done. apply I.
  - intros j Hj. rewrite Hne by set_solver. apply I. set_solver.
  - intros j Hj. destruct (decide (j = i)) as [->|Hji]; [by rewrite Hn|].
    rewrite Hne by done. apply I. set_solver.
  - intros j k Hj. destruct (decide (j = i)) as [->|Hji].
    + rewrite Hn. intros Ho. by apply T1.
    + rewrite Hne by done. intros Ho. rewrite T2; [|apply (Hfresh j k); [set_solver|done]].
      eapply (av_used _ _ _ _ I j k); [set_solver|done].
  - intros j k x Hj Hk Hjk.
    destruct (decide (j = i)) as [->|Hji], (decide (k = i)) as [->|Hki]; [done|..].
    + rewrite Hn, Hne by done. intros Ho Ho'. by apply (Hfresh k x); [set_solver|..].
    + rewrite Hn, Hne by done. intros Ho Ho'. by apply (Hfresh j x); [set_solver|..].
    + rewrite !Hne by done. apply (av_disj _ _ _ _ I); [set_solver..|done].
Qed.

Lemma alloc_inv_init ns : alloc_inv ns [] ns ScratchpadManager.init.
Proof.
  split; [apply length_replicate | done | intros i; apply slotted_refl | done | set_solver..].
Qed.

Lemma alloc_nodes_snoc all ns i : alloc_nodes (all ++ [i]) ns = alloc_node (alloc_nodes all ns) i.
Proof. unfold alloc_nodes. by rewrite foldl_app. Qed.

Lemma alloc_nodes_inv all ns :
  NoDup all -> Forall (fun i => (i < length ns)%nat) all -> ap_ok (alloc_nodes all ns) = true ->
  alloc_inv ns all (ap_nodes (alloc_nodes all ns)) (ap_used (alloc_nodes all ns)).
Proof.
  induction all as [|i all IH] using rev_ind; intros Hnd Hlt Hok.
  - apply alloc_inv_init.
  - rewrite alloc_nodes_snoc in Hok |- *. apply NoDup_app in Hnd as (Hnd & Hi & _).
    apply Forall_app in Hlt as [Hlt Hlti%Forall_cons]. destruct Hlti as [Hlti _].
    apply alloc_inv_step; [|set_solver|exact Hlti|exact Hok].
    apply IH; try done. by eapply alloc_node_ok.
Qed.

(** ** What the numbering of the fields establishes *)

Definition indexed (n0 n : Node) : Prop := exists v, n = set_field_idx v n0.

Lemma indexed_refl n : indexed n n.
Proof. exists (field_idx n). by destruct n. Qed.

Lemma indexed_trans n0 n1 n2 : indexed n0 n1 -> indexed n1 n2 -> indexed n0 n2.
Proof. intros [v ->] [w ->]. by exists w. Qed.

Lemma indexed_update (ns0 ns : list Node) (i : nat) v :
  (forall j : nat, indexed (node ns0 j) (node ns j)) ->
  forall j : nat, indexed (node ns0 j) (node (<[i := set_field_idx v (node ns i)]> ns) j).
Proof.
  intros H j. destruct (decide (j = i)) as [->|Hne].
  - destruct (decide (i < length ns)%nat).
    + rewrite list_lookup_total_insert_eq by done. eapply indexed_trans; [apply H|]. by exists v.
    + rewrite list_insert_ge by lia. apply H.
  - rewrite list_lookup_total_insert_ne by done. apply H.
Qed.

(** The numbering so far: the processed loads carry their name's number. *)
Record field_inv (ns0 : list Node) (done : list nat) (st : field_pass) : Prop := {
  fi_len : length (fp_nodes st) = length ns0;
  fi_indexed : forall i, indexed (node ns0 i) (node (fp_nodes st) i);
  fi_done : forall i, i ∈ done -> (i < length ns0)%nat -> kind (node ns0 i) = K_LOAD ->
    fp_idx st !! field_name (node ns0 i) = Some (field_idx (node (fp_nodes st) i));
  fi_range : forall f k, fp_idx st !! f = Some k -> 0 <= k < Z.of_nat (size (fp_idx st));
  fi_inj : forall f g k, fp_idx st !! f = Some k -> fp_idx st !! g = Some k -> f = g;
  fi_size : (size (fp_idx st) <= 128)%nat
}.

Lemma assign_field_ok st i : fp_ok (assign_field st i) = true -> fp_ok st = true.
Proof. unfold assign_field. destruct (fp_ok st) eqn:E; cbn [negb]; congruence. Qed.

(** Giving node [i] the number [k], under the table [idx']. *)
Lemma field_inv_give ns0 done st i k idx' :
  field_inv ns0 done st -> fp_idx st ⊆ idx' ->
  idx' !! field_name (node ns0 i) = Some k ->
  (forall f k, idx' !! f = Some k -> 0 <= k < Z.of_nat (size idx')) ->
  (forall f g k, idx' !! f = Some k -> idx' !! g = Some k -> f = g) ->
  (size idx' <= 128)%nat ->
  field_inv ns0 (done ++ [i])
    (mkFP (<[i := set_field_idx k (node (fp_nodes st) i)]> (fp_nodes st)) idx' true).
Proof.
  intros I Hsub Hk Hr Hinj Hsz. split; cbn [fp_nodes fp_idx]; try done.
  - rewrite length_insert. apply I.
  - apply indexed_update, I.
  - intros j Hj Hlt Hload. destruct (decide (j = i)) as [->|Hne].
    + rewrite list_lookup_total_insert_eq by (by rewrite (fi_len _ _ _ I)). done.
    + rewrite list_lookup_total_insert_ne by done.
      eapply lookup_weaken; [|exact Hsub]. apply I; [set_solver|done..].
Qed.

Lemma field_inv_step ns0 done st i :
  field_inv ns0 done st -> fp_ok (assign_field st i) = true ->
  field_inv ns0 (done ++ [i]) (assign_field st i).
Proof.
  intros I. unfold assign_field. destruct (fp_ok st) eqn:Eok; cbn [negb]; [|congruence].
  destruct (fi_indexed _ _ _ I i) as [v Hv].
  assert (kind (node (fp_nodes st) i) = kind (node ns0 i)) as Hkd by (by rewrite Hv).
  assert (field_name (node (fp_nodes st) i) = field_name (node ns0 i)) as Hfn by (by rewrite Hv).
  clear v Hv. cbv zeta. rewrite Hfn.
  destruct (decide (kind (node (fp_nodes st) i) = K_LOAD)) as [Hl|Hl].
  - destruct (fp_idx st !! field_name (node ns0 i)) as [k|] eqn:Ek.
    + intros _. apply field_inv_give; try done; apply I.
    + destruct (Nat.leb_spec 128 (size (fp_idx st))) as [|Hsz]; [done|]. intros _.
      assert (size (<[field_name (node ns0 i) := Z.of_nat (size (fp_idx st))]> (fp_idx st)) =
        S (size (fp_idx st))) as Hs by (by apply map_size_insert_None).
      apply field_inv_give; try done.
      * by apply insert_subseteq.
      * by rewrite lookup_insert_eq.
      * intros f k. rewrite Hs, lookup_insert. case_decide; intros Hf; simplify_eq; [lia|].
        apply (fi_range _ _ _ I) in Hf. lia.
      * intros f g k. rewrite !lookup_insert. pose proof (fi_range _ _ _ I) as R.
        repeat case_decide; intros Hf Hg; simplify_eq; try done.
        -- apply R in Hg. lia.
        -- apply R in Hf. lia.
        -- by eapply (fi_inj _ _ _ I).
      * lia.
  - intros _. destruct I as [I1 I2 I3 I4 I5 I6]. split; try done.
    intros j [Hj| ->%list_elem_of_singleton]%elem_of_app; [by apply I3|].
    intros _ Hj. congruence.
Qed.

Lemma assign_fields_inv arith ns :
  fp_ok (assign_fields arith ns) = true -> field_inv ns arith (assign_fields arith ns).
Proof.
  unfold assign_fields. induction arith as [|i l IH] using rev_ind; intros Hok.
  - split; cbn [fp_nodes fp_idx foldl].
    + done.
    + intros i. apply indexed_refl.
    + intros i Hi. by apply not_elem_of_nil in Hi.
    + intros f k Hk. by rewrite lookup_empty in Hk.
    + intros f g k Hk. by rewrite lookup_empty in Hk.
    + rewrite map_size_empty. lia.
  - rewrite foldl_app in Hok |- *. cbn [foldl] in *. apply field_inv_step; [|done].
    apply IH. by eapply assign_field_ok.
Qed.

(** The constants' pass leaves the loads alone and fills the pool. *)
Lemma assign_consts_spec arith ns pools :
  ConstPool.wf pools ->
  let st := assign_consts arith ns pools in
  length (fst st) = length ns /\ ConstPool.wf (snd st) /\
  forall i, indexed (node ns i) (node (fst st) i) /\
    (kind (node ns i) <> K_CONST -> node (fst st) i = node ns i).
Proof.
  intros Hwf. unfold assign_consts.
  induction arith as [|j l IH] using rev_ind; cbn zeta.
  - split_and!; [done..|]. intros i. split; [apply indexed_refl|done].
  - rewrite foldl_app. cbn [foldl]. cbn zeta in IH. destruct IH as (Hl & Hp & Hn).
    set (st := foldl assign_const (ns, pools) l) in *. unfold assign_const.
    destruct (decide (kind (node st.1 j) = K_CONST)) as [Hc|Hc]; [|done]. cbn [fst snd].
    split_and!; [by rewrite length_insert | by apply ConstPool.get_or_create_wf|].
    intros i. split; [apply indexed_update; intros; apply Hn|].
    intros Hi. destruct (decide (i = j)) as [->|Hne].
    + destruct (Hn j) as [[v Hv] _]. rewrite Hv in Hc. done.
    + rewrite list_lookup_total_insert_ne by done. by apply Hn.
Qed.

(** ** The annotated graph *)

(** [keeps n0 n]: the passes leave the expression and the skip mark alone. *)
Definition keeps (n0 n : Node) : Prop :=
  core n = core n0 /\ skip_jit n = skip_jit n0 /\
  (is_cmp (kind n0) = false -> eq_slot_id n = eq_slot_id n0).

Record layout (ns : list Node) (all : list nat) : Prop := {
  ly_topo : topo ns all;
  ly_result : forall i, i ∈ all -> result_kind (node ns i) = result_of (kind (node ns i));
  ly_slots : forall i, i ∈ all -> slots_ok (node ns i);
  ly_disj : forall i j k, i ∈ all -> j ∈ all -> i <> j ->
    owned (node ns i) k -> ~ owned (node ns j) k;
  ly_idx : forall i, i ∈ all -> kind (node ns i) = K_LOAD -> 0 <= field_idx (node ns i) < 128;
  ly_inj : forall i j, i ∈ all -> j ∈ all -> kind (node ns i) = K_LOAD -> kind (node ns j) = K_LOAD ->
    (field_idx (node ns i) = field_idx (node ns j) <-> field_name (node ns i) = field_name (node ns j))
}.

Lemma topo_keeps ns ns' l :
  length ns' = length ns -> (forall i : nat, keeps (node ns i) (node ns' i)) -> topo ns l -> topo ns' l.
Proof.
  intros Hl Hk. induction 1 as [|l i n Ht IH Hi Hni Hc]; [constructor|].
  pose proof (lookup_lt_Some _ _ _ Hi) as Hlt.
  apply topo_snoc with (node ns' i); try done.
  - apply list_lookup_lookup_total_lt. lia.
  - destruct (Hk i) as [(_ & _ & _ & Hch)%core_eq _].
    rewrite Hch, (list_lookup_total_correct _ _ _ Hi). done.
Qed.

Lemma topo_lt ns l i : topo ns l -> i ∈ l -> (i < length ns)%nat.
Proof.
  induction 1 as [|l j n Ht IH Hj _ _]; [set_solver|].
  intros [Hi|Hi]%elem_of_app; [by apply IH|].
  apply list_elem_of_singleton in Hi as ->. by eapply lookup_lt_Some.
Qed.

(** The result of the passes, read off a successful compilation. *)
Lemma compile_expression_inv r ab ns pools ns' pools' code :
  compile_expression (Some r) ab ns pools = (ns', pools', Kernel code) ->
  exists nsa an ini body c,
    analyze (length ns) (Some r) (ns, analyzer_init) = Some (nsa, an) /\
    let fp := assign_fields (arithmetic_nodes an) nsa in
    let cp := assign_consts (arithmetic_nodes an) (fp_nodes fp) pools in
    let ap := alloc_nodes (all_nodes an) (fst cp) in
    fp_ok fp = true /\ ap_ok ap = true /\ ns' = ap_nodes ap /\ pools' = snd cp /\
    init_nodes ns' (all_nodes an) = Some ini /\ emit_nodes ns' ab (all_nodes an) = Some (body, c) /\
    code = (prologue ++ ini ++ body ++ final_code (node ns' r) ++ epilogue) ++ [ I_ret 30 ].
Proof.
  unfold compile_expression. intros H.
  destruct (analyze (length ns) (Some r) (ns, analyzer_init)) as [[nsa an]|] eqn:Ea; [|done].
  cbv zeta in *. destruct (fp_ok (assign_fields (arithmetic_nodes an) nsa)) eqn:Ef; cbn [negb] in H; [|done].
  destruct (assign_consts (arithmetic_nodes an) (fp_nodes (assign_fields (arithmetic_nodes an) nsa)) pools)
    as [nsc pc] eqn:Ec.
  destruct (ap_ok (alloc_nodes (all_nodes an) nsc)) eqn:Eal; cbn [negb] in H; [|done].
  destruct (init_nodes _ _) as [ini|] eqn:Ei; [|done].
  destruct (emit_nodes _ _ _) as [[body c]|] eqn:Ee; [|done].
  injection H as <- <- <-. exists nsa, an, ini, body, c. rewrite Ec. done.
Qed.

Section Passes.
Variables (ns nsa : list Node) (an : ExpressionAnalyzer) (pools : ConstPool.t).
Hypothesis Hinv : an_inv ns (nsa, an).
Hypothesis Hpools : ConstPool.wf pools.
Let fp := assign_fields (arithmetic_nodes an) nsa.
Let cp := assign_consts (arithmetic_nodes an) (fp_nodes fp) pools.
Let ap := alloc_nodes (all_nodes an) (fst cp).
Hypothesis Hfp : fp_ok fp = true.
Hypothesis Hap : ap_ok ap = true.

Lemma analysis_length : length nsa = length ns.
Proof. symmetry. exact (Forall2_length _ _ _ (ai_shape _ _ Hinv)). Qed.

Lemma analysis_analyzed (i : nat) : analyzed (node ns i) (node nsa i).
Proof.
  destruct (decide (i < length ns)%nat) as [Hlt|Hge].
  - apply (Forall2_lookup_lr _ _ _ i _ _ (ai_shape _ _ Hinv)).
    + by apply list_lookup_lookup_total_lt.
    + apply list_lookup_lookup_total_lt. by rewrite analysis_length.
  - rewrite !list_lookup_total_alt, !lookup_ge_None_2 by (rewrite ?analysis_length; lia).
    apply analyzed_refl.
Qed.

Lemma passes_inv :
  field_inv nsa (arithmetic_nodes an) fp /\
  length (fst cp) = length ns /\ ConstPool.wf (snd cp) /\
  (forall i : nat, indexed (node (fp_nodes fp) i) (node (fst cp) i) /\
     (kind (node (fp_nodes fp) i) <> K_CONST -> node (fst cp) i = node (fp_nodes fp) i)) /\
  alloc_inv (fst cp) (all_nodes an) (ap_nodes ap) (ap_used ap).
Proof.
  pose proof (assign_fields_inv (arithmetic_nodes an) nsa Hfp) as Hf. fold fp in Hf.
  destruct (assign_consts_spec (arithmetic_nodes an) (fp_nodes fp) pools Hpools) as (Hcl & Hcw & Hci).
  fold cp in Hcl, Hcw, Hci. rewrite (fi_len _ _ _ Hf), analysis_length in Hcl.
  split_and!; try done. apply alloc_nodes_inv; [|..|exact Hap].
  - eapply topo_NoDup, Hinv.
  - apply Forall_forall. intros i Hi. rewrite Hcl. eapply topo_lt; [apply Hinv|done].
Qed.

Lemma passes_keep (i : nat) :
  keeps (node ns i) (node (ap_nodes ap) i) /\
  result_kind (node (ap_nodes ap) i) = result_kind (node nsa i) /\
  field_idx (node (ap_nodes ap) i) = field_idx (node (fst cp) i).
Proof.
  destruct passes_inv as (Hf & _ & _ & Hc & Ha).
  destruct (analysis_analyzed i) as (r & a & E1).
  destruct (fi_indexed _ _ _ Hf i) as [v E2].
  destruct (Hc i) as [[w E3] _].
  destruct (av_slotted _ _ _ _ Ha i) as (s & e & c & E4 & Hc4).
  rewrite E3, E2, E1 in Hc4. rewrite E4, E3, E2, E1. done.
Qed.

Lemma passes_layout : layout (ap_nodes ap) (all_nodes an).
Proof.
  destruct passes_inv as (Hf & Hcl & _ & Hc & Ha).
  assert (forall i : nat, kind (node (ap_nodes ap) i) = kind (node nsa i) /\
    field_name (node (ap_nodes ap) i) = field_name (node nsa i)) as Hkf.
  { intros i. destruct (analysis_analyzed i) as (r & a & E1).
    destruct (passes_keep i) as [((K1 & K2 & _)%core_eq & _) _]. by rewrite K1, K2, E1. }
  assert (forall i : nat, i ∈ all_nodes an -> kind (node nsa i) = K_LOAD ->
    fp_idx fp !! field_name (node nsa i) = Some (field_idx (node (ap_nodes ap) i))) as Hidx.
  { intros i Hi Hk. assert (i < length nsa)%nat as Hlt.
    { rewrite analysis_length. eapply topo_lt; [apply Hinv|done]. }
    destruct (passes_keep i) as (_ & _ & ->).
    destruct (fi_indexed _ _ _ Hf i) as [v Hv].
    destruct (Hc i) as [_ ->]; [|by rewrite Hv; cbn; rewrite Hk].
    apply Hf; try done. apply (ai_arith _ _ Hinv i (node nsa i)).
    - by apply list_lookup_lookup_total_lt.
    - by rewrite Hk. }
  split.
  - eapply topo_keeps; [|intros; apply passes_keep|apply Hinv].
    by rewrite (av_len _ _ _ _ Ha).
  - intros i Hi. destruct (passes_keep i) as (_ & -> & _). destruct (Hkf i) as [-> _].
    apply (ai_kind _ _ Hinv i); [done|]. apply list_lookup_lookup_total_lt. rewrite analysis_length.
    eapply topo_lt; [apply Hinv|done].
  - apply Ha.
  - apply Ha.
  - intros i Hi Hk. destruct (Hkf i) as [Ek _]. rewrite Ek in Hk.
    pose proof (fi_range _ _ _ Hf _ _ (Hidx i Hi Hk)). pose proof (fi_size _ _ _ Hf). lia.
  - intros i j Hi Hj Hki Hkj. destruct (Hkf i) as [Eki ->], (Hkf j) as [Ekj ->].
    rewrite Eki in Hki. rewrite Ekj in Hkj.
    pose proof (Hidx i Hi Hki) as H1. pose proof (Hidx j Hj Hkj) as H2. split; intros E.
    + rewrite E in H1. by eapply (fi_inj _ _ _ Hf).
    + rewrite E in H1. congruence.
Qed.

End Passes.

(** All the above about a compiled kernel. *)
Lemma compile_expression_layout r ab ns pools ns' pools' code :
  wf_nodes ns -> (r < length ns)%nat -> ConstPool.wf pools ->
  compile_expression (Some r) ab ns pools = (ns', pools', Kernel code) ->
  exists all ini body c,
    layout ns' all /\ (forall j, j ∈ all <-> reach ns r j) /\ length ns' = length ns /\
    (forall i : nat, keeps (node ns i) (node ns' i)) /\ ConstPool.wf pools' /\
    init_nodes ns' all = Some ini /\ emit_nodes ns' ab all = Some (body, c) /\
    code = (prologue ++ ini ++ body ++ final_code (node ns' r) ++ epilogue) ++ [ I_ret 30 ].
Proof.
  intros Hwf Hr Hp H. apply compile_expression_inv in H as (nsa & an & ini & body & c & Ea & H).
  cbv zeta in H. destruct H as (Hf & Ha & -> & -> & Hi & He & ->).
  destruct (analyze_init ns r Hwf Hr) as (st & Ea' & I & R). rewrite Ea in Ea'. injection Ea' as <-.
  exists (all_nodes an), ini, body, c.
  destruct (passes_inv ns nsa an pools I Hp Hf Ha) as (_ & Hcl & Hcw & _ & Hal).
  split_and!; try done.
  - by apply (passes_layout ns nsa an pools).
  - by rewrite (av_len _ _ _ _ Hal).
  - intros i. by apply (passes_keep ns nsa an pools).
Qed.
