(* ===== verification/A64Mem.v ===== *)
(** * Addresses and memory frames

    Lemmas on the addressing modes the kernels use, and [writes], the frame
    condition of the proofs on emitted code: what a piece of code may have
    changed of one memory object. *)

From S2P Require Import Prelude Planes A64 Circuits.

(** ** Addressing *)

Definition small (k : Z) : Prop := 0 <= k < 2 ^ 60.

Lemma wrap64_cell k : small k -> wrap64 (8 * k) = 8 * k.
Proof. unfold small. intros. apply wrap64_small. unfold u64. lia. Qed.

Lemma address_off h j s o base :
  get h s = Some (Ptr o (8 * base)) -> 0 <= base + j < 2 ^ 61 ->
  address (Off h (j * 8)) s = Some (Ptr o (8 * (base + j)), s).
Proof.
  intros H Hb. cbn [address]. rewrite H. cbn [mbind option_bind]. do 2 f_equal.
  rewrite (Z.mul_comm j). by apply add_val_ptr.
Qed.

Lemma address_idx b i s o base k :
  get b s = Some (Ptr o (8 * base)) -> get_int i s = Some (8 * k) -> 0 <= base + k < 2 ^ 61 ->
  address (Idx b i) s = Some (Ptr o (8 * (base + k)), s).
Proof.
  intros H Hi Hb. cbn [address]. rewrite H, Hi. cbn [mbind option_bind]. do 2 f_equal.
  by apply add_val_ptr.
Qed.

Lemma address_lsl3 b i s o base k :
  get b s = Some (Ptr o (8 * base)) -> get_int i s = Some k -> small k -> 0 <= base + k < 2 ^ 61 ->
  address (IdxLsl3 b i) s = Some (Ptr o (8 * (base + k)), s).
Proof.
  intros H Hi Hk Hb. cbn [address]. rewrite H, Hi. cbn [mbind option_bind].
  rewrite wrap64_cell by done. do 2 f_equal. by apply add_val_ptr.
Qed.

Lemma step_ldr_off d h j s o base v :
  get h s = Some (Ptr o (8 * base)) -> 0 <= base + j < 2 ^ 61 -> mem s !! (o, base + j) = Some v ->
  step (I_ldr d (Off h (j * 8))) s = Some (set d v s).
Proof. intros. eapply step_ldr; [by apply address_off|]. by rewrite load_ptr. Qed.

Lemma step_ldr_idx d b i s o base k v :
  get b s = Some (Ptr o (8 * base)) -> get_int i s = Some (8 * k) -> 0 <= base + k < 2 ^ 61 ->
  mem s !! (o, base + k) = Some v ->
  step (I_ldr d (Idx b i)) s = Some (set d v s).
Proof. intros. eapply step_ldr; [by eapply address_idx|]. by rewrite load_ptr. Qed.

Lemma step_ldr_lsl3 d b i s o base k v :
  get b s = Some (Ptr o (8 * base)) -> get_int i s = Some k -> small k -> 0 <= base + k < 2 ^ 61 ->
  mem s !! (o, base + k) = Some v ->
  step (I_ldr d (IdxLsl3 b i)) s = Some (set d v s).
Proof. intros. eapply step_ldr; [by eapply address_lsl3|]. by rewrite load_ptr. Qed.

Definition upd_mem (o : nat) (k : Z) (v : val) (s : state) : state :=
  set_mem (<[(o, k) := v]> (mem s)) s.

Lemma step_str_off r h j s o base v :
  get h s = Some (Ptr o (8 * base)) -> 0 <= base + j < 2 ^ 61 ->
  is_Some (mem s !! (o, base + j)) -> get r s = Some v ->
  step (I_str r (Off h (j * 8))) s = Some (upd_mem o (base + j) v s).
Proof.
  intros H Hb [w Hw] Hr. eapply step_str; [by apply address_off | done |]. by eapply store_ptr.
Qed.

Lemma step_str_idx r b i s o base k v :
  get b s = Some (Ptr o (8 * base)) -> get_int i s = Some (8 * k) -> 0 <= base + k < 2 ^ 61 ->
  is_Some (mem s !! (o, base + k)) -> get r s = Some v ->
  step (I_str r (Idx b i)) s = Some (upd_mem o (base + k) v s).
Proof.
  intros H Hi Hb [w Hw] Hr. eapply step_str; [by eapply address_idx | done |]. by eapply store_ptr.
Qed.

Lemma get_upd_mem r o k v s : get r (upd_mem o k v s) = get r s.
Proof. done. Qed.
Lemma get_int_upd_mem r o k v s : get_int r (upd_mem o k v s) = get_int r s.
Proof. done. Qed.
Lemma mem_upd_mem o k v s : mem (upd_mem o k v s) = <[(o, k) := v]> (mem s).
Proof. done. Qed.
Lemma frame_upd_mem R o k v s s' : frame R s s' -> frame R s (upd_mem o k v s').
Proof. done. Qed.
#[export] Hint Rewrite get_upd_mem get_int_upd_mem mem_upd_mem : a64.

(** The address of cell [k] of an object, from its base and an offset register. *)
Lemma step_add_ptr d n m s o k :
  get_int n s = Some (8 * k) -> get m s = Some (Ptr o 0) -> small k ->
  step (I_add d n m) s = Some (set d (Ptr o (8 * k)) s).
Proof.
  intros Hn Hm Hk. apply get_int_get in Hn. eapply step_add; [done..|]. cbn [add_vals].
  by rewrite Z.add_0_l, wrap64_cell.
Qed.

(** ** Pushing and popping pairs *)

Lemma step_stp_pre r1 r2 b s o k v1 v2 :
  get b s = Some (Ptr o (8 * k)) -> 2 <= k < 2 ^ 60 ->
  get r1 s = Some v1 -> get r2 s = Some v2 ->
  is_Some (mem s !! (o, k - 2)) -> is_Some (mem s !! (o, k - 1)) ->
  step (I_stp_pre r1 r2 b (-16)) s =
    Some (set b (Ptr o (8 * (k - 2))) (upd_mem o (k - 1) v2 (upd_mem o (k - 2) v1 s))).
Proof.
  intros Hb Hk H1 H2 [w1 Hw1] [w2 Hw2]. cbn [step]. rewrite Hb, H1, H2. cbn [mbind option_bind].
  change (-16) with (8 * -2). change (8 * -2 + 8) with (8 * -1).
  rewrite !add_val_ptr by lia. change (k + -2) with (k - 2). change (k + -1) with (k - 1).
  rewrite (store_ptr _ _ _ w1) by done. cbn [mbind option_bind].
  rewrite (store_ptr _ _ _ w2); [done|]. cbn. rewrite lookup_insert_ne; [done|]. intros [=]. lia.
Qed.

Lemma step_ldp_post d1 d2 b s o k v1 v2 :
  get b s = Some (Ptr o (8 * k)) -> 0 <= k < 2 ^ 60 ->
  mem s !! (o, k) = Some v1 -> mem s !! (o, k + 1) = Some v2 ->
  step (I_ldp_post d1 d2 b 16) s =
    Some (set b (Ptr o (8 * (k + 2))) (set d2 v2 (set d1 v1 s))).
Proof.
  intros Hb Hk H1 H2. cbn [step]. rewrite Hb. cbn [mbind option_bind].
  rewrite load_ptr, H1. cbn [mbind option_bind].
  replace (add_val (Ptr o (8 * k)) 8) with (Ptr o (8 * (k + 1)))
    by (symmetry; apply (add_val_ptr o k 1); lia).
  replace (add_val (Ptr o (8 * k)) 16) with (Ptr o (8 * (k + 2)))
    by (symmetry; apply (add_val_ptr o k 2); lia).
  rewrite load_ptr, H2. done.
Qed.

(** ** What may have been written *)

(** [writes o P m m']: of the cells of [m], only those of object [o] in [P] may
    have another value in [m']; no cell is lost. *)
Definition writes (o : nat) (P : Z -> Prop) (m m' : gmap (nat * Z) val) : Prop :=
  (forall p k, ~ (p = o /\ P k) -> m' !! (p, k) = m !! (p, k)) /\
  (forall c, is_Some (m !! c) -> is_Some (m' !! c)).

Lemma writes_refl o P m : writes o P m m.
Proof. done. Qed.

Lemma writes_eq o P m m' : m' = m -> writes o P m m'.
Proof. by intros ->. Qed.

Lemma writes_trans o P m1 m2 m3 : writes o P m1 m2 -> writes o P m2 m3 -> writes o P m1 m3.
Proof.
  intros [H1 D1] [H2 D2]. split; [|naive_solver].
  intros p k Hk. by rewrite H2, H1.
Qed.

Lemma writes_weaken o (P Q : Z -> Prop) m m' :
  (forall k, P k -> Q k) -> writes o P m m' -> writes o Q m m'.
Proof. intros Hs [H D]. split; [|done]. intros p k Hk. apply H. naive_solver. Qed.

Lemma writes_insert o (P : Z -> Prop) m k v : P k -> writes o P m (<[(o, k) := v]> m).
Proof.
  intros Hk. split.
  - intros p k' Hn. apply lookup_insert_ne. intros [= <- <-]. naive_solver.
  - intros c Hc. destruct (decide (c = (o, k))) as [->|Hne].
    + by rewrite lookup_insert_eq.
    + by rewrite lookup_insert_ne.
Qed.

Lemma writes_lookup o P m m' p k :
  writes o P m m' -> ~ (p = o /\ P k) -> m' !! (p, k) = m !! (p, k).
Proof. intros [H _]. apply H. Qed.

Lemma writes_some o P m m' c : writes o P m m' -> is_Some (m !! c) -> is_Some (m' !! c).
Proof. intros [_ D]. apply D. Qed.

(** Load an immediate, then go on. *)
Lemma exec_imm d imm c s (P : state -> Prop) :
  d <> xzr -> u64 imm ->
  (exists s', exec c (set d (Int imm) s) = Some s' /\ P s') ->
  exists s', exec (emit_mov_imm64 d imm ++ c) s = Some s' /\ P s'.
Proof.
  intros Hd Hu H. apply exec_seq. exists (set d (Int imm) s). split; [|done].
  by apply exec_mov_imm64.
Qed.
