(* ===== verification/ExprBits.v ===== *)
(** * What the code of one node computes
      (the bodies of the main loop of compile_expression, src/jit/compiler.cpp)

    Operands, the three unrolled loops (adder, comparator, selection) and the
    register cache, each run on the machine: the lemmas say which planes or
    masks the emitted code leaves, and what it does not touch. *)

From S2P Require Import Prelude Planes IR A64 Circuits Analyzer ExprCompiler A64Mem.

(** ** Operands *)

Section Operands.
Variables (sc fp : nat).

(** The slots of a block. *)
Definition block (slot k : Z) : Prop := slot <= k < slot + 64.

(** Node [n] can be read as the planes [A], by code that writes only the scratch
    slots [Q]. *)
Definition opnd (m : gmap (nat * Z) val) (Q : Z -> Prop) (n : Node) (A : nat -> Z) : Prop :=
  match kind n with
  | K_CONST => forall b, (b < 64)%nat ->
      A b = if Z.testbit (wrap64 (const_value n)) (Z.of_nat b) then ones64 else 0
  | K_LOAD => exists p base,
      0 <= field_idx n < 128 /\ m !! (fp, field_idx n) = Some (Ptr p (8 * base)) /\ small base /\ p <> sc /\
      forall b, (b < 64)%nat -> m !! (p, base + Z.of_nat b) = Some (Int (A b))
  | _ =>
      0 <= slot_id n /\ slot_id n + 64 <= 32768 /\
      forall b, (b < 64)%nat ->
        m !! (sc, slot_id n + Z.of_nat b) = Some (Int (A b)) /\ ~ Q (slot_id n + Z.of_nat b)
  end.

(** The same once the operand's base is in register [h]. *)
Definition hoisted (Q : Z -> Prop) (n : Node) (h : nat) (A : nat -> Z) (s : state) : Prop :=
  match kind n with
  | K_CONST => forall b, (b < 64)%nat ->
      A b = if Z.testbit (wrap64 (const_value n)) (Z.of_nat b) then ones64 else 0
  | _ => exists p base,
      get h s = Some (Ptr p (8 * base)) /\ small base /\
      forall b, (b < 64)%nat ->
        mem s !! (p, base + Z.of_nat b) = Some (Int (A b)) /\ ~ (p = sc /\ Q (base + Z.of_nat b))
  end.

Lemma opnd_writes m m' Q n A : sc <> fp -> writes sc Q m m' -> opnd m Q n A -> opnd m' Q n A.
Proof.
  intros Hne W. unfold opnd.
  assert (forall p k v, ~ (p = sc /\ Q k) -> m !! (p, k) = Some v -> m' !! (p, k) = Some v) as Hk.
  { intros p k v Hp Hv. by rewrite (writes_lookup _ _ _ _ _ _ W). }
  destruct (kind n); try done.
  all: try (intros (H1 & H2 & H); split_and!; [done..|];
    intros b Hb; destruct (H b Hb) as [Hm Hq]; split; [apply Hk; naive_solver | done]).
  intros (p & base & Hi & Hf & Hs & Hp & H). exists p, base. split_and!; try done; try lia.
  - apply Hk; [intros [? _]; by subst | done].
  - intros b Hb. apply Hk; [intros [? _]; by subst | by apply H].
Qed.

Lemma hoisted_keep Q R n h A s s' :
  frame R s s' -> h ∉ R -> writes sc Q (mem s) (mem s') -> hoisted Q n h A s -> hoisted Q n h A s'.
Proof.
  intros F Hh W. unfold hoisted.
  destruct (kind n); try done; intros (p & base & Hg & Hs & H); exists p, base;
    (split_and!; [by rewrite F|done|]); intros b Hb; destruct (H b Hb) as [Hm Hq]; (split; [|done]);
    by rewrite (writes_lookup _ _ _ _ _ _ W).
Qed.

Lemma slot_offset_eq k : small k -> slot_offset k = 8 * k.
Proof.
  unfold small, slot_offset. intros. rewrite (wrap64_small k) by (unfold u64; lia).
  rewrite Z.mul_comm. by apply wrap64_cell.
Qed.

Lemma slot_offset_u64 k : u64 (slot_offset k).
Proof. apply wrap64_u64. Qed.

(** The base of a scratch slot into a register. *)
Lemma exec_slot_base h k s :
  h <> xzr -> h <> scratch_ptr -> small k -> get scratch_ptr s = Some (Ptr sc 0) ->
  exists s', exec (emit_mov_imm64 h (slot_offset k) ++ [ I_add h h scratch_ptr ]) s = Some s' /\
    (mem s' = mem s /\ frame [h] s s' /\ get h s' = Some (Ptr sc (8 * k))).
Proof.
  intros Hh Hh2 Hk Hs. apply exec_imm; [done | apply slot_offset_u64 |].
  rewrite slot_offset_eq by done.
  eapply exec_cons; [apply (step_add_ptr _ _ _ _ sc k); [a64_get | | done]; a64_get|].
  apply exec_nil. split_and!; [by rewrite !mem_set | solve_frame | a64_get].
Qed.

Lemma exec_hoist Q n h A s :
  h <> xzr -> h <> scratch_ptr -> h <> field_planes_ptr -> opnd (mem s) Q n A ->
  get field_planes_ptr s = Some (Ptr fp 0) -> get scratch_ptr s = Some (Ptr sc 0) ->
  exists s', exec (hoist n h) s = Some s' /\
    (mem s' = mem s /\ frame [h] s s' /\ hoisted Q n h A s').
Proof.
  intros Hx H20 H19 Ho Hf Hs. unfold hoist, hoisted, opnd in *.
  assert (kind n <> K_LOAD -> kind n <> K_CONST ->
    0 <= slot_id n /\ slot_id n + 64 <= 32768 /\
      (forall b, (b < 64)%nat -> mem s !! (sc, slot_id n + Z.of_nat b) = Some (Int (A b)) /\
        ~ Q (slot_id n + Z.of_nat b)) ->
    exists s', exec (emit_mov_imm64 h (slot_offset (slot_id n)) ++ [ I_add h h scratch_ptr ]) s = Some s' /\
      (mem s' = mem s /\ frame [h] s s' /\
       exists p base, get h s' = Some (Ptr p (8 * base)) /\ small base /\
         forall b, (b < 64)%nat -> mem s' !! (p, base + Z.of_nat b) = Some (Int (A b)) /\
           ~ (p = sc /\ Q (base + Z.of_nat b)))) as Hslot.
  { intros _ _ (H0 & H1 & H). assert (small (slot_id n)) as Hsm by (unfold small; lia).
    destruct (exec_slot_base h (slot_id n) s Hx H20 Hsm Hs) as (s' & E & Hm & F & G).
    exists s'. split_and!; try done. exists sc, (slot_id n). split_and!; [done..|].
    rewrite Hm. intros b Hb. destruct (H b Hb). naive_solver. }
  destruct (kind n) eqn:Hk; try (by apply Hslot).
  - destruct Ho as (p & base & Hi & Hm & Hb & Hp & H).
    eapply exec_cons.
    { apply (step_ldr_off _ _ _ _ fp 0 (Ptr p (8 * base))); [a64_get | lia | by rewrite Z.add_0_l]. }
    apply exec_nil. split_and!; [by rewrite mem_set | solve_frame |].
    exists p, base. split_and!; [a64_get | done |].
    rewrite mem_set. intros b Hbl. naive_solver.
  - eexists. split; [by apply exec_mov_imm64; [|apply wrap64_u64]|].
    split_and!; [by rewrite mem_set | solve_frame |]. done.
Qed.

(** Bit [k] of a constant, as the emitters test it. *)
Lemma land_bit x k : 0 <= k -> Z.land (Z.shiftr x k) 1 = Z.b2z (Z.testbit x k).
Proof.
  intros Hk. change 1 with (Z.ones 1). rewrite Z.land_ones, Z.shiftr_div_pow2 by lia.
  change (2 ^ 1) with 2. by rewrite <- Z.testbit_spec' by lia.
Qed.

Lemma exec_load_bit Q n dst h A s bit :
  hoisted Q n h A s -> (bit < 64)%nat -> dst <> xzr ->
  exec (load_bit n dst h bit) s = Some (set dst (Int (A bit)) s).
Proof.
  unfold hoisted, load_bit. intros H Hb Hd.
  assert ((exists p base, get h s = Some (Ptr p (8 * base)) /\ small base /\
    forall b, (b < 64)%nat -> mem s !! (p, base + Z.of_nat b) = Some (Int (A b)) /\
      ~ (p = sc /\ Q (base + Z.of_nat b))) ->
    exec [I_ldr dst (Off h (Z.of_nat bit * 8))] s = Some (set dst (Int (A bit)) s)) as Hld.
  { intros (p & base & Hg & Hs & Hm). destruct (Hm bit Hb) as [Hv _]. unfold small in Hs.
    cbn [exec]. rewrite (step_ldr_off _ _ _ _ p base (Int (A bit))) by (done || lia). done. }
  destruct (kind n) eqn:Hk; try (by apply Hld).
  rewrite (H bit Hb), land_bit by lia.
  destruct (Z.testbit (wrap64 (const_value n)) (Z.of_nat bit)); simpl Z.eqb; cbv iota; cbn [exec].
  - rewrite (step_mvn dst xzr s 0) by a64_get. done.
  - rewrite (step_mov dst xzr s (Int 0)) by a64_get. done.
Qed.

End Operands.

Lemma hoisted_set sc Q n h A s r v :
  h <> r -> hoisted sc Q n h A s -> hoisted sc Q n h A (set r v s).
Proof.
  intros Hne. apply (hoisted_keep sc Q [r]).
  - apply frame_set; [apply list_elem_of_here | apply frame_refl].
  - by intros ->%list_elem_of_singleton.
  - apply writes_eq, mem_set.
Qed.

(** Both operand planes into their registers. *)
Lemma exec_load_bits sc Q1 Q2 a b ha hb A B s bit c (P : state -> Prop) :
  hoisted sc Q1 a ha A s -> hoisted sc Q2 b hb B s -> hb <> plane_a -> (bit < 64)%nat ->
  (exists s', exec c (set plane_b (Int (B bit)) (set plane_a (Int (A bit)) s)) = Some s' /\ P s') ->
  exists s', exec (load_bit a plane_a ha bit ++ load_bit b plane_b hb bit ++ c) s = Some s' /\ P s'.
Proof.
  intros Ha Hb Hne Hbit H.
  apply exec_seq. eexists. split; [by eapply exec_load_bit|].
  apply exec_seq. eexists. split; [|exact H].
  eapply exec_load_bit; [by apply hoisted_set | done | discriminate].
Qed.

(** ** The adder loop *)

Section Arith.
Variables (sc : nat) (n l r : Node) (carry : nat) (A B : nat -> Z) (s0 : state).
Hypothesis Hcarry : (23 <= carry <= 28)%nat.
Hypothesis HA : forall b, u64 (A b).
Hypothesis HB : forall b, u64 (B b).
Hypothesis Hslot : 0 <= slot_id n /\ slot_id n + 64 <= 32768.
Hypothesis Hcells : forall k, block (slot_id n) k -> is_Some (mem s0 !! (sc, k)).
Hypothesis Hbase : get temp_ptr s0 = Some (Ptr sc (8 * slot_id n)).
Hypothesis Hl : hoisted sc (block (slot_id n)) l hoisted_left A s0.
Hypothesis Hr : hoisted sc (block (slot_id n)) r hoisted_right B s0.

(** The second operand's planes as the adder sees them, and the carries in. *)
Definition arith_b (b : nat) : Z := if decide (kind n = K_SUB) then lnot64 (B b) else B b.
Definition arith_c (lane : nat) : bool := bool_decide (kind n = K_SUB) && (lane =? 0)%nat.

Lemma arith_b_u64 b : u64 (arith_b b).
Proof. unfold arith_b. case_decide; eauto with u64. Qed.

Record arith_inv (bit : nat) (s : state) : Prop := {
  ar_frame : frame [plane_a; plane_b; result; scratch1; carry] s0 s;
  ar_writes : writes sc (block (slot_id n)) (mem s0) (mem s);
  ar_carry : get_int carry s = Some (col_carry A arith_b arith_c bit);
  ar_done : forall b, (b < bit)%nat ->
    mem s !! (sc, slot_id n + Z.of_nat b) = Some (Int (col_add A arith_b arith_c b))
}.

(** The gates and the store, from the two planes. *)
Lemma exec_arith_gates bit s :
  (bit < 64)%nat -> arith_inv bit s ->
  get_int plane_a s = Some (A bit) -> get_int plane_b s = Some (arith_b bit) ->
  exists s', exec
    [ I_eor result plane_a plane_b; I_eor scratch1 result carry; I_and plane_a plane_a plane_b;
      I_and result result carry; I_orr carry plane_a result;
      I_str scratch1 (Off temp_ptr (Z.of_nat bit * 8)) ] s = Some s' /\ arith_inv (S bit) s'.
Proof.
  intros Hbit [F W C D] Ha Hb.
  assert (get temp_ptr s = Some (Ptr sc (8 * slot_id n))) as Hb' by (rewrite F by set_solver by lia; done).
  assert (is_Some (mem s !! (sc, slot_id n + Z.of_nat bit))) as Hc.
  { eapply writes_some; [exact W|]. apply Hcells. unfold block. lia. }
  do 5 a64_step.
  eapply exec_cons; [eapply (step_str_off _ _ _ _ sc (slot_id n)); [a64_get | lia | by rewrite !mem_set | a64_get]|].
  apply exec_nil. split.
  - apply frame_upd_mem. solve_frame.
  - rewrite mem_upd_mem, !mem_set. eapply writes_trans; [exact W|]. apply writes_insert. unfold block. lia.
  - rewrite <- col_carry_step by (done || apply arith_b_u64). a64_get.
  - intros b Hb2. rewrite mem_upd_mem, !mem_set. destruct (decide (b = bit)) as [->|Hne].
    + rewrite lookup_insert_eq. rewrite col_add_step by (done || apply arith_b_u64). done.
    + rewrite lookup_insert_ne by (intros [=]; lia). apply D. lia.
Qed.

Lemma exec_arith_bit bit s :
  (bit < 64)%nat -> arith_inv bit s ->
  exists s', exec (emit_arith_bit n l r carry bit) s = Some s' /\ arith_inv (S bit) s'.
Proof.
  intros Hbit I. pose proof I as [F W C D]. unfold emit_arith_bit.
  eapply exec_load_bits; [| | discriminate | done |].
  - eapply hoisted_keep; [exact F | solve_notin | exact W | exact Hl].
  - eapply hoisted_keep; [exact F | solve_notin | exact W | exact Hr].
  - set (s1 := set plane_b _ _).
    assert (exists s2, exec (if decide (kind n = K_SUB) then [I_mvn plane_b plane_b] else []) s1 = Some s2 /\
      (s2 = set plane_b (Int (arith_b bit)) (set plane_a (Int (A bit)) s))) as (s2 & E2 & ->).
    { unfold arith_b. destruct (decide (kind n = K_SUB)).
      - subst s1. a64_step. apply exec_nil. by rewrite set_set.
      - by exists s1. }
    apply exec_seq. eexists. split; [exact E2|]. apply exec_arith_gates; [done| |a64_get|a64_get].
    split.
    + solve_frame.
    + by rewrite !mem_set.
    + a64_get.
    + intros b Hb. rewrite !mem_set. by apply D.
Qed.

Lemma exec_arith_bits k s :
  (k <= 64)%nat -> arith_inv 0 s ->
  exists s', exec (mjoin (emit_arith_bit n l r carry <$> seq 0 k)) s = Some s' /\ arith_inv k s'.
Proof.
  intros Hk H0. induction k as [|k IH]; [by exists s|].
  destruct IH as (s1 & E1 & I1); [lia|]. rewrite seq_S, fmap_app, join_app.
  destruct (exec_arith_bit k s1) as (s2 & E2 & I2); [lia|done|].
  exists s2. split; [|done]. refine (exec_app_Some _ _ _ _ _ E1 _).
  cbn [fmap list_fmap mjoin list_join]. by rewrite app_nil_r.
Qed.

End Arith.

(** ** The comparator loop *)

Section Compare.
Variables (sc : nat) (Q : Z -> Prop) (n l r : Node) (L R : nat -> Z) (s0 : state).
Hypothesis HL : forall b, u64 (L b).
Hypothesis HR : forall b, u64 (R b).
Hypothesis Hl : hoisted sc Q l hoisted_left L s0.
Hypothesis Hr : hoisted sc Q r hoisted_right R s0.

(** The columns in the order they are compared in. *)
Definition cmp_a : nat -> Z := if swapped (kind n) then R else L.
Definition cmp_b : nat -> Z := if swapped (kind n) then L else R.

Lemma cmp_a_u64 b : u64 (cmp_a b).
Proof. unfold cmp_a. by destruct (swapped _). Qed.
Lemma cmp_b_u64 b : u64 (cmp_b b).
Proof. unfold cmp_b. by destruct (swapped _). Qed.

Record gates_inv (k : nat) (s : state) : Prop := {
  gi_frame : frame [plane_a; plane_b; result; mask_gt; mask_eq] s0 s;
  gi_mem : mem s = mem s0;
  gi_gt : get_int mask_gt s = Some (col_gt cmp_a cmp_b k);
  gi_eq : get_int mask_eq s = Some (col_eq cmp_a cmp_b k)
}.

Lemma exec_cmp_gates k s :
  (k < 64)%nat -> gates_inv (S k) s ->
  get_int plane_a s = Some (cmp_a k) -> get_int plane_b s = Some (cmp_b k) ->
  exists s', exec [ I_bic result plane_a plane_b; I_and result result mask_eq; I_orr mask_gt mask_gt result;
      I_eor result plane_a plane_b; I_bic mask_eq mask_eq result ] s = Some s' /\ gates_inv k s'.
Proof.
  intros Hk [F M G E] Ha Hb. a64_run. split.
  - solve_frame.
  - by rewrite !mem_set.
  - rewrite <- (col_gt_step _ _ k) by (done || apply cmp_a_u64 || apply cmp_b_u64).
    rewrite (Z.land_comm (col_eq _ _ _)). a64_get.
  - rewrite <- (col_eq_step _ _ k) by (done || apply cmp_a_u64 || apply cmp_b_u64). a64_get.
Qed.

Lemma exec_cmp_bit k s :
  (k < 64)%nat -> gates_inv (S k) s ->
  exists s', exec (emit_cmp_bit n l r k) s = Some s' /\ gates_inv k s'.
Proof.
  intros Hk I. pose proof I as [F M G E].
  assert (hoisted sc Q l hoisted_left L s) as Hl'.
  { eapply hoisted_keep; [exact F | solve_notin | by apply writes_eq | exact Hl]. }
  assert (hoisted sc Q r hoisted_right R s) as Hr'.
  { eapply hoisted_keep; [exact F | solve_notin | by apply writes_eq | exact Hr]. }
  assert (forall s1, frame [plane_a; plane_b] s s1 -> mem s1 = mem s -> gates_inv (S k) s1) as Hkeep.
  { intros s1 F1 M1. split.
    - eapply frame_trans; [exact F|]. eapply frame_weaken; [|exact F1]. solve_incl.
    - congruence.
    - by rewrite (frame_get_int _ _ _ _ F1) by solve_notin.
    - by rewrite (frame_get_int _ _ _ _ F1) by solve_notin. }
  pose proof exec_cmp_gates as Hg. unfold cmp_a, cmp_b in Hg. unfold emit_cmp_bit.
  destruct (swapped (kind n)).
  - eapply exec_load_bits; [exact Hr' | exact Hl' | discriminate | done |].
    apply Hg; [done | | a64_get | a64_get]. apply Hkeep; [solve_frame | by rewrite !mem_set].
  - eapply exec_load_bits; [exact Hl' | exact Hr' | discriminate | done |].
    apply Hg; [done | | a64_get | a64_get]. apply Hkeep; [solve_frame | by rewrite !mem_set].
Qed.

Lemma exec_cmp_bits k s :
  (k <= 64)%nat -> gates_inv k s ->
  exists s', exec (mjoin (emit_cmp_bit n l r <$> rev (seq 0 k))) s = Some s' /\ gates_inv 0 s'.
Proof.
  revert s. induction k as [|k IH]; intros s Hk Hs; [by exists s|].
  rewrite seq_S, rev_app_distr, Nat.add_0_l.
  change (mjoin (emit_cmp_bit n l r <$> rev [k] ++ rev (seq 0 k)))
    with (emit_cmp_bit n l r k ++ mjoin (emit_cmp_bit n l r <$> rev (seq 0 k))).
  destruct (exec_cmp_bit k s) as (s1 & E1 & I1); [lia|done|].
  destruct (IH s1) as (s2 & E2 & I2); [lia|done|].
  exists s2. split; [|done]. exact (exec_app_Some _ _ _ _ _ E1 E2).
Qed.

End Compare.

(** ** The selection loop *)

Section Select.
Variables (sc fp : nat).
Hypothesis Hne : sc <> fp.

(** One plane of an operand, loaded with the bit index in a register. *)
Lemma exec_load_op Q n A s bit reg :
  opnd sc fp (mem s) Q n A -> (bit < 64)%nat -> reg = plane_a \/ reg = plane_b ->
  get field_planes_ptr s = Some (Ptr fp 0) -> get scratch_ptr s = Some (Ptr sc 0) ->
  get_int bit_index s = Some (Z.of_nat bit) ->
  exists s', exec (emit_load_op n reg) s = Some s' /\
    (mem s' = mem s /\ frame [reg; scratch1; temp_ptr] s s' /\ get_int reg s' = Some (A bit)).
Proof.
  intros Ho Hbit Hreg Hf Hs Hi. unfold emit_load_op, opnd in *.
  assert (small (Z.of_nat bit)) as Hsb by (unfold small; lia).
  assert (0 <= slot_id n /\ slot_id n + 64 <= 32768 /\
      (forall b, (b < 64)%nat -> mem s !! (sc, slot_id n + Z.of_nat b) = Some (Int (A b)) /\
        ~ Q (slot_id n + Z.of_nat b)) ->
    exists s', exec (emit_mov_imm64 scratch1 (slot_offset (slot_id n)) ++
        [ I_add_lsl3 scratch1 scratch1 bit_index; I_ldr reg (Idx scratch_ptr scratch1) ]) s = Some s' /\
      (mem s' = mem s /\ frame [reg; scratch1; temp_ptr] s s' /\ get_int reg s' = Some (A bit))) as Hslot.
  { intros (H0 & H1 & H). destruct (H bit Hbit) as [Hm _].
    apply exec_imm; [discriminate | apply slot_offset_u64 |].
    rewrite slot_offset_eq by (unfold small; lia).
    a64_step. cbn [add_val]. rewrite wrap64_cell, <- Z.mul_add_distr_l, wrap64_cell by (unfold small in *; lia).
    eapply exec_cons.
    { eapply (step_ldr_idx _ _ _ _ sc 0 (slot_id n + Z.of_nat bit)); [a64_get | a64_get | lia |].
      rewrite Z.add_0_l, !mem_set. exact Hm. }
    apply exec_nil. split_and!; [by rewrite !mem_set | solve_frame | destruct Hreg as [-> | ->]; a64_get]. }
  destruct (kind n) eqn:Hk; try (by apply Hslot).
  - destruct Ho as (p & base & Hidx & Hm & Hb & Hp & H). unfold small in Hb.
    eapply exec_cons.
    { apply (step_ldr_off _ _ _ _ fp 0 (Ptr p (8 * base))); [a64_get | lia | by rewrite Z.add_0_l]. }
    eapply exec_cons.
    { eapply (step_ldr_lsl3 _ _ _ _ p base (Z.of_nat bit)); [a64_get | a64_get | done | lia |].
      rewrite mem_set. by apply H. }
    apply exec_nil. split_and!; [by rewrite !mem_set | solve_frame | destruct Hreg as [-> | ->]; a64_get].
  - apply exec_imm; [discriminate | apply wrap64_u64 |].
    assert (Z.of_nat bit mod 64 = Z.of_nat bit) as Hmod by (apply Z.mod_small; lia).
    assert (reg <> xzr) by (destruct Hreg; lia). assert (reg <> scratch1) by (destruct Hreg; lia).
    assert (reg <> bit_index) by (destruct Hreg; lia).
    do 3 a64_step. apply exec_nil.
    split_and!; [by rewrite !mem_set | solve_frame |].
    rewrite (Ho bit Hbit), Hmod, land_bit by lia.
    destruct (Z.testbit (wrap64 (const_value n)) (Z.of_nat bit)); a64_get.
Qed.

Variables (n l r : Node) (vm : Z) (A B : nat -> Z) (s0 : state).
Let Q := block (slot_id n).
Hypothesis Hslot : 0 <= slot_id n /\ slot_id n + 64 <= 32768.
Hypothesis Hcells : forall k, Q k -> is_Some (mem s0 !! (sc, k)).
Hypothesis Hf : get field_planes_ptr s0 = Some (Ptr fp 0).
Hypothesis Hs : get scratch_ptr s0 = Some (Ptr sc 0).
Hypothesis Hm : get_int mask_gt s0 = Some vm.
Hypothesis Hl : opnd sc fp (mem s0) Q l A.
Hypothesis Hr : opnd sc fp (mem s0) Q r B.

Definition mux (b : nat) : Z := Z.lor (Z.land vm (A b)) (Z.ldiff (B b) vm).

Record select_inv (bit : nat) (s : state) : Prop := {
  si_frame : frame [plane_a; plane_b; scratch1; bit_index; temp_ptr] s0 s;
  si_writes : writes sc Q (mem s0) (mem s);
  si_done : forall b, (b < bit)%nat -> mem s !! (sc, slot_id n + Z.of_nat b) = Some (Int (mux b))
}.

Lemma exec_select_store bit s :
  (bit < 64)%nat -> select_inv bit s ->
  get_int plane_a s = Some (A bit) -> get_int plane_b s = Some (B bit) ->
  exists s', exec
    ([ I_and scratch1 mask_gt plane_a; I_bic temp_ptr plane_b mask_gt; I_orr scratch1 scratch1 temp_ptr ] ++
     emit_mov_imm64 temp_ptr (wrap64 (slot_offset (slot_id n) + Z.of_nat bit * 8)) ++
     [ I_str scratch1 (Idx scratch_ptr temp_ptr) ]) s = Some s' /\ select_inv (S bit) s'.
Proof.
  intros Hbit [F W D] Ha Hb.
  assert (get scratch_ptr s = Some (Ptr sc 0)) as Hs' by (rewrite F by solve_notin; done).
  assert (get_int mask_gt s = Some vm) as Hm' by (by rewrite (frame_get_int _ _ _ _ F) by solve_notin).
  assert (small (slot_id n + Z.of_nat bit)) as Hsm by (unfold small; lia).
  cbn [app]. do 3 a64_step. apply exec_imm; [discriminate | apply wrap64_u64 |].
  rewrite slot_offset_eq by (unfold small; lia).
  replace (8 * slot_id n + Z.of_nat bit * 8) with (8 * (slot_id n + Z.of_nat bit)) by lia.
  rewrite wrap64_cell by done.
  eapply exec_cons.
  { eapply (step_str_idx _ _ _ _ sc 0 (slot_id n + Z.of_nat bit)); [a64_get | a64_get | unfold small in Hsm; lia | | a64_get].
    rewrite Z.add_0_l, !mem_set. eapply writes_some; [exact W|]. apply Hcells. subst Q. unfold block. lia. }
  rewrite Z.add_0_l. apply exec_nil. split.
  - apply frame_upd_mem. solve_frame.
  - rewrite mem_upd_mem, !mem_set. eapply writes_trans; [exact W|]. apply writes_insert. subst Q. unfold block. lia.
  - intros b Hb2. rewrite mem_upd_mem, !mem_set. destruct (decide (b = bit)) as [->|Hneb].
    + by rewrite lookup_insert_eq.
    + rewrite lookup_insert_ne by (intros [=]; lia). apply D. lia.
Qed.

Lemma exec_select_bit bit s :
  (bit < 64)%nat -> select_inv bit s ->
  exists s', exec (emit_select_bit n l r bit) s = Some s' /\ select_inv (S bit) s'.
Proof.
  intros Hbit I. pose proof I as [F W D]. unfold emit_select_bit. cbn [app]. a64_step.
  rewrite (wrap64_small (Z.of_nat bit)) by (unfold u64; lia).
  set (s1 := set bit_index _ s).
  assert (frame [plane_a; plane_b; scratch1; bit_index; temp_ptr] s0 s1) as F1 by (subst s1; solve_frame).
  assert (mem s1 = mem s) as M1 by apply mem_set.
  assert (get_int bit_index s1 = Some (Z.of_nat bit)) as I1 by (subst s1; a64_get).
  destruct (exec_load_op Q l A s1 bit plane_a) as (s2 & E2 & M2 & F2 & V2); try done.
  { rewrite M1. eapply opnd_writes; eauto. }
  { by left. } { rewrite F1 by solve_notin. done. } { rewrite F1 by solve_notin. done. }
  apply exec_seq. exists s2. split; [done|].
  assert (frame [plane_a; plane_b; scratch1; bit_index; temp_ptr] s0 s2) as F02.
  { eapply frame_trans; [exact F1|]. eapply frame_weaken; [|exact F2]. solve_incl. }
  destruct (exec_load_op Q r B s2 bit plane_b) as (s3 & E3 & M3 & F3 & V3); try done.
  { rewrite M2, M1. eapply opnd_writes; eauto. }
  { by right. } { rewrite F02 by solve_notin. done. } { rewrite F02 by solve_notin. done. }
  { rewrite (frame_get_int _ _ _ _ F2) by solve_notin. done. }
  apply exec_seq. exists s3. split; [done|]. apply (exec_select_store bit s3); try done.
  - split.
    + eapply frame_trans; [exact F02|]. eapply frame_weaken; [|exact F3]. solve_incl.
    + by rewrite M3, M2, M1.
    + intros b Hb. rewrite M3, M2, M1. by apply D.
  - rewrite (frame_get_int _ _ _ _ F3) by solve_notin. done.
Qed.

Lemma exec_select_bits k s :
  (k <= 64)%nat -> select_inv 0 s ->
  exists s', exec (mjoin (emit_select_bit n l r <$> seq 0 k)) s = Some s' /\ select_inv k s'.
Proof.
  intros Hk H0. induction k as [|k IH]; [by exists s|].
  destruct IH as (s1 & E1 & I1); [lia|]. rewrite seq_S, fmap_app, join_app.
  destruct (exec_select_bit k s1) as (s2 & E2 & I2); [lia|done|].
  exists s2. split; [|done]. refine (exec_app_Some _ _ _ _ _ E1 _).
  cbn [fmap list_fmap mjoin list_join]. by rewrite app_nil_r.
Qed.

End Select.

(** ** The register cache *)

Section Cache.
Variable sc : nat.
Import ScratchpadCache.

Definition cache_frame : list nat := [8; 9; 10; 11; 12; 13; 14; 15; 22]%nat.

Lemma cache_reg r : (r < 8)%nat -> cache_regs !!! r = (8 + r)%nat.
Proof. intros Hr. do 8 (destruct r as [|r]; [done|]). lia. Qed.

(** Every cached slot has, in its register, the value it has in memory; [K] says
    which slots may be cached. *)
Record cache_ok (K : Z -> Prop) (c : t) (s : state) : Prop := {
  co_next : (next_reg c < 8)%nat;
  co_len : length (reg_to_slot c) = 8%nat;
  co_hit : forall slot r, slot_to_reg c !! slot = Some r ->
    K slot /\ (r < 8)%nat /\ reg_to_slot c !! r = Some slot /\ get (8 + r) s = mem s !! (sc, slot)
}.

Lemma cache_ok_init K s : cache_ok K init s.
Proof. split; cbn; [lia|done|]. intros slot r Hr. by rewrite lookup_empty in Hr. Qed.

(** Code that leaves the cache registers and the cacheable slots alone. *)
Lemma cache_ok_keep (K P : Z -> Prop) R c s s' :
  frame R s s' -> (forall r, (r < 8)%nat -> (8 + r)%nat ∉ R) ->
  writes sc P (mem s) (mem s') -> (forall k, K k -> ~ P k) ->
  cache_ok K c s -> cache_ok K c s'.
Proof.
  intros F HR W HK [H1 H2 H3]. split; [done..|]. intros slot r Hr.
  destruct (H3 slot r Hr) as (Hk & Hlt & Hs & Hg). split_and!; [done..|].
  rewrite F by (by apply HR). rewrite Hg. symmetry. apply (writes_lookup _ _ _ _ _ _ W).
  intros [_ HP]. by apply (HK slot).
Qed.

(** The cache after [slot] was bound to register [r], which now holds its value;
    the slots that were in [r] or are rebound are forgotten. *)
Lemma cache_ok_bind K c s s' slot r s2r nr v :
  cache_ok K c s -> (r < 8)%nat -> (nr < 8)%nat -> K slot ->
  (forall sl q, s2r !! sl = Some q -> slot_to_reg c !! sl = Some q) ->
  (forall sl q, s2r !! sl = Some q -> sl <> slot -> q <> r) ->
  frame [(8 + r)%nat; 22%nat] s s' -> get (8 + r) s' = Some v ->
  mem s' !! (sc, slot) = Some v ->
  (forall k, k <> slot -> mem s' !! (sc, k) = mem s !! (sc, k)) ->
  cache_ok K (mk nr (<[slot := r]> s2r) (<[r := slot]> (reg_to_slot c))) s'.
Proof.
  intros [H1 H2 H3] Hr Hnr HK Hsub Hneq F Hv Hm Hmk. split; cbn [next_reg slot_to_reg reg_to_slot].
  - done.
  - by rewrite length_insert.
  - intros sl q. destruct (decide (sl = slot)) as [->|Hne].
    + rewrite lookup_insert_eq. intros [= <-]. split_and!; [done..| |by rewrite Hv, Hm].
      apply list_lookup_insert_eq. lia.
    + rewrite lookup_insert_ne by done. intros Hq.
      destruct (H3 sl q (Hsub _ _ Hq)) as (HKs & Hlt & Hrs & Hg). split_and!; [done..| |].
      * rewrite list_lookup_insert_ne; [done|]. intros ->. by apply (Hneq sl q).
      * rewrite F, Hg, Hmk; [done..|]. rewrite !not_elem_of_cons. pose proof (Hneq sl q Hq Hne).
        split_and!; [lia|lia|apply not_elem_of_nil].
Qed.

(** Evicting and claiming the next register. *)
Lemma claim_ok K c s s' slot v :
  cache_ok K c s -> ~ K (-1) -> K slot ->
  let r := next_reg c in
  frame [(8 + r)%nat; 22%nat] s s' -> get (8 + r) s' = Some v ->
  mem s' !! (sc, slot) = Some v ->
  (forall k, k <> slot -> mem s' !! (sc, k) = mem s !! (sc, k)) ->
  (claim slot c).1 = r /\ cache_ok K (claim slot c).2 s'.
Proof.
  intros Hc Hm1 HK r F Hv Hm Hmk. split; [done|]. pose proof (co_next _ _ _ Hc) as Hn.
  unfold claim. cbn [snd]. apply (cache_ok_bind K c s s' slot r _ _ v); try done.
  - apply Nat.mod_upper_bound. lia.
  - intros sl q. destruct (_ =? _); [done|]. intros [_ Hq]%lookup_delete_Some. done.
  - intros sl q Hq Hne ->.
    assert (slot_to_reg c !! sl = Some r) as Hsl.
    { destruct (_ =? _) in Hq; [done|]. by apply lookup_delete_Some in Hq as [_ Hq]. }
    destruct (co_hit _ _ _ Hc sl r Hsl) as (HKs & _ & Hrs & _).
    apply list_lookup_total_correct in Hrs. fold r in Hq. rewrite Hrs in Hq.
    destruct (Z.eqb_spec sl (-1)) as [E|_]; [by rewrite E in HKs|].
    by rewrite lookup_delete_eq in Hq.
Qed.

Lemma cache_frame_reg r : (r < 8)%nat -> (8 + r)%nat ∈ cache_frame.
Proof. intros Hr. unfold cache_frame. rewrite !elem_of_cons. lia. Qed.

Lemma exec_load_slot K slot dest c s v :
  cache_ok K c s -> ~ K (-1) -> K slot -> small slot -> (dest < 8)%nat ->
  get scratch_ptr s = Some (Ptr sc 0) -> mem s !! (sc, slot) = Some v ->
  exists s', exec (load_slot slot dest c).1 s = Some s' /\
    (mem s' = mem s /\ frame (dest :: cache_frame) s s' /\ get dest s' = Some v /\
     cache_ok K (load_slot slot dest c).2 s').
Proof.
  intros Hc Hm1 HK Hsm Hd Hs Hv. unfold load_slot.
  destruct (slot_to_reg c !! slot) as [r|] eqn:Er.
  - cbn [fst snd]. destruct (co_hit _ _ _ Hc slot r Er) as (_ & Hlt & _ & Hg).
    rewrite cache_reg by done.
    eapply exec_cons; [eapply step_mov; by rewrite Hg|]. apply exec_nil.
    split_and!; [by rewrite mem_set | solve_frame | apply get_set_eq; lia |].
    eapply (cache_ok_keep K (fun _ => False) [dest]); [solve_frame | | | by auto | exact Hc].
    + intros q Hq. rewrite list_elem_of_singleton. lia.
    + apply writes_eq, mem_set.
  - pose proof (co_next _ _ _ Hc) as Hn.
    set (s1 := set dest v (set temp_ptr (Int (8 * slot)) s)).
    set (s2 := set (8 + next_reg c)%nat v s1).
    destruct (claim_ok K c s1 s2 slot v) as [_ Hc2]; try done.
    { eapply (cache_ok_keep K (fun _ => False) [dest; 22%nat]); [subst s1; solve_frame | | | by auto | exact Hc].
      - intros q Hq. rewrite !elem_of_cons, elem_of_nil. lia.
      - subst s1. apply writes_eq. by rewrite !mem_set. }
    { subst s2. solve_frame. } { subst s2. apply get_set_eq. lia. }
    { subst s2 s1. by rewrite !mem_set. } { subst s2. by rewrite mem_set. }
    destruct (claim slot c) as [r c'] eqn:Ecl. cbn [fst snd] in *.
    assert (r = next_reg c) as -> by (by injection Ecl).
    rewrite cache_reg by done.
    apply exec_imm; [discriminate | apply slot_offset_u64 |]. rewrite slot_offset_eq by done.
    eapply exec_cons.
    { eapply (step_ldr_idx _ _ _ _ sc 0 slot); [a64_get | a64_get | unfold small in Hsm; lia |].
      rewrite Z.add_0_l, mem_set. exact Hv. }
    eapply exec_cons; [eapply step_mov; a64_get|]. apply exec_nil. fold s1. fold s2.
    split_and!; [subst s2 s1; by rewrite !mem_set | | |done].
    + subst s2. apply frame_set; [apply list_elem_of_further, cache_frame_reg; lia|].
      subst s1. unfold cache_frame. solve_frame.
    + subst s2 s1. rewrite get_set_ne by lia. apply get_set_eq. lia.
Qed.

Lemma exec_store_slot K slot src c s v :
  cache_ok K c s -> ~ K (-1) -> K slot -> small slot -> (src < 8)%nat ->
  get scratch_ptr s = Some (Ptr sc 0) -> is_Some (mem s !! (sc, slot)) -> get src s = Some v ->
  exists s', exec (store_slot slot src c).1 s = Some s' /\
    (mem s' = <[(sc, slot) := v]> (mem s) /\ frame cache_frame s s' /\
     cache_ok K (store_slot slot src c).2 s').
Proof.
  intros Hc Hm1 HK Hsm Hd Hs Hcell Hv. unfold store_slot.
  assert (forall r, (r < 8)%nat -> let s1 := upd_mem sc slot v (set temp_ptr (Int (8 * slot)) s) in
    let s2 := set (8 + r)%nat v s1 in
    exec (emit_mov_imm64 temp_ptr (slot_offset slot) ++
      [ I_str src (Idx scratch_ptr temp_ptr); I_mov (cache_regs !!! r) src ]) s = Some s2 /\
    mem s2 = <[(sc, slot) := v]> (mem s) /\ frame cache_frame s s2 /\
    frame [(8 + r)%nat; 22%nat] s s2 /\ get (8 + r) s2 = Some v) as Hex.
  { intros r Hr s1 s2. rewrite cache_reg by done. split_and!.
    - assert (exists s', exec (emit_mov_imm64 temp_ptr (slot_offset slot) ++
        [ I_str src (Idx scratch_ptr temp_ptr); I_mov (8 + r) src ]) s = Some s' /\ s' = s2) as (s' & -> & ->); [|done].
      apply exec_imm; [discriminate | apply slot_offset_u64 |]. rewrite slot_offset_eq by done.
      eapply exec_cons.
      { eapply (step_str_idx _ _ _ _ sc 0 slot); [a64_get | a64_get | unfold small in Hsm; lia | | a64_get].
        by rewrite Z.add_0_l, mem_set. }
      rewrite Z.add_0_l. eapply exec_cons; [eapply step_mov; a64_get|]. by apply exec_nil.
    - subst s2 s1. by rewrite mem_set, mem_upd_mem, mem_set.
    - subst s2. apply frame_set; [by apply cache_frame_reg|]. subst s1. apply frame_upd_mem.
      unfold cache_frame. solve_frame.
    - subst s2. apply frame_set; [apply list_elem_of_here|]. subst s1. apply frame_upd_mem. solve_frame.
    - subst s2. apply get_set_eq. lia. }
  assert (forall s2, mem s2 = <[(sc, slot) := v]> (mem s) -> mem s2 !! (sc, slot) = Some v /\
    (forall k, k <> slot -> mem s2 !! (sc, k) = mem s !! (sc, k))) as Hmem.
  { intros s2 ->. split; [apply lookup_insert_eq|]. intros k Hk. apply lookup_insert_ne. by intros [= ->]. }
  destruct (slot_to_reg c !! slot) as [r|] eqn:Er.
  - destruct (co_hit _ _ _ Hc slot r Er) as (_ & Hlt & Hrs & _).
    destruct (Hex r Hlt) as (E & M & F & F2 & G). destruct (Hmem _ M).
    eexists. split; [exact E|]. split_and!; [done..|]. cbn [snd].
    apply (cache_ok_bind K c s _ slot r _ _ v); try done; [apply (co_next _ _ _ Hc)|].
    intros sl q Hq Hne ->. destruct (co_hit _ _ _ Hc sl r Hq) as (_ & _ & Hrs' & _). congruence.
  - pose proof (co_next _ _ _ Hc) as Hn. destruct (Hex _ Hn) as (E & M & F & F2 & G). destruct (Hmem _ M).
    destruct (claim_ok K c s _ slot v Hc Hm1 HK F2 G) as [_ Hc2]; [done..|].
    destruct (claim slot c) as [r c'] eqn:Ecl. cbn [fst snd] in *.
    assert (r = next_reg c) as -> by (by injection Ecl).
    eexists. split; [exact E|]. done.
Qed.

End Cache.
