(* ===== verification/ExprCorrect.v ===== *)
(** * Correctness of the bit-sliced kernels
      (compile_expression of src/jit/compiler.cpp, whole kernels)

    The kernel is run on the machine from its entry to its [ret].  [laneA] and
    [laneB] are the value the kernel gives an expression in lane [r]; they are
    the expression's value ([aeval], [beval]) except that a subtraction's carry
    register starts at the constant 1, which is the carry into lane 0 only, so
    in the 63 other lanes a difference is one too small. *)

From S2P Require Import Prelude Planes IR A64 Circuits Analyzer ExprCompiler A64Mem ExprBits.

(** ** The value in a lane *)

Fixpoint laneA (r : nat) (row : string -> Z) (e : aexp) : Z :=
  match e with
  | ALoad f => row f
  | AConst c => wrap64 c
  | AAdd a b => wrap64 (laneA r row a + laneA r row b)
  | ASub a b => wrap64 (laneA r row a - laneA r row b - (if (r =? 0)%nat then 0 else 1))
  | ASelect c a b => if laneB r row c then laneA r row a else laneA r row b
  end
with laneB (r : nat) (row : string -> Z) (e : bexp) : bool :=
  match e with
  | BCmp op a b => cmp_eval op (laneA r row a) (laneA r row b)
  | BAnd a b => laneB r row a && laneB r row b
  | BOr a b => laneB r row a || laneB r row b
  | BNot a => negb (laneB r row a)
  end.

Fixpoint no_subA (e : aexp) : bool :=
  match e with
  | ALoad _ | AConst _ => true
  | AAdd a b => no_subA a && no_subA b
  | ASub _ _ => false
  | ASelect c a b => no_subB c && no_subA a && no_subA b
  end
with no_subB (e : bexp) : bool :=
  match e with
  | BCmp _ a b => no_subA a && no_subA b
  | BAnd a b | BOr a b => no_subB a && no_subB b
  | BNot a => no_subB a
  end.

Lemma lane_no_sub r row :
  (forall e, no_subA e = true -> laneA r row e = aeval row e) /\
  (forall e, no_subB e = true -> laneB r row e = beval row e).
Proof.
  apply expr_mutind; simpl; intros; try done;
    repeat match goal with H : _ && _ = true |- _ => apply andb_prop in H as [? ?] end;
    repeat match goal with IH : ?P -> _ = _, H : ?P |- _ => rewrite (IH H); clear IH end; done.
Qed.

Lemma lane0 row :
  (forall e, laneA 0 row e = aeval row e) /\ (forall e, laneB 0 row e = beval row e).
Proof.
  apply expr_mutind; simpl; intros; try done; rewrite ?Z.sub_0_r;
    repeat match goal with H : _ = _ |- _ => rewrite H; clear H end; done.
Qed.

Lemma laneA_u64 r row e : (forall f, u64 (row f)) -> u64 (laneA r row e).
Proof.
  intros Hr. apply (aexp_mut (fun e => u64 (laneA r row e)) (fun _ => True)); simpl; intros; auto;
    try apply wrap64_u64. by destruct (laneB r row c).
Qed.

(** ** A node denotes one expression *)

Lemma cmp_kind_inj op op' : cmp_kind op = cmp_kind op' -> op = op'.
Proof. by destruct op, op'. Qed.

Lemma den_fun ns :
  (forall i e, denA ns i e -> (forall e', denA ns i e' -> e' = e) /\ forall e', ~ denB ns i e') /\
  (forall i e, denB ns i e -> (forall e', denB ns i e' -> e' = e) /\ forall e', ~ denA ns i e').
Proof.
  apply den_mutind; intros; (split; [intros e' He' | intros e' He']);
    inversion He'; simplify_eq;
    repeat match goal with op : cmpop |- _ => destruct op; simplify_eq/= end;
    repeat match goal with H : ?x = _, H' : ?x = _ |- _ => rewrite H in H'; simplify_eq/= end;
    try congruence; f_equal; naive_solver.
Qed.

(** ** Columns of an expression *)

Section Columns.
Variable rows : nat -> string -> Z.
Hypothesis Hrows : forall r f, u64 (rows r f).

(** The planes and the mask of an expression on the 64 rows. *)
Definition PA (e : aexp) (b : nat) : Z := plane_of (fun r => laneA r (rows r) e) b.
Definition MB (e : bexp) : Z := mask64 (fun r => laneB r (rows r) e).

Lemma PA_u64 e b : u64 (PA e b).
Proof. apply plane_of_u64. Qed.
Lemma MB_u64 e : u64 (MB e).
Proof. apply mask64_u64. Qed.

Lemma row_value_PA e r : (r < 64)%nat -> row_value (PA e) r = laneA r (rows r) e.
Proof. intros Hr. apply (row_value_plane_of (fun r => laneA r (rows r) e)); [done | by apply laneA_u64]. Qed.

Lemma PA_const c b : (b < 64)%nat ->
  PA (AConst c) b = if Z.testbit (wrap64 c) (Z.of_nat b) then ones64 else 0.
Proof.
  intros Hb. unfold PA, plane_of. cbn [laneA].
  destruct (Z.testbit (wrap64 c) (Z.of_nat b)); [apply mask64_true | apply mask64_false].
Qed.

Lemma arith_add n ea eb b :
  kind n = K_ADD -> col_add (PA ea) (arith_b n (PA eb)) (arith_c n) b = PA (AAdd ea eb) b.
Proof.
  intros Hk. apply mask64_ext. intros r Hr. f_equal. cbn [laneA].
  rewrite <- !row_value_PA by done. unfold arith_c. rewrite bool_decide_eq_false_2 by congruence.
  cbn [andb Z.b2z]. rewrite Z.add_0_r.
  rewrite (row_value_ext (arith_b n (PA eb)) (PA eb)); [done|].
  intros k Hk'. unfold arith_b. by rewrite decide_False by congruence.
Qed.

Lemma arith_sub n ea eb b :
  kind n = K_SUB -> col_add (PA ea) (arith_b n (PA eb)) (arith_c n) b = PA (ASub ea eb) b.
Proof.
  intros Hk. apply mask64_ext. intros r Hr. f_equal. cbn [laneA].
  rewrite <- !row_value_PA by done. unfold arith_c. rewrite bool_decide_eq_true_2 by done. cbn [andb].
  rewrite (row_value_ext (arith_b n (PA eb)) (fun b => lnot64 (PA eb b))).
  2:{ intros k Hk'. unfold arith_b. by rewrite decide_True. }
  rewrite row_value_lnot by done. unfold wrap64, ones64.
  destruct (r =? 0)%nat; cbn [Z.b2z].
  - rewrite <- (Z.mod_add (row_value (PA ea) r - _ - 0) 1) by lia. f_equal. lia.
  - rewrite <- (Z.mod_add (row_value (PA ea) r - _ - 1) 1) by lia. f_equal. lia.
Qed.

(** The comparator's final masks, by operation. *)
Lemma MB_gt ea eb : MB (BCmp C_GT ea eb) = col_gt (PA ea) (PA eb) 0.
Proof. rewrite col_gt_0. apply mask64_ext. intros r Hr. cbn [laneB cmp_eval]. by rewrite !row_value_PA. Qed.
Lemma MB_lt ea eb : MB (BCmp C_LT ea eb) = col_gt (PA eb) (PA ea) 0.
Proof. rewrite col_gt_0. apply mask64_ext. intros r Hr. cbn [laneB cmp_eval]. by rewrite !row_value_PA. Qed.
Lemma MB_eq ea eb : MB (BCmp C_EQ ea eb) = col_eq (PA ea) (PA eb) 0.
Proof. rewrite col_eq_0. apply mask64_ext. intros r Hr. cbn [laneB cmp_eval]. by rewrite !row_value_PA. Qed.

Lemma leb_gt_eq x y : (x <=? y) = (x <? y) || (y =? x).
Proof. destruct (Z.leb_spec x y), (Z.ltb_spec x y), (Z.eqb_spec y x); try done; lia. Qed.

Lemma MB_ge ea eb : MB (BCmp C_GE ea eb) = Z.lor (col_gt (PA ea) (PA eb) 0) (col_eq (PA ea) (PA eb) 0).
Proof.
  apply u64_eq_nbits; [apply MB_u64 | apply u64_lor; eauto with u64 |]. intros r Hr.
  rewrite Z.lor_spec, col_gt_bit, col_eq_bit by done. unfold MB. rewrite mask64_bit by done.
  cbn [laneB cmp_eval]. by rewrite gt_from_0, eq_from_0, !row_value_PA, leb_gt_eq.
Qed.

Lemma MB_le ea eb : MB (BCmp C_LE ea eb) = Z.lor (col_gt (PA eb) (PA ea) 0) (col_eq (PA eb) (PA ea) 0).
Proof.
  apply u64_eq_nbits; [apply MB_u64 | apply u64_lor; eauto with u64 |]. intros r Hr.
  rewrite Z.lor_spec, col_gt_bit, col_eq_bit by done. unfold MB. rewrite mask64_bit by done.
  cbn [laneB cmp_eval]. by rewrite gt_from_0, eq_from_0, !row_value_PA, leb_gt_eq.
Qed.

Lemma MB_and ea eb : MB (BAnd ea eb) = Z.land (MB ea) (MB eb).
Proof.
  apply u64_eq_nbits; [apply MB_u64 | apply u64_land; apply MB_u64 |]. intros r Hr.
  rewrite Z.land_spec. unfold MB. by rewrite !mask64_bit.
Qed.

Lemma MB_or ea eb : MB (BOr ea eb) = Z.lor (MB ea) (MB eb).
Proof.
  apply u64_eq_nbits; [apply MB_u64 | apply u64_lor; apply MB_u64 |]. intros r Hr.
  rewrite Z.lor_spec. unfold MB. by rewrite !mask64_bit.
Qed.

Lemma MB_not ea : MB (BNot ea) = lnot64 (MB ea).
Proof.
  apply u64_eq_nbits; [apply MB_u64 | apply u64_lnot64, MB_u64 |]. intros r Hr.
  rewrite lnot64_bits by lia. unfold MB. by rewrite !mask64_bit.
Qed.

Lemma PA_select ec ea eb b :
  PA (ASelect ec ea eb) b = mux (MB ec) (PA ea) (PA eb) b.
Proof.
  unfold mux. apply u64_eq_nbits; [apply PA_u64 | |].
  { apply u64_lor; [apply u64_land; [apply MB_u64 | apply PA_u64] | apply u64_ldiff, PA_u64]. }
  intros r Hr. rewrite Z.lor_spec, Z.land_spec, Z.ldiff_spec. unfold MB, PA.
  rewrite !plane_of_bit, mask64_bit by done. cbn [laneA].
  destruct (laneB r (rows r) ec); by rewrite ?andb_true_r, ?andb_false_r, ?orb_false_r.
Qed.

End Columns.

(** ** The main loop *)

(** The registers the main loop uses. *)
Definition body_regs : list nat := seq 2 16 ++ seq 21 8.

Lemma elem_of_body_regs r : r ∈ body_regs <-> (2 <= r <= 17 \/ 21 <= r <= 28)%nat.
Proof. unfold body_regs. rewrite elem_of_app, !elem_of_seq. lia. Qed.

Ltac body_incl :=
  let x := fresh in
  intros x; rewrite elem_of_body_regs; unfold cache_frame; rewrite ?elem_of_cons, ?elem_of_nil; lia.
(** Widen a frame fact to [body_regs]. *)
Ltac to_body F := eapply frame_weaken; [|exact F]; body_incl.
Ltac not_body := rewrite ?elem_of_body_regs; lia.

Lemma carry_reg_range k carry : carry_reg_of k = Some carry -> (23 <= carry <= 28)%nat.
Proof.
  unfold carry_reg_of. destruct (0 <=? k); [|done]. intros H%list_elem_of_lookup_2.
  unfold carry_regs in H. rewrite !elem_of_cons, elem_of_nil in H. lia.
Qed.

(** The nodes code is emitted for, and the leaves, which need none. *)
Definition live (n : Node) : bool := negb (skip_jit n) || is_leaf (kind n).

Lemma denB_inner ns i e : denB ns i e -> is_leaf (kind (node ns i)) = false.
Proof.
  intros He. inversion He as [op i' n a b ea eb Hn Hk|i' n a b ea eb Hn Hk|i' n a b ea eb Hn Hk|i' n a ea Hn Hk];
    rewrite (list_lookup_total_correct _ _ _ Hn), Hk; [by destruct op|done..].
Qed.

(** Slot [k] belongs to node [n]. *)
Definition owns (n : Node) (k : Z) : Prop := 0 <= k /\ owned n (Z.to_nat k).

Section Body.
Variables (ns : list Node) (all : list nat) (sc fp : nat) (rows : nat -> string -> Z) (s0 : state).
Hypothesis Hrows : forall r f, u64 (rows r f).
Hypothesis Hlay : layout ns all.
Hypothesis Hne : sc <> fp.
Hypothesis Hf0 : get field_planes_ptr s0 = Some (Ptr fp 0).
Hypothesis Hs0 : get scratch_ptr s0 = Some (Ptr sc 0).
Hypothesis Hcells : forall k, 0 <= k < 32768 -> is_Some (mem s0 !! (sc, k)).
(** Each field's pointer designates 64 planes outside the scratch memory. *)
Hypothesis Hfields : forall i : nat, i ∈ all -> kind (node ns i) = K_LOAD ->
  exists p base, mem s0 !! (fp, field_idx (node ns i)) = Some (Ptr p (8 * base)) /\ small base /\ p <> sc /\
    forall b, (b < 64)%nat ->
      mem s0 !! (p, base + Z.of_nat b) = Some (Int (plane_of (fun r => rows r (field_name (node ns i))) b)).

Abbreviation PA := (PA rows).
Abbreviation MB := (MB rows).

(** The slots of masks, which the cache may hold. *)
Definition mask_slot (k : Z) : Prop :=
  exists i : nat, i ∈ all /\ result_kind (node ns i) = BITMASK /\ owns (node ns i) k.

Definition planes_done (s : state) (i : nat) (e : aexp) : Prop :=
  is_leaf (kind (node ns i)) = false ->
  forall b, (b < 64)%nat -> mem s !! (sc, slot_id (node ns i) + Z.of_nat b) = Some (Int (PA e b)).
Definition mask_done (s : state) (i : nat) (e : bexp) : Prop :=
  mem s !! (sc, slot_id (node ns i)) = Some (Int (MB e)).

Record body_inv (done : list nat) (c : ScratchpadCache.t) (s : state) : Prop := {
  bi_frame : frame body_regs s0 s;
  bi_writes : writes sc (fun k => 0 <= k < 32768) (mem s0) (mem s);
  bi_A : forall i e, i ∈ done -> denA ns i e -> planes_done s i e;
  bi_B : forall i e, i ∈ done -> denB ns i e -> mask_done s i e;
  bi_init : forall i : nat, i ∈ all -> i ∉ done -> is_cmp (kind (node ns i)) = true ->
    mem s !! (sc, slot_id (node ns i)) = Some (Int 0) /\
    mem s !! (sc, eq_slot_id (node ns i)) = Some (Int ones64);
  bi_cache : cache_ok sc mask_slot c s
}.

(** *** Slots of the layout *)

Lemma node_lookup i : i ∈ all -> ns !! i = Some (node ns i).
Proof using Hlay. clear -Hlay. intros Hi. apply list_lookup_lookup_total_lt. eapply topo_lt; [apply Hlay|done]. Qed.

Lemma owns_range i k : i ∈ all -> owns (node ns i) k -> 0 <= k < 32768.
Proof using Hlay. clear -Hlay.
  intros Hi (Hk & Hl & Ho). rewrite Z2Nat.id in Ho by done.
  destruct (ly_slots _ _ Hlay i Hi Hl) as (H0 & H1 & H2 & H3).
  destruct Ho as [[E Ho]|[[E Ho]|[E Ho]]]; naive_solver lia.
Qed.

Lemma owns_disj i j k :
  i ∈ all -> j ∈ all -> i <> j -> owns (node ns i) k -> ~ owns (node ns j) k.
Proof using Hlay. clear -Hlay. intros Hi Hj Hij (_ & H1) (_ & H2). by eapply (ly_disj _ _ Hlay i j). Qed.

Lemma owns_block i k :
  i ∈ all -> is_leaf (kind (node ns i)) = false -> result_kind (node ns i) = BITPLANE ->
  block (slot_id (node ns i)) k -> owns (node ns i) k.
Proof using Hlay. clear -Hlay.
  intros Hi Hl Hr Hb. destruct (ly_slots _ _ Hlay i Hi Hl) as (H0 & _). unfold block in Hb.
  split; [lia|]. split; [done|]. left. split; [done|]. rewrite Z2Nat.id by lia. lia.
Qed.

Lemma owns_slot i :
  i ∈ all -> is_leaf (kind (node ns i)) = false -> result_kind (node ns i) = BITMASK ->
  owns (node ns i) (slot_id (node ns i)).
Proof using Hlay. clear -Hlay.
  intros Hi Hl Hr. destruct (ly_slots _ _ Hlay i Hi Hl) as (H0 & _).
  split; [lia|]. split; [done|]. right; left. split; [done|]. by rewrite Z2Nat.id.
Qed.

Lemma owns_eq_slot i :
  i ∈ all -> is_cmp (kind (node ns i)) = true -> owns (node ns i) (eq_slot_id (node ns i)).
Proof using Hlay. clear -Hlay.
  intros Hi Hc. assert (is_leaf (kind (node ns i)) = false) as Hl by (by destruct (kind (node ns i))).
  destruct (ly_slots _ _ Hlay i Hi Hl) as (_ & _ & _ & H3). specialize (H3 Hc).
  split; [lia|]. split; [done|]. right; right. split; [done|]. rewrite Z2Nat.id; lia.
Qed.

Lemma mask_slot_m1 : ~ mask_slot (-1).
Proof. intros (i & _ & _ & H & _). lia. Qed.

(** A denoted node's kind of result. *)
Lemma denA_kind i e : i ∈ all -> denA ns i e -> result_kind (node ns i) = BITPLANE.
Proof using Hlay. clear -Hlay.
  intros Hi He. rewrite (ly_result _ _ Hlay i Hi). pose proof (node_lookup i Hi) as Hn.
  inversion He; simplify_eq; repeat match goal with H : kind _ = _ |- _ => rewrite H end; done.
Qed.

Lemma denB_kind i e :
  i ∈ all -> denB ns i e -> result_kind (node ns i) = BITMASK /\ is_leaf (kind (node ns i)) = false.
Proof using Hlay. clear -Hlay.
  intros Hi He. rewrite (ly_result _ _ Hlay i Hi). pose proof (node_lookup i Hi) as Hn.
  inversion He; simplify_eq; repeat match goal with H : kind _ = _ |- _ => rewrite H end; try done.
  by destruct op.
Qed.

(** *** One node *)

(** If the code of node [i] wrote only the node's own slots and left its result
    there, the invariant moves past the node. *)
Lemma body_step done c s i c' s' :
  body_inv done c s -> i ∈ all -> i ∉ done -> (forall j, j ∈ done -> j ∈ all) ->
  frame body_regs s s' -> writes sc (owns (node ns i)) (mem s) (mem s') ->
  cache_ok sc mask_slot c' s' ->
  (exists e, denA ns i e /\ planes_done s' i e) \/ (exists e, denB ns i e /\ mask_done s' i e) ->
  body_inv (done ++ [i]) c' s'.
Proof.
  intros [F W HA HB HI HC] Hi Hnd Hall F' W' C' Hres.
  assert (forall j k, j ∈ all -> j <> i -> owns (node ns j) k -> mem s' !! (sc, k) = mem s !! (sc, k)) as Hk.
  { intros j k Hj Hji Ho. apply (writes_lookup _ _ _ _ _ _ W'). intros [_ Ho']. by apply (owns_disj j i k). }
  split.
  - by eapply frame_trans.
  - eapply writes_trans; [exact W|]. eapply writes_weaken; [|exact W'].
    intros k. by apply owns_range.
  - intros j e [Hj| ->%list_elem_of_singleton]%elem_of_app He.
    + intros Hl b Hb. rewrite (Hk j); [by apply (HA j) | by apply Hall | by intros -> |].
      apply owns_block; [by apply Hall | done | eapply denA_kind; eauto | unfold block; lia].
    + destruct Hres as [(e' & He' & Hp)|(e' & He' & _)].
      * destruct (proj1 (den_fun ns) i e' He') as [Hu _]. by rewrite (Hu e He).
      * destruct (proj2 (den_fun ns) i e' He') as [_ Hu]. by destruct (Hu e He).
  - intros j e [Hj| ->%list_elem_of_singleton]%elem_of_app He.
    + unfold mask_done. rewrite (Hk j); [by apply (HB j) | by apply Hall | by intros -> |].
      destruct (denB_kind j e (Hall j Hj) He). apply owns_slot; [by apply Hall | done..].
    + destruct Hres as [(e' & He' & _)|(e' & He' & Hp)].
      * destruct (proj1 (den_fun ns) i e' He') as [_ Hu]. by destruct (Hu e He).
      * destruct (proj2 (den_fun ns) i e' He') as [Hu _]. by rewrite (Hu e He).
  - intros j Hj Hnj Hc. assert (j <> i /\ j ∉ done) as [Hji Hjd] by set_solver.
    assert (is_leaf (kind (node ns j)) = false) as Hl by (by destruct (kind (node ns j))).
    rewrite !(Hk j); [by apply HI | done | done | by apply owns_eq_slot | done | done |].
    apply owns_slot; [done..|]. rewrite (ly_result _ _ Hlay j Hj). by destruct (kind (node ns j)).
  - done.
Qed.

(** An operand that has been computed. *)
Lemma opnd_of_done done c s i a e :
  body_inv done c s -> i ∈ all -> i ∉ done -> a ∈ done -> a ∈ all ->
  is_leaf (kind (node ns i)) = false ->
  denA ns a e -> forall Q, (forall k, Q k -> owns (node ns i) k) ->
  opnd sc fp (mem s) Q (node ns a) (PA e).
Proof.
  intros I Hi Hni Ha Haall Hl He Q HQ.
  pose proof (node_lookup a Haall) as Hn. pose proof (denA_kind a e Haall He) as Hrk.
  pose proof (bi_A _ _ _ I a e Ha He) as Hp. unfold planes_done in Hp.
  pose proof (Hfields a Haall) as Hfl. pose proof (ly_slots _ _ Hlay a Haall) as Hsl.
  assert (is_leaf (kind (node ns a)) = false ->
    0 <= slot_id (node ns a) /\ slot_id (node ns a) + 64 <= 32768 /\
    forall b, (b < 64)%nat ->
      mem s !! (sc, slot_id (node ns a) + Z.of_nat b) = Some (Int (PA e b)) /\
      ~ Q (slot_id (node ns a) + Z.of_nat b)) as Hslot.
  { intros Hla. destruct (Hsl Hla) as (H0 & H1 & _). split_and!; [done | by apply H1 |].
    intros b Hb. split; [by apply Hp|]. intros Hq%HQ. revert Hq. apply (owns_disj a i); [done..| |].
    - by intros ->.
    - apply owns_block; [done..|]. unfold block. lia. }
  inversion He; simplify_eq; unfold opnd;
    match goal with H : kind _ = _ |- _ => rewrite H in * end; try (by apply Hslot).
  - destruct (Hfl eq_refl) as (p & base & Hm & Hb & Hp' & Hpl). exists p, base.
    pose proof (ly_idx _ _ Hlay a Haall) as Hix.
    split_and!; [apply Hix; congruence | apply Hix; congruence | | done | done |].
    + rewrite (writes_lookup _ _ _ _ _ _ (bi_writes _ _ _ I)); [done|]. intros [? _]. congruence.
    + intros b Hb'. rewrite (writes_lookup _ _ _ _ _ _ (bi_writes _ _ _ I)); [by apply Hpl|].
      intros [? _]. congruence.
  - intros b Hb. by apply PA_const.
Qed.
Lemma body_pointers done c s :
  body_inv done c s ->
  get field_planes_ptr s = Some (Ptr fp 0) /\ get scratch_ptr s = Some (Ptr sc 0).
Proof. intros I. split; rewrite (bi_frame _ _ _ I); try done; not_body. Qed.

(** Code that writes nothing but registers, outside the cache. *)
Lemma cache_ok_regs R c s s' (P : Z -> Prop) :
  frame R s s' -> (forall r, r ∈ R -> (r < 8 \/ 16 <= r)%nat) ->
  writes sc P (mem s) (mem s') -> (forall k, mask_slot k -> ~ P k) ->
  cache_ok sc mask_slot c s -> cache_ok sc mask_slot c s'.
Proof.
  intros F HR W HP. apply (cache_ok_keep sc mask_slot P R); try done.
  intros r Hr Hin. apply HR in Hin. lia.
Qed.

(** A BITPLANE node's block holds no mask slot. *)
Lemma block_no_mask i k :
  i ∈ all -> is_leaf (kind (node ns i)) = false -> result_kind (node ns i) = BITPLANE ->
  mask_slot k -> ~ block (slot_id (node ns i)) k.
Proof using Hlay. clear -Hlay.
  intros Hi Hl Hr (j & Hj & Hrj & Ho) Hb. revert Ho. apply (owns_disj i j).
  - done.
  - done.
  - intros ->. congruence.
  - by apply owns_block.
Qed.

Lemma exec_arith_setup s (l r n : Node) carry A B (Q : Z -> Prop) :
  opnd sc fp (mem s) Q l A -> opnd sc fp (mem s) Q r B -> (23 <= carry <= 28)%nat ->
  get field_planes_ptr s = Some (Ptr fp 0) -> get scratch_ptr s = Some (Ptr sc 0) -> small (slot_id n) ->
  exists s', exec ([ I_movi carry (if decide (kind n = K_SUB) then 1 else 0) ] ++
      hoist l hoisted_left ++ hoist r hoisted_right ++
      emit_mov_imm64 temp_ptr (slot_offset (slot_id n)) ++ [ I_add temp_ptr temp_ptr scratch_ptr ]) s = Some s' /\
    (mem s' = mem s /\ frame [carry; hoisted_left; hoisted_right; temp_ptr] s s' /\
     get_int carry s' = Some (if decide (kind n = K_SUB) then 1 else 0) /\
     get temp_ptr s' = Some (Ptr sc (8 * slot_id n)) /\
     hoisted sc Q l hoisted_left A s' /\ hoisted sc Q r hoisted_right B s').
Proof.
  intros Hl Hr Hc Hf Hs Hsm. cbn [app].
  eapply exec_cons; [apply step_movi|].
  set (cv := if decide (kind n = K_SUB) then 1 else 0).
  assert (wrap64 cv = cv) as -> by (subst cv; by case_decide).
  set (s1 := set carry (Int cv) s).
  destruct (exec_hoist sc fp Q l hoisted_left A s1) as (s2 & E2 & M2 & F2 & H2);
    [done | done | done | by subst s1; rewrite mem_set | subst s1; a64_get | subst s1; a64_get |].
  apply exec_seq. exists s2. split; [done|].
  assert (frame [carry; hoisted_left] s s2) as F02.
  { apply (frame_trans _ _ s1); [subst s1; solve_frame|]. eapply frame_weaken; [|exact F2]. solve_incl. }
  destruct (exec_hoist sc fp Q r hoisted_right B s2) as (s3 & E3 & M3 & F3 & H3);
    [done | done | done | rewrite M2; subst s1; by rewrite mem_set
    | rewrite F02 by solve_notin; done | rewrite F02 by solve_notin; done |].
  apply exec_seq. exists s3. split; [done|].
  assert (frame [carry; hoisted_left; hoisted_right] s s3) as F03.
  { eapply frame_trans; [eapply frame_weaken; [|exact F02]; solve_incl|].
    eapply frame_weaken; [|exact F3]. solve_incl. }
  destruct (exec_slot_base sc temp_ptr (slot_id n) s3) as (s4 & E4 & M4 & F4 & H4);
    [done | done | done | rewrite F03 by solve_notin; done |].
  exists s4. split; [done|]. split_and!.
  - rewrite M4, M3, M2. subst s1. apply mem_set.
  - eapply frame_trans; [eapply frame_weaken; [|exact F03]; solve_incl|].
    eapply frame_weaken; [|exact F4]. solve_incl.
  - rewrite (frame_get_int _ _ _ _ F4), (frame_get_int _ _ _ _ F3), (frame_get_int _ _ _ _ F2) by solve_notin.
    subst s1. a64_get.
  - done.
  - eapply hoisted_keep; [exact F4 | solve_notin | by apply writes_eq |].
    eapply hoisted_keep; [exact F3 | solve_notin | by apply writes_eq | exact H2].
  - eapply hoisted_keep; [exact F4 | solve_notin | by apply writes_eq | exact H3].
Qed.

Lemma exec_arith_node done c s i a b e ea eb carry :
  body_inv done c s -> i ∈ all -> i ∉ done -> (forall j, j ∈ done -> j ∈ all) ->
  a ∈ done -> b ∈ done -> denA ns a ea -> denA ns b eb -> denA ns i e ->
  (kind (node ns i) = K_ADD /\ e = AAdd ea eb \/ kind (node ns i) = K_SUB /\ e = ASub ea eb) ->
  carry_reg_of (carry_reg (node ns i)) = Some carry ->
  exists s', exec (emit_arith (node ns i) (node ns a) (node ns b) carry 64) s = Some s' /\
    body_inv (done ++ [i]) c s'.
Proof.
  intros I Hi Hni Hall Ha Hb Hda Hdb Hde Hk Hc%carry_reg_range.
  assert (is_leaf (kind (node ns i)) = false) as Hl by (by destruct Hk as [[-> _]|[-> _]]).
  pose proof (denA_kind i e Hi Hde) as Hrk.
  destruct (ly_slots _ _ Hlay i Hi Hl) as (Hs1 & Hs2 & _). specialize (Hs2 Hrk) as [Hs2 _].
  assert (forall k, block (slot_id (node ns i)) k -> owns (node ns i) k) as Hown by (intros k; by apply owns_block).
  destruct (body_pointers _ _ _ I) as [Hf Hsc].
  destruct (exec_arith_setup s (node ns a) (node ns b) (node ns i) carry (PA ea) (PA eb)
    (block (slot_id (node ns i)))) as (s1 & E1 & M1 & F1 & C1 & T1 & L1 & R1); try done.
  { exact (opnd_of_done done c s i a ea I Hi Hni Ha (Hall a Ha) Hl Hda _ Hown). }
  { exact (opnd_of_done done c s i b eb I Hi Hni Hb (Hall b Hb) Hl Hdb _ Hown). }
  { unfold small; lia. }
  destruct (exec_arith_bits sc (node ns i) (node ns a) (node ns b) carry (PA ea) (PA eb) s1 Hc) with (k := 64%nat) (s := s1)
    as (s2 & E2 & [F2 W2 C2 D2]); try done.
  { intros; apply PA_u64. } { intros; apply PA_u64. }
  { intros k Hb'. rewrite M1. eapply writes_some; [apply (bi_writes _ _ _ I)|]. apply Hcells. unfold block in Hb'. lia. }
  { split; [apply frame_refl | apply writes_refl | | lia].
    rewrite col_carry_0, C1. f_equal. unfold arith_c.
    case_decide as Hd; [rewrite bool_decide_eq_true_2 by done | rewrite bool_decide_eq_false_2 by done];
      cbn [andb]; [by rewrite mask64_lane0 | by rewrite mask64_false]. }
  exists s2. split; [unfold emit_arith; rewrite !app_assoc; refine (exec_app_Some _ _ _ _ _ _ E2);
    rewrite <- !app_assoc; exact E1|].
  assert (frame body_regs s s2) as F by (eapply frame_trans; [to_body F1 | to_body F2]).
  rewrite M1 in W2. eapply body_step; eauto.
  - by eapply writes_weaken.
  - eapply (cache_ok_regs [carry; hoisted_left; hoisted_right; temp_ptr; plane_a; plane_b; result; scratch1]);
      [ | | exact W2 | intros k Hm; by apply block_no_mask | apply I].
    + apply (frame_trans _ _ s1); [eapply frame_weaken; [|exact F1] | eapply frame_weaken; [|exact F2]]; solve_incl.
    + intros q. rewrite !elem_of_cons, elem_of_nil. lia.
  - left. exists e. split; [done|]. intros _ k Hkb. rewrite D2 by done. do 2 f_equal.
    destruct Hk as [[Hk ->]|[Hk ->]]; [by apply arith_add | by apply arith_sub].
Qed.

(** *** Comparisons *)

(** The mask a comparison leaves, from the comparator's two masks. *)
Definition cmp_result (k : NodeKind) (gt eq : Z) : Z :=
  match k with K_GE | K_LE => Z.lor gt eq | K_EQ => eq | _ => gt end.

Lemma cmp_result_MB n op ea eb :
  kind n = cmp_kind op ->
  cmp_result (kind n) (col_gt (cmp_a n (PA ea) (PA eb)) (cmp_b n (PA ea) (PA eb)) 0)
    (col_eq (cmp_a n (PA ea) (PA eb)) (cmp_b n (PA ea) (PA eb)) 0) = MB (BCmp op ea eb).
Proof.
  intros Hk. unfold cmp_a, cmp_b. rewrite Hk. destruct op; cbn [cmp_kind swapped cmp_result].
  - by rewrite MB_gt.
  - by rewrite MB_lt.
  - by rewrite MB_ge.
  - by rewrite MB_le.
  - by rewrite MB_eq.
Qed.

Lemma exec_cmp_core c s (n l r : Node) A B (Q : Z -> Prop) :
  (forall b, u64 (A b)) -> (forall b, u64 (B b)) ->
  opnd sc fp (mem s) Q l A -> opnd sc fp (mem s) Q r B ->
  get field_planes_ptr s = Some (Ptr fp 0) -> get scratch_ptr s = Some (Ptr sc 0) ->
  get mask_eq s = Some (Int ones64) -> get mask_gt s = Some (Int 0) -> cache_ok sc mask_slot c s ->
  exists s', exec (hoist l hoisted_left ++ hoist r hoisted_right ++
      mjoin (emit_cmp_bit n l r <$> rev (seq 0 64))) s = Some s' /\
    (mem s' = mem s /\
     frame [plane_a; plane_b; result; mask_gt; mask_eq; hoisted_left; hoisted_right] s s' /\
     get mask_gt s' = Some (Int (col_gt (cmp_a n A B) (cmp_b n A B) 0)) /\
     get mask_eq s' = Some (Int (col_eq (cmp_a n A B) (cmp_b n A B) 0)) /\
     cache_ok sc mask_slot c s').
Proof.
  intros HA HB Hl Hr Hf Hs He Hg Hc.
  destruct (exec_hoist sc fp Q l hoisted_left A s) as (s1 & E1 & M1 & F1 & H1); try done.
  apply exec_seq. exists s1. split; [done|].
  destruct (exec_hoist sc fp Q r hoisted_right B s1) as (s2 & E2 & M2 & F2 & H2); try done.
  { by rewrite M1. } { rewrite F1 by solve_notin. done. } { rewrite F1 by solve_notin. done. }
  apply exec_seq. exists s2. split; [done|].
  assert (frame [hoisted_left; hoisted_right] s s2) as F02.
  { apply (frame_trans _ _ s1); [eapply frame_weaken; [|exact F1] | eapply frame_weaken; [|exact F2]]; solve_incl. }
  destruct (exec_cmp_bits sc Q n l r A B s2) with (k := 64%nat) (s := s2) as (s3 & E3 & [F3 M3 G3 Q3]); try done.
  { eapply hoisted_keep; [exact F2 | solve_notin | by apply writes_eq | exact H1]. }
  { split; [done | done | |]; apply get_int_get; rewrite F02 by solve_notin.
    - by rewrite col_gt_64.
    - by rewrite col_eq_64. }
  exists s3. split; [done|]. apply get_int_get in G3, Q3.
  assert (frame [plane_a; plane_b; result; mask_gt; mask_eq; hoisted_left; hoisted_right] s s3) as F03.
  { apply (frame_trans _ _ s2); [eapply frame_weaken; [|exact F02] | eapply frame_weaken; [|exact F3]]; solve_incl. }
  split_and!; try done; [congruence|].
  eapply (cache_ok_regs _ _ _ _ (fun _ => False)); [exact F03 | | | by auto | exact Hc].
  - intros q. rewrite !elem_of_cons, elem_of_nil. lia.
  - apply writes_eq. congruence.
Qed.

(** The slots of a comparison. *)
Lemma cmp_slots i :
  i ∈ all -> is_cmp (kind (node ns i)) = true ->
  small (slot_id (node ns i)) /\ small (eq_slot_id (node ns i)) /\
  eq_slot_id (node ns i) <> slot_id (node ns i) /\
  owns (node ns i) (slot_id (node ns i)) /\ owns (node ns i) (eq_slot_id (node ns i)) /\
  mask_slot (slot_id (node ns i)) /\ mask_slot (eq_slot_id (node ns i)).
Proof using Hlay. clear -Hlay.
  intros Hi Hc. assert (is_leaf (kind (node ns i)) = false) as Hl by (by destruct (kind (node ns i))).
  assert (result_kind (node ns i) = BITMASK) as Hr.
  { rewrite (ly_result _ _ Hlay i Hi). by destruct (kind (node ns i)). }
  destruct (ly_slots _ _ Hlay i Hi Hl) as (H0 & _ & H2 & H3).
  specialize (H2 Hr). specialize (H3 Hc).
  pose proof (owns_slot i Hi Hl Hr). pose proof (owns_eq_slot i Hi Hc).
  split_and!; try done; try (unfold small; lia); try lia; by exists i.
Qed.

(** GE, LE and EQ combine the two stored masks. *)
Lemma exec_cmp_agg c s (i : nat) g q :
  i ∈ all -> is_cmp (kind (node ns i)) = true -> cache_ok sc mask_slot c s ->
  get scratch_ptr s = Some (Ptr sc 0) ->
  mem s !! (sc, slot_id (node ns i)) = Some (Int g) ->
  mem s !! (sc, eq_slot_id (node ns i)) = Some (Int q) ->
  let '(c5, ca5) := ScratchpadCache.load_slot (slot_id (node ns i)) plane_a c in
  let '(c6, ca6) := ScratchpadCache.load_slot (eq_slot_id (node ns i)) plane_b ca5 in
  let '(c7, ca7) := ScratchpadCache.store_slot (slot_id (node ns i)) result ca6 in
  let v := if decide (kind (node ns i) = K_EQ) then q else Z.lor g q in
  exists s', exec (c5 ++ c6 ++ [ if decide (kind (node ns i) = K_EQ) then I_mov result plane_b
                                 else I_orr result plane_a plane_b ] ++ c7) s = Some s' /\
    (mem s' = <[(sc, slot_id (node ns i)) := Int v]> (mem s) /\
     frame body_regs s s' /\ cache_ok sc mask_slot ca7 s').
Proof.
  intros Hi Hc Hca Hs Hg Hq. destruct (cmp_slots i Hi Hc) as (S1 & S2 & Hne12 & O1 & O2 & K1 & K2).
  pose proof (exec_load_slot sc mask_slot _ plane_a c s _ Hca mask_slot_m1 K1 S1 ltac:(lia) Hs Hg) as H5.
  destruct (ScratchpadCache.load_slot (slot_id (node ns i)) plane_a c) as [c5 ca5].
  destruct H5 as (s5 & E5 & M5 & F5 & V5 & C5). cbn [fst snd] in *.
  assert (get scratch_ptr s5 = Some (Ptr sc 0)) as Hs5 by (rewrite F5 by (unfold cache_frame; solve_notin); done).
  assert (mem s5 !! (sc, eq_slot_id (node ns i)) = Some (Int q)) as Hq5 by (by rewrite M5).
  pose proof (exec_load_slot sc mask_slot _ plane_b ca5 s5 _ C5 mask_slot_m1 K2 S2 ltac:(lia) Hs5 Hq5) as H6.
  destruct (ScratchpadCache.load_slot (eq_slot_id (node ns i)) plane_b ca5) as [c6 ca6].
  destruct H6 as (s6 & E6 & M6 & F6 & V6 & C6). cbn [fst snd] in *.
  set (v := if decide (kind (node ns i) = K_EQ) then q else Z.lor g q).
  set (s7 := set result (Int v) s6).
  assert (exec [ if decide (kind (node ns i) = K_EQ) then I_mov result plane_b
                 else I_orr result plane_a plane_b ] s6 = Some s7) as E7.
  { assert (get plane_a s6 = Some (Int g)) as V5' by (by rewrite F6 by (unfold cache_frame; solve_notin)).
    subst s7 v. cbn [exec]. case_decide.
    - by rewrite (step_mov _ _ _ (Int q)).
    - by rewrite (step_orr _ _ _ _ g q) by (by apply get_int_get). }
  assert (cache_ok sc mask_slot ca6 s7) as C7.
  { eapply (cache_ok_regs [result] _ s6 _ (fun _ => False)); [subst s7; solve_frame | | | by auto | done].
    - intros x ->%list_elem_of_singleton. lia.
    - subst s7. apply writes_eq, mem_set. }
  assert (get scratch_ptr s7 = Some (Ptr sc 0)) as Hs7.
  { subst s7. rewrite get_set_ne, F6 by (done || (unfold cache_frame; solve_notin)). done. }
  pose proof (exec_store_slot sc mask_slot (slot_id (node ns i)) result ca6 s7 (Int v) C7 mask_slot_m1 K1 S1
    ltac:(lia) Hs7) as H8.
  destruct (ScratchpadCache.store_slot (slot_id (node ns i)) result ca6) as [c7 ca7].
  assert (mem s7 = mem s) as M7 by (subst s7; rewrite mem_set; congruence).
  destruct H8 as (s8 & E8 & M8 & F8 & C8); [by rewrite M7, Hg | by apply get_set_eq|].
  cbn [fst snd] in *. exists s8. split.
  - apply (exec_app_Some _ _ _ _ _ E5), (exec_app_Some _ _ _ _ _ E6), (exec_app_Some _ _ _ _ _ E7), E8.
  - split_and!; [by rewrite M8, M7| |done].
    eapply frame_trans; [to_body F5|]. eapply frame_trans; [to_body F6|].
    apply (frame_trans _ _ s7); [|to_body F8].
    subst s7. apply frame_set; [apply elem_of_body_regs; lia | apply frame_refl].
Qed.

(** Up to the two stores, on any comparison. *)
Lemma exec_cmp_main done c s i a b ea eb :
  body_inv done c s -> i ∈ all -> i ∉ done -> (forall j, j ∈ done -> j ∈ all) ->
  a ∈ done -> b ∈ done -> denA ns a ea -> denA ns b eb -> is_cmp (kind (node ns i)) = true ->
  let n := node ns i in
  let g := col_gt (cmp_a n (PA ea) (PA eb)) (cmp_b n (PA ea) (PA eb)) 0 in
  let q := col_eq (cmp_a n (PA ea) (PA eb)) (cmp_b n (PA ea) (PA eb)) 0 in
  let '(c1, ca1) := ScratchpadCache.load_slot (eq_slot_id n) mask_eq c in
  let '(c2, ca2) := ScratchpadCache.load_slot (slot_id n) mask_gt ca1 in
  let '(c3, ca3) := ScratchpadCache.store_slot (slot_id n) mask_gt ca2 in
  let '(c4, ca4) := ScratchpadCache.store_slot (eq_slot_id n) mask_eq ca3 in
  exists s', exec (c1 ++ c2 ++ hoist (node ns a) hoisted_left ++ hoist (node ns b) hoisted_right ++
      mjoin (emit_cmp_bit n (node ns a) (node ns b) <$> rev (seq 0 64)) ++ c3 ++ c4) s = Some s' /\
    (mem s' = <[(sc, eq_slot_id n) := Int q]> (<[(sc, slot_id n) := Int g]> (mem s)) /\
     frame body_regs s s' /\ cache_ok sc mask_slot ca4 s').
Proof.
  intros I Hi Hni Hall Ha Hb Hda Hdb Hc n g q.
  destruct (cmp_slots i Hi Hc) as (S1 & S2 & Hne12 & O1 & O2 & K1 & K2). fold n in S1, S2, Hne12, O1, O2, K1, K2.
  destruct (bi_init _ _ _ I i Hi Hni Hc) as [V0 Q0]. fold n in V0, Q0.
  destruct (body_pointers _ _ _ I) as [Hf Hsc].
  assert (is_leaf (kind n) = false) as Hl by (subst n; clear - Hc; by destruct (kind (node ns i))).
  pose proof (exec_load_slot sc mask_slot _ mask_eq c s _ (bi_cache _ _ _ I) mask_slot_m1 K2 S2 ltac:(lia) Hsc Q0) as H1.
  destruct (ScratchpadCache.load_slot (eq_slot_id n) mask_eq c) as [c1 ca1].
  destruct H1 as (s1 & E1 & M1 & F1 & V1 & C1). cbn [fst snd] in *.
  assert (get scratch_ptr s1 = Some (Ptr sc 0)) as Hs1 by (rewrite F1 by (unfold cache_frame; solve_notin); done).
  assert (mem s1 !! (sc, slot_id n) = Some (Int 0)) as V01 by (by rewrite M1).
  pose proof (exec_load_slot sc mask_slot _ mask_gt ca1 s1 _ C1 mask_slot_m1 K1 S1 ltac:(lia) Hs1 V01) as H2.
  destruct (ScratchpadCache.load_slot (slot_id n) mask_gt ca1) as [c2 ca2].
  destruct H2 as (s2 & E2 & M2 & F2 & V2 & C2). cbn [fst snd] in *.
  assert (mem s2 = mem s) as M02 by congruence.
  assert (forall r, (r = 19 \/ r = 20)%nat -> get r s2 = get r s) as G2.
  { intros r Hr. rewrite F2 by (unfold cache_frame; solve_notin). by rewrite F1 by (unfold cache_frame; solve_notin). }
  assert (get mask_eq s2 = Some (Int ones64)) as V1' by (by rewrite F2 by (unfold cache_frame; solve_notin)).
  destruct (exec_cmp_core ca2 s2 n (node ns a) (node ns b) (PA ea) (PA eb) (owns n))
    as (s3 & E3 & M3 & F3 & V3 & Q3 & C3); try done.
  { intros; apply PA_u64. } { intros; apply PA_u64. }
  { rewrite M02. exact (opnd_of_done done c s i a ea I Hi Hni Ha (Hall a Ha) Hl Hda _ (fun k H => H)). }
  { rewrite M02. exact (opnd_of_done done c s i b eb I Hi Hni Hb (Hall b Hb) Hl Hdb _ (fun k H => H)). }
  { rewrite G2; auto. } { rewrite G2; auto. }
  fold g in V3. fold q in Q3.
  assert (get scratch_ptr s3 = Some (Ptr sc 0)) as Hs3 by (rewrite F3 by solve_notin; rewrite G2; auto).
  pose proof (exec_store_slot sc mask_slot _ mask_gt ca2 s3 (Int g) C3 mask_slot_m1 K1 S1 ltac:(lia) Hs3) as H4.
  destruct (ScratchpadCache.store_slot (slot_id n) mask_gt ca2) as [c3 ca3].
  destruct H4 as (s4 & E4 & M4 & F4 & C4); [by rewrite M3, M02, V0 | done |]. cbn [fst snd] in *.
  assert (get mask_eq s4 = Some (Int q)) as Q4 by (by rewrite F4 by (unfold cache_frame; solve_notin)).
  assert (get scratch_ptr s4 = Some (Ptr sc 0)) as Hs4 by (by rewrite F4 by (unfold cache_frame; solve_notin)).
  pose proof (exec_store_slot sc mask_slot _ mask_eq ca3 s4 (Int q) C4 mask_slot_m1 K2 S2 ltac:(lia) Hs4) as H5.
  destruct (ScratchpadCache.store_slot (eq_slot_id n) mask_eq ca3) as [c4 ca4].
  destruct H5 as (s5 & E5 & M5 & F5 & C5); [|done|].
  { rewrite M4, lookup_insert_ne by congruence. by rewrite M3, M02, Q0. }
  cbn [fst snd] in *. exists s5. split.
  - pose proof (exec_app_Some _ _ _ _ _ E1 (exec_app_Some _ _ _ _ _ E2 (exec_app_Some _ _ _ _ _ E3
      (exec_app_Some _ _ _ _ _ E4 E5)))) as E. rewrite <- !app_assoc in E. exact E.
  - split_and!; [by rewrite M5, M4, M3, M02 | | done].
    eapply frame_trans; [to_body F1|]. eapply frame_trans; [to_body F2|].
    eapply frame_trans; [to_body F3|]. eapply frame_trans; [to_body F4|to_body F5].
Qed.

Lemma exec_cmp_node done c s i a b op ea eb :
  body_inv done c s -> i ∈ all -> i ∉ done -> (forall j, j ∈ done -> j ∈ all) ->
  a ∈ done -> b ∈ done -> denA ns a ea -> denA ns b eb -> denB ns i (BCmp op ea eb) ->
  kind (node ns i) = cmp_kind op ->
  exists s', exec (emit_cmp (node ns i) (node ns a) (node ns b) 64 c).1 s = Some s' /\
    body_inv (done ++ [i]) (emit_cmp (node ns i) (node ns a) (node ns b) 64 c).2 s'.
Proof.
  intros I Hi Hni Hall Ha Hb Hda Hdb Hde Hk.
  assert (is_cmp (kind (node ns i)) = true) as Hc by (rewrite Hk; by destruct op).
  destruct (cmp_slots i Hi Hc) as (S1 & S2 & Hne12 & O1 & O2 & K1 & K2).
  pose proof (exec_cmp_main done c s i a b ea eb I Hi Hni Hall Ha Hb Hda Hdb Hc) as Hm.
  pose proof (cmp_result_MB (node ns i) op ea eb Hk) as Hres. unfold emit_cmp.
  cbv zeta in Hm. set (n := node ns i) in *.
  set (g := col_gt _ _ 0) in *. set (q := col_eq _ _ 0) in *.
  destruct (ScratchpadCache.load_slot (eq_slot_id n) mask_eq c) as [c1 ca1].
  destruct (ScratchpadCache.load_slot (slot_id n) mask_gt ca1) as [c2 ca2].
  destruct (ScratchpadCache.store_slot (slot_id n) mask_gt ca2) as [c3 ca3].
  destruct (ScratchpadCache.store_slot (eq_slot_id n) mask_eq ca3) as [c4 ca4].
  destruct Hm as (s1 & E1 & M1 & F1 & C1). cbv zeta.
  assert (writes sc (owns n) (mem s) (mem s1)) as W1.
  { rewrite M1. eapply writes_trans; by apply writes_insert. }
  assert (mem s1 !! (sc, slot_id n) = Some (Int g)) as Vg.
  { rewrite M1, lookup_insert_ne by congruence. apply lookup_insert_eq. }
  assert (cmp_result (kind n) g q = g -> body_inv (done ++ [i]) ca4 s1) as Hplain.
  { intros Hg. eapply body_step; eauto. right. exists (BCmp op ea eb). split; [done|].
    unfold mask_done. fold n. by rewrite Vg, <- Hres, Hg. }
  destruct (body_pointers _ _ _ I) as [Hf Hsc].
  pose proof (exec_cmp_agg ca4 s1 i g q Hi Hc C1) as Hag. fold n in Hag.
  destruct (ScratchpadCache.load_slot (slot_id n) plane_a ca4) as [c5 ca5].
  destruct (ScratchpadCache.load_slot (eq_slot_id n) plane_b ca5) as [c6 ca6].
  destruct (ScratchpadCache.store_slot (slot_id n) result ca6) as [c7 ca7].
  destruct Hag as (s2 & E2 & M2 & F2 & C2).
  { rewrite F1 by not_body. done. } { done. } { rewrite M1. apply lookup_insert_eq. }
  assert (cmp_result (kind n) g q = (if decide (kind n = K_EQ) then q else Z.lor g q) ->
    body_inv (done ++ [i]) ca7 s2) as Hagg.
  { intros Hg. eapply (body_step done c s i ca7 s2); eauto.
    - by eapply frame_trans.
    - eapply writes_trans; [exact W1|]. rewrite M2. by apply writes_insert.
    - right. exists (BCmp op ea eb). split; [done|]. unfold mask_done. fold n.
      by rewrite M2, lookup_insert_eq, <- Hres, Hg. }
  pose proof (exec_app_Some _ _ _ _ _ E1 E2) as E12. rewrite <- !app_assoc in E12 |- *.
  rewrite Hk in Hplain, Hagg, E12 |- *.
  destruct op; cbn [cmp_kind fst snd] in *.
  - exists s1. split; [exact E1|]. by apply Hplain.
  - exists s1. split; [exact E1|]. by apply Hplain.
  - exists s2. split; [exact E12|]. by apply Hagg.
  - exists s2. split; [exact E12|]. by apply Hagg.
  - exists s2. split; [exact E12|]. by apply Hagg.
Qed.

(** *** Logic and selection *)

Lemma mask_slot_node i e :
  i ∈ all -> denB ns i e -> mask_slot (slot_id (node ns i)) /\ small (slot_id (node ns i)) /\
    owns (node ns i) (slot_id (node ns i)).
Proof using Hlay. clear -Hlay.
  intros Hi He. destruct (denB_kind i e Hi He) as [Hr Hl].
  pose proof (owns_slot i Hi Hl Hr) as Ho. pose proof (owns_range _ _ Hi Ho).
  split_and!; [by exists i | unfold small; lia | done].
Qed.

(** Load a computed mask. *)
Lemma exec_load_mask done c0 s0' c s a e dest :
  body_inv done c0 s0' -> a ∈ done -> a ∈ all -> denB ns a e -> (dest < 8)%nat ->
  mem s = mem s0' -> get scratch_ptr s = Some (Ptr sc 0) -> cache_ok sc mask_slot c s ->
  exists s', exec (ScratchpadCache.load_slot (slot_id (node ns a)) dest c).1 s = Some s' /\
    (mem s' = mem s /\ frame (dest :: cache_frame) s s' /\ get dest s' = Some (Int (MB e)) /\
     cache_ok sc mask_slot (ScratchpadCache.load_slot (slot_id (node ns a)) dest c).2 s').
Proof.
  intros I Ha Hall He Hd Hm Hs Hc. destruct (mask_slot_node a e Hall He) as (K & S & _).
  apply exec_load_slot; try done; [apply mask_slot_m1|]. rewrite Hm. by apply (bi_B _ _ _ I).
Qed.

(** Store the mask of node [i], found in [result], and conclude. *)
Lemma exec_store_result done c0 s0' c s i e :
  body_inv done c0 s0' -> i ∈ all -> i ∉ done -> (forall j, j ∈ done -> j ∈ all) -> denB ns i e ->
  mem s = mem s0' -> frame body_regs s0' s -> cache_ok sc mask_slot c s ->
  get result s = Some (Int (MB e)) ->
  exists s', exec (ScratchpadCache.store_slot (slot_id (node ns i)) result c).1 s = Some s' /\
    body_inv (done ++ [i]) (ScratchpadCache.store_slot (slot_id (node ns i)) result c).2 s'.
Proof.
  intros I Hi Hni Hall He Hm F Hc Hr. destruct (mask_slot_node i e Hi He) as (K & S & O).
  destruct (body_pointers _ _ _ I) as [Hf Hs].
  destruct (exec_store_slot sc mask_slot (slot_id (node ns i)) result c s (Int (MB e)) Hc mask_slot_m1 K S)
    as (s' & E & M & F' & C'); [lia | rewrite F by not_body; done | | done |].
  { rewrite Hm. eapply writes_some; [apply (bi_writes _ _ _ I)|]. apply Hcells. by apply owns_range with i. }
  exists s'. split; [done|]. eapply body_step; eauto.
  - eapply frame_trans; [exact F|]. to_body F'.
  - rewrite M, Hm. by apply writes_insert.
  - right. exists e. split; [done|]. unfold mask_done. rewrite M. apply lookup_insert_eq.
Qed.

Lemma exec_not_node done c s i a e :
  body_inv done c s -> i ∈ all -> i ∉ done -> (forall j, j ∈ done -> j ∈ all) ->
  a ∈ done -> denB ns a e -> denB ns i (BNot e) ->
  exists s', exec (emit_logic (node ns i) (node ns a) None c).1 s = Some s' /\
    body_inv (done ++ [i]) (emit_logic (node ns i) (node ns a) None c).2 s'.
Proof.
  intros I Hi Hni Hall Ha Hda Hde. destruct (body_pointers _ _ _ I) as [Hf Hs].
  pose proof (exec_load_mask done c s c s a e plane_a I Ha (Hall a Ha) Hda ltac:(lia) eq_refl Hs (bi_cache _ _ _ I)) as H1.
  unfold emit_logic. destruct (ScratchpadCache.load_slot (slot_id (node ns a)) plane_a c) as [c1 ca1].
  destruct H1 as (s1 & E1 & M1 & F1 & V1 & C1). cbn [fst snd] in *.
  set (s2 := set result (Int (MB (BNot e))) s1).
  assert (exec [ I_mvn result plane_a ] s1 = Some s2) as E2.
  { subst s2. rewrite MB_not. cbn [exec]. by rewrite (step_mvn _ _ _ (MB e)) by (by apply get_int_get). }
  pose proof (exec_store_result done c s ca1 s2 i (BNot e) I Hi Hni Hall Hde) as H3.
  destruct (ScratchpadCache.store_slot (slot_id (node ns i)) result ca1) as [c3 ca3]. cbn [fst snd] in *.
  destruct H3 as (s3 & E3 & I3); [by subst s2; rewrite mem_set | | | by apply get_set_eq |].
  - subst s2. apply frame_set; [apply elem_of_body_regs; lia|]. to_body F1.
  - eapply (cache_ok_regs [result] _ s1 _ (fun _ => False)); [subst s2; solve_frame | | | by auto | done].
    + intros x ->%list_elem_of_singleton. lia.
    + subst s2. apply writes_eq, mem_set.
  - exists s3. split; [|done]. exact (exec_app_Some _ _ _ _ _ E1 (exec_app_Some _ _ _ _ _ E2 E3)).
Qed.

Lemma exec_logic_node done c s i a b e ea eb :
  body_inv done c s -> i ∈ all -> i ∉ done -> (forall j, j ∈ done -> j ∈ all) ->
  a ∈ done -> b ∈ done -> denB ns a ea -> denB ns b eb -> denB ns i e ->
  (kind (node ns i) = K_AND /\ e = BAnd ea eb \/ kind (node ns i) = K_OR /\ e = BOr ea eb) ->
  exists s', exec (emit_logic (node ns i) (node ns a) (Some (node ns b)) c).1 s = Some s' /\
    body_inv (done ++ [i]) (emit_logic (node ns i) (node ns a) (Some (node ns b)) c).2 s'.
Proof.
  intros I Hi Hni Hall Ha Hb Hda Hdb Hde Hk. destruct (body_pointers _ _ _ I) as [Hf Hs].
  pose proof (exec_load_mask done c s c s a ea plane_a I Ha (Hall a Ha) Hda ltac:(lia) eq_refl Hs (bi_cache _ _ _ I)) as H1.
  unfold emit_logic. destruct (ScratchpadCache.load_slot (slot_id (node ns a)) plane_a c) as [c1 ca1].
  destruct H1 as (s1 & E1 & M1 & F1 & V1 & C1). cbn [fst snd] in *.
  assert (get scratch_ptr s1 = Some (Ptr sc 0)) as Hs1 by (rewrite F1 by (unfold cache_frame; solve_notin); done).
  pose proof (exec_load_mask done c s ca1 s1 b eb plane_b I Hb (Hall b Hb) Hdb ltac:(lia) M1 Hs1 C1) as H2.
  destruct (ScratchpadCache.load_slot (slot_id (node ns b)) plane_b ca1) as [c2 ca2].
  destruct H2 as (s2 & E2 & M2 & F2 & V2 & C2). cbn [fst snd] in *.
  assert (get plane_a s2 = Some (Int (MB ea))) as V1' by (by rewrite F2 by (unfold cache_frame; solve_notin)).
  apply get_int_get in V1', V2.
  set (s3 := set result (Int (MB e)) s2).
  assert (exec [ if decide (kind (node ns i) = K_AND) then I_and result plane_a plane_b
                 else I_orr result plane_a plane_b ] s2 = Some s3) as E3.
  { subst s3. cbn [exec]. destruct Hk as [[Hk ->]|[Hk ->]].
    - rewrite decide_True by done. by rewrite (step_and _ _ _ _ (MB ea) (MB eb)), MB_and.
    - rewrite decide_False by congruence. by rewrite (step_orr _ _ _ _ (MB ea) (MB eb)), MB_or. }
  pose proof (exec_store_result done c s ca2 s3 i e I Hi Hni Hall Hde) as H4.
  destruct (ScratchpadCache.store_slot (slot_id (node ns i)) result ca2) as [c3 ca3]. cbn [fst snd] in *.
  destruct H4 as (s4 & E4 & I4); [subst s3; rewrite mem_set; congruence | | | by apply get_set_eq |].
  - subst s3. apply frame_set; [apply elem_of_body_regs; lia|]. eapply frame_trans; [to_body F1 | to_body F2].
  - eapply (cache_ok_regs [result] _ s2 _ (fun _ => False)); [subst s3; solve_frame | | | by auto | done].
    + intros x ->%list_elem_of_singleton. lia.
    + subst s3. apply writes_eq, mem_set.
  - exists s4. split; [|done]. rewrite <- !app_assoc.
    exact (exec_app_Some _ _ _ _ _ E1 (exec_app_Some _ _ _ _ _ E2 (exec_app_Some _ _ _ _ _ E3 E4))).
Qed.

Lemma exec_select_node done c s i x a b ex ea eb :
  body_inv done c s -> i ∈ all -> i ∉ done -> (forall j, j ∈ done -> j ∈ all) ->
  x ∈ done -> a ∈ done -> b ∈ done -> denB ns x ex -> denA ns a ea -> denA ns b eb ->
  denA ns i (ASelect ex ea eb) -> kind (node ns i) = K_SELECT ->
  exists s', exec (emit_select (node ns i) (node ns x) (node ns a) (node ns b) 64 c).1 s = Some s' /\
    body_inv (done ++ [i]) (emit_select (node ns i) (node ns x) (node ns a) (node ns b) 64 c).2 s'.
Proof.
  intros I Hi Hni Hall Hx Ha Hb Hdx Hda Hdb Hde Hk. destruct (body_pointers _ _ _ I) as [Hf Hs].
  assert (is_leaf (kind (node ns i)) = false) as Hl by (by rewrite Hk).
  pose proof (denA_kind i _ Hi Hde) as Hrk.
  destruct (ly_slots _ _ Hlay i Hi Hl) as (Hs1 & Hs2 & _). specialize (Hs2 Hrk) as [Hs2 _].
  assert (forall k, block (slot_id (node ns i)) k -> owns (node ns i) k) as Hown by (intros k; by apply owns_block).
  pose proof (exec_load_mask done c s c s x ex mask_gt I Hx (Hall x Hx) Hdx ltac:(lia) eq_refl Hs (bi_cache _ _ _ I)) as H1.
  unfold emit_select. destruct (ScratchpadCache.load_slot (slot_id (node ns x)) mask_gt c) as [c1 ca1].
  destruct H1 as (s1 & E1 & M1 & F1 & V1 & C1). cbn [fst snd] in *. apply get_int_get in V1.
  destruct (exec_select_bits sc fp Hne (node ns i) (node ns a) (node ns b) (MB ex) (PA ea) (PA eb) s1)
    with (k := 64%nat) (s := s1) as (s2 & E2 & [F2 W2 D2]); try done.
  { intros k Hkb. rewrite M1. eapply writes_some; [apply (bi_writes _ _ _ I)|]. apply Hcells. unfold block in Hkb. lia. }
  { rewrite F1 by (unfold cache_frame; solve_notin). done. }
  { rewrite F1 by (unfold cache_frame; solve_notin). done. }
  { rewrite M1. exact (opnd_of_done done c s i a ea I Hi Hni Ha (Hall a Ha) Hl Hda _ Hown). }
  { rewrite M1. exact (opnd_of_done done c s i b eb I Hi Hni Hb (Hall b Hb) Hl Hdb _ Hown). }
  { split; [done | apply writes_refl | lia]. }
  exists s2. split; [exact (exec_app_Some _ _ _ _ _ E1 E2)|].
  assert (frame body_regs s s2) as F by (eapply frame_trans; [to_body F1 | to_body F2]).
  pose proof W2 as W2'. rewrite M1 in W2'. eapply (body_step done c s i ca1 s2); eauto.
  - by eapply writes_weaken.
  - eapply cache_ok_regs; [exact F2 | | exact W2 | intros k Hm; by apply block_no_mask | done].
    intros q. rewrite !elem_of_cons, elem_of_nil. lia.
  - left. exists (ASelect ex ea eb). split; [done|]. intros _ k Hkb. by rewrite D2, PA_select by done.
Qed.

(** *** The loop over all nodes *)

(** A node without code: a leaf. *)
Lemma leaf_step done c s i e :
  body_inv done c s -> i ∈ all -> i ∉ done -> (forall j, j ∈ done -> j ∈ all) ->
  denA ns i e -> is_leaf (kind (node ns i)) = true -> body_inv (done ++ [i]) c s.
Proof.
  intros I Hi Hni Hall He Hl. eapply body_step; eauto.
  - apply frame_refl.
  - apply writes_refl.
  - apply I.
  - left. exists e. split; [done|]. unfold planes_done. congruence.
Qed.

Lemma children_fields n a b c : children n = [a; b; c] -> left n = a /\ right n = b /\ cond n = c.
Proof. by intros [= -> -> -> _]. Qed.

Lemma exec_node_A done c s i e code c' :
  body_inv done c s -> i ∈ all -> i ∉ done -> (forall j, j ∈ done -> j ∈ all) ->
  (forall j, Some j ∈ children (node ns i) -> j ∈ done) ->
  live (node ns i) = true -> denA ns i e -> emit_node ns 64 i c = Some (code, c') ->
  exists s', exec code s = Some s' /\ body_inv (done ++ [i]) c' s'.
Proof.
  intros I Hi Hni Hall Hch Hlive He. unfold emit_node. pose proof (node_lookup i Hi) as Hn.
  unfold live in Hlive. destruct (skip_jit (node ns i)) eqn:Esk; cbn [negb orb] in Hlive.
  { intros [= <- <-]. exists s. split; [done|]. by eapply leaf_step. }
  inversion He as [i' n Hl Hk Hc|i' n Hl Hk Hc|i' n a b ea eb Hl Hk Hc Hda Hdb|i' n a b ea eb Hl Hk Hc Hda Hdb|
    i' n x a b ex ea eb Hl Hk Hc Hdx Hda Hdb]; subst i' e; rewrite Hn in Hl; injection Hl as Hl; rewrite <- Hl in *;
    rewrite Hc in Hch; rewrite Hk; cbn [is_arith is_cmp is_logic].
  - rewrite decide_False by done. intros [= <- <-]. exists s. split; [done|].
    eapply leaf_step; eauto. by rewrite Hk.
  - rewrite decide_False by done. intros [= <- <-]. exists s. split; [done|].
    eapply leaf_step; eauto. by rewrite Hk.
  - destruct (children_fields _ _ _ _ Hc) as (-> & -> & _).
    destruct (carry_reg_of (carry_reg (node ns i))) as [carry|] eqn:Ec; [|done].
    intros [= <- <-]. eapply (exec_arith_node done c s i a b _ ea eb carry I); eauto;
      apply Hch; set_solver.
  - destruct (children_fields _ _ _ _ Hc) as (-> & -> & _).
    destruct (carry_reg_of (carry_reg (node ns i))) as [carry|] eqn:Ec; [|done].
    intros [= <- <-]. eapply (exec_arith_node done c s i a b _ ea eb carry I); eauto;
      apply Hch; set_solver.
  - rewrite decide_True by done. destruct (children_fields _ _ _ _ Hc) as (-> & -> & ->).
    cbn [mbind option_bind]. intros [= Hem].
    destruct (exec_select_node done c s i x a b ex ea eb I) as (s' & E & I'); try done; try (apply Hch; set_solver).
    exists s'. rewrite Hem in E, I'. done.
Qed.

Lemma exec_node_B done c s i e code c' :
  body_inv done c s -> i ∈ all -> i ∉ done -> (forall j, j ∈ done -> j ∈ all) ->
  (forall j, Some j ∈ children (node ns i) -> j ∈ done) ->
  live (node ns i) = true -> denB ns i e -> emit_node ns 64 i c = Some (code, c') ->
  exists s', exec code s = Some s' /\ body_inv (done ++ [i]) c' s'.
Proof.
  intros I Hi Hni Hall Hch Hlive He. unfold emit_node. pose proof (node_lookup i Hi) as Hn.
  unfold live in Hlive. rewrite (denB_inner _ _ _ He), orb_false_r in Hlive. apply negb_true_iff in Hlive.
  rewrite Hlive.
  inversion He as [op i' n a b ea eb Hl Hk Hc Hda Hdb|i' n a b ea eb Hl Hk Hc Hda Hdb|
    i' n a b ea eb Hl Hk Hc Hda Hdb|i' n a ea Hl Hk Hc Hda]; subst i' e; rewrite Hn in Hl;
    injection Hl as Hl; rewrite <- Hl in *; rewrite Hc in Hch; destruct (children_fields _ _ _ _ Hc) as (El & Er & _);
    rewrite ?El, ?Er; cbn [mbind option_bind fmap option_fmap option_map].
  - assert (is_arith (kind (node ns i)) = false /\ is_cmp (kind (node ns i)) = true) as [-> ->]
      by (rewrite Hk; by destruct op).
    intros [= Hem].
    destruct (exec_cmp_node done c s i a b op ea eb I) as (s' & E & I'); try done; try (apply Hch; set_solver).
    exists s'. rewrite Hem in E, I'. done.
  - rewrite Hk. cbn [is_arith is_cmp is_logic]. intros [= Hem].
    destruct (exec_logic_node done c s i a b (BAnd ea eb) ea eb I Hi Hni Hall) as (s' & E & I');
      try done; try (apply Hch; set_solver); [by left|].
    exists s'. rewrite Hem in E, I'. done.
  - rewrite Hk. cbn [is_arith is_cmp is_logic]. intros [= Hem].
    destruct (exec_logic_node done c s i a b (BOr ea eb) ea eb I Hi Hni Hall) as (s' & E & I');
      try done; try (apply Hch; set_solver); [by right|].
    exists s'. rewrite Hem in E, I'. done.
  - rewrite Hk. cbn [is_arith is_cmp is_logic]. intros [= Hem].
    destruct (exec_not_node done c s i a ea I Hi Hni Hall) as (s' & E & I');
      try done; try (apply Hch; set_solver).
    exists s'. rewrite Hem in E, I'. done.
Qed.

Hypothesis Hden : forall i, i ∈ all -> live (node ns i) = true -> (exists e, denA ns i e) \/ (exists e, denB ns i e).
Hypothesis Hclosed : forall i j, i ∈ all -> live (node ns i) = true -> Some j ∈ children (node ns i) ->
  live (node ns j) = true.

Abbreviation live_nodes l := (filter (fun i : nat => live (node ns i) = true) l).

Lemma emit_nodes_snoc ab l i :
  emit_nodes ns ab (l ++ [i]) =
  (emit_nodes ns ab l ≫= fun '(code, c) => emit_node ns ab i c ≫= fun '(code', c') => Some (code ++ code', c')).
Proof. unfold emit_nodes. by rewrite foldl_app. Qed.

Lemma exec_nodes l rest code c s :
  all = l ++ rest -> emit_nodes ns 64 l = Some (code, c) -> body_inv [] ScratchpadCache.init s ->
  exists s', exec code s = Some s' /\ body_inv (live_nodes l) c s'.
Proof.
  revert rest code c. induction l as [|i l IH] using rev_ind; intros rest code c Hall He I.
  - injection He as <- <-. by exists s.
  - rewrite emit_nodes_snoc in He. rewrite <- app_assoc in Hall. cbn [app] in Hall.
    destruct (emit_nodes ns 64 l) as [[code1 c1]|]; cbn [mbind option_bind] in He; [|done].
    destruct (emit_node ns 64 i c1) as [[code2 c2]|] eqn:E2; cbn [mbind option_bind] in He; [|done].
    injection He as <- <-.
    destruct (IH (i :: rest) code1 c1 Hall eq_refl I) as (s1 & E1 & I1).
    pose proof (ly_topo _ _ Hlay) as Ht. rewrite Hall in Ht. apply topo_split in Ht as [Hni Hch].
    assert (i ∈ all) as Hi by (rewrite Hall; set_solver).
    rewrite filter_app. destruct (live (node ns i)) eqn:Hlive.
    2:{ rewrite filter_cons_False, filter_nil, app_nil_r by congruence.
        unfold emit_node in E2. unfold live in Hlive. destruct (skip_jit (node ns i)); [|done].
        injection E2 as <- <-. rewrite app_nil_r. by exists s1. }
    rewrite filter_cons_True, filter_nil by done.
    assert (forall j, j ∈ live_nodes l -> j ∈ all) as Hsub.
    { intros j [_ Hj]%list_elem_of_filter. rewrite Hall. set_solver. }
    assert (i ∉ live_nodes l) as Hni' by (rewrite list_elem_of_filter; tauto).
    assert (forall j, Some j ∈ children (node ns i) -> j ∈ live_nodes l) as Hch'.
    { intros j Hj. apply list_elem_of_filter. split; [by eapply Hclosed|]. by apply (Hch (node ns i) j (node_lookup i Hi)). }
    destruct (Hden i Hi Hlive) as [[e Hd]|[e Hd]].
    + destruct (exec_node_A (live_nodes l) c1 s1 i e code2 c2) as (s2 & Ex & I2); try done.
      exists s2. split; [|done]. exact (exec_app_Some _ _ _ _ _ E1 Ex).
    + destruct (exec_node_B (live_nodes l) c1 s1 i e code2 c2) as (s2 & Ex & I2); try done.
      exists s2. split; [|done]. exact (exec_app_Some _ _ _ _ _ E1 Ex).
Qed.

End Body.
