(* ===== verification/ExprKernel.v ===== *)
(** * Whole kernels: entry, exit and the calling convention
      (the prologue, the initialisation, the result and the epilogue of
      compile_expression, src/jit/compiler.cpp)

    The properties of this file are about the function the compiler returns:
    called with the array of field planes in [x0] and the scratch memory in
    [x1], it terminates without a fault, returns the mask of the expression (or
    leaves its planes at slots 0 to 63), keeps the callee-saved registers and
    writes nothing but the scratch memory and its stack frame. *)

From S2P Require Import Prelude Planes IR A64 Circuits Analyzer ExprCompiler A64Mem ExprBits ExprCorrect.

(** ** Saving and restoring pairs of registers *)

Definition push (p : nat * nat) : instr := I_stp_pre p.1 p.2 sp (-16).
Definition pop (p : nat * nat) : instr := I_ldp_post p.1 p.2 sp 16.

Section Stack.
Variables (stk : nat) (rv : nat -> val).

(** The pairs [ps], pushed from cell [k] down, are in memory. *)
Fixpoint saved (ps : list (nat * nat)) (k : Z) (m : gmap (nat * Z) val) : Prop :=
  match ps with
  | [] => True
  | (r1, r2) :: ps =>
      m !! (stk, k - 2) = Some (rv r1) /\ m !! (stk, k - 1) = Some (rv r2) /\ saved ps (k - 2) m
  end.

Definition regs_of (ps : list (nat * nat)) : list nat := mjoin ((fun p => [p.1; p.2]) <$> ps).

Lemma saved_keep ps k m m' :
  (forall j, k - 2 * Z.of_nat (length ps) <= j < k -> m' !! (stk, j) = m !! (stk, j)) ->
  saved ps k m -> saved ps k m'.
Proof.
  revert k. induction ps as [|[r1 r2] ps IH]; intros k Hm; [done|].
  cbn [saved length] in *. intros (H1 & H2 & H3). split_and!.
  - rewrite Hm by lia. done.
  - rewrite Hm by lia. done.
  - apply IH; [|done]. intros j Hj. apply Hm. lia.
Qed.

Lemma regs_of_cons p ps : regs_of (p :: ps) = p.1 :: p.2 :: regs_of ps.
Proof. done. Qed.

Lemma exec_push ps s k :
  get sp s = Some (Ptr stk (8 * k)) -> 2 * Z.of_nat (length ps) <= k < 2 ^ 60 ->
  (forall j, k - 2 * Z.of_nat (length ps) <= j < k -> is_Some (mem s !! (stk, j))) ->
  (forall r, r ∈ regs_of ps -> get r s = Some (rv r) /\ r <> sp) ->
  exists s', exec (push <$> ps) s = Some s' /\
    (frame [sp] s s' /\ get sp s' = Some (Ptr stk (8 * (k - 2 * Z.of_nat (length ps)))) /\
     writes stk (fun j => k - 2 * Z.of_nat (length ps) <= j < k) (mem s) (mem s') /\
     saved ps k (mem s')).
Proof.
  revert s k. induction ps as [|[r1 r2] ps IH]; intros s k Hsp Hk Hc Hr.
  - exists s. split_and!; try done. by rewrite Z.mul_0_r, Z.sub_0_r.
  - cbn [length] in *. rewrite regs_of_cons in Hr. cbn [fst snd] in Hr.
    destruct (Hr r1) as [G1 N1]; [set_solver|]. destruct (Hr r2) as [G2 N2]; [set_solver|].
    cbn [fmap list_fmap]. unfold push at 1. cbn [fst snd].
    eapply exec_cons; [eapply (step_stp_pre _ _ _ _ stk k); try done; [lia | apply Hc; lia | apply Hc; lia]|].
    set (s1 := set sp _ _).
    assert (mem s1 = <[(stk, k - 1) := rv r2]> (<[(stk, k - 2) := rv r1]> (mem s))) as M1
      by (subst s1; by rewrite mem_set).
    destruct (IH s1 (k - 2)) as (s2 & E2 & F2 & G & W & S).
    + subst s1. by rewrite get_set_eq.
    + lia.
    + intros j Hj. rewrite M1. eapply writes_some; [apply (writes_insert stk (fun _ => True)); done|].
      eapply writes_some; [apply (writes_insert stk (fun _ => True)); done|]. apply Hc. lia.
    + intros r Hin. destruct (Hr r) as [G N]; [set_solver|]. split; [|done].
      subst s1. by rewrite get_set_ne.
    + exists s2. split; [done|]. split_and!.
      * apply (frame_trans _ _ s1); [|done]. subst s1. apply frame_set; [apply list_elem_of_here|].
        do 2 apply frame_upd_mem. apply frame_refl.
      * rewrite G. do 3 f_equal. lia.
      * eapply (writes_trans _ _ _ (mem s1)).
        { rewrite M1. eapply (writes_trans _ _ _ (<[(stk, k - 2) := rv r1]> (mem s))); apply writes_insert; cbv beta; lia. }
        eapply writes_weaken; [|exact W]. cbv beta. intros j Hj. lia.
      * cbn [saved]. split_and!; [| |done].
        -- rewrite (writes_lookup _ _ _ _ _ _ W) by lia. rewrite M1, lookup_insert_ne by (intros [=]; lia).
           apply lookup_insert_eq.
        -- rewrite (writes_lookup _ _ _ _ _ _ W) by lia. rewrite M1. apply lookup_insert_eq.
Qed.

Lemma exec_pop ps s k :
  get sp s = Some (Ptr stk (8 * (k - 2 * Z.of_nat (length ps)))) ->
  2 * Z.of_nat (length ps) <= k < 2 ^ 60 -> saved ps k (mem s) ->
  (forall r, r ∈ regs_of ps -> r <> xzr /\ r <> sp) ->
  exists s', exec (pop <$> rev ps) s = Some s' /\
    (mem s' = mem s /\ get sp s' = Some (Ptr stk (8 * k)) /\
     (forall r, r ∈ regs_of ps -> get r s' = Some (rv r)) /\
     frame (sp :: regs_of ps) s s').
Proof.
  revert s k. induction ps as [|[r1 r2] ps IH]; intros s k Hsp Hk Hs Hr.
  - exists s. rewrite Z.mul_0_r, Z.sub_0_r in Hsp. by split_and!; try set_solver.
  - cbn [length saved] in *. destruct Hs as (H1 & H2 & Hs). rewrite regs_of_cons in Hr |- *. cbn [fst snd] in *.
    destruct (IH s (k - 2)) as (s1 & E1 & M1 & G1 & R1 & F1); try done.
    + rewrite Hsp. do 3 f_equal. lia.
    + lia.
    + intros r Hin. apply Hr. set_solver.
    + cbn [rev]. rewrite fmap_app. destruct (Hr r1) as [X1 N1]; [set_solver|]. destruct (Hr r2) as [X2 N2]; [set_solver|].
      set (s2 := set sp (Ptr stk (8 * k)) (set r2 (rv r2) (set r1 (rv r1) s1))).
      assert (exec (pop <$> [(r1, r2)]) s1 = Some s2) as E2.
      { cbn [fmap list_fmap exec]. unfold pop. cbn [fst snd].
        rewrite (step_ldp_post _ _ _ _ stk (k - 2) (rv r1) (rv r2)); try done; try lia; try (by rewrite M1).
        - cbn [mbind option_bind]. subst s2. do 5 f_equal. lia.
        - rewrite M1. by replace (k - 2 + 1) with (k - 1) by lia. }
      exists s2. split; [exact (exec_app_Some _ _ _ _ _ E1 E2)|]. subst s2. split_and!.
      * by rewrite !mem_set.
      * by apply get_set_eq.
      * intros r Hin. rewrite get_set_ne by (apply Hr; done).
        destruct (decide (r = r2)) as [->|Hn2]; [by apply get_set_eq|]. rewrite get_set_ne by done.
        destruct (decide (r = r1)) as [->|Hn1]; [by apply get_set_eq|]. rewrite get_set_ne by done.
        apply R1. set_solver.
      * apply frame_set; [set_solver|]. apply frame_set; [set_solver|]. apply frame_set; [set_solver|].
        eapply frame_weaken; [|exact F1]. set_solver.
Qed.

End Stack.

(** ** Entry and exit *)

(** The pairs of the prologue; [x29] and [x30] first. *)
Definition saved_pairs : list (nat * nat) := [(29, 30); (19, 20); (21, 22); (23, 24); (25, 26); (27, 28)]%nat.

Lemma epilogue_pops : epilogue = pop <$> rev saved_pairs.
Proof. reflexivity. Qed.

Lemma prologue_pushes :
  prologue = (push <$> [(29, 30)]%nat) ++ [ I_mov 29 sp ] ++ (push <$> tail saved_pairs) ++
    [ I_mov field_planes_ptr 0; I_mov scratch_ptr 1 ]%nat ++ ((fun r => I_movi r 0) <$> carry_regs).
Proof. reflexivity. Qed.

Lemma elem_of_saved_regs r : r ∈ regs_of saved_pairs <-> (19 <= r <= 30)%nat.
Proof. unfold regs_of. cbn. rewrite !elem_of_cons, elem_of_nil. lia. Qed.

(** The registers the kernel may change: the caller-saved ones. *)
Definition kernel_regs : list nat := seq 0 18.

Section Call.
Variables (sc fp stk : nat) (top : Z) (rv : nat -> val) (s : state).
Hypothesis Hx0 : get 0 s = Some (Ptr fp 0).
Hypothesis Hx1 : get 1 s = Some (Ptr sc 0).
Hypothesis Hsp : get sp s = Some (Ptr stk (8 * top)).
Hypothesis Htop : 12 <= top < 2 ^ 60.
Hypothesis Hrv : forall r, (19 <= r <= 30)%nat -> get r s = Some (rv r).
Hypothesis Hstack : forall j, top - 12 <= j < top -> is_Some (mem s !! (stk, j)).

Lemma exec_movis l s1 :
  (forall r, r ∈ l -> r <> xzr) ->
  exists s2, exec ((fun r => I_movi r 0) <$> l) s1 = Some s2 /\ (mem s2 = mem s1 /\ frame l s1 s2).
Proof.
  revert s1. induction l as [|r l IH]; intros s1 Hl; [by exists s1|].
  cbn [fmap list_fmap]. eapply exec_cons; [apply step_movi|].
  destruct (IH (set r (Int (wrap64 0)) s1)) as (s2 & E & M & F); [intros; apply Hl; set_solver|].
  exists s2. split_and!; [done | by rewrite M, mem_set |].
  apply (frame_trans _ _ (set r (Int (wrap64 0)) s1)).
  - apply frame_set; [apply list_elem_of_here | apply frame_refl].
  - eapply frame_weaken; [|exact F]. set_solver.
Qed.

Lemma exec_prologue :
  exists s1, exec prologue s = Some s1 /\
    (get field_planes_ptr s1 = Some (Ptr fp 0) /\ get scratch_ptr s1 = Some (Ptr sc 0) /\
     get sp s1 = Some (Ptr stk (8 * (top - 12))) /\
     writes stk (fun j => top - 12 <= j < top) (mem s) (mem s1) /\
     saved stk rv saved_pairs top (mem s1) /\
     frame (seq 19 14) s s1).
Proof.
  rewrite prologue_pushes.
  destruct (exec_push stk rv [(29, 30)]%nat s top) as (s1 & E1 & F1 & G1 & W1 & S1); try done.
  { cbn. lia. } { intros j Hj. apply Hstack. cbn in Hj. lia. }
  { intros r. unfold regs_of. cbn. rewrite !elem_of_cons, elem_of_nil. intros Hr. split; [apply Hrv|]; lia. }
  apply exec_seq. exists s1. split; [done|].
  cbn [app]. eapply exec_cons; [by eapply step_mov|].
  change (8 * (top - 2 * Z.of_nat (length [(29, 30)%nat]))) with (8 * (top - 2)) in *.
  set (s2 := set 29 (Ptr stk (8 * (top - 2))) s1).
  assert (frame [29; sp]%nat s s2) as F02.
  { apply (frame_trans _ _ s1); [eapply frame_weaken; [|exact F1]; solve_incl | subst s2; solve_frame]. }
  destruct (exec_push stk rv (tail saved_pairs) s2 (top - 2)) as (s3 & E3 & F3 & G3 & W3 & S3).
  { subst s2. by rewrite get_set_ne. } { cbn. lia. }
  { intros j Hj. cbn in Hj. subst s2. rewrite mem_set. eapply writes_some; [exact W1|]. apply Hstack. lia. }
  { intros r. unfold regs_of. cbn. rewrite !elem_of_cons, elem_of_nil. intros Hr.
    rewrite F02 by solve_notin. split; [apply Hrv|]; lia. }
  apply exec_seq. exists s3. split; [done|].
  assert (frame [29; sp]%nat s s3) as F03.
  { apply (frame_trans _ _ s2); [done|]. eapply frame_weaken; [|exact F3]. solve_incl. }
  eapply exec_cons; [eapply step_mov; rewrite F03 by solve_notin; done|].
  eapply exec_cons; [eapply step_mov; rewrite get_set_ne, F03 by (done || solve_notin); done|].
  set (s5 := set scratch_ptr _ _).
  destruct (exec_movis carry_regs s5) as (s6 & E6 & M6 & F6).
  { intros r. unfold carry_regs. rewrite !elem_of_cons, elem_of_nil. lia. }
  change (8 * (top - 2 - 2 * Z.of_nat (length (tail saved_pairs)))) with (8 * (top - 2 - 10)) in G3.
  assert (mem s6 = mem s3) as M63 by (rewrite M6; subst s5; by rewrite !mem_set).
  assert (forall r, (r = 19 \/ r = 20 \/ r = 32)%nat -> get r s6 = get r s5) as G65.
  { intros r Hr. apply F6. unfold carry_regs. rewrite !elem_of_cons, elem_of_nil. lia. }
  exists s6. split; [done|]. rewrite !G65, M63 by auto. split_and!.
  - subst s5. a64_get.
  - subst s5. a64_get.
  - subst s5. rewrite !get_set_ne, G3 by done. do 3 f_equal. lia.
  - eapply writes_trans.
    + eapply writes_weaken; [|exact W1]. cbn. lia.
    + subst s2. rewrite mem_set in W3. eapply writes_weaken; [|exact W3]. cbn. lia.
  - change saved_pairs with ((29, 30)%nat :: tail saved_pairs). cbn [saved] in S1 |- *. destruct S1 as (S1a & S1b & _).
    rewrite !(writes_lookup _ _ _ _ _ _ W3) by (cbn; lia). subst s2. rewrite mem_set. done.
  - apply (frame_trans _ _ s3); [eapply frame_weaken; [|exact F03]; intros r; rewrite !elem_of_cons, elem_of_nil, elem_of_seq; lia|].
    apply (frame_trans _ _ s5).
    + subst s5. do 2 (apply frame_set; [apply elem_of_seq; lia|]). apply frame_refl.
    + eapply frame_weaken; [|exact F6]. intros r. unfold carry_regs.
      rewrite !elem_of_cons, elem_of_nil, elem_of_seq. lia.
Qed.

End Call.

(** ** Initialisation of the masks *)

Section Init.
Variables (ns : list Node) (all : list nat) (sc : nat).
Hypothesis Hlay : layout ns all.
Hypothesis Heq : forall i : nat, i ∈ all -> is_cmp (kind (node ns i)) = false -> eq_slot_id (node ns i) < 0.

(** One store of a register to a slot of the node. *)
Lemma exec_init_store n slot r v s (pre : list instr) s1 :
  (pre = [] /\ s1 = set temp_ptr (Int (8 * slot)) s \/
   exists d w, pre = [ I_movi d w ] /\ d <> temp_ptr /\ d <> scratch_ptr /\ d ∈ body_regs /\
     s1 = set d (Int (wrap64 w)) (set temp_ptr (Int (8 * slot)) s)) ->
  small slot -> owns n slot -> get scratch_ptr s = Some (Ptr sc 0) -> is_Some (mem s !! (sc, slot)) ->
  get r s1 = Some v ->
  exists s', exec (emit_mov_imm64 temp_ptr (slot_offset slot) ++ pre ++ [ I_str r (Idx scratch_ptr temp_ptr) ]) s = Some s' /\
    (frame body_regs s s' /\ mem s' = <[(sc, slot) := v]> (mem s) /\ get scratch_ptr s' = Some (Ptr sc 0)).
Proof.
  intros Hpre Hsm Ho Hs Hc Hr. apply exec_imm; [discriminate | apply slot_offset_u64 |].
  rewrite slot_offset_eq by done. apply exec_seq. exists s1. split.
  { destruct Hpre as [[-> ->]|(d & w & -> & _ & _ & _ & ->)]; done. }
  assert (temp_ptr ∈ body_regs) as Ht by (apply elem_of_body_regs; lia).
  assert (frame body_regs s s1 /\ mem s1 = mem s /\ get scratch_ptr s1 = Some (Ptr sc 0) /\
    get_int temp_ptr s1 = Some (8 * slot)) as (F & M & G & T).
  { destruct Hpre as [[-> ->]|(d & w & -> & N1 & N2 & Hd & ->)].
    - split_and!; [apply frame_set, frame_refl; done | by rewrite mem_set | a64_get | a64_get].
    - split_and!; [do 2 (apply frame_set; [done|]); apply frame_refl | by rewrite !mem_set | a64_get | a64_get]. }
  eapply exec_cons.
  { eapply (step_str_idx _ _ _ _ sc 0 slot); [exact G | exact T | unfold small in Hsm; lia | | exact Hr].
    by rewrite Z.add_0_l, M. }
  rewrite Z.add_0_l. apply exec_nil. split_and!; [by apply frame_upd_mem | by rewrite mem_upd_mem, M | done].
Qed.

(** The carry of a subtraction starts at 1. *)
Lemma exec_init_carry n cc s :
  (if (0 <=? carry_reg n) && bool_decide (kind n = K_SUB) then r ← carry_reg_of (carry_reg n); Some [I_movi r 1] else Some []) = Some cc ->
  get scratch_ptr s = Some (Ptr sc 0) ->
  exists s1, exec cc s = Some s1 /\ frame body_regs s s1 /\ mem s1 = mem s /\ get scratch_ptr s1 = Some (Ptr sc 0).
Proof.
  clear. intros Ec Hs. destruct ((0 <=? carry_reg n) && _); [|injection Ec as <-; exists s; split_and!; try done; apply frame_refl].
  destruct (carry_reg_of (carry_reg n)) as [r|] eqn:Er; [|done]. apply carry_reg_range in Er.
  cbn [mbind option_bind] in Ec. injection Ec as <-.
  exists (set r (Int (wrap64 1)) s). split_and!; [done | | by rewrite mem_set |].
  - apply frame_set; [apply elem_of_body_regs; lia | apply frame_refl].
  - by rewrite get_set_ne by lia.
Qed.

Lemma exec_init_node i code s :
  i ∈ all -> init_node ns i = Some code -> get scratch_ptr s = Some (Ptr sc 0) ->
  (forall k, 0 <= k < 32768 -> is_Some (mem s !! (sc, k))) ->
  exists s', exec code s = Some s' /\
    (frame body_regs s s' /\ writes sc (owns (node ns i)) (mem s) (mem s') /\
     (is_cmp (kind (node ns i)) = true ->
      mem s' !! (sc, slot_id (node ns i)) = Some (Int 0) /\
      mem s' !! (sc, eq_slot_id (node ns i)) = Some (Int ones64))).
Proof.
  intros Hi Hin Hs Hc. unfold init_node in Hin. set (n := node ns i) in *.
  destruct (if (0 <=? carry_reg n) && bool_decide (kind n = K_SUB) then _ else _) as [cc|] eqn:Ec in Hin; [|done].
  destruct (exec_init_carry n cc s Ec Hs) as (s1 & E1 & F1 & M1 & G1).
  cbn [mbind option_bind] in Hin. injection Hin as <-.
  destruct ((0 <=? slot_id n) && bool_decide (result_kind n = BITMASK)) eqn:Em.
  2:{ exists s1. rewrite app_nil_r. split_and!; [done | done | by apply writes_eq |].
      intros Hcmp. exfalso. assert (is_leaf (kind n) = false) as Hl by (clear -Hcmp; by destruct (kind n)).
      destruct (ly_slots _ _ Hlay i Hi Hl) as (H0 & _). fold n in H0.
      rewrite (proj2 (Z.leb_le _ _)) in Em by done. cbn [andb] in Em.
      apply bool_decide_eq_false in Em. apply Em. unfold n. rewrite (ly_result _ _ Hlay i Hi). fold n.
      unfold result_of. by rewrite Hcmp. }
  apply andb_prop in Em as [Hs0%Z.leb_le Hrk%bool_decide_eq_true].
  assert (is_leaf (kind n) = false) as Hl.
  { pose proof (ly_result _ _ Hlay i Hi) as Hr. fold n in Hr. rewrite Hrk in Hr. clear -Hr. by destruct (kind n). }
  pose proof (owns_slot ns all Hlay i Hi Hl Hrk) as Ho. fold n in Ho.
  pose proof (owns_range ns all Hlay i _ Hi Ho) as Hrange.
  assert (small (slot_id n)) as Hsm by (unfold small; lia).
  destruct (exec_init_store n (slot_id n) xzr (Int 0) s1 [] (set temp_ptr (Int (8 * slot_id n)) s1))
    as (s2 & E2 & F2 & M2 & G2); try done; [by left | rewrite M1; by apply Hc |].
  destruct (0 <=? eq_slot_id n) eqn:Ee.
  - apply Z.leb_le in Ee. assert (is_cmp (kind n) = true) as Hcmp.
    { destruct (is_cmp (kind n)) eqn:E; [done|]. specialize (Heq i Hi E). fold n in Heq. lia. }
    pose proof (owns_eq_slot ns all Hlay i Hi Hcmp) as Hoe. fold n in Hoe.
    pose proof (owns_range ns all Hlay i _ Hi Hoe) as Hrange2.
    destruct (ly_slots _ _ Hlay i Hi Hl) as (_ & _ & _ & Hd). specialize (Hd Hcmp) as [_ Hd]. fold n in Hd.
    destruct (exec_init_store n (eq_slot_id n) scratch1 (Int ones64) s2 [ I_movi scratch1 (-1) ]
      (set scratch1 (Int (wrap64 (-1))) (set temp_ptr (Int (8 * eq_slot_id n)) s2)))
      as (s3 & E3 & F3 & M3 & G3); try done.
    { right. exists scratch1, (-1). split_and!; try done. apply elem_of_body_regs. lia. }
    { unfold small; lia. }
    { rewrite M2. eapply writes_some; [by apply (writes_insert sc (fun _ => True))|]. rewrite M1. by apply Hc. }
    { a64_get. }
    exists s3. split.
    { pose proof (exec_app_Some _ _ _ _ _ E1 (exec_app_Some _ _ _ _ _ E2 E3)) as E.
      rewrite <- ?app_assoc in E |- *. exact E. }
    split_and!.
    + eapply frame_trans; [exact F1|]. by eapply frame_trans.
    + rewrite M3, M2, M1. eapply writes_trans; by apply writes_insert.
    + intros _. rewrite M3, M2, M1. split; [|apply lookup_insert_eq].
      rewrite lookup_insert_ne by congruence. apply lookup_insert_eq.
  - exists s2. split.
    { pose proof (exec_app_Some _ _ _ _ _ E1 E2) as E. rewrite <- ?app_assoc in E |- *. exact E. }
    split_and!.
    + by eapply frame_trans.
    + rewrite M2, M1. by apply writes_insert.
    + intros Hcmp. pose proof (owns_eq_slot ns all Hlay i Hi Hcmp) as [Hoe _]. fold n in Hoe.
      apply Z.leb_gt in Ee. lia.
Qed.

Lemma exec_init l code s :
  (forall i, i ∈ l -> i ∈ all) -> NoDup l -> init_nodes ns l = Some code ->
  get scratch_ptr s = Some (Ptr sc 0) -> (forall k, 0 <= k < 32768 -> is_Some (mem s !! (sc, k))) ->
  exists s', exec code s = Some s' /\
    (frame body_regs s s' /\ writes sc (fun k => 0 <= k < 32768) (mem s) (mem s') /\
     forall i : nat, i ∈ l -> is_cmp (kind (node ns i)) = true ->
       mem s' !! (sc, slot_id (node ns i)) = Some (Int 0) /\
       mem s' !! (sc, eq_slot_id (node ns i)) = Some (Int ones64)).
Proof.
  intros Hl Hnd Hin Hs Hc. revert code Hin. induction l as [|i l IH] using rev_ind; intros code Hin.
  - injection Hin as <-. exists s. split_and!; [done | done | done | set_solver].
  - unfold init_nodes in Hin. rewrite foldl_app in Hin. cbn [foldl] in Hin.
    fold (init_nodes ns l) in Hin. apply NoDup_app in Hnd as (Hnd & Hdisj & _).
    destruct (init_nodes ns l) as [c1|]; cbn [mbind option_bind] in Hin; [|done].
    destruct (init_node ns i) as [c2|] eqn:E2; cbn [mbind option_bind] in Hin; [|done]. injection Hin as <-.
    destruct (IH ltac:(set_solver) Hnd c1 eq_refl) as (s1 & E1 & F1 & W1 & V1).
    destruct (exec_init_node i c2 s1) as (s2 & Ex & F2 & W2 & V2); [set_solver | done | | |].
    { rewrite F1 by not_body. done. } { intros k Hk. eapply writes_some; [exact W1|]. by apply Hc. }
    exists s2. split; [exact (exec_app_Some _ _ _ _ _ E1 Ex)|]. split_and!.
    + by eapply frame_trans.
    + eapply writes_trans; [exact W1|]. eapply writes_weaken; [|exact W2].
      intros k. apply (owns_range ns all Hlay). set_solver.
    + intros j Hj Hcmp. apply elem_of_app in Hj as [Hj|Hj].
      * assert (j <> i) as Hji by set_solver.
        assert (is_leaf (kind (node ns j)) = false) as Hlj by (by destruct (kind (node ns j))).
        assert (result_kind (node ns j) = BITMASK) as Hrj.
        { rewrite (ly_result _ _ Hlay j); [|set_solver]. by destruct (kind (node ns j)). }
        rewrite !(writes_lookup _ _ _ _ _ _ W2); [by apply V1| |].
        -- intros [_ Ho]. eapply (owns_disj ns all Hlay j i); [set_solver | set_solver | done | | exact Ho].
           apply (owns_eq_slot ns all); [done | set_solver | done].
        -- intros [_ Ho]. eapply (owns_disj ns all Hlay j i); [set_solver | set_solver | done | | exact Ho].
           apply (owns_slot ns all); [done | set_solver | done..].
      * apply list_elem_of_singleton in Hj as ->. by apply V2.
Qed.

End Init.

(** ** The kernel's contract *)

(** What the caller provides: [ns] is the annotated pool, [r] the root. *)
Record kernel_ready (ns : list Node) (r : nat) (rows : nat -> string -> Z) (sc fp stk : nat) (top : Z)
    (s : state) : Prop := {
  kr_x0 : get 0 s = Some (Ptr fp 0);
  kr_x1 : get 1 s = Some (Ptr sc 0);
  kr_sp : get sp s = Some (Ptr stk (8 * top));
  kr_top : 12 <= top < 2 ^ 60;
  kr_regs : forall q, (19 <= q <= 30)%nat -> is_Some (get q s);
  kr_sc_fp : sc <> fp;
  kr_stk_sc : stk <> sc;
  kr_stk_fp : stk <> fp;
  kr_scratch : forall k, 0 <= k < 32768 -> is_Some (mem s !! (sc, k));
  kr_stack : forall k, top - 12 <= k < top -> is_Some (mem s !! (stk, k));
  kr_rows : forall q f, u64 (rows q f);
  kr_fields : forall j : nat, reach ns r j -> kind (node ns j) = K_LOAD ->
    exists p base, mem s !! (fp, field_idx (node ns j)) = Some (Ptr p (8 * base)) /\ small base /\
      p <> sc /\ p <> stk /\
      forall b, (b < 64)%nat ->
        mem s !! (p, base + Z.of_nat b) = Some (Int (plane_of (fun q => rows q (field_name (node ns j))) b))
}.

(** What it finds afterwards: callee-saved registers and the stack pointer are
    restored, memory outside the scratch memory and the frame is unchanged. *)
Record kernel_done (sc stk : nat) (top : Z) (s s' : state) : Prop := {
  kd_regs : forall q, (18 <= q <= 30)%nat \/ q = sp -> get q s' = get q s;
  kd_mem : forall o k, o <> sc -> ~ (o = stk /\ top - 12 <= k < top) -> mem s' !! (o, k) = mem s !! (o, k);
  kd_cells : forall c, is_Some (mem s !! c) -> is_Some (mem s' !! c)
}.

Section Contract.
Variables (ns : list Node) (all : list nat) (r : nat) (rows : nat -> string -> Z) (sc fp stk : nat) (top : Z).
Variables (s : state) (ini body : list instr) (c : ScratchpadCache.t).
Hypothesis Hready : kernel_ready ns r rows sc fp stk top s.
Hypothesis Hlay : layout ns all.
Hypothesis Hall : forall j, j ∈ all -> reach ns r j.
Hypothesis Heq : forall i : nat, i ∈ all -> is_cmp (kind (node ns i)) = false -> eq_slot_id (node ns i) < 0.
Hypothesis Hden : forall i, i ∈ all -> live (node ns i) = true -> (exists e, denA ns i e) \/ (exists e, denB ns i e).
Hypothesis Hclosed : forall i j, i ∈ all -> live (node ns i) = true -> Some j ∈ children (node ns i) ->
  live (node ns j) = true.
Hypothesis Hini : init_nodes ns all = Some ini.
Hypothesis Hbody : emit_nodes ns 64 all = Some (body, c).

Abbreviation live_all := (filter (fun i : nat => live (node ns i) = true) all).

Lemma live_all_intro i : i ∈ all -> live (node ns i) = true -> i ∈ live_all.
Proof using Type. intros. by apply list_elem_of_filter. Qed.

(** The values of the registers at the call. *)
Definition rv (q : nat) : val := default (Int 0) (get q s).

(** The state between the main loop and the epilogue. *)
Record in_kernel (s2 : state) : Prop := {
  ik_sp : get sp s2 = Some (Ptr stk (8 * (top - 12)));
  ik_saved : saved stk rv saved_pairs top (mem s2);
  ik_x18 : get 18 s2 = get 18 s;
  ik_mem : forall o k, o <> sc -> ~ (o = stk /\ top - 12 <= k < top) -> mem s2 !! (o, k) = mem s !! (o, k);
  ik_cells : forall c, is_Some (mem s !! c) -> is_Some (mem s2 !! c)
}.

Lemma in_kernel_step R P s2 s3 :
  in_kernel s2 -> frame R s2 s3 -> (forall q, q ∈ R -> (q <= 17 \/ 19 <= q <= 28)%nat) ->
  writes sc P (mem s2) (mem s3) -> in_kernel s3.
Proof.
  intros [H1 H2 H3 H4 H5] F HR W.
  assert (forall q, (q = 18 \/ q = sp)%nat -> get q s3 = get q s2) as Hq.
  { intros q Hq. apply F. intros Hin%HR. lia. }
  assert (forall o k, o <> sc -> mem s3 !! (o, k) = mem s2 !! (o, k)) as Hm.
  { intros o k Ho. apply (writes_lookup _ _ _ _ _ _ W). naive_solver. }
  split.
  - by rewrite Hq by auto.
  - eapply saved_keep; [|exact H2]. intros j _. apply Hm. apply (kr_stk_sc _ _ _ _ _ _ _ _ Hready).
  - by rewrite Hq by auto.
  - intros o k Ho Hk. rewrite Hm by done. by apply H4.
  - intros cc Hc. eapply writes_some; [exact W|]. by apply H5.
Qed.

Lemma exec_kernel_main :
  exists s1 s2, exec (prologue ++ ini ++ body) s = Some s2 /\
    body_inv ns all sc rows s1 live_all c s2 /\ in_kernel s2 /\
    get field_planes_ptr s1 = Some (Ptr fp 0) /\ get scratch_ptr s1 = Some (Ptr sc 0) /\
    (forall k, 0 <= k < 32768 -> is_Some (mem s1 !! (sc, k))).
Proof.
  destruct Hready as [Kx0 Kx1 Ksp Ktop Kregs Ksf Kss Ksp' Kscr Kst Krows Kf].
  destruct (exec_prologue sc fp stk top rv s) as (s1 & E1 & G19 & G20 & Gsp & W1 & S1 & F1); try done.
  { intros q Hq. destruct (Kregs q Hq) as [v Hv]. unfold rv. by rewrite Hv. }
  assert (forall o k, ~ (o = stk /\ top - 12 <= k < top) -> mem s1 !! (o, k) = mem s !! (o, k)) as M1.
  { intros o k Ho. by apply (writes_lookup _ _ _ _ _ _ W1). }
  assert (forall k, 0 <= k < 32768 -> is_Some (mem s1 !! (sc, k))) as C1.
  { intros k Hk. eapply writes_some; [exact W1|]. by apply Kscr. }
  destruct (exec_init ns all sc Hlay Heq all ini s1) as (s2 & E2 & F2 & W2 & V2); try done.
  { eapply topo_NoDup, Hlay. }
  assert (in_kernel s1) as I1.
  { split; try done.
    - apply F1. rewrite elem_of_seq. lia.
    - intros o k _ Ho. by apply M1.
    - intros cc Hc. by eapply writes_some. }
  assert (in_kernel s2) as I2.
  { eapply (in_kernel_step body_regs); eauto. intros q. rewrite elem_of_body_regs. lia. }
  assert (forall j : nat, j ∈ all -> kind (node ns j) = K_LOAD ->
    exists p base, mem s2 !! (fp, field_idx (node ns j)) = Some (Ptr p (8 * base)) /\ small base /\ p <> sc /\
      forall b, (b < 64)%nat ->
        mem s2 !! (p, base + Z.of_nat b) = Some (Int (plane_of (fun q => rows q (field_name (node ns j))) b))) as Hf2.
  { intros j Hj Hk. destruct (Kf j) as (p & base & Hm & Hb & Hp & Hps & Hpl); [by apply Hall|done|].
    exists p, base. split_and!; [|done|done|].
    - rewrite (ik_mem _ I2); [done | congruence | naive_solver].
    - intros b Hbl. rewrite (ik_mem _ I2); [by apply Hpl | done | naive_solver]. }
  destruct (exec_nodes ns all sc fp rows s2) with (l := all) (rest := @nil nat) (code := body) (c := c) (s := s2)
    as (s3 & E3 & I3); try done.
  { rewrite F2 by not_body. done. } { rewrite F2 by not_body. done. }
  { intros k Hk. eapply writes_some; [exact W2|]. by apply C1. }
  { by rewrite app_nil_r. }
  { split; [apply frame_refl | apply writes_refl | | | | apply cache_ok_init].
    - intros i e Hi. by apply not_elem_of_nil in Hi.
    - intros i e Hi. by apply not_elem_of_nil in Hi.
    - intros i Hi _. by apply V2. }
  exists s2, s3. split_and!; [|done| | | |].
  - exact (exec_app_Some _ _ _ _ _ E1 (exec_app_Some _ _ _ _ _ E2 E3)).
  - eapply (in_kernel_step body_regs); [exact I2 | apply I3 | | apply I3].
    intros q. rewrite elem_of_body_regs. lia.
  - rewrite F2 by not_body. done.
  - rewrite F2 by not_body. done.
  - intros k Hk. eapply writes_some; [exact W2|]. by apply C1.
Qed.

Lemma exec_kernel_exit s3 :
  in_kernel s3 ->
  exists s4, exec epilogue s3 = Some s4 /\ mem s4 = mem s3 /\ get 0 s4 = get 0 s3 /\
    kernel_done sc stk top s s4.
Proof.
  intros [H1 H2 H3 H4 H5]. destruct Hready as [Kx0 Kx1 Ksp Ktop Kregs Ksf Kss Ksp' Kscr Kst Krows Kf].
  rewrite epilogue_pops.
  destruct (exec_pop stk rv saved_pairs s3 top) as (s4 & E & M & G & R & F); try done.
  { intros q. rewrite elem_of_saved_regs. lia. }
  assert (forall q, (q < 19)%nat -> get q s4 = get q s3) as Hlow.
  { intros q Hq. apply F. rewrite not_elem_of_cons, elem_of_saved_regs. lia. }
  exists s4. split_and!; [done|done|apply Hlow; lia|]. split.
  - intros q [Hq| ->]; [|by rewrite G]. destruct (decide (q = 18%nat)) as [->|Hne].
    + by rewrite Hlow by lia.
    + rewrite R by (apply elem_of_saved_regs; lia). unfold rv.
      destruct (Kregs q) as [v Hv]; [lia|]. by rewrite Hv.
  - intros o k Ho Hk. rewrite M. by apply H4.
  - rewrite M. done.
Qed.

(** *** The result *)

Lemma exec_final_mask s2 s1 e :
  body_inv ns all sc rows s1 live_all c s2 -> get scratch_ptr s1 = Some (Ptr sc 0) ->
  r ∈ all -> skip_jit (node ns r) = false -> denB ns r e ->
  exists s3, exec (final_code (node ns r)) s2 = Some s3 /\
    (mem s3 = mem s2 /\ frame [0; temp_ptr]%nat s2 s3 /\ get_int 0 s3 = Some (MB rows e)).
Proof.
  intros I Hs Hr Hskip He. destruct (mask_slot_node ns all Hlay r e Hr He) as (_ & Hsm & _).
  destruct (denB_kind ns all Hlay r e Hr He) as [Hrk _].
  assert (get scratch_ptr s2 = Some (Ptr sc 0)) as Hs2 by (rewrite (bi_frame _ _ _ _ _ _ _ _ I) by not_body; done).
  unfold final_code. rewrite Hskip, Hrk.
  apply exec_imm; [discriminate | apply slot_offset_u64 |]. rewrite slot_offset_eq by done.
  eapply exec_cons.
  { eapply (step_ldr_idx _ _ _ _ sc 0 (slot_id (node ns r))); [a64_get | a64_get | unfold small in Hsm; lia |].
    rewrite Z.add_0_l, mem_set. apply (bi_B _ _ _ _ _ _ _ _ I r e); [|exact He]. apply live_all_intro; [done|]. unfold live. by rewrite Hskip. }
  apply exec_nil. split_and!; [by rewrite !mem_set | solve_frame | a64_get].
Qed.

(** Copying the root's planes to slots 0 to 63. *)
Record copy_inv (A : nat -> Z) (slot : Z) (s2 : state) (k : nat) (s3 : state) : Prop := {
  cp_frame : frame [result; temp_ptr] s2 s3;
  cp_writes : writes sc (fun j => 0 <= j < 64) (mem s2) (mem s3);
  cp_walk : get_int temp_ptr s3 = Some (8 * (slot + Z.of_nat k));
  cp_done : forall b, (b < k)%nat -> mem s3 !! (sc, Z.of_nat b) = Some (Int (A b));
  cp_rest : forall b, (k <= b < 64)%nat -> mem s3 !! (sc, slot + Z.of_nat b) = Some (Int (A b))
}.

Lemma exec_copy_step A slot s2 k s3 :
  small slot -> slot = 0 \/ 64 <= slot -> get scratch_ptr s2 = Some (Ptr sc 0) ->
  (forall j, 0 <= j < 64 -> is_Some (mem s2 !! (sc, j))) ->
  (k < 64)%nat -> copy_inv A slot s2 k s3 ->
  exists s4, exec [ I_ldr result (Idx scratch_ptr temp_ptr); I_str result (Off scratch_ptr (Z.of_nat k * 8));
      I_addi temp_ptr temp_ptr 8 ] s3 = Some s4 /\ copy_inv A slot s2 (S k) s4.
Proof using Type.
  intros Hsm Hslot Hs Hc Hk [F W T D R]. unfold small in Hsm.
  assert (get scratch_ptr s3 = Some (Ptr sc 0)) as Hs3 by (rewrite F by solve_notin; done).
  eapply exec_cons.
  { eapply (step_ldr_idx _ _ _ _ sc 0 (slot + Z.of_nat k)); [done | done | lia |].
    rewrite Z.add_0_l. apply R. lia. }
  eapply exec_cons.
  { eapply (step_str_off _ _ _ _ sc 0 (Int (A k))); [a64_get | lia | | a64_get].
    rewrite mem_set, Z.add_0_l. eapply writes_some; [exact W|]. apply Hc. lia. }
  eapply exec_cons; [eapply step_addi; rewrite get_upd_mem, get_set_ne by done; by apply get_int_get|].
  apply exec_nil. rewrite Z.add_0_l. cbn [add_val]. split.
  - apply frame_set; [apply list_elem_of_further, list_elem_of_here|].
    apply frame_upd_mem. solve_frame.
  - rewrite mem_set, mem_upd_mem, mem_set. eapply writes_trans; [exact W|]. apply writes_insert. cbv beta. lia.
  - rewrite get_int_set_eq by done. do 2 f_equal. rewrite wrap64_small by (unfold u64; lia). lia.
  - intros b Hb. rewrite mem_set, mem_upd_mem, mem_set. destruct (decide (b = k)) as [->|Hne].
    + apply lookup_insert_eq.
    + rewrite lookup_insert_ne by (intros [=]; lia). apply D. lia.
  - intros b Hb. rewrite mem_set, mem_upd_mem, mem_set.
    rewrite lookup_insert_ne by (intros [=]; lia). apply R. lia.
Qed.

Lemma exec_final_planes s2 s1 e :
  body_inv ns all sc rows s1 live_all c s2 -> get scratch_ptr s1 = Some (Ptr sc 0) ->
  (forall k, 0 <= k < 32768 -> is_Some (mem s1 !! (sc, k))) ->
  r ∈ all -> skip_jit (node ns r) = false -> denA ns r e -> is_leaf (kind (node ns r)) = false ->
  exists s3, exec (final_code (node ns r)) s2 = Some s3 /\
    (writes sc (fun j => 0 <= j < 64) (mem s2) (mem s3) /\ frame [0%nat; result; temp_ptr] s2 s3 /\
     get_int 0 s3 = Some 0 /\
     forall b, (b < 64)%nat -> mem s3 !! (sc, Z.of_nat b) = Some (Int (PA rows e b))).
Proof.
  intros I Hs Hc Hr Hskip He Hl. pose proof (denA_kind ns all Hlay r e Hr He) as Hrk.
  destruct (ly_slots _ _ Hlay r Hr Hl) as (H0 & H1 & _). destruct (H1 Hrk) as [H2 H3].
  assert (slot_id (node ns r) = 0 \/ 64 <= slot_id (node ns r)) as Hslot.
  { destruct (Z.lt_ge_cases (slot_id (node ns r)) 64); [left|by right].
    rewrite Z.mod_small in H3 by lia. done. }
  assert (small (slot_id (node ns r))) as Hsm by (unfold small; lia).
  assert (get scratch_ptr s2 = Some (Ptr sc 0)) as Hs2 by (rewrite (bi_frame _ _ _ _ _ _ _ _ I) by not_body; done).
  assert (forall k, 0 <= k < 32768 -> is_Some (mem s2 !! (sc, k))) as Hc2.
  { intros k Hk. eapply writes_some; [apply (bi_writes _ _ _ _ _ _ _ _ I)|]. by apply Hc. }
  assert (r ∈ live_all) as Hrl by (apply live_all_intro; [done|]; unfold live; by rewrite Hskip).
  pose proof (bi_A _ _ _ _ _ _ _ _ I r e Hrl He Hl) as HA.
  unfold final_code. rewrite Hskip, Hrk.
  apply exec_imm; [discriminate | apply slot_offset_u64 |]. rewrite slot_offset_eq by done.
  set (s3 := set temp_ptr _ s2).
  assert (forall k, (k <= 64)%nat -> exists s4, exec (mjoin ((fun i : nat =>
    [ I_ldr result (Idx scratch_ptr temp_ptr); I_str result (Off scratch_ptr (Z.of_nat i * 8));
      I_addi temp_ptr temp_ptr 8 ]) <$> seq 0 k)) s3 = Some s4 /\
    copy_inv (PA rows e) (slot_id (node ns r)) s2 k s4) as Hloop.
  { induction k as [|k IH]; intros Hk.
    - exists s3. split; [done|]. subst s3. split; [solve_frame | by apply writes_eq, mem_set | | intros b Hb; lia |].
      + rewrite Z.add_0_r. a64_get.
      + intros b Hb. rewrite mem_set. apply HA. lia.
    - destruct IH as (s4 & E4 & I4); [lia|].
      destruct (exec_copy_step (PA rows e) (slot_id (node ns r)) s2 k s4) as (s5 & E5 & I5); try done.
      { intros j Hj. apply Hc2. lia. }
      exists s5. split; [|done]. rewrite seq_S, fmap_app, join_app. refine (exec_app_Some _ _ _ _ _ E4 _). exact E5. }
  destruct (Hloop 64%nat) as (s4 & E4 & [F W T D R]); [lia|].
  apply exec_seq. exists s4. split; [done|]. a64_step. apply exec_nil. split_and!.
  - by rewrite mem_set.
  - apply frame_set; [apply list_elem_of_here|]. eapply frame_weaken; [|exact F]. solve_incl.
  - a64_get.
  - intros b Hb. rewrite mem_set. by apply D.
Qed.

End Contract.

(** ** From the compiler to the kernel *)

(** Every node below a denoted node denotes something. *)
Lemma den_child ns i j :
  (exists e, denA ns i e) \/ (exists e, denB ns i e) -> child ns i j ->
  (exists e, denA ns j e) \/ (exists e, denB ns j e).
Proof.
  intros Hd (n & Hn & Hc).
  destruct Hd as [[e He]|[e He]]; inversion He; simplify_eq;
    match goal with H : children _ = _ |- _ => rewrite H in Hc end;
    rewrite !elem_of_cons, elem_of_nil in Hc; naive_solver.
Qed.

Lemma den_reach ns i j :
  (exists e, denA ns i e) \/ (exists e, denB ns i e) -> reach ns i j ->
  (exists e, denA ns j e) \/ (exists e, denB ns j e).
Proof. intros Hd Hr. induction Hr as [|i k j Hc _ IH]; [done|]. apply IH. by eapply den_child. Qed.

Lemma den_lt ns i : (exists e, denA ns i e) \/ (exists e, denB ns i e) -> (i < length ns)%nat.
Proof. intros [[e He]|[e He]]; inversion He; by eapply lookup_lt_Some. Qed.

(** What the graph below [r] must satisfy: second slots are unset where they are
    not used, as the builders leave them; the nodes that are not skipped denote
    something, and depend on no skipped inner node. *)
Record kernel_graph (ns : list Node) (r : nat) : Prop := {
  kg_eq : forall j n, reach ns r j -> ns !! j = Some n -> is_cmp (kind n) = false -> eq_slot_id n < 0;
  kg_den : forall j n, reach ns r j -> ns !! j = Some n -> live n = true ->
    (exists e, denA ns j e) \/ (exists e, denB ns j e);
  kg_closed : forall i n j m, reach ns r i -> ns !! i = Some n -> live n = true -> Some j ∈ children n ->
    ns !! j = Some m -> live m = true
}.

(** [clean ns r]: no node below [r] is marked to be skipped. *)
Definition clean (ns : list Node) (r : nat) : Prop :=
  forall j n, reach ns r j -> ns !! j = Some n ->
    skip_jit n = false /\ (is_cmp (kind n) = false -> eq_slot_id n < 0).

Lemma clean_graph ns r :
  clean ns r -> (exists e, denA ns r e) \/ (exists e, denB ns r e) -> kernel_graph ns r.
Proof.
  intros Hcl Hd. split.
  - intros j n Hj Hn. by apply (Hcl j n).
  - intros j n Hj _ _. by eapply den_reach.
  - intros i n j m Hi Hn _ Hc Hm. unfold live. destruct (Hcl j m) as [-> _]; [|done|done].
    eapply rtc_r; [exact Hi|]. by exists n.
Qed.

Lemma keeps_lookup (ns ns' : list Node) i n :
  length ns' = length ns -> (forall j : nat, keeps (node ns j) (node ns' j)) -> ns !! i = Some n ->
  exists n', ns' !! i = Some n' /\ keeps n n'.
Proof.
  intros Hl Hk Hi. exists (node ns' i). split.
  - apply list_lookup_lookup_total_lt. rewrite Hl. by eapply lookup_lt_Some.
  - pose proof (Hk i) as H. by rewrite (list_lookup_total_correct _ _ _ Hi) in H.
Qed.

Lemma reach_keeps ns ns' i j :
  length ns' = length ns -> (forall j : nat, keeps (node ns j) (node ns' j)) ->
  reach ns i j -> reach ns' i j.
Proof.
  intros Hl Hk. induction 1 as [|i k j (n & Hn & Hc) _ IH]; [apply rtc_refl|].
  apply rtc_l with k; [|done]. destruct (keeps_lookup ns ns' i n Hl Hk Hn) as (n' & Hn' & Hkn & _).
  exists n'. split; [done|]. by destruct (core_eq _ _ Hkn) as (_ & _ & _ & ->).
Qed.

(** A compiled kernel's ingredients, in terms of the annotated pool. *)
Lemma compile_expression_ready r ns pools ns' pools' code :
  wf_nodes ns -> ConstPool.wf pools -> kernel_graph ns r -> (r < length ns)%nat ->
  compile_expression (Some r) 64 ns pools = (ns', pools', Kernel code) ->
  exists all ini body c,
    layout ns' all /\ r ∈ all /\ (forall j, j ∈ all <-> reach ns r j) /\ (forall j, j ∈ all -> reach ns' r j) /\
    (forall i : nat, keeps (node ns i) (node ns' i)) /\
    (forall i : nat, i ∈ all -> is_cmp (kind (node ns' i)) = false -> eq_slot_id (node ns' i) < 0) /\
    (forall i, i ∈ all -> live (node ns' i) = true -> (exists e, denA ns' i e) \/ (exists e, denB ns' i e)) /\
    (forall i j, i ∈ all -> live (node ns' i) = true -> Some j ∈ children (node ns' i) -> live (node ns' j) = true) /\
    (forall i e, denA ns i e -> denA ns' i e) /\ (forall i e, denB ns i e -> denB ns' i e) /\
    init_nodes ns' all = Some ini /\ emit_nodes ns' 64 all = Some (body, c) /\
    code = (prologue ++ ini ++ body ++ final_code (node ns' r) ++ epilogue) ++ [ I_ret 30 ].
Proof.
  intros Hwf Hp [Gq Gd Gc] Hr Hcomp.
  destruct (compile_expression_layout r 64 ns pools ns' pools' code Hwf Hr Hp Hcomp)
    as (all & ini & body & c & Hlay & Hall & Hlen & Hk & _ & Hi & He & Hcode).
  assert (forall i n, ns !! i = Some n -> exists n', ns' !! i = Some n' /\ core n' = core n) as Hcore.
  { intros i n Hn. destruct (keeps_lookup ns ns' i n Hlen Hk Hn) as (n' & Hn' & Hc & _). eauto. }
  destruct (den_core ns ns' Hcore) as [HA HB].
  assert (forall i : nat, live (node ns' i) = live (node ns i)) as Hlive.
  { intros i. unfold live. destruct (Hk i) as ((-> & _)%core_eq & -> & _). done. }
  assert (forall i, i ∈ all -> ns !! i = Some (node ns i)) as Hlook.
  { intros i Hi'. apply list_lookup_lookup_total_lt. pose proof (reach_le ns r i Hwf (proj1 (Hall i) Hi')). lia. }
  exists all, ini, body, c. split_and!; try done.
  - apply Hall, rtc_refl.
  - intros j Hj. eapply reach_keeps; [done|done|]. by apply Hall.
  - intros i Hia. destruct (Hk i) as ((-> & _)%core_eq & _ & He'). intros Hc. rewrite He' by done.
    by apply (Gq i); [apply Hall|apply Hlook|].
  - intros i Hia. rewrite Hlive. intros Hl.
    destruct (Gd i (node ns i)) as [[e Hde]|[e Hde]]; [by apply Hall|by apply Hlook|done|eauto|eauto].
  - intros i j Hia. rewrite !Hlive. destruct (Hk i) as ((_ & _ & _ & ->)%core_eq & _). intros Hl Hc.
    apply (Gc i (node ns i) j (node ns j)); [by apply Hall|by apply Hlook|done|done|].
    apply Hlook, Hall. eapply rtc_r; [by apply Hall|]. exists (node ns i). split; [by apply Hlook|done].
Qed.

Lemma clean_root (ns ns' : list Node) (r : nat) :
  clean ns r -> (r < length ns)%nat -> (forall i : nat, keeps (node ns i) (node ns' i)) -> skip_jit (node ns' r) = false.
Proof.
  intros Hcl Hr Hk. destruct (Hk r) as (_ & -> & _).
  apply (Hcl r (node ns r)); [apply rtc_refl | by apply list_lookup_lookup_total_lt].
Qed.

(** The whole run, for a boolean root and for an arithmetic one. *)
Lemma run_mask_kernel r ns pools ns' pools' code rows sc fp stk top s e fuel :
  wf_nodes ns -> ConstPool.wf pools -> clean ns r -> denB ns r e ->
  compile_expression (Some r) 64 ns pools = (ns', pools', Kernel code) ->
  kernel_ready ns' r rows sc fp stk top s -> (length code <= fuel)%nat ->
  exists s', run code fuel 0 s = Done s' /\ get_int 0 s' = Some (MB rows e) /\ kernel_done sc stk top s s'.
Proof.
  intros Hwf Hp Hcl He Hcomp Hready Hfuel.
  pose proof (or_intror (ex_intro _ e He) : (exists e, denA ns r e) \/ (exists e, denB ns r e)) as Hd.
  destruct (compile_expression_ready r ns pools ns' pools' code Hwf Hp (clean_graph _ _ Hcl Hd) (den_lt _ _ Hd) Hcomp)
    as (all & ini & body & c & Hlay & Hr & _ & Hall & Hk & Heq & Hden & Hclo & _ & HB & Hi & Hb & ->).
  assert (skip_jit (node ns' r) = false) as Hskip by (eapply clean_root; [done | by eapply den_lt | done]).
  destruct (exec_kernel_main ns' all r rows sc fp stk top s ini body c Hready Hlay Hall Heq Hden Hclo Hi Hb)
    as (s1 & s2 & E2 & I2 & K2 & _ & G20 & _).
  destruct (exec_final_mask ns' all r rows sc c Hlay s2 s1 e I2 G20 Hr Hskip (HB _ _ He))
    as (s3 & E3 & M3 & F3 & V3).
  assert (in_kernel sc stk top s s3) as K3.
  { eapply (in_kernel_step _ _ _ _ _ _ _ _ Hready); [exact K2 | exact F3 | | apply (writes_eq sc (fun _ => False)), M3].
    intros q. rewrite !elem_of_cons, elem_of_nil. lia. }
  destruct (exec_kernel_exit ns' r rows sc fp stk top s Hready s3 K3) as (s4 & E4 & M4 & V4 & D4).
  exists s4. split_and!; [|unfold get_int; rewrite V4; exact V3|done].
  destruct (kr_regs _ _ _ _ _ _ _ _ Hready 30) as [ra Hra]; [lia|].
  eapply (run_exec_ret _ 30 s s4 ra).
  - pose proof (exec_app_Some _ _ _ _ _ E2 (exec_app_Some _ _ _ _ _ E3 E4)) as E.
    rewrite <- !app_assoc in E. exact E.
  - rewrite (kd_regs _ _ _ _ _ D4); [done|lia].
  - rewrite length_app in Hfuel. cbn [length] in Hfuel. lia.
Qed.

Lemma run_planes_kernel r ns pools ns' pools' code rows sc fp stk top s e fuel :
  wf_nodes ns -> ConstPool.wf pools -> clean ns r -> denA ns r e -> is_leaf (kind (node ns r)) = false ->
  compile_expression (Some r) 64 ns pools = (ns', pools', Kernel code) ->
  kernel_ready ns' r rows sc fp stk top s -> (length code <= fuel)%nat ->
  exists s', run code fuel 0 s = Done s' /\ get_int 0 s' = Some 0 /\
    (forall b, (b < 64)%nat -> mem s' !! (sc, Z.of_nat b) = Some (Int (PA rows e b))) /\
    kernel_done sc stk top s s'.
Proof.
  intros Hwf Hp Hcl He Hleaf Hcomp Hready Hfuel.
  pose proof (or_introl (ex_intro _ e He) : (exists e, denA ns r e) \/ (exists e, denB ns r e)) as Hd.
  destruct (compile_expression_ready r ns pools ns' pools' code Hwf Hp (clean_graph _ _ Hcl Hd) (den_lt _ _ Hd) Hcomp)
    as (all & ini & body & c & Hlay & Hr & _ & Hall & Hk & Heq & Hden & Hclo & HA & _ & Hi & Hb & ->).
  assert (skip_jit (node ns' r) = false) as Hskip by (eapply clean_root; [done | by eapply den_lt | done]).
  destruct (exec_kernel_main ns' all r rows sc fp stk top s ini body c Hready Hlay Hall Heq Hden Hclo Hi Hb)
    as (s1 & s2 & E2 & I2 & K2 & _ & G20 & C1).
  assert (is_leaf (kind (node ns' r)) = false) as Hleaf'.
  { clear -He HA Hleaf. pose proof (HA _ _ He) as He'. inversion He; inversion He'; simplify_eq;
    repeat match goal with H : ?l !! r = Some _ |- _ => apply list_lookup_total_correct in H; rewrite ?H in * end;
    congruence. }
  destruct (exec_final_planes ns' all r rows sc c Hlay s2 s1 e I2 G20 C1 Hr Hskip (HA _ _ He) Hleaf')
    as (s3 & E3 & W3 & F3 & V3 & P3).
  assert (in_kernel sc stk top s s3) as K3.
  { eapply (in_kernel_step _ _ _ _ _ _ _ _ Hready); [exact K2 | exact F3 | | exact W3].
    intros q. rewrite !elem_of_cons, elem_of_nil. lia. }
  destruct (exec_kernel_exit ns' r rows sc fp stk top s Hready s3 K3) as (s4 & E4 & M4 & V4 & D4).
  exists s4. split_and!; [|unfold get_int; rewrite V4; exact V3| rewrite M4; done |done].
  destruct (kr_regs _ _ _ _ _ _ _ _ Hready 30) as [ra Hra]; [lia|].
  eapply (run_exec_ret _ 30 s s4 ra).
  - pose proof (exec_app_Some _ _ _ _ _ E2 (exec_app_Some _ _ _ _ _ E3 E4)) as E.
    rewrite <- !app_assoc in E. exact E.
  - rewrite (kd_regs _ _ _ _ _ D4); [done|lia].
  - rewrite length_app in Hfuel. cbn [length] in Hfuel. lia.
Qed.

(** A kernel whose root is left to the caller: the masks of the conditions are
    in their slots. *)
Lemma run_skipped_kernel r ns pools ns' pools' code rows sc fp stk top s fuel :
  wf_nodes ns -> ConstPool.wf pools -> kernel_graph ns r -> (r < length ns)%nat -> skip_jit (node ns r) = true ->
  compile_expression (Some r) 64 ns pools = (ns', pools', Kernel code) ->
  kernel_ready ns' r rows sc fp stk top s -> (length code <= fuel)%nat ->
  exists s', run code fuel 0 s = Done s' /\ get_int 0 s' = Some 0 /\
    (forall i e, reach ns r i -> denB ns i e -> skip_jit (node ns i) = false ->
      mem s' !! (sc, slot_id (node ns' i)) = Some (Int (MB rows e))) /\
    kernel_done sc stk top s s'.
Proof.
  intros Hwf Hp Hg Hr Hsk Hcomp Hready Hfuel.
  destruct (compile_expression_ready r ns pools ns' pools' code Hwf Hp Hg Hr Hcomp)
    as (all & ini & body & c & Hlay & Hra & Hin & Hall & Hk & Heq & Hden & Hclo & _ & HB & Hi & Hb & ->).
  destruct (exec_kernel_main ns' all r rows sc fp stk top s ini body c Hready Hlay Hall Heq Hden Hclo Hi Hb)
    as (s1 & s2 & E2 & I2 & K2 & _ & G20 & _).
  set (s3 := set 0 (Int (wrap64 0)) s2).
  assert (exec (final_code (node ns' r)) s2 = Some s3) as E3.
  { unfold final_code. destruct (Hk r) as (_ & -> & _). rewrite Hsk. done. }
  assert (in_kernel sc stk top s s3) as K3.
  { assert (frame [0%nat] s2 s3) as F3 by (subst s3; solve_frame).
    eapply (in_kernel_step _ _ _ _ _ _ _ _ Hready); [exact K2 | exact F3 | |
      apply (writes_eq sc (fun _ => False)); subst s3; by rewrite mem_set].
    intros q. rewrite !elem_of_cons, elem_of_nil. lia. }
  destruct (exec_kernel_exit ns' r rows sc fp stk top s Hready s3 K3) as (s4 & E4 & M4 & V4 & D4).
  exists s4. split_and!; [|unfold get_int; rewrite V4; subst s3; by rewrite get_set_eq | | done].
  - destruct (kr_regs _ _ _ _ _ _ _ _ Hready 30) as [ra Hra']; [lia|].
    eapply (run_exec_ret _ 30 s s4 ra).
    + pose proof (exec_app_Some _ _ _ _ _ E2 (exec_app_Some _ _ _ _ _ E3 E4)) as E.
      rewrite <- !app_assoc in E. exact E.
    + rewrite (kd_regs _ _ _ _ _ D4); [done|lia].
    + rewrite length_app in Hfuel. cbn [length] in Hfuel. lia.
  - intros i e Hri He Hs. rewrite M4. subst s3. rewrite mem_set.
    apply (bi_B _ _ _ _ _ _ _ _ I2 i e); [|by apply HB]. apply live_all_intro; [by apply Hin|].
    unfold live. destruct (Hk i) as (_ & -> & _). by rewrite Hs.
Qed.
