(* ===== verification/ExprProps.v ===== *)
(** * Properties of the bit-sliced compiler

    The theorems about compile_expression (src/jit/compiler.cpp), with concrete
    graphs and machines on which they are applied. *)

From S2P Require Import Prelude Planes IR A64 Circuits Analyzer ExprCompiler A64Mem ExprBits ExprCorrect.
From S2P Require Import ExprKernel.

(** ** A concrete caller

    Object 1 is the scratch memory, 2 the array of plane pointers, 3 the planes
    of up to 16 fields one after the other, 4 the stack. *)

Definition demo_planes (fields : list string) (rows : nat -> string -> Z) (i : nat) : Z :=
  plane_of (fun q => rows q (default "" (fields !! (i / 64)%nat))) (i mod 64).

Definition demo_pointers : gmap (nat * Z) val :=
  list_to_map ((fun k => ((2%nat, Z.of_nat k), Ptr 3 (8 * (64 * Z.of_nat k)))) <$> seq 0 16).

(** [content] is what object 3 holds. *)
Definition demo_mem (content : nat -> Z) : gmap (nat * Z) val :=
  list_to_map (object 1 (Z.to_nat 32768) (fun _ => 0)) ∪
  (demo_pointers ∪ (list_to_map (object 3 1024 content) ∪ list_to_map (object 4 16 (fun _ => 0)))).

Definition demo_rf : gmap nat val :=
  list_to_map ([(0, Ptr 2 0); (1, Ptr 1 0); (32, Ptr 4 (8 * 16))]%nat ++ ((fun q => (q, Int 7)) <$> seq 18 13)).

Lemma demo_rf_some q : (19 <= q <= 30)%nat -> is_Some (demo_rf !! q).
Proof.
  intros Hq. assert (forallb (fun q => bool_decide (is_Some (demo_rf !! q))) (seq 19 12) = true) as Hb by (by vm_compute).
  rewrite forallb_forall in Hb. eapply bool_decide_eq_true. apply Hb, in_seq. lia.
Qed.

Definition demo_caller (content : nat -> Z) : state :=
  {| rf := demo_rf; flagZ := false; flagC := false; v0 := 0; mem := demo_mem content |}.

Definition demo_call (fields : list string) (rows : nat -> string -> Z) : state :=
  demo_caller (demo_planes fields rows).

Lemma object_other b n f o k :
  o <> b -> (list_to_map (object b n f) : gmap (nat * Z) val) !! (o, k) = None.
Proof.
  intros Hne. apply not_elem_of_list_to_map_1. unfold object. rewrite <- list_fmap_compose.
  intros (i & Hi & _)%list_elem_of_fmap. cbn in Hi. congruence.
Qed.

Lemma demo_pointers_other o k : o <> 2%nat -> demo_pointers !! (o, k) = None.
Proof.
  intros Hne. apply not_elem_of_list_to_map_1. rewrite <- list_fmap_compose.
  intros (i & Hi & _)%list_elem_of_fmap. cbn in Hi. congruence.
Qed.

Lemma demo_pointers_lookup k : (k < 16)%nat -> demo_pointers !! (2%nat, Z.of_nat k) = Some (Ptr 3 (8 * (64 * Z.of_nat k))).
Proof.
  intros Hk. apply elem_of_list_to_map_1.
  - rewrite <- list_fmap_compose. apply NoDup_fmap; [|apply NoDup_seq].
    intros x y Hxy. cbn in Hxy. injection Hxy. lia.
  - apply list_elem_of_fmap. exists k. split; [done|]. apply elem_of_seq. lia.
Qed.

Lemma union_r {A} (m1 m2 : gmap (nat * Z) A) c : m1 !! c = None -> (m1 ∪ m2) !! c = m2 !! c.
Proof. apply lookup_union_r. Qed.
Lemma union_l {A} (m1 m2 : gmap (nat * Z) A) c v : m1 !! c = Some v -> (m1 ∪ m2) !! c = Some v.
Proof. apply lookup_union_Some_l. Qed.

(** The memory of the demo caller. *)
Lemma demo_mem_cells content :
  (forall k, 0 <= k < 32768 -> is_Some (demo_mem content !! (1%nat, k))) /\
  (forall k, 0 <= k < 16 -> is_Some (demo_mem content !! (4%nat, k))) /\
  (forall k, (k < 16)%nat -> demo_mem content !! (2%nat, Z.of_nat k) = Some (Ptr 3 (8 * (64 * Z.of_nat k)))) /\
  (forall k b, (k < 16)%nat -> (b < 64)%nat ->
     demo_mem content !! (3%nat, 64 * Z.of_nat k + Z.of_nat b) = Some (Int (content (k * 64 + b)%nat))).
Proof.
  unfold demo_mem. split_and!.
  - intros k Hk. exists (Int 0). apply union_l.
    rewrite <- (Z2Nat.id k) by lia. apply (object_lookup 1 (Z.to_nat 32768) (fun _ => 0)). lia.
  - intros k Hk. exists (Int 0).
    rewrite union_r by (by apply object_other). rewrite union_r by (by apply demo_pointers_other).
    rewrite union_r by (by apply object_other).
    rewrite <- (Z2Nat.id k) by lia. apply (object_lookup 4 _ (fun _ => 0)). lia.
  - intros k Hk. rewrite union_r by (by apply object_other). apply union_l. by apply demo_pointers_lookup.
  - intros k b Hk Hb. rewrite union_r by (by apply object_other). rewrite union_r by (by apply demo_pointers_other).
    apply union_l. replace (64 * Z.of_nat k + Z.of_nat b) with (Z.of_nat (k * 64 + b)) by lia.
    by rewrite (object_lookup 3) by lia.
Qed.

(** The demo caller meets the kernel's entry contract. *)
Lemma demo_ready ns r fields rows :
  (forall q f, u64 (rows q f)) -> (length fields <= 16)%nat ->
  (forall j : nat, reach ns r j -> kind (node ns j) = K_LOAD ->
     exists k, fields !! k = Some (field_name (node ns j)) /\ field_idx (node ns j) = Z.of_nat k) ->
  kernel_ready ns r rows 1 2 4 16 (demo_call fields rows).
Proof.
  intros Hrows Hlen Hf. destruct (demo_mem_cells (demo_planes fields rows)) as (C1 & C4 & C2 & C3).
  split; [reflexivity | reflexivity | reflexivity | lia | | discriminate | discriminate | discriminate | | | done |].
  - intros q Hq. unfold get. rewrite decide_False by lia. by apply demo_rf_some.
  - exact C1.
  - intros k Hk. apply C4. lia.
  - intros j Hj Hk. destruct (Hf j Hj Hk) as (k & Hn & ->).
    assert (k < 16)%nat as Hk16 by (apply lookup_lt_Some in Hn; lia).
    exists 3%nat, (64 * Z.of_nat k).
    split; [by apply C2|split; [unfold small; lia|split; [discriminate|split; [discriminate|]]]].
    intros b Hb. cbn [mem demo_call demo_caller]. rewrite C3 by done. do 2 f_equal. unfold demo_planes.
    replace ((k * 64 + b) / 64)%nat with k by (rewrite Nat.div_add_l, Nat.div_small by lia; lia).
    replace ((k * 64 + b) mod 64)%nat with b by (rewrite Nat.add_comm, Nat.Div0.mod_add, Nat.mod_small by lia; lia).
    by rewrite Hn.
Qed.

(** Reachable nodes of a well-founded graph are below the root. *)
Lemma reach_fields ns r (fields : list string) :
  wf_nodesb ns = true ->
  all_nodesb (fun _ n => bool_decide (kind n = K_LOAD -> 0 <= field_idx n /\
    fields !! Z.to_nat (field_idx n) = Some (field_name n))) ns = true ->
  (r < length ns)%nat ->
  forall j : nat, reach ns r j -> kind (node ns j) = K_LOAD ->
    exists k, fields !! k = Some (field_name (node ns j)) /\ field_idx (node ns j) = Z.of_nat k.
Proof.
  intros Hwf Hall Hr j Hj Hk. apply wf_nodesb_spec in Hwf. pose proof (reach_le ns r j Hwf Hj) as Hle.
  destruct (lookup_lt_is_Some_2 ns j) as [n Hn]; [lia|].
  pose proof (all_nodesb_spec _ _ _ _ Hall Hn) as Hb. cbv beta in Hb. apply bool_decide_eq_true in Hb.
  rewrite (list_lookup_total_correct _ _ _ Hn) in *. destruct (Hb Hk) as [H0 Hf].
  exists (Z.to_nat (field_idx n)). split; [done|lia].
Qed.

Definition cleanb : list Node -> bool :=
  all_nodesb (fun _ n => negb (skip_jit n) && (is_cmp (kind n) || (eq_slot_id n <? 0))).

Lemma cleanb_spec ns r : cleanb ns = true -> clean ns r.
Proof.
  intros H j n _ Hn. pose proof (all_nodesb_spec _ _ _ _ H Hn) as Hb. cbv beta in Hb.
  apply andb_prop in Hb as [H1 H2]. apply negb_true_iff in H1. split; [done|].
  intros Hc. rewrite Hc in H2. by apply Z.ltb_lt in H2.
Qed.

Definition kernel_of (k : compiled) : list instr := match k with Kernel code => code | _ => [] end.
Definition is_kernel (k : compiled) : bool := match k with Kernel _ => true | _ => false end.

Lemma is_kernel_of k : is_kernel k = true -> k = Kernel (kernel_of k).
Proof. by destruct k. Qed.

(** ** Properties *)

(** C5: the kernel compiled from a graph that denotes a boolean expression
    without subtraction, called on planes that hold 64 rows, terminates without
    a fault and returns in [x0] the mask whose bit [q] is the expression's value
    on row [q]; callee-saved registers and the stack pointer are restored, and
    memory outside the scratch memory and the kernel's stack frame is unchanged.
    One step of fuel per instruction is enough. *)
Theorem compile_expression_mask r ns pools ns' pools' code rows sc fp stk top s e fuel :
  wf_nodes ns -> ConstPool.wf pools -> clean ns r -> denB ns r e -> no_subB e = true ->
  compile_expression (Some r) 64 ns pools = (ns', pools', Kernel code) ->
  kernel_ready ns' r rows sc fp stk top s -> (length code <= fuel)%nat ->
  exists s', run code fuel 0 s = Done s' /\
    get_int 0 s' = Some (mask64 (fun q => beval (rows q) e)) /\ kernel_done sc stk top s s'.
Proof.
  intros Hwf Hp Hcl He Hns Hcomp Hr Hf.
  destruct (run_mask_kernel r ns pools ns' pools' code rows sc fp stk top s e fuel) as (s' & E & V & D); try done.
  exists s'. split_and!; [done| |done]. rewrite V. unfold MB. f_equal. apply mask64_ext. intros q _.
  by apply lane_no_sub.
Qed.

(** Rows of the example: price 99 + q, quantity 5 + q. *)
Definition demo_rows (q : nat) (f : string) : Z :=
  wrap64 (if bool_decide (f = "price") then 99 + Z.of_nat q else 5 + Z.of_nat q).

Lemma demo_rows_u64 q f : u64 (demo_rows q f).
Proof. apply wrap64_u64. Qed.

Definition demo_out : list Node * ConstPool.t * compiled := compile_expression (Some 7%nat) 64 demo_nodes ∅.

Lemma pools_empty_wf : ConstPool.wf ∅.
Proof. intros c planes H. by rewrite lookup_empty in H. Qed.

Lemma out_eq r ns :
  is_kernel (compile_expression (Some r) 64 ns ∅).2 = true ->
  compile_expression (Some r) 64 ns ∅ =
    ((compile_expression (Some r) 64 ns ∅).1.1, (compile_expression (Some r) 64 ns ∅).1.2,
     Kernel (kernel_of (compile_expression (Some r) 64 ns ∅).2)).
Proof. destruct (compile_expression (Some r) 64 ns ∅) as [[ns' p] k]. cbn. by intros <-%is_kernel_of. Qed.

Lemma demo_out_ready : kernel_ready demo_out.1.1 7 demo_rows 1 2 4 16 (demo_call ["price"; "qty"] demo_rows).
Proof.
  apply demo_ready; [apply demo_rows_u64 | simpl; lia |].
  apply reach_fields; [by vm_compute | by vm_compute | apply Nat.ltb_lt; by vm_compute].
Qed.

Lemma compile_expression_mask_witness :
  exists s', run (kernel_of demo_out.2) 1039 0 (demo_call ["price"; "qty"] demo_rows) = Done s' /\
    get_int 0 s' = Some (mask64 (fun q => beval (demo_rows q) demo_bexp)) /\
    kernel_done 1 4 16 (demo_call ["price"; "qty"] demo_rows) s'.
Proof.
  apply (compile_expression_mask 7 demo_nodes ∅ demo_out.1.1 demo_out.1.2 (kernel_of demo_out.2) demo_rows 1 2 4 16).
  - apply wf_nodesb_spec. by vm_compute.
  - apply pools_empty_wf.
  - apply cleanb_spec. by vm_compute.
  - apply demo_den.
  - reflexivity.
  - apply out_eq. by vm_compute.
  - apply demo_out_ready.
  - apply Nat.leb_le. by vm_compute.
Defined.

(** [price + qty] and [price - qty = 0]. *)
Definition add_nodes : list Node :=
  let '(g, a) := Load true "price" None in
  let '(g, b) := Load true "qty" g in
  let '(g, _) := Add true a b g in pool_of g.

Definition sub_nodes : list Node :=
  let '(g, a) := Load true "price" None in
  let '(g, b) := Load true "qty" g in
  let '(g, d) := Sub true a b g in
  let '(g, z) := Const true 0 g in
  let '(g, _) := EQ true d z g in pool_of g.

Lemma add_den : denA add_nodes 2 (AAdd (ALoad "price") (ALoad "qty")).
Proof.
  eapply (denA_add _ _ _ 0 1); [reflexivity.. | |].
  - exact (denA_load add_nodes 0 _ eq_refl eq_refl eq_refl).
  - exact (denA_load add_nodes 1 _ eq_refl eq_refl eq_refl).
Qed.

Definition sub_bexp : bexp := BCmp C_EQ (ASub (ALoad "price") (ALoad "qty")) (AConst 0).

Lemma sub_den : denB sub_nodes 4 sub_bexp.
Proof.
  eapply (denB_cmp _ C_EQ _ _ 2 3); [reflexivity.. | |].
  - eapply (denA_sub _ _ _ 0 1); [reflexivity.. | |].
    + exact (denA_load sub_nodes 0 _ eq_refl eq_refl eq_refl).
    + exact (denA_load sub_nodes 1 _ eq_refl eq_refl eq_refl).
  - exact (denA_const sub_nodes 3 _ eq_refl eq_refl eq_refl).
Qed.

Definition add_out := compile_expression (Some 2%nat) 64 add_nodes ∅.
Definition sub_out := compile_expression (Some 4%nat) 64 sub_nodes ∅.

(** Rows whose two fields are equal. *)
Definition equal_rows (q : nat) (f : string) : Z := 1000.

Lemma equal_rows_u64 q f : u64 (equal_rows q f).
Proof. unfold u64, equal_rows. lia. Qed.

Lemma add_out_ready : kernel_ready add_out.1.1 2 demo_rows 1 2 4 16 (demo_call ["price"; "qty"] demo_rows).
Proof.
  apply demo_ready; [apply demo_rows_u64 | simpl; lia |].
  apply reach_fields; [by vm_compute | by vm_compute | apply Nat.ltb_lt; by vm_compute].
Qed.

Lemma sub_out_ready : kernel_ready sub_out.1.1 4 equal_rows 1 2 4 16 (demo_call ["price"; "qty"] equal_rows).
Proof.
  apply demo_ready; [apply equal_rows_u64 | simpl; lia |].
  apply reach_fields; [by vm_compute | by vm_compute | apply Nat.ltb_lt; by vm_compute].
Qed.

(** C8: the kernel compiled from a graph that denotes an arithmetic expression
    without subtraction (other than a single load or constant) leaves, at slots
    0 to 63 of the scratch memory, the planes of the expression's value modulo
    2^64 on the 64 rows, and returns 0. *)
Theorem compile_expression_planes r ns pools ns' pools' code rows sc fp stk top s e fuel :
  wf_nodes ns -> ConstPool.wf pools -> clean ns r -> denA ns r e -> no_subA e = true ->
  is_leaf (kind (ns !!! r)) = false ->
  compile_expression (Some r) 64 ns pools = (ns', pools', Kernel code) ->
  kernel_ready ns' r rows sc fp stk top s -> (length code <= fuel)%nat ->
  exists s', run code fuel 0 s = Done s' /\ get_int 0 s' = Some 0 /\
    (forall b, (b < 64)%nat ->
       mem s' !! (sc, Z.of_nat b) = Some (Int (plane_of (fun q => aeval (rows q) e) b))) /\
    kernel_done sc stk top s s'.
Proof.
  intros Hwf Hp Hcl He Hns Hl Hcomp Hr Hf.
  destruct (run_planes_kernel r ns pools ns' pools' code rows sc fp stk top s e fuel) as (s' & E & V & P & D); try done.
  exists s'. split_and!; try done. intros b Hb. rewrite P by done. do 2 f_equal. apply mask64_ext. intros q _.
  f_equal. by apply lane_no_sub.
Qed.

Lemma compile_expression_planes_witness :
  exists s', run (kernel_of add_out.2) 2000 0 (demo_call ["price"; "qty"] demo_rows) = Done s' /\
    get_int 0 s' = Some 0 /\
    (forall b, (b < 64)%nat -> mem s' !! (1%nat, Z.of_nat b) =
       Some (Int (plane_of (fun q => aeval (demo_rows q) (AAdd (ALoad "price") (ALoad "qty"))) b))) /\
    kernel_done 1 4 16 (demo_call ["price"; "qty"] demo_rows) s'.
Proof.
  apply (compile_expression_planes 2 add_nodes ∅ add_out.1.1 add_out.1.2 (kernel_of add_out.2) demo_rows 1 2 4 16).
  - apply wf_nodesb_spec. by vm_compute.
  - apply pools_empty_wf.
  - apply cleanb_spec. by vm_compute.
  - apply add_den.
  - reflexivity.
  - reflexivity.
  - apply out_eq. by vm_compute.
  - apply add_out_ready.
  - apply Nat.leb_le. by vm_compute.
Defined.

(** C25: with subtractions, the kernel gives row [q] the value [laneB q]: lane 0
    has the expression's value, and in every other lane each difference is one
    too small, because the carry mask of a subtraction starts at the number 1
    (the carry into lane 0) and not at all ones. *)
Theorem compile_expression_lanes r ns pools ns' pools' code rows sc fp stk top s e fuel :
  wf_nodes ns -> ConstPool.wf pools -> clean ns r -> denB ns r e ->
  compile_expression (Some r) 64 ns pools = (ns', pools', Kernel code) ->
  kernel_ready ns' r rows sc fp stk top s -> (length code <= fuel)%nat ->
  exists s' m, run code fuel 0 s = Done s' /\ get_int 0 s' = Some m /\
    Z.testbit m 0 = beval (rows 0%nat) e /\
    (forall q, (q < 64)%nat -> Z.testbit m (Z.of_nat q) = laneB q (rows q) e) /\
    kernel_done sc stk top s s'.
Proof.
  intros Hwf Hp Hcl He Hcomp Hr Hf.
  destruct (run_mask_kernel r ns pools ns' pools' code rows sc fp stk top s e fuel) as (s' & E & V & D); try done.
  exists s', (MB rows e). split_and!; try done.
  - change 0 with (Z.of_nat 0). unfold MB. rewrite mask64_bit by lia. apply (lane0 (rows 0%nat)).
  - intros q Hq. unfold MB. by rewrite mask64_bit.
Qed.

Lemma compile_expression_lanes_witness :
  exists s' m, run (kernel_of sub_out.2) 3000 0 (demo_call ["price"; "qty"] equal_rows) = Done s' /\
    get_int 0 s' = Some m /\ Z.testbit m 0 = beval (equal_rows 0%nat) sub_bexp /\
    (forall q, (q < 64)%nat -> Z.testbit m (Z.of_nat q) = laneB q (equal_rows q) sub_bexp) /\
    kernel_done 1 4 16 (demo_call ["price"; "qty"] equal_rows) s'.
Proof.
  apply (compile_expression_lanes 4 sub_nodes ∅ sub_out.1.1 sub_out.1.2 (kernel_of sub_out.2) equal_rows 1 2 4 16).
  - apply wf_nodesb_spec. by vm_compute.
  - apply pools_empty_wf.
  - apply cleanb_spec. by vm_compute.
  - apply sub_den.
  - apply out_eq. by vm_compute.
  - apply sub_out_ready.
  - apply Nat.leb_le. by vm_compute.
Defined.

(** C26: the kernel of [price - qty = 0], run on 64 rows whose prices equal their
    quantities, selects row 0 only, where the expression selects all 64. *)
Theorem subtraction_wrong :
  exists s', run (kernel_of sub_out.2) 3000 0 (demo_call ["price"; "qty"] equal_rows) = Done s' /\
    get_int 0 s' = Some 1 /\ mask64 (fun q => beval (equal_rows q) sub_bexp) = ones64.
Proof.
  destruct (run_mask_kernel 4 sub_nodes ∅ sub_out.1.1 sub_out.1.2 (kernel_of sub_out.2) equal_rows 1 2 4 16
    (demo_call ["price"; "qty"] equal_rows) sub_bexp 3000) as (s' & E & V & _).
  - apply wf_nodesb_spec. by vm_compute.
  - apply pools_empty_wf.
  - apply cleanb_spec. by vm_compute.
  - apply sub_den.
  - apply out_eq. by vm_compute.
  - apply sub_out_ready.
  - apply Nat.leb_le. by vm_compute.
  - exists s'. split_and!; [done | |].
    + rewrite V. rewrite <- mask64_lane0. apply (f_equal Some), mask64_ext. intros [|q] _; reflexivity.
    + symmetry. apply mask64_true.
Qed.

(** C22: in the pool annotated by a successful compilation, every reachable
    node's scratch slots lie in the scratch memory, blocks of 64 aligned to 64,
    and no slot belongs to two nodes; two loads have the same field index, below
    128, exactly when they load the same field. *)
Theorem compile_expression_allocation r ns pools ns' pools' code :
  wf_nodes ns -> (r < length ns)%nat -> ConstPool.wf pools ->
  compile_expression (Some r) 64 ns pools = (ns', pools', Kernel code) ->
  (forall i : nat, reach ns r i -> slots_ok (ns' !!! i)) /\
  (forall (i j : nat) k, reach ns r i -> reach ns r j -> i <> j ->
     owned (ns' !!! i) k -> ~ owned (ns' !!! j) k) /\
  (forall i j : nat, reach ns r i -> reach ns r j -> kind (ns' !!! i) = K_LOAD -> kind (ns' !!! j) = K_LOAD ->
     0 <= field_idx (ns' !!! i) < 128 /\
     (field_idx (ns' !!! i) = field_idx (ns' !!! j) <-> field_name (ns' !!! i) = field_name (ns' !!! j))).
Proof.
  intros Hwf Hr Hp Hc.
  destruct (compile_expression_layout r 64 ns pools ns' pools' code Hwf Hr Hp Hc)
    as (all & ini & body & c & L & Hall & _).
  split_and!.
  - intros i Hi. apply (ly_slots _ _ L). by apply Hall.
  - intros i j k Hi Hj. apply (ly_disj _ _ L); by apply Hall.
  - intros i j Hi Hj Hki Hkj. split; [apply (ly_idx _ _ L) | apply (ly_inj _ _ L)]; try done; by apply Hall.
Qed.

Lemma compile_expression_allocation_witness :
  let ns' := demo_out.1.1 in
  (forall i : nat, reach demo_nodes 7 i -> slots_ok (ns' !!! i)) /\
  (forall (i j : nat) k, reach demo_nodes 7 i -> reach demo_nodes 7 j -> i <> j ->
     owned (ns' !!! i) k -> ~ owned (ns' !!! j) k) /\
  (forall i j : nat, reach demo_nodes 7 i -> reach demo_nodes 7 j ->
     kind (ns' !!! i) = K_LOAD -> kind (ns' !!! j) = K_LOAD ->
     0 <= field_idx (ns' !!! i) < 128 /\
     (field_idx (ns' !!! i) = field_idx (ns' !!! j) <-> field_name (ns' !!! i) = field_name (ns' !!! j))).
Proof.
  apply (compile_expression_allocation 7 demo_nodes ∅ demo_out.1.1 demo_out.1.2 (kernel_of demo_out.2)).
  - apply wf_nodesb_spec. by vm_compute.
  - apply Nat.ltb_lt. by vm_compute.
  - apply pools_empty_wf.
  - apply out_eq. by vm_compute.
Defined.

(** A chain of [n] additions [price + price + ...], as the builders make it. *)
Fixpoint chain (n : nat) (g : option NodePool * ptr) : option NodePool * ptr :=
  match n with
  | O => g
  | S n => let '(g, p) := chain n g in Add true p (Some 0%nat) g
  end.
Definition chain_nodes (n : nat) : list Node := pool_of (chain n (Load true "price" None)).1.

(** A graph of six additions compiles to a kernel; with a seventh, the node
    has no carry register and compilation reads [carry_regs[-1]], which is
    undefined. *)
Theorem seventh_addition_undefined :
  is_kernel (compile_expression (Some 6%nat) 64 (chain_nodes 6) ∅).2 = true /\
  (compile_expression (Some 7%nat) 64 (chain_nodes 7) ∅).2 = Undefined.
Proof. split; by vm_compute. Qed.

(** A caller without fields, with the first 1024 words of the scratch memory. *)
Definition bare_call : state :=
  {| rf := demo_rf; flagZ := false; flagC := false; v0 := 0;
     mem := list_to_map (object 1 1024 (fun _ => 0) ++ object 4 16 (fun _ => 0)) |}.

(** The kernel compiled from a bare load reads its result from slot -1, before
    the scratch memory: the access faults. *)
Theorem load_root_faults :
  exists code, (compile_expression (Some 0%nat) 64 (chain_nodes 0) ∅).2 = Kernel code /\
    run code 3000 0 bare_call = Fault.
Proof.
  exists (kernel_of (compile_expression (Some 0%nat) 64 (chain_nodes 0) ∅).2).
  split; [apply is_kernel_of|]; by vm_compute.
Qed.
