(* ===== verification/ExprTotal.v ===== *)
(** * The compiler produces a kernel
      (compile_expression of src/jit/compiler.cpp, success)

    compile_expression gives up when it meets more than 128 distinct fields or
    runs out of scratch slots, and is undefined when an addition or subtraction
    gets no carry register.  Within the bounds below none of these happens. *)

From S2P Require Import Prelude Planes IR A64 Circuits Analyzer ExprCompiler A64Mem ExprBits ExprCorrect.
From S2P Require Import ExprKernel ExprProps.

(** ** Fields *)

Lemma assign_field_total st i :
  fp_ok st = true -> (size (fp_idx st) < 128)%nat ->
  fp_ok (assign_field st i) = true /\ (size (fp_idx (assign_field st i)) <= S (size (fp_idx st)))%nat.
Proof.
  intros Hok Hsz. unfold assign_field. rewrite Hok. cbn [negb].
  case_decide; [|split; [done|lia]].
  destruct (fp_idx st !! field_name (fp_nodes st !!! i)) eqn:E; cbn [fp_ok fp_idx]; [split; [done|lia]|].
  destruct (Nat.leb_spec 128 (size (fp_idx st))); [lia|]. cbn [fp_ok fp_idx]. split; [done|].
  rewrite map_size_insert_None by done. lia.
Qed.

Lemma assign_fields_total arith ns :
  (length arith <= 128)%nat ->
  fp_ok (assign_fields arith ns) = true /\ (size (fp_idx (assign_fields arith ns)) <= length arith)%nat.
Proof.
  unfold assign_fields. induction arith as [|i l IH] using rev_ind; intros Hl.
  - split; [done|]. cbn. rewrite map_size_empty. lia.
  - rewrite length_app in *. cbn [length] in *. rewrite foldl_app. cbn [foldl].
    destruct IH as [H1 H2]; [lia|]. destruct (assign_field_total _ i H1) as [H3 H4]; [lia|]. split; [done|lia].
Qed.

(** ** Slots: a free group of 64 *)

(** The groups of 64 slots in [G] cover the used slots. *)
Definition covers (G : list nat) (u : list bool) : Prop :=
  forall k, u !! k = Some true -> (k / 64)%nat ∈ G.

Lemma free_group (G : list nat) n : (length G < n)%nat -> exists g, (g < n)%nat /\ g ∉ G.
Proof.
  intros Hl. destruct (decide (Forall (fun g => g ∈ G) (seq 0 n))) as [Hall|Hex].
  - exfalso. assert (n <= length G)%nat; [|lia].
    rewrite <- (length_seq n 0). apply submseteq_length, NoDup_submseteq; [apply NoDup_seq|].
    by apply Forall_forall.
  - apply not_Forall_Exists, Exists_exists in Hex as (g & Hg & Hn); [|intros ?; apply _].
    exists g. split; [|done]. apply elem_of_seq in Hg. lia.
Qed.

Lemma group_free G u g :
  covers G u -> g ∉ G -> (64 * g + 64 <= length u)%nat ->
  forall j, (j < 64)%nat -> u !! (64 * g + j)%nat = Some false.
Proof.
  intros Hc Hg Hl j Hj. destruct (lookup_lt_is_Some_2 u (64 * g + j)) as [[] Hb]; [lia| |done].
  apply Hc in Hb. rewrite Nat.mul_comm, Nat.div_add_l, Nat.div_small, Nat.add_0_r in Hb by lia. done.
Qed.

Lemma first_clear_some u k : u !! k = Some false -> is_Some (ScratchpadManager.first_clear u).
Proof.
  revert k. induction u as [|b u IH]; intros k Hk; [done|]. cbn. destruct b; [|done].
  destruct k as [|k]; [done|]. destruct (IH k Hk) as [i ->]. done.
Qed.

Section Room.
Variables (G : list nat) (u : list bool).
Hypothesis Hlen : length u = ScratchpadManager.MAX_SLOTS.
Hypothesis Hcov : covers G u.
Hypothesis Hroom : (length G < 512)%nat.

Lemma alloc_slot_total :
  exists g, 0 <= (ScratchpadManager.alloc_slot u).2 /\ covers (g :: G) (ScratchpadManager.alloc_slot u).1.
Proof.
  destruct (free_group G 512 Hroom) as (g & Hg & HnG).
  assert (u !! (64 * g + 0)%nat = Some false) as Hf.
  { apply (group_free G u g Hcov HnG); [rewrite Hlen, MAX_SLOTS_eq|]; lia. }
  destruct (first_clear_some u _ Hf) as [i Hi]. unfold ScratchpadManager.alloc_slot. rewrite Hi. cbn [fst snd].
  exists (i / 64)%nat. split; [lia|]. intros k Hk. destruct (decide (k = i)) as [->|Hne]; [set_solver|].
  rewrite list_lookup_insert_ne in Hk by done. apply elem_of_cons. right. by apply Hcov.
Qed.

Lemma alloc_block_total :
  exists g, 0 <= (ScratchpadManager.alloc_block u).2 /\ covers (g :: G) (ScratchpadManager.alloc_block u).1.
Proof.
  destruct (free_group G 512 Hroom) as (g & Hg & HnG).
  destruct (ScratchpadManager.alloc_block u) as [u' id] eqn:E. cbn [fst snd].
  assert (0 <= id) as Hid.
  { unfold ScratchpadManager.alloc_block in E.
    remember (steps 0 (ScratchpadManager.MAX_SLOTS - 64 + 1) 64) as st eqn:Est.
    destruct (find _ st) as [i|] eqn:Ef; [injection E as _ <-; lia|]. exfalso.
    assert ((64 * g)%nat ∈ st) as Hin.
    { subst st. apply elem_of_steps; [lia|]. rewrite MAX_SLOTS_eq, Nat.sub_0_r. split; [lia|].
      rewrite Nat.mul_comm. apply Nat.Div0.mod_mul. }
    apply list_elem_of_In in Hin. pose proof (find_none _ _ Ef _ Hin) as Hb.
    unfold ScratchpadManager.block_free in Hb. apply not_true_iff_false in Hb. apply Hb.
    apply forallb_forall. intros j Hj%in_seq.
    rewrite (list_lookup_total_correct _ _ false); [done|].
    apply (group_free G u g Hcov HnG); [rewrite Hlen, MAX_SLOTS_eq|]; lia. }
  destruct (alloc_block_takes u u' id Hlen E Hid) as ((_ & _ & Hrest) & _ & Hm).
  exists (Z.to_nat (id / 64)). split; [done|]. intros k Hk. apply elem_of_cons.
  destruct (decide (id <= Z.of_nat k < id + 64)) as [Hin|Hout].
  - left. apply Nat2Z.inj. rewrite Nat2Z.inj_div, Z2Nat.id by (apply Z.div_pos; lia).
    change (Z.of_nat 64) with 64. pose proof (Z.div_mod id 64 ltac:(lia)). symmetry. apply Z.div_unique with (Z.of_nat k - id); lia.
  - right. apply Hcov. by rewrite <- Hrest.
Qed.

End Room.

Lemma alloc_node_total st i G :
  ap_ok st = true -> length (ap_used st) = ScratchpadManager.MAX_SLOTS ->
  covers G (ap_used st) -> (length G + 1 < 512)%nat ->
  ap_ok (alloc_node st i) = true /\
  exists G', covers G' (ap_used (alloc_node st i)) /\ (length G' <= length G + 2)%nat.
Proof.
  intros Hok Hl Hc Hg. unfold alloc_node. rewrite Hok. cbn [negb].
  set (n := ap_nodes st !!! i). destruct (is_leaf (kind n)); [split; [exact Hok|exists G; split; [exact Hc|lia]]|].
  destruct (if decide (result_kind n = BITPLANE) then _ else _) as [u1 slot] eqn:E1.
  assert (exists g, 0 <= slot /\ covers (g :: G) u1) as (g & Hs & Hc1).
  { destruct (decide (result_kind n = BITPLANE)).
    - destruct (alloc_block_total G _ Hl Hc) as (g & H1 & H2); [lia|]. rewrite E1 in H1, H2. exists g. exact (conj H1 H2).
    - destruct (alloc_slot_total G _ Hl Hc) as (g & H1 & H2); [lia|]. rewrite E1 in H1, H2. exists g. exact (conj H1 H2). }
  assert (length u1 = ScratchpadManager.MAX_SLOTS) as Hl1.
  { pose proof (alloc_first (bool_decide (result_kind n = BITPLANE)) (ap_used st) u1 slot Hl) as H1.
    rewrite bool_decide_decide in H1. destruct H1 as ((HL & _) & _).
    - revert E1. by destruct (decide (result_kind n = BITPLANE)).
    - exact Hs.
    - by rewrite HL. }
  rewrite (proj2 (Z.ltb_ge _ _)) by done.
  destruct (if is_cmp (kind n) then _ else _) as [u2 eq_slot] eqn:E2.
  assert (exists G', is_cmp (kind n) && (eq_slot <? 0) = false /\ covers G' u2 /\ (length G' <= length G + 2)%nat)
    as (G' & He & Hc2 & HG').
  { destruct (is_cmp (kind n)); cbn [andb].
    - destruct (alloc_slot_total (g :: G) _ Hl1 Hc1) as (g' & H1 & H2); [cbn; lia|]. rewrite E2 in H1, H2.
      exists (g' :: g :: G). split_and!; [by apply Z.ltb_ge | exact H2 | cbn; lia].
    - injection E2 as <- <-. exists (g :: G). split_and!; [done | exact Hc1 | cbn; lia]. }
  rewrite He. destruct (is_arith (kind n) && _); cbn [ap_ok ap_used]; (split; [reflexivity|exists G'; exact (conj Hc2 HG')]).
Qed.

(** The number of additions and subtractions on a list. *)
Definition arith_count (ns : list Node) (l : list nat) : nat :=
  length (filter (fun i : nat => is_arith (kind (ns !!! i)) = true) l).

Lemma arith_count_snoc ns l i :
  arith_count ns (l ++ [i]) = (arith_count ns l + (if is_arith (kind (ns !!! i)) then 1 else 0))%nat.
Proof.
  unfold arith_count. rewrite filter_app, length_app. f_equal.
  destruct (is_arith (kind (ns !!! i))) eqn:E.
  - by rewrite filter_cons_True.
  - rewrite filter_cons_False by congruence. done.
Qed.

Lemma slotted_kind n0 n : slotted n0 n -> kind n = kind n0.
Proof. by intros (s & e & c & -> & _). Qed.

Lemma alloc_nodes_total all ns :
  NoDup all -> Forall (fun i => (i < length ns)%nat) all ->
  (length all <= 128)%nat -> (arith_count ns all <= 6)%nat ->
  let st := alloc_nodes all ns in
  ap_ok st = true /\
  (exists G, covers G (ap_used st) /\ (length G <= 2 * length all)%nat) /\
  ap_carry st = Z.of_nat (arith_count ns all) /\
  (forall i, i ∈ all -> is_arith (kind (ns !!! i)) = true -> 0 <= carry_reg (ap_nodes st !!! i) < 6).
Proof.
  induction all as [|i all IH] using rev_ind; intros Hnd Hlt Hlen Hcnt; cbv zeta.
  - split_and!; [done| |done|set_solver]. exists []. split; [|cbn; lia].
    intros k Hk. cbn in Hk. unfold ScratchpadManager.init in Hk. by apply lookup_replicate in Hk as [? _].
  - rewrite length_app in Hlen. cbn [length] in Hlen. rewrite arith_count_snoc in Hcnt |- *.
    apply NoDup_app in Hnd as (Hnd & Hdis & _).
    apply Forall_app in Hlt as [Hlt Hi]. apply Forall_cons in Hi as [Hi _].
    destruct IH as (Hok & (G & HG & HGl) & Hc & Hr); [done|done|lia|lia|].
    pose proof (alloc_nodes_inv all ns Hnd Hlt Hok) as I.
    rewrite alloc_nodes_snoc. set (st := alloc_nodes all ns) in *.
    destruct (alloc_node_total st i G Hok (av_used_len _ _ _ _ I) HG) as (Hok' & G' & HG' & HGl'); [lia|].
    destruct (alloc_node_carry st i Hok') as [Hc' Hr'].
    assert (kind (ap_nodes st !!! i) = kind (ns !!! i)) as Hk by apply slotted_kind, I.
    rewrite Hk, Hc in Hc', Hr'. split_and!; [done| | |].
    + exists G'. split; [done|]. rewrite length_app. cbn [length]. lia.
    + rewrite Hc'. destruct (is_arith (kind (ns !!! i))); cbn [andb].
      * rewrite (proj2 (Z.ltb_lt _ _)) by lia. cbn [Z.b2z]. lia.
      * cbn [Z.b2z]. lia.
    + intros j Hj Hja. apply elem_of_app in Hj as [Hj|Hj].
      * destruct (alloc_node_spec st i (av_used_len _ _ _ _ I) Hok') as (_ & n & En & _).
        rewrite En, list_lookup_total_insert_ne; [by apply Hr|]. intros ->. by apply (Hdis j); [|set_solver].
      * apply list_elem_of_singleton in Hj as ->. rewrite Hja in Hr', Hcnt. cbn [andb] in Hr'.
        assert (Z.of_nat (arith_count ns all) <? 6 = true) as H6 by (apply Z.ltb_lt; lia).
        rewrite Hr'; [lia | done |]. by rewrite (av_len _ _ _ _ I).
Qed.

(** ** Emission *)

Lemma carry_reg_of_some k : 0 <= k < 6 -> is_Some (carry_reg_of k).
Proof.
  intros Hk. unfold carry_reg_of. rewrite (proj2 (Z.leb_le _ _)) by lia.
  apply lookup_lt_is_Some_2. unfold carry_regs. cbn. lia.
Qed.

Lemma emit_node_total ns i c :
  ((exists e, denA ns i e) \/ (exists e, denB ns i e)) ->
  (is_arith (kind (ns !!! i)) = true -> 0 <= carry_reg (ns !!! i) < 6) ->
  is_Some (emit_node ns 64 i c).
Proof.
  intros Hd Hc. unfold emit_node. destruct (skip_jit (ns !!! i)); [done|].
  destruct Hd as [[e He]|[e He]]; inversion He; subst;
    match goal with Hn : ns !! i = Some _, Hk : kind _ = _, Hch : children _ = _ |- _ =>
      rewrite (list_lookup_total_correct _ _ _ Hn) in *; rewrite Hk in *; apply children_fields in Hch as (-> & -> & ->)
    end; cbn [is_arith is_cmp is_logic] in *; try done; try (by destruct op);
    destruct (carry_reg_of_some _ (Hc eq_refl)) as [r ->]; done.
Qed.

Lemma emit_nodes_total ns l :
  (forall i, i ∈ l -> ((exists e, denA ns i e) \/ (exists e, denB ns i e)) /\
     (is_arith (kind (ns !!! i)) = true -> 0 <= carry_reg (ns !!! i) < 6)) ->
  is_Some (emit_nodes ns 64 l).
Proof.
  induction l as [|i l IH] using rev_ind; intros H; [done|]. rewrite emit_nodes_snoc.
  destruct IH as [[code c] ->]; [intros; apply H; set_solver|]. cbn [mbind option_bind].
  destruct (H i) as [Hd Hc]; [set_solver|].
  destruct (emit_node_total ns i c Hd Hc) as [[code' c'] ->]. done.
Qed.

Lemma init_nodes_total ns l :
  (forall i : nat, i ∈ l -> is_arith (kind (ns !!! i)) = true -> 0 <= carry_reg (ns !!! i) < 6) ->
  is_Some (init_nodes ns l).
Proof.
  induction l as [|i l IH] using rev_ind; intros H; [done|]. unfold init_nodes. rewrite foldl_app. cbn [foldl].
  fold (init_nodes ns l). destruct IH as [code ->]; [intros; apply H; set_solver|]. cbn [mbind option_bind].
  unfold init_node. destruct ((0 <=? carry_reg (ns !!! i)) && _) eqn:E; cbn [mbind option_bind]; [|done].
  apply andb_prop in E as [_ Hk%bool_decide_eq_true].
  destruct (carry_reg_of_some (carry_reg (ns !!! i))) as [r ->]; [|done].
  apply H; [set_solver|]. by rewrite Hk.
Qed.

(** ** The result *)

Lemma filter_length_sub (P : nat -> Prop) `{!forall x, Decision (P x)} (l k : list nat) :
  NoDup l -> (forall j, j ∈ l -> j ∈ k) -> (length (filter P l) <= length (filter P k))%nat.
Proof.
  intros Hnd Hs. apply submseteq_length, NoDup_submseteq; [by apply NoDup_filter|].
  intros x. rewrite !list_elem_of_filter. naive_solver.
Qed.

(** After the allocation every node of the analysis denotes something and the
    arithmetic ones have a carry register. *)
Lemma allocation_total r ns pools nsa an nodes :
  wf_nodes ns -> ConstPool.wf pools -> (exists e, denA ns r e) \/ (exists e, denB ns r e) ->
  an_inv ns (nsa, an) -> (forall j, j ∈ all_nodes an <-> reach ns r j) ->
  (forall j, j ∈ all_nodes an -> j ∈ nodes) -> (length (all_nodes an) <= 128)%nat -> (arith_count ns nodes <= 6)%nat ->
  let fp := assign_fields (arithmetic_nodes an) nsa in
  let ap := alloc_nodes (all_nodes an) (assign_consts (arithmetic_nodes an) (fp_nodes fp) pools).1 in
  fp_ok fp = true -> ap_ok ap = true /\
  forall i, i ∈ all_nodes an ->
    ((exists e, denA (ap_nodes ap) i e) \/ (exists e, denB (ap_nodes ap) i e)) /\
    (is_arith (kind (ap_nodes ap !!! i)) = true -> 0 <= carry_reg (ap_nodes ap !!! i) < 6).
Proof.
  intros Hwf Hp Hd I R Hsub Hlen Hcnt fp ap0 Hf. subst ap0. pose proof (topo_NoDup _ _ (ai_topo _ _ I)) as Hnd. cbn [snd] in Hnd.
  destruct (assign_consts (arithmetic_nodes an) (fp_nodes fp) pools) as [nsc pc] eqn:Ec. cbn [fst].
  assert (length nsc = length ns /\ forall i : nat, kind (nsc !!! i) = kind (ns !!! i)) as [Hlc Hkc].
  { destruct (assign_consts_spec (arithmetic_nodes an) (fp_nodes fp) pools Hp) as (H1 & _ & H2).
    rewrite Ec in H1, H2. cbn [fst] in H1, H2. pose proof (assign_fields_inv _ nsa Hf) as Hfi. fold fp in Hfi.
    split; [rewrite H1, (fi_len _ _ _ Hfi); apply (analysis_length ns nsa an I)|].
    intros i. destruct (H2 i) as [[v ->] _]. destruct (fi_indexed _ _ _ Hfi i) as [w Hw].
    rewrite Hw. destruct (analysis_analyzed ns nsa an I i) as (x & y & ->). done. }
  assert (arith_count nsc (all_nodes an) <= 6)%nat as Hcnt'.
  { transitivity (arith_count ns nodes); [|done]. unfold arith_count.
    transitivity (length (filter (fun i : nat => is_arith (kind (ns !!! i)) = true) (all_nodes an))).
    - apply Nat.eq_le_incl. f_equal. apply list_filter_iff. intros i. by rewrite Hkc.
    - by apply filter_length_sub. }
  destruct (alloc_nodes_total (all_nodes an) nsc Hnd) as (Hok & _ & _ & Hcarry); [|lia|done|].
  { apply Forall_forall. intros i Hi. rewrite Hlc. eapply topo_lt; [apply I|done]. }
  set (ap := alloc_nodes (all_nodes an) nsc) in *.
  pose proof (passes_layout ns nsa an pools I Hp Hf) as Hlay. fold fp in Hlay. rewrite Ec in Hlay.
  specialize (Hlay Hok). cbn [fst] in Hlay. fold ap in Hlay.
  assert (forall i : nat, keeps (ns !!! i) (ap_nodes ap !!! i)) as Hk.
  { intros i. pose proof (passes_keep ns nsa an pools I Hp Hf) as H. fold fp in H. rewrite Ec in H.
    by destruct (H Hok i) as (? & _). }
  assert (length (ap_nodes ap) = length ns) as Hlap.
  { pose proof (passes_inv ns nsa an pools I Hp Hf) as H. fold fp in H. rewrite Ec in H.
    destruct (H Hok) as (_ & _ & _ & _ & Hav). cbn [fst] in Hav. fold ap in Hav. by rewrite (av_len _ _ _ _ Hav). }
  split; [done|]. intros i Hi. split.
  - destruct (den_core ns (ap_nodes ap)) as [HA HB].
    + intros j n Hj. destruct (keeps_lookup ns (ap_nodes ap) j n Hlap Hk Hj) as (n' & Hn' & Hc & _). eauto.
    + destruct (den_reach ns r i Hd (proj1 (R i) Hi)) as [[e He]|[e He]]; [left|right]; eauto.
  - destruct (Hk i) as ((-> & _)%core_eq & _). intros Ha. apply Hcarry; [done|]. by rewrite Hkc.
Qed.

(** C18: compile_expression returns a kernel whenever the nodes reachable from
    the root denote an expression, number at most 128, and have at most six
    additions and subtractions among them: no slot or field runs out and no
    carry register is missing. *)
Theorem compile_expression_total r ns pools nodes :
  wf_nodes ns -> ConstPool.wf pools -> (exists e, denA ns r e) \/ (exists e, denB ns r e) ->
  (forall j, reach ns r j -> j ∈ nodes) -> (length nodes <= 128)%nat -> (arith_count ns nodes <= 6)%nat ->
  exists ns' pools' code, compile_expression (Some r) 64 ns pools = (ns', pools', Kernel code).
Proof.
  intros Hwf Hp Hd Hn Hlen Hcnt. pose proof (den_lt ns r Hd) as Hr.
  destruct (analyze_init ns r Hwf Hr) as ([nsa an] & Ea & I & R). cbn [snd] in R.
  pose proof (topo_NoDup _ _ (ai_topo _ _ I)) as Hnd. cbn [snd] in Hnd.
  assert (forall j, j ∈ all_nodes an -> j ∈ nodes) as Hsub by (intros j Hj; by apply Hn, R).
  assert (length (all_nodes an) <= length nodes)%nat as Hal.
  { apply submseteq_length, NoDup_submseteq; [exact Hnd|exact Hsub]. }
  pose proof (ai_count _ _ I) as Hac. cbn [snd] in Hac.
  destruct (assign_fields_total (arithmetic_nodes an) nsa) as [Hf _]; [lia|].
  set (fp := assign_fields (arithmetic_nodes an) nsa) in *.
  destruct (allocation_total r ns pools nsa an nodes Hwf Hp Hd I R Hsub) as [Hok Hall]; [lia|done|done|].
  fold fp in Hok, Hall. destruct (assign_consts (arithmetic_nodes an) (fp_nodes fp) pools) as [nsc pc] eqn:Ec. cbn [fst] in Hok, Hall.
  set (ap := alloc_nodes (all_nodes an) nsc) in *.
  destruct (init_nodes_total (ap_nodes ap) (all_nodes an)) as [ini Hini]; [intros i Hi; by apply Hall|].
  destruct (emit_nodes_total (ap_nodes ap) (all_nodes an) Hall) as [[body c] Hbody].
  unfold compile_expression. rewrite Ea. cbv zeta. fold fp. rewrite Hf. cbn [negb]. rewrite Ec.
  fold ap. rewrite Hok, Hini, Hbody. cbn [negb]. by do 3 eexists.
Qed.

Lemma compile_expression_total_witness :
  exists ns' pools' code, compile_expression (Some 4%nat) 64 sub_nodes ∅ = (ns', pools', Kernel code).
Proof.
  apply (compile_expression_total 4 sub_nodes ∅ (seq 0 5)).
  - apply wf_nodesb_spec. by vm_compute.
  - apply pools_empty_wf.
  - right. exists sub_bexp. apply sub_den.
  - intros j Hj. apply elem_of_seq. apply reach_le in Hj; [lia|]. apply wf_nodesb_spec. by vm_compute.
  - cbn. lia.
  - apply Nat.leb_le. by vm_compute.
Defined.
