(* ===== verification/ScalarCompiler.v ===== *)
(** * The scalar expression compiler
      ([JitCompiler::compile_scalar_expression] of src/jit/compiler.cpp)

    The second backend of the JIT: its kernel takes arrays of row values instead
    of bit planes and loops over the 64 rows of a chunk, evaluating every node
    of the graph in post-order into a slot of the scratch memory.  Row [r]'s
    result is shifted to bit [r] of the mask returned.

    A load or store whose slot is beyond the range of an immediate offset
    (slots from 4096 on) is emitted all the same; the correctness theorem is
    about graphs below that size.  ScalarCorrect.v proves the emitted code
    correct. *)

From S2P Require Import Prelude Planes IR A64 Circuits Analyzer ExprCompiler.

(** ** Field indices and slots *)

(** One iteration of the loop over the LOAD nodes: no bound on the number of
    fields here. *)
Definition scalar_assign_field (st : list Node * gmap string Z) (i : nat) : list Node * gmap string Z :=
  let n := node (fst st) i in
  if decide (kind n = K_LOAD) then
    let idx :=
      match snd st !! field_name n with
      | Some _ => snd st
      | None => <[field_name n := Z.of_nat (size (snd st))]> (snd st)
      end in
    (<[i := set_field_idx (idx !!! field_name n) n]> (fst st), idx)
  else st.

Definition scalar_assign_fields (all : list nat) (ns : list Node) : list Node :=
  (foldl scalar_assign_field (ns, ∅) all).1.

(** One slot per inner node; -1 once the scratch memory is full. *)
Definition scalar_alloc_node (st : list Node * list bool) (i : nat) : list Node * list bool :=
  let n := node (fst st) i in
  if is_leaf (kind n) then st
  else
    let '(used, slot) := ScratchpadManager.alloc_slot (snd st) in
    (<[i := set_slots slot (eq_slot_id n) (carry_reg n) n]> (fst st), used).

Definition scalar_alloc_nodes (all : list nat) (ns : list Node) : list Node :=
  (foldl scalar_alloc_node (ns, ScratchpadManager.init) all).1.

(** ** Code for one node *)

Abbreviation final_mask := 21%nat.
Abbreviation row_index := 22%nat.
Abbreviation temp_reg := 23%nat.
Abbreviation val_left := 16%nat.
Abbreviation val_right := 17%nat.
Abbreviation val_res := 5%nat.

(** The lambda [get_operand]; nothing for a missing operand. *)
Definition get_operand (operand : option Node) (out_reg : nat) : list instr :=
  match operand with
  | None => []
  | Some op =>
      match kind op with
      | K_LOAD =>
          [ I_ldr temp_reg (Off field_planes_ptr (field_idx op * 8));
            I_ldr out_reg (IdxLsl3 temp_reg row_index) ]
      | K_CONST => emit_mov_imm64 out_reg (wrap64 (const_value op))
      | _ => [ I_ldr out_reg (Off scratch_ptr (slot_id op * 8)) ]
      end
  end.

Definition cmp_cond (k : NodeKind) : condcode :=
  match k with K_GT => kHI | K_LT => kLO | K_GE => kHS | K_LE => kLS | _ => kEQ end.

(** The switch on the kind of the node; [None] is the null dereference of a
    SELECT without condition. *)
Definition scalar_op (ns : list Node) (n : Node) : option (list instr) :=
  match kind n with
  | K_ADD => Some [ I_add val_res val_left val_right ]
  | K_SUB => Some [ I_sub val_res val_left val_right ]
  | K_GT | K_LT | K_GE | K_LE | K_EQ =>
      Some [ I_cmp val_left val_right; I_cset val_res (cmp_cond (kind n)) ]
  | K_AND => Some [ I_and val_res val_left val_right ]
  | K_OR => Some [ I_orr val_res val_left val_right ]
  | K_SELECT =>
      c ← cond n;
      Some [ I_ldr temp_reg (Off scratch_ptr (slot_id (node ns c) * 8));
             I_cmpi temp_reg 0;
             I_csel val_res val_left val_right kNE ]
  | _ => Some []
  end.

Definition scalar_node (ns : list Node) (i : nat) : option (list instr) :=
  let n := node ns i in
  op ← scalar_op ns n;
  Some (get_operand ((fun l => node ns l) <$> left n) val_left ++
        get_operand ((fun r => node ns r) <$> right n) val_right ++
        op ++
        (if 0 <=? slot_id n then [ I_str val_res (Off scratch_ptr (slot_id n * 8)) ] else [])).

Definition scalar_nodes (ns : list Node) (all : list nat) : option (list instr) :=
  foldl (fun o i => code ← o; code' ← scalar_node ns i; Some (code ++ code')) (Some []) all.

(** ** The whole function *)

Definition scalar_prologue : list instr :=
  [ I_stp_pre 29 30 sp (-16);
    I_mov 29 sp;
    I_stp_pre 19 20 sp (-16);
    I_stp_pre 21 22 sp (-16);
    I_stp_pre 23 24 sp (-16);
    I_mov field_planes_ptr 0;
    I_mov scratch_ptr 1;
    I_movi final_mask 0;
    I_movi row_index 0 ]%nat.

Abbreviation loop_start := 0%nat.
Abbreviation loop_end := 1%nat.

Definition scalar_head : list instr :=
  [ I_bind loop_start; I_cmpi row_index 64; I_bcond kHS loop_end ].

(** Shift the row's result into place and go round. *)
Definition scalar_tail : list instr :=
  [ I_lsl temp_reg val_res row_index;
    I_orr final_mask final_mask temp_reg;
    I_addi row_index row_index 1 ].

Definition scalar_epilogue : list instr :=
  [ I_mov 0 final_mask;
    I_ldp_post 23 24 sp 16;
    I_ldp_post 21 22 sp 16;
    I_ldp_post 19 20 sp 16;
    I_ldp_post 29 30 sp 16 ]%nat.

Definition scalar_code (body : list instr) : list instr :=
  scalar_prologue ++ scalar_head ++ (body ++ scalar_tail) ++ [ I_b loop_start; I_bind loop_end ] ++
  scalar_epilogue ++ [ I_ret 30 ].

(** The pool's nodes after the call, and the kernel. *)
Definition compile_scalar_expression (root : ptr) (ns : list Node) : list Node * compiled :=
  match root with
  | None => (ns, NullKernel)
  | Some _ =>
      match analyze (length ns) root (ns, analyzer_init) with
      | None => (ns, Undefined)
      | Some (ns, an) =>
          let ns := scalar_alloc_nodes (all_nodes an) (scalar_assign_fields (all_nodes an) ns) in
          (ns, match scalar_nodes ns (all_nodes an) with
               | Some body => Kernel (scalar_code body)
               | None => Undefined
               end)
      end
  end.
