(* ===== verification/ScalarCorrect.v ===== *)
(** * Correctness of the scalar kernel's loop body

    For one row, the emitted code leaves the value of every node of the graph
    in the node's slot, and the root's value in [val_res].  NOT nodes are
    excluded: the compiler emits nothing for them. *)

From S2P Require Import Prelude Planes IR A64 Circuits Analyzer ExprCompiler A64Mem ExprCorrect.
From S2P Require Import ExprKernel ScalarCompiler.

(** ** The value of a node on a row *)

Definition value (ns : list Node) (row : string -> Z) (i : nat) (v : Z) : Prop :=
  (exists e, denA ns i e /\ v = aeval row e) \/ (exists e, denB ns i e /\ v = Z.b2z (beval row e)).

Lemma value_fun ns row i v w : value ns row i v -> value ns row i w -> v = w.
Proof.
  destruct (den_fun ns) as [HA HB].
  intros [(e & He & ->)|(e & He & ->)] [(e' & He' & ->)|(e' & He' & ->)].
  - by rewrite (proj1 (HA _ _ He) _ He').
  - by destruct (proj2 (HA _ _ He) e').
  - by destruct (proj2 (HB _ _ He) e').
  - by rewrite (proj1 (HB _ _ He) _ He').
Qed.

(** The leaves. *)
Lemma value_leaf ns row i v n :
  value ns row i v -> ns !! i = Some n ->
  (kind n = K_LOAD -> v = row (field_name n)) /\ (kind n = K_CONST -> v = wrap64 (const_value n)).
Proof.
  intros [(e & He & ->)|(e & He & ->)] Hn; inversion He; simplify_eq; split; intros Hk; try congruence;
    try done; destruct op; cbn in *; congruence.
Qed.

(** Slots of the inner nodes of [all]. *)
Record slots (ns : list Node) (all : list nat) : Prop := {
  sl_topo : topo ns all;
  sl_range : forall i, i ∈ all -> is_leaf (kind (node ns i)) = false -> 0 <= slot_id (node ns i) < 32768;
  sl_inj : forall i j, i ∈ all -> j ∈ all -> is_leaf (kind (node ns i)) = false ->
    is_leaf (kind (node ns j)) = false -> slot_id (node ns i) = slot_id (node ns j) -> i = j;
  sl_leaf : forall i, i ∈ all -> is_leaf (kind (node ns i)) = true -> slot_id (node ns i) < 0
}.

Lemma cmp_cond_test op x y s :
  test (cmp_cond (cmp_kind op)) (set_flags (x =? y) (y <=? x) s) = cmp_eval op x y.
Proof. destruct op; cbn; destruct (Z.eqb_spec x y), (Z.leb_spec y x); cbn; lia. Qed.

Lemma b2z_and x y : Z.land (Z.b2z x) (Z.b2z y) = Z.b2z (x && y).
Proof. by destruct x, y. Qed.
Lemma b2z_or x y : Z.lor (Z.b2z x) (Z.b2z y) = Z.b2z (x || y).
Proof. by destruct x, y. Qed.

(** The registers the loop body uses. *)
Abbreviation row_regs := [5; 16; 17; 23]%nat (only parsing).

Section Row.
Variables (ns : list Node) (all : list nat) (sc fp : nat) (row : string -> Z) (q : Z) (s0 : state).
Hypothesis Hslots : slots ns all.
Hypothesis Hrow : forall f, u64 (row f).
Hypothesis Hq : 0 <= q < 64.
Hypothesis Hf0 : get field_planes_ptr s0 = Some (Ptr fp 0).
Hypothesis Hs0 : get scratch_ptr s0 = Some (Ptr sc 0).
Hypothesis Hq0 : get_int row_index s0 = Some q.
Hypothesis Hcells : forall k, 0 <= k < 32768 -> is_Some (mem s0 !! (sc, k)).
Hypothesis Hne : fp <> sc.
Hypothesis Hnot : forall i : nat, i ∈ all -> kind (node ns i) <> K_NOT.
Hypothesis Hfields : forall i : nat, i ∈ all -> kind (node ns i) = K_LOAD ->
  exists p base, 0 <= field_idx (node ns i) < 128 /\
    mem s0 !! (fp, field_idx (node ns i)) = Some (Ptr p (8 * base)) /\ small base /\ p <> sc /\
    mem s0 !! (p, base + q) = Some (Int (row (field_name (node ns i)))).

Abbreviation value := (value ns row).

Record row_inv (done : list nat) (s : state) : Prop := {
  ri_frame : frame row_regs s0 s;
  ri_writes : writes sc (fun k => 0 <= k < 32768) (mem s0) (mem s);
  ri_value : forall (i : nat) v, i ∈ done -> is_leaf (kind (node ns i)) = false -> value i v ->
    mem s !! (sc, slot_id (node ns i)) = Some (Int v)
}.

Lemma sl_lookup i : i ∈ all -> ns !! i = Some (node ns i).
Proof using Hslots. clear -Hslots. intros Hi. apply list_lookup_lookup_total_lt. eapply topo_lt; [apply Hslots|done]. Qed.

(** An operand ends in its register. *)
Lemma exec_get_operand done s s1 j v out :
  row_inv done s -> mem s1 = mem s -> frame row_regs s0 s1 ->
  j ∈ done -> j ∈ all -> value j v -> out = 16%nat \/ out = 17%nat ->
  exists s', exec (get_operand (Some (node ns j)) out) s1 = Some s' /\
    (mem s' = mem s /\ get_int out s' = Some v /\ frame [out; 23%nat] s1 s').
Proof.
  intros I Hm F Hj Hja Hv Hout. pose proof (sl_lookup j Hja) as Hn.
  assert (out <> xzr /\ out <> temp_reg) as [Hx Ht] by lia.
  assert (get field_planes_ptr s1 = Some (Ptr fp 0) /\ get scratch_ptr s1 = Some (Ptr sc 0) /\
    get_int row_index s1 = Some q) as (G19 & G20 & G22).
  { split_and!; [rewrite F by solve_notin; done..|]. rewrite (frame_get_int _ _ _ _ F) by solve_notin. done. }
  destruct (is_leaf (kind (node ns j))) eqn:El.
  - destruct (kind (node ns j)) eqn:Ek; try discriminate El; cbn [get_operand]; rewrite Ek.
    + destruct (Hfields j Hja Ek) as (p & base & Hi & Hfp & Hb & Hp & Hc). unfold small in Hb.
      rewrite (proj1 (value_leaf _ _ _ _ _ Hv Hn) Ek).
      assert (mem s1 !! (fp, 0 + field_idx (node ns j)) = Some (Ptr p (8 * base)) /\
        mem s1 !! (p, base + q) = Some (Int (row (field_name (node ns j))))) as [M1 M2].
      { rewrite Hm, Z.add_0_l, !(writes_lookup _ _ _ _ _ _ (ri_writes _ _ I)) by naive_solver. done. }
      eapply exec_cons; [by eapply (step_ldr_off _ _ _ _ fp 0); [exact G19|lia|exact M1]|].
      eapply exec_cons.
      { eapply (step_ldr_lsl3 _ _ _ _ p base q); [by apply get_set_eq | by rewrite get_int_set_ne |
          unfold small; lia | lia | by rewrite mem_set; exact M2]. }
      apply exec_nil. split_and!; [by rewrite !mem_set | by apply get_int_set_eq | solve_frame].
    + rewrite (proj2 (value_leaf _ _ _ _ _ Hv Hn) Ek).
      rewrite <- (app_nil_r (emit_mov_imm64 _ _)). apply exec_imm; [done | apply wrap64_u64 |].
      apply exec_nil. split_and!; [by rewrite mem_set | by apply get_int_set_eq | solve_frame].
  - assert (get_operand (Some (node ns j)) out = [ I_ldr out (Off scratch_ptr (slot_id (node ns j) * 8)) ]) as ->
      by (cbn [get_operand]; by destruct (kind (node ns j))).
    pose proof (sl_range _ _ Hslots j Hja El) as Hr.
    eapply exec_cons.
    { eapply (step_ldr_off _ _ _ _ sc 0); [exact G20 | lia |]. rewrite Hm, Z.add_0_l. by apply I. }
    apply exec_nil. split_and!; [by rewrite mem_set | by apply get_int_set_eq | solve_frame].
Qed.

Lemma exec_operands done s a b x y :
  row_inv done s -> a ∈ done -> b ∈ done -> a ∈ all -> b ∈ all -> value a x -> value b y ->
  exists s', exec (get_operand (Some (node ns a)) val_left ++ get_operand (Some (node ns b)) val_right) s = Some s' /\
    (mem s' = mem s /\ get_int val_left s' = Some x /\ get_int val_right s' = Some y /\
     frame [16; 17; 23]%nat s s').
Proof.
  intros I Ha Hb Haa Hba Hx Hy.
  destruct (exec_get_operand done s s a x val_left) as (s1 & E1 & M1 & V1 & F1); try done; [apply I|by left|].
  assert (frame row_regs s0 s1) as F01.
  { apply (frame_trans _ _ s); [apply I|]. eapply frame_weaken; [|exact F1]. solve_incl. }
  destruct (exec_get_operand done s s1 b y val_right) as (s2 & E2 & M2 & V2 & F2); try done; [by right|].
  exists s2. split; [exact (exec_app_Some _ _ _ _ _ E1 E2)|]. split_and!; [done | | done |].
  - rewrite (frame_get_int _ _ _ _ F2) by solve_notin. done.
  - apply (frame_trans _ _ s1); (eapply frame_weaken; [|eassumption]); solve_incl.
Qed.

(** The store of the result, and the invariant for one more node. *)
Lemma exec_result done s s1 i v :
  row_inv done s -> i ∈ all -> i ∉ done -> (forall j, j ∈ done -> j ∈ all) ->
  is_leaf (kind (node ns i)) = false -> value i v ->
  mem s1 = mem s -> frame row_regs s s1 -> get_int val_res s1 = Some v ->
  exists s', exec (if 0 <=? slot_id (node ns i) then [ I_str val_res (Off scratch_ptr (slot_id (node ns i) * 8)) ]
                   else []) s1 = Some s' /\
    (row_inv (done ++ [i]) s' /\ get_int val_res s' = Some v).
Proof.
  intros I Hi Hni Hsub Hl Hv Hm F Hr. pose proof (sl_range _ _ Hslots i Hi Hl) as Hsl.
  rewrite (proj2 (Z.leb_le _ _)) by lia.
  assert (frame row_regs s0 s1) as F01 by (apply (frame_trans _ _ s); [apply I|done]).
  eapply exec_cons.
  { eapply (step_str_off _ _ _ _ sc 0); [rewrite F01 by solve_notin; exact Hs0 | lia | | by apply get_int_get].
    rewrite Hm, Z.add_0_l. eapply writes_some; [apply I|]. by apply Hcells. }
  apply exec_nil. rewrite Z.add_0_l. split; [|done]. split.
  - by apply frame_upd_mem.
  - rewrite mem_upd_mem, Hm. eapply writes_trans; [apply I|]. apply writes_insert. lia.
  - intros j w Hj Hlj Hw. rewrite mem_upd_mem, Hm. destruct (decide (j = i)) as [->|Hji].
    + rewrite lookup_insert_eq. do 2 f_equal. by eapply value_fun.
    + apply elem_of_app in Hj as [Hj|Hj]; [|by apply list_elem_of_singleton in Hj].
      rewrite lookup_insert_ne; [by apply I|]. intros [= E]. apply Hji. symmetry. eapply (sl_inj _ _ Hslots); auto.
Qed.

(** A node without operands that matter. *)
Lemma exec_leaf done s i :
  row_inv done s -> i ∈ all -> is_leaf (kind (node ns i)) = true -> children (node ns i) = [None; None; None] ->
  exists code, scalar_node ns i = Some code /\ exec code s = Some s /\ row_inv (done ++ [i]) s.
Proof.
  intros I Hi Hl Hc. destruct (children_fields _ _ _ _ Hc) as (El & Er & _).
  pose proof (sl_leaf _ _ Hslots i Hi Hl) as Hs. unfold scalar_node, scalar_op. rewrite El, Er.
  rewrite (proj2 (Z.leb_gt _ _)) by lia.
  assert (row_inv (done ++ [i]) s) as I'.
  { destruct I as [I1 I2 I3]. split; [done..|]. intros j v [Hj| ->%list_elem_of_singleton]%elem_of_app Hlj; [by apply I3|congruence]. }
  exists []. split; [|done]. by destruct (kind (node ns i)).
Qed.

(** *** Inner nodes *)

(** The shape the inner nodes share: operands, operation, store. *)
Lemma exec_inner done s i a b x y v op :
  row_inv done s -> i ∈ all -> i ∉ done -> (forall j, j ∈ done -> j ∈ all) ->
  (forall j, Some j ∈ children (node ns i) -> j ∈ done) ->
  left (node ns i) = Some a -> right (node ns i) = Some b -> value a x -> value b y ->
  is_leaf (kind (node ns i)) = false -> value i v ->
  scalar_op ns (node ns i) = Some op ->
  (forall s1, mem s1 = mem s -> frame row_regs s s1 -> get_int val_left s1 = Some x ->
    get_int val_right s1 = Some y ->
    exists s2, exec op s1 = Some s2 /\ (mem s2 = mem s1 /\ frame row_regs s1 s2 /\ get_int val_res s2 = Some v)) ->
  exists code s', scalar_node ns i = Some code /\ exec code s = Some s' /\ row_inv (done ++ [i]) s' /\
    get_int val_res s' = Some v.
Proof.
  intros I Hi Hni Hsub Hch El Er Hx Hy Hl Hv Hop Hexec.
  assert (a ∈ done /\ b ∈ done) as [Ha Hb].
  { split; apply Hch; unfold children; rewrite ?El, ?Er; set_solver. }
  destruct (exec_operands done s a b x y) as (s1 & E1 & M1 & V1 & W1 & F1); auto.
  assert (frame row_regs s s1) as F1' by (eapply frame_weaken; [|exact F1]; solve_incl).
  destruct (Hexec s1 M1 F1' V1 W1) as (s2 & E2 & M2 & F2 & V2).
  destruct (exec_result done s s2 i v) as (s3 & E3 & I3 & V3); auto; [congruence | by apply (frame_trans _ _ s1)|].
  exists ((get_operand (Some (node ns a)) val_left ++ get_operand (Some (node ns b)) val_right) ++ op ++
    (if 0 <=? slot_id (node ns i) then [ I_str val_res (Off scratch_ptr (slot_id (node ns i) * 8)) ] else [])), s3.
  split_and!; [|exact (exec_app_Some _ _ _ _ _ E1 (exec_app_Some _ _ _ _ _ E2 E3))|done|done].
  unfold scalar_node. rewrite Hop, El, Er. cbn [mbind option_bind fmap option_fmap option_map].
  by rewrite <- app_assoc.
Qed.

Ltac two_step :=
  intros s1 M1 F1 V1 W1; a64_run; split_and!; [by rewrite ?mem_set, ?mem_set_flags, ?mem_set | solve_frame | a64_get].

(** One node, by the expression it denotes. *)
Lemma exec_scalar_node done s i v :
  row_inv done s -> i ∈ all -> i ∉ done -> (forall j, j ∈ done -> j ∈ all) ->
  (forall j, Some j ∈ children (node ns i) -> j ∈ done) -> value i v ->
  exists code s', scalar_node ns i = Some code /\ exec code s = Some s' /\ row_inv (done ++ [i]) s' /\
    (is_leaf (kind (node ns i)) = false -> get_int val_res s' = Some v).
Proof.
  intros I Hi Hni Hsub Hch Hv. pose proof (sl_lookup i Hi) as Hn.
  destruct (is_leaf (kind (node ns i))) eqn:El.
  { destruct (exec_leaf done s i I Hi El) as (code & E1 & E2 & I').
    - destruct Hv as [(e & He & _)|(e & He & _)]; inversion He; simplify_eq; try done;
        repeat match goal with H : kind _ = _ |- _ => rewrite H in El end; try done; by destruct op.
    - exists code, s. by split_and!. }
  cut (exists code s', scalar_node ns i = Some code /\ exec code s = Some s' /\ row_inv (done ++ [i]) s' /\
    get_int val_res s' = Some v); [naive_solver|].
  pose proof Hv as [(e & He & Ev)|(e & He & Ev)]; inversion He; subst e; rewrite Hn in *; simplify_eq;
    match goal with H : children _ = _ |- _ => destruct (children_fields _ _ _ _ H) as (Ea & Eb & Ec) end;
    match goal with H : kind (node ns i) = _ |- _ => rename H into Hk end; try (by rewrite Hk in El).
  - eapply (exec_inner done s i a b); eauto; [by left; eauto|by left; eauto|unfold scalar_op; by rewrite Hk|].
    intros s1 M1 F1 V1 W1. apply get_int_get in V1, W1.
    eapply exec_cons; [eapply step_add; [exact V1|exact W1|reflexivity]|].
    apply exec_nil. split_and!; [by rewrite mem_set | solve_frame | a64_get].
  - eapply (exec_inner done s i a b); eauto; [by left; eauto|by left; eauto|unfold scalar_op; by rewrite Hk|].
    two_step.
  - eapply (exec_inner done s i a b); eauto; [by left; eauto|by left; eauto|unfold scalar_op; by rewrite Hk, Ec|].
    match goal with H : denB ns c ec |- _ => rename H into Hdc end.
    assert (c ∈ done) as Hc by (apply Hch; unfold children; rewrite Ec; set_solver).
    assert (is_leaf (kind (node ns c)) = false) as Hlc by (by eapply denB_inner).
    pose proof (ri_value _ _ I c (Z.b2z (beval row ec)) Hc Hlc) as Mc.
    pose proof (sl_range _ _ Hslots c (Hsub c Hc) Hlc) as Hrc.
    intros s1 M1 F1 V1 W1. apply get_int_get in V1, W1.
    eapply exec_cons.
    { eapply (step_ldr_off _ _ _ _ sc 0); [|lia|].
      - rewrite F1 by solve_notin. rewrite (ri_frame _ _ I) by solve_notin. exact Hs0.
      - rewrite M1, Z.add_0_l. apply Mc. right. by exists ec. }
    eapply exec_cons; [by eapply step_cmpi, get_int_set_eq|].
    eapply exec_cons; [eapply step_csel; rewrite get_set_flags, get_set_ne by done; [exact V1|exact W1]|].
    apply exec_nil. split_and!; [by rewrite mem_set, mem_set_flags, mem_set | solve_frame |].
    cbn [test set_flags flagZ]. apply get_int_get. rewrite get_set_eq by done. cbn [aeval].
    by destruct (beval row ec).
  - eapply (exec_inner done s i a b _ _ _ [ I_cmp val_left val_right; I_cset val_res (cmp_cond (cmp_kind op)) ]);
      eauto; [by left; eauto|by left; eauto|unfold scalar_op; rewrite Hk; by destruct op|].
    intros s1 M1 F1 V1 W1. cbn [beval]. rewrite <- (cmp_cond_test _ _ _ s1). a64_run.
    split_and!; [by rewrite mem_set, mem_set_flags | solve_frame | a64_get].
  - eapply (exec_inner done s i a b); eauto; [by right; eauto|by right; eauto|unfold scalar_op; by rewrite Hk|].
    cbn [beval]. rewrite <- b2z_and. two_step.
  - eapply (exec_inner done s i a b); eauto; [by right; eauto|by right; eauto|unfold scalar_op; by rewrite Hk|].
    cbn [beval]. rewrite <- b2z_or. two_step.
  - by destruct (Hnot i Hi).
Qed.

Hypothesis Hval : forall i, i ∈ all -> exists v, value i v.

Lemma scalar_nodes_snoc l i :
  scalar_nodes ns (l ++ [i]) =
  (code ← scalar_nodes ns l; code' ← scalar_node ns i; Some (code ++ code')).
Proof using Type. unfold scalar_nodes. by rewrite foldl_app. Qed.

(** The whole body; the last node's value is left in [val_res]. *)
Lemma exec_scalar_nodes l rest code s :
  all = l ++ rest -> scalar_nodes ns l = Some code -> row_inv [] s ->
  exists s', exec code s = Some s' /\
    (row_inv l s' /\
     forall l' i v, l = l' ++ [i] -> is_leaf (kind (node ns i)) = false -> value i v -> get_int val_res s' = Some v).
Proof.
  revert rest code. induction l as [|i l IH] using rev_ind; intros rest code Hall Hc I.
  - injection Hc as <-. exists s. split_and!; [done..|]. by intros [|? ?].
  - rewrite scalar_nodes_snoc in Hc. rewrite <- app_assoc in Hall. cbn [app] in Hall.
    destruct (scalar_nodes ns l) as [code1|]; cbn [mbind option_bind] in Hc; [|done].
    destruct (IH (i :: rest) code1 Hall eq_refl I) as (s1 & E1 & I1 & _).
    pose proof (sl_topo _ _ Hslots) as Ht. rewrite Hall in Ht. apply topo_split in Ht as [Hni Hch].
    assert (i ∈ all) as Hi by (rewrite Hall; set_solver).
    destruct (Hval i Hi) as [v Hv].
    destruct (exec_scalar_node l s1 i v) as (code2 & s2 & Hn & E2 & I2 & V2); try done.
    { intros j Hj. rewrite Hall. set_solver. }
    { intros j Hj. apply (Hch (node ns i)); [by apply sl_lookup|done]. }
    rewrite Hn in Hc. injection Hc as <-. exists s2.
    split; [exact (exec_app_Some _ _ _ _ _ E1 E2)|]. split; [done|].
    intros l' j w [-> [= <-]]%app_inj_tail Hl Hw. rewrite (value_fun _ _ _ _ _ Hw Hv). by apply V2.
Qed.

End Row.
