(* ===== verification/ScalarKernel.v ===== *)
(** * The scalar kernel: entry, loop over the rows and exit
      (compile_scalar_expression of src/jit/compiler.cpp)

    Called with the array of field arrays in [x0] and the scratch memory in
    [x1], the kernel runs its body once per row, sets bit [r] of the result to
    row [r]'s value, and restores the callee-saved registers. *)

From S2P Require Import Prelude Planes IR A64 Circuits Analyzer ExprCompiler A64Mem ExprCorrect.
From S2P Require Import ExprKernel ScalarCompiler ScalarCorrect.

(** ** Branches and labels *)

Lemma find_label_skip l c1 c2 :
  Forall (fun i => i <> I_bind l) c1 ->
  find_label l (c1 ++ c2) = (fun n => length c1 + n)%nat <$> find_label l c2.
Proof.
  induction 1 as [|i c1 Hi _ IH]; cbn [app length].
  - symmetry. by apply option_fmap_id.
  - assert (find_label l (i :: c1 ++ c2) = S <$> find_label l (c1 ++ c2)) as ->.
    { destruct i; try done. cbn [find_label]. rewrite decide_False; [done|]. by intros ->. }
    rewrite IH, <- option_fmap_compose. done.
Qed.

(** Code that executes straight through contains no label. *)
Lemma exec_no_label l c s s' : exec c s = Some s' -> Forall (fun i => i <> I_bind l) c.
Proof.
  revert s. induction c as [|i c IH]; intros s E; [constructor|]. cbn [exec] in E.
  destruct (step i s) as [s1|] eqn:Ei; [|done]. constructor; [by intros ->|]. by eapply IH.
Qed.

Lemma run_bind c l f pc s : c !! pc = Some (I_bind l) -> run c (S f) pc s = run c f (S pc) s.
Proof. intros H. cbn [run]. by rewrite H. Qed.

Lemma run_b c l f pc s :
  c !! pc = Some (I_b l) ->
  run c (S f) pc s = match find_label l c with Some p => run c f p s | None => Fault end.
Proof. intros H. cbn [run]. by rewrite H. Qed.

Lemma run_bcond c k l f pc s :
  c !! pc = Some (I_bcond k l) ->
  run c (S f) pc s =
  if test k s then match find_label l c with Some p => run c f p s | None => Fault end else run c f (S pc) s.
Proof. intros H. cbn [run]. by rewrite H. Qed.

Lemma run_ret c f pc s n v : c !! pc = Some (I_ret n) -> get n s = Some v -> run c (S f) pc s = Done s.
Proof. intros H Hv. cbn [run]. by rewrite H, Hv. Qed.

(** The positions of the loop's head and of the label behind it. *)
Definition head_pc : nat := length scalar_prologue.
Definition end_pc (body : list instr) : nat :=
  length (scalar_prologue ++ scalar_head ++ (body ++ scalar_tail) ++ [I_b loop_start]).

(** Bit [q] of the mask, once the rows below [q] are in place. *)
Lemma mask64_push (f : nat -> bool) (q : nat) :
  (q < 64)%nat ->
  Z.lor (mask64 (fun r => (r <? q)%nat && f r)) (wrap64 (Z.shiftl (Z.b2z (f q)) (Z.of_nat q mod 64))) =
  mask64 (fun r => (r <? S q)%nat && f r).
Proof.
  intros Hq. rewrite Z.mod_small by lia. apply u64_eq_nbits.
  - apply u64_lor; [apply mask64_u64 | apply wrap64_u64].
  - apply mask64_u64.
  - intros i Hi. rewrite Z.lor_spec, !mask64_bit, wrap64_bits, Z.shiftl_spec by lia.
    destruct (Nat.lt_trichotomy i q) as [Hlt|[->|Hgt]].
    + rewrite (Z.testbit_neg_r _ (Z.of_nat i - Z.of_nat q)) by lia.
      rewrite !(proj2 (Nat.ltb_lt _ _)) by lia. by rewrite orb_false_r.
    + rewrite Z.sub_diag, Nat.ltb_irrefl, (proj2 (Nat.ltb_lt q (S q))) by lia. cbn [andb orb]. by destruct (f q).
    + rewrite !(proj2 (Nat.ltb_ge _ _)) by lia. cbn [andb orb].
      destruct (f q); cbn [Z.b2z]; [|apply Z.bits_0].
      change 1 with (2 ^ 0). apply Z.pow2_bits_false. lia.
Qed.

(** ** The caller *)

Definition scalar_pairs : list (nat * nat) := [(29, 30); (19, 20); (21, 22); (23, 24)]%nat.

Lemma elem_of_scalar_regs q :
  q ∈ regs_of scalar_pairs <-> (q = 29 \/ q = 30 \/ 19 <= q <= 24)%nat.
Proof. unfold regs_of. cbn. rewrite !elem_of_cons, elem_of_nil. lia. Qed.

Record scalar_ready (ns : list Node) (r : nat) (rows : nat -> string -> Z) (sc fp stk : nat) (top : Z)
    (s : state) : Prop := {
  sr_x0 : get 0 s = Some (Ptr fp 0);
  sr_x1 : get 1 s = Some (Ptr sc 0);
  sr_sp : get sp s = Some (Ptr stk (8 * top));
  sr_top : 8 <= top < 2 ^ 60;
  sr_regs : forall q, (19 <= q <= 30)%nat -> is_Some (get q s);
  sr_sc_fp : fp <> sc;
  sr_stk_sc : stk <> sc;
  sr_stk_fp : stk <> fp;
  sr_scratch : forall k, 0 <= k < 32768 -> is_Some (mem s !! (sc, k));
  sr_stack : forall k, top - 8 <= k < top -> is_Some (mem s !! (stk, k));
  sr_rows : forall q f, u64 (rows q f);
  sr_fields : forall j : nat, reach ns r j -> kind (node ns j) = K_LOAD ->
    exists p base, 0 <= field_idx (node ns j) < 128 /\
      mem s !! (fp, field_idx (node ns j)) = Some (Ptr p (8 * base)) /\ small base /\ p <> sc /\ p <> stk /\
      forall q, (q < 64)%nat -> mem s !! (p, base + Z.of_nat q) = Some (Int (rows q (field_name (node ns j))))
}.

Record scalar_done (sc stk : nat) (top : Z) (s s' : state) : Prop := {
  sd_regs : forall q, (18 <= q <= 30)%nat \/ q = sp -> get q s' = get q s;
  sd_mem : forall o k, o <> sc -> ~ (o = stk /\ top - 8 <= k < top) -> mem s' !! (o, k) = mem s !! (o, k);
  sd_cells : forall c, is_Some (mem s !! c) -> is_Some (mem s' !! c)
}.

Section Kernel.
Variables (ns : list Node) (all : list nat) (r : nat) (rows : nat -> string -> Z) (sc fp stk : nat) (top : Z).
Variables (s : state) (body : list instr) (e : bexp).
Hypothesis Hready : scalar_ready ns r rows sc fp stk top s.
Hypothesis Hslots : slots ns all.
Hypothesis Hall : forall j, j ∈ all -> reach ns r j.
Hypothesis Hnot : forall i : nat, i ∈ all -> kind (node ns i) <> K_NOT.
Hypothesis Hval : forall i, i ∈ all -> (exists e, denA ns i e) \/ (exists e, denB ns i e).
Hypothesis Hbody : scalar_nodes ns all = Some body.
Hypothesis Hlast : exists l, all = l ++ [r].
Hypothesis Hroot : denB ns r e.

Definition srv (q : nat) : val := default (Int 0) (get q s).

(** The state at the head of the loop, with [q] rows done. *)
Record loop_inv (s1 : state) (q : nat) (s2 : state) : Prop := {
  li_frame : frame [5; 16; 17; 21; 22; 23]%nat s1 s2;
  li_writes : writes sc (fun k => 0 <= k < 32768) (mem s1) (mem s2);
  li_row : get_int row_index s2 = Some (Z.of_nat q);
  li_mask : get_int final_mask s2 = Some (mask64 (fun p => (p <? q)%nat && beval (rows p) e))
}.

(** What the loop needs of the state it starts from. *)
Record loop_env (s1 : state) : Prop := {
  le_fields : get field_planes_ptr s1 = Some (Ptr fp 0);
  le_scratch : get scratch_ptr s1 = Some (Ptr sc 0);
  le_cells : forall k, 0 <= k < 32768 -> is_Some (mem s1 !! (sc, k));
  le_loads : forall j : nat, j ∈ all -> kind (node ns j) = K_LOAD ->
    exists p base, 0 <= field_idx (node ns j) < 128 /\
      mem s1 !! (fp, field_idx (node ns j)) = Some (Ptr p (8 * base)) /\ small base /\ p <> sc /\
      forall q, (q < 64)%nat -> mem s1 !! (p, base + Z.of_nat q) = Some (Int (rows q (field_name (node ns j))))
}.

Lemma exec_iteration s1 q s2 :
  loop_env s1 -> (q < 64)%nat -> loop_inv s1 q s2 ->
  exists s3, exec (body ++ scalar_tail) s2 = Some s3 /\ loop_inv s1 (S q) s3.
Proof.
  intros [E1 E2 E3 E4] Hq [F W R M]. destruct Hready as [_ _ _ _ _ Hne _ _ _ _ Hrows _].
  destruct Hlast as [l Hl].
  destruct (exec_scalar_nodes ns all sc fp (rows q) (Z.of_nat q) s2) with (l := all) (rest := @nil nat) (code := body) (s := s2)
    as (s3 & X & I & V); try done.
  { lia. } { rewrite F by solve_notin. done. } { rewrite F by solve_notin. done. }
  { intros k Hk. eapply writes_some; [exact W|]. by apply E3. }
  { intros i Hi Hk. destruct (E4 i Hi Hk) as (p & base & H1 & H2 & H3 & H4 & H5). exists p, base.
    rewrite !(writes_lookup _ _ _ _ _ _ W) by naive_solver.
    exact (conj H1 (conj H2 (conj H3 (conj H4 (H5 q Hq))))). }
  { intros i Hi. destruct (Hval i Hi) as [[e' He]|[e' He]]; eexists; [left|right]; eauto. }
  { by rewrite app_nil_r. }
  { split; [apply frame_refl | apply writes_refl | intros i v Hi; by apply not_elem_of_nil in Hi]. }
  assert (get_int val_res s3 = Some (Z.b2z (beval (rows q) e))) as Hv.
  { eapply (V l r); [done | by eapply denB_inner |]. right. by exists e. }
  assert (get_int row_index s3 = Some (Z.of_nat q)) as Hr3.
  { rewrite (frame_get_int _ _ _ _ (ri_frame _ _ _ _ _ _ I)) by solve_notin. done. }
  assert (get_int final_mask s3 = Some (mask64 (fun p => (p <? q)%nat && beval (rows p) e))) as Hm3.
  { rewrite (frame_get_int _ _ _ _ (ri_frame _ _ _ _ _ _ I)) by solve_notin. done. }
  apply exec_seq. exists s3. split; [done|]. unfold scalar_tail.
  a64_step. a64_step. apply get_int_get in Hr3.
  eapply exec_cons; [eapply step_addi; rewrite !get_set_ne by done; exact Hr3|]. apply exec_nil.
  assert (mask64 (fun p => (p <? S q)%nat && beval (rows p) e) = Z.lor (mask64 (fun p => (p <? q)%nat && beval (rows p) e))
    (wrap64 (Z.shiftl (Z.b2z (beval (rows q) e)) (Z.of_nat q mod 64)))) as Hmask
    by (symmetry; by apply mask64_push).
  split.
  - do 3 (apply frame_set; [solve [repeat first [apply list_elem_of_here | apply list_elem_of_further]]|]).
    apply (frame_trans _ _ s2); [done|]. eapply frame_weaken; [|apply I]. solve_incl.
  - rewrite !mem_set. eapply writes_trans; [exact W|]. apply I.
  - cbn [add_val]. rewrite get_int_set_eq by done. f_equal. rewrite wrap64_small by (unfold u64; lia). lia.
  - rewrite Hmask. a64_get.
Qed.

(** *** The loop, on the whole function's code *)

Variable code : list instr.
Hypothesis Hcode : code = scalar_code body.

Lemma loop_start_pc : find_label loop_start code = Some head_pc.
Proof using Hcode. rewrite Hcode. reflexivity. Qed.

Lemma loop_end_pc s2 s3 : exec (body ++ scalar_tail) s2 = Some s3 -> find_label loop_end code = Some (end_pc body).
Proof using Hcode. clear -Hcode.
  intros X. rewrite Hcode. unfold scalar_code.
  rewrite (find_label_skip _ scalar_prologue) by by repeat constructor.
  rewrite (find_label_skip _ scalar_head) by by repeat constructor.
  rewrite (find_label_skip _ (body ++ scalar_tail)) by by eapply exec_no_label.
  cbn [app find_label]. rewrite decide_True by done. cbn [fmap option_fmap option_map].
  f_equal. unfold end_pc. rewrite !length_app. cbn [length]. lia.
Qed.

Lemma code_head : code !! head_pc = Some (I_bind loop_start) /\ code !! S head_pc = Some (I_cmpi row_index 64) /\
  code !! S (S head_pc) = Some (I_bcond kHS loop_end).
Proof using Hcode. rewrite Hcode. done. Qed.

Lemma code_split : code = (scalar_prologue ++ scalar_head) ++ (body ++ scalar_tail) ++
  [ I_b loop_start; I_bind loop_end ] ++ scalar_epilogue ++ [ I_ret 30 ].
Proof using Hcode. rewrite Hcode. unfold scalar_code. by rewrite <- app_assoc. Qed.

Lemma loop_inv_flags s1 q s2 a b : loop_inv s1 q s2 -> loop_inv s1 q (set_flags a b s2).
Proof using Type. intros [F W R M]. by split. Qed.

(** Three instructions bring the head of the loop to its branch. *)
Lemma run_head s1 q s2 fuel :
  loop_inv s1 q s2 -> (q <= 64)%nat ->
  run code (3 + fuel) head_pc s2 =
  let s2' := set_flags (Z.of_nat q =? 64) (64 <=? Z.of_nat q) s2 in
  if (q <? 64)%nat then run code fuel (3 + head_pc) s2'
  else match find_label loop_end code with Some p => run code fuel p s2' | None => Fault end.
Proof using Hcode. clear -Hcode.
  intros I Hq. destruct code_head as (H1 & H2 & H3).
  change (3 + fuel)%nat with (S (S (S fuel))).
  rewrite (run_bind _ _ _ _ _ H1), (step_run _ _ _ _ _ _ H2 (step_cmpi _ _ _ _ (li_row _ _ _ I))).
  rewrite (run_bcond _ _ _ _ _ _ H3). cbn [test set_flags flagC].
  destruct (Nat.ltb_spec q 64); [rewrite (proj2 (Z.leb_gt _ _)) by lia | rewrite (proj2 (Z.leb_le _ _)) by lia]; done.
Qed.

Lemma run_iteration s1 q s2 fuel :
  loop_env s1 -> (q < 64)%nat -> loop_inv s1 q s2 ->
  exists s3, run code (4 + length (body ++ scalar_tail) + fuel) head_pc s2 = run code fuel head_pc s3 /\
    loop_inv s1 (S q) s3.
Proof.
  intros Henv Hq I.
  set (s2' := set_flags (Z.of_nat q =? 64) (64 <=? Z.of_nat q) s2).
  destruct (exec_iteration s1 q s2' Henv Hq) as (s3 & X & I3); [by apply loop_inv_flags|].
  exists s3. split; [|done].
  replace (4 + length (body ++ scalar_tail) + fuel)%nat with (3 + (length (body ++ scalar_tail) + S fuel))%nat by lia.
  rewrite (run_head s1 q s2) by (done || lia). cbv zeta. rewrite (proj2 (Nat.ltb_lt _ _) Hq). fold s2'.
  change (3 + head_pc)%nat with (length (scalar_prologue ++ scalar_head)). rewrite code_split at 1.
  rewrite (run_block _ _ _ _ s3) by done. rewrite <- code_split.
  assert (code !! (length (scalar_prologue ++ scalar_head) + length (body ++ scalar_tail))%nat = Some (I_b loop_start)) as Hb.
  { rewrite code_split, !lookup_app_r by lia.
    by replace (_ - _ - _)%nat with 0%nat by lia. }
  by rewrite (run_b _ _ _ _ _ Hb), loop_start_pc.
Qed.

Lemma run_loop s1 k s2 fuel :
  loop_env s1 -> (k <= 64)%nat -> loop_inv s1 (64 - k) s2 ->
  exists s3, run code (k * (4 + length (body ++ scalar_tail)) + fuel) head_pc s2 = run code fuel head_pc s3 /\
    loop_inv s1 64 s3.
Proof.
  intros Henv. revert s2. induction k as [|k IH]; intros s2 Hk I; [by exists s2|].
  destruct (run_iteration s1 (64 - S k) s2 (k * (4 + length (body ++ scalar_tail)) + fuel) Henv) as (s3 & E & I3); [lia|done|].
  replace (S (64 - S k)) with (64 - k)%nat in I3 by lia.
  destruct (IH s3) as (s4 & E4 & I4); [lia|done|]. exists s4. split; [|done].
  rewrite <- E4, <- E. f_equal. lia.
Qed.

(** *** Entry and exit *)

Lemma srv_get q : (19 <= q <= 30)%nat -> get q s = Some (srv q).
Proof using Hready. clear -Hready. intros Hq. unfold srv. by destruct (sr_regs _ _ _ _ _ _ _ _ Hready q Hq) as [v ->]. Qed.

Lemma exec_scalar_prologue :
  exists s1, exec scalar_prologue s = Some s1 /\
    (loop_env s1 /\ loop_inv s1 0 s1 /\ get sp s1 = Some (Ptr stk (8 * (top - 8))) /\
     writes stk (fun j => top - 8 <= j < top) (mem s) (mem s1) /\
     saved stk srv scalar_pairs top (mem s1) /\ frame (sp :: 29 :: seq 19 4)%nat s s1).
Proof.
  destruct Hready as [Kx0 Kx1 Ksp Ktop Kregs Ksf Kss Ksp' Kscr Kst Krows Kf].
  change scalar_prologue with ((push <$> [(29, 30)]%nat) ++ [ I_mov 29 sp ] ++ (push <$> tail scalar_pairs) ++
    [ I_mov field_planes_ptr 0; I_mov scratch_ptr 1; I_movi final_mask 0; I_movi row_index 0 ]%nat).
  destruct (exec_push stk srv [(29, 30)]%nat s top) as (s1 & E1 & F1 & G1 & W1 & S1); try done.
  { cbn. lia. } { intros j Hj. apply Kst. cbn in Hj. lia. }
  { intros q. unfold regs_of. cbn. rewrite !elem_of_cons, elem_of_nil. intros Hq. split; [apply srv_get|]; lia. }
  apply exec_seq. exists s1. split; [done|].
  cbn [app]. eapply exec_cons; [by eapply step_mov|].
  change (8 * (top - 2 * Z.of_nat (length [(29, 30)%nat]))) with (8 * (top - 2)) in *.
  set (s2 := set 29 (Ptr stk (8 * (top - 2))) s1).
  assert (frame [29; sp]%nat s s2) as F02.
  { apply (frame_trans _ _ s1); [eapply frame_weaken; [|exact F1]; solve_incl | subst s2; solve_frame]. }
  destruct (exec_push stk srv (tail scalar_pairs) s2 (top - 2)) as (s3 & E3 & F3 & G3 & W3 & S3).
  { subst s2. by rewrite get_set_ne. } { cbn. lia. }
  { intros j Hj. cbn in Hj. subst s2. rewrite mem_set. eapply writes_some; [exact W1|]. apply Kst. lia. }
  { intros q. unfold regs_of. cbn. rewrite !elem_of_cons, elem_of_nil. intros Hq.
    rewrite F02 by solve_notin. split; [apply srv_get|]; lia. }
  apply exec_seq. exists s3. split; [done|].
  assert (frame [29; sp]%nat s s3) as F03.
  { apply (frame_trans _ _ s2); [done|]. eapply frame_weaken; [|exact F3]. solve_incl. }
  eapply exec_cons; [eapply step_mov; rewrite F03 by solve_notin; done|].
  eapply exec_cons; [eapply step_mov; rewrite get_set_ne, F03 by (done || solve_notin); done|].
  do 2 a64_step. apply exec_nil.
  change (8 * (top - 2 - 2 * Z.of_nat (length (tail scalar_pairs)))) with (8 * (top - 2 - 6)) in G3.
  assert (writes stk (fun j => top - 8 <= j < top) (mem s) (mem s3)) as W.
  { eapply (writes_trans _ _ _ (mem s1)); [eapply writes_weaken; [|exact W1]; cbn; lia|].
    subst s2. rewrite mem_set in W3. eapply writes_weaken; [|exact W3]. cbn. lia. }
  split; [|split; [|split_and!]].
  - split; rewrite ?mem_set; [a64_get | a64_get | |].
    + intros k Hk. eapply writes_some; [exact W|]. by apply Kscr.
    + intros j Hj Hk. destruct (Kf j (Hall j Hj) Hk) as (p & base & H1 & H2 & H3 & H4 & H5 & H6). exists p, base.
      rewrite (writes_lookup _ _ _ _ _ _ W) by naive_solver.
      refine (conj H1 (conj H2 (conj H3 (conj H4 _)))). intros q Hq.
      rewrite (writes_lookup _ _ _ _ _ _ W) by naive_solver. by apply H6.
  - split; [apply frame_refl | apply writes_refl | a64_get |]. rewrite <- mask64_false. a64_get.
  - autorewrite with a64. rewrite G3. do 3 f_equal. lia.
  - by rewrite !mem_set.
  - rewrite !mem_set. change scalar_pairs with ((29, 30)%nat :: tail scalar_pairs). cbn [saved] in S1 |- *.
    destruct S1 as (S1a & S1b & _). rewrite !(writes_lookup _ _ _ _ _ _ W3) by (cbn; lia). subst s2. by rewrite mem_set.
  - do 4 (apply frame_set; [rewrite !elem_of_cons, elem_of_seq; lia|]). eapply frame_weaken; [|exact F03].
    intros q. rewrite !elem_of_cons, elem_of_nil. lia.
Qed.

Lemma exec_scalar_epilogue s1 s2 :
  get sp s1 = Some (Ptr stk (8 * (top - 8))) -> saved stk srv scalar_pairs top (mem s1) ->
  writes stk (fun j => top - 8 <= j < top) (mem s) (mem s1) -> frame (sp :: 29 :: seq 19 4)%nat s s1 ->
  loop_inv s1 64 s2 ->
  exists s3, exec scalar_epilogue s2 = Some s3 /\
    (get_int 0 s3 = Some (mask64 (fun q => beval (rows q) e)) /\ scalar_done sc stk top s s3).
Proof.
  intros G S W F0 [F W2 R M]. destruct Hready as [Kx0 Kx1 Ksp Ktop Kregs Ksf Kss Ksp' Kscr Kst Krows Kf].
  change scalar_epilogue with ([ I_mov 0 final_mask ]%nat ++ (pop <$> rev scalar_pairs)).
  cbn [app]. apply get_int_get in M as M'. eapply exec_cons; [eapply step_mov; exact M'|].
  set (s2' := set 0 _ s2).
  destruct (exec_pop stk srv scalar_pairs s2' top) as (s3 & E & M3 & G3 & R3 & F3).
  { subst s2'. rewrite get_set_ne, F by (done || solve_notin). rewrite G. do 3 f_equal. }
  { cbn. lia. }
  { eapply saved_keep; [|exact S]. intros j _. subst s2'. rewrite mem_set.
    apply (writes_lookup _ _ _ _ _ _ W2). naive_solver. }
  { intros q. rewrite elem_of_scalar_regs. lia. }
  exists s3. split; [done|].
  assert (forall q, (q < 19)%nat -> get q s3 = get q s2') as Hlow.
  { intros q Hq. apply F3. rewrite elem_of_cons, elem_of_scalar_regs. lia. }
  split.
  - unfold get_int. rewrite Hlow by lia. subst s2'. rewrite get_set_eq by done. cbn [mbind option_bind].
    apply (f_equal Some), mask64_ext. intros q Hq. by rewrite (proj2 (Nat.ltb_lt _ _) Hq).
  - split.
    + intros q [Hq| ->]; [|by rewrite G3].
      destruct (decide (q ∈ regs_of scalar_pairs)) as [Hin|Hnin].
      { rewrite R3 by done. rewrite srv_get; [done|]. apply elem_of_scalar_regs in Hin. lia. }
      assert (q = 18 \/ 25 <= q <= 28)%nat as Hq' by (rewrite elem_of_scalar_regs in Hnin; lia).
      rewrite F3 by (rewrite elem_of_cons, elem_of_scalar_regs; lia). subst s2'.
      rewrite get_set_ne by lia. rewrite F by solve_notin. rewrite F0; [done|].
      rewrite !elem_of_cons, elem_of_seq. lia.
    + intros o k Ho Hk. rewrite M3. subst s2'. rewrite mem_set.
      rewrite (writes_lookup _ _ _ _ _ _ W2) by naive_solver. apply (writes_lookup _ _ _ _ _ _ W). naive_solver.
    + intros cc Hc. rewrite M3. subst s2'. rewrite mem_set. eapply writes_some; [exact W2|]. eapply writes_some; [exact W|]. done.
Qed.

Lemma run_scalar_prologue s1 f :
  exec scalar_prologue s = Some s1 -> run code (length scalar_prologue + f) 0 s = run code f head_pc s1.
Proof using Hcode.
  rewrite Hcode.
  exact (run_block scalar_prologue [] (scalar_head ++ (body ++ scalar_tail) ++ [I_b loop_start; I_bind loop_end] ++
    scalar_epilogue ++ [I_ret 30]) s s1 f).
Qed.

Lemma code_end : code = (scalar_prologue ++ scalar_head ++ (body ++ scalar_tail) ++ [I_b loop_start; I_bind loop_end]) ++
  scalar_epilogue ++ [ I_ret 30 ].
Proof using Hcode. rewrite Hcode. unfold scalar_code. by rewrite <- !app_assoc. Qed.

Lemma end_pc_next :
  S (end_pc body) = length (scalar_prologue ++ scalar_head ++ (body ++ scalar_tail) ++ [I_b loop_start; I_bind loop_end]).
Proof using Type. clear. unfold end_pc. rewrite !length_app. cbn [length]. lia. Qed.

Lemma code_end_pc : code !! end_pc body = Some (I_bind loop_end).
Proof using Hcode. clear -Hcode.
  rewrite Hcode. unfold scalar_code, end_pc. rewrite !lookup_app_r by (rewrite ?length_app; cbn [length]; lia).
  rewrite !length_app. cbn [length]. by replace (_ - _ - _ - _)%nat with 1%nat by lia.
Qed.

(** The way out: the branch taken, the epilogue and the return. *)
Lemma run_scalar_exit s1 s2 s3 f sa sb v :
  loop_inv s1 64 s2 -> exec (body ++ scalar_tail) sa = Some sb ->
  exec scalar_epilogue (set_flags (Z.of_nat 64 =? 64) (64 <=? Z.of_nat 64) s2) = Some s3 -> get 30 s3 = Some v ->
  run code (3 + S (length scalar_epilogue + S f)) head_pc s2 = Done s3.
Proof using Hcode. clear -Hcode.
  intros I X E Hv. rewrite (run_head s1 64 s2) by (done || lia). cbv zeta.
  rewrite Nat.ltb_irrefl, (loop_end_pc _ _ X), (run_bind _ _ _ _ _ code_end_pc), end_pc_next.
  rewrite code_end at 1. rewrite (run_block _ _ _ _ s3) by exact E. rewrite <- code_end.
  apply (run_ret _ _ _ _ 30 v); [|exact Hv].
  rewrite code_end, !lookup_app_r by lia. by replace (_ - _ - _)%nat with 0%nat by lia.
Qed.

Lemma run_scalar_kernel fuel :
  (64 * length code <= fuel)%nat ->
  exists s', run code fuel 0 s = Done s' /\ get_int 0 s' = Some (mask64 (fun q => beval (rows q) e)) /\
    scalar_done sc stk top s s'.
Proof.
  intros Hf. destruct exec_scalar_prologue as (s1 & E1 & Henv & I1 & G & W & Sv & F).
  assert (length code = 20 + length (body ++ scalar_tail))%nat as Hlen.
  { rewrite Hcode. clear. unfold scalar_code. rewrite !length_app. cbn [length scalar_prologue scalar_head scalar_epilogue scalar_tail]. lia. }
  destruct (exec_iteration s1 0 s1 Henv ltac:(lia) I1) as (sx & X & _).
  assert (exists f, fuel = length scalar_prologue + (64 * (4 + length (body ++ scalar_tail)) +
    (3 + S (length scalar_epilogue + S f))))%nat as [f ->].
  { exists (fuel - (19 + 64 * (4 + length (body ++ scalar_tail))))%nat. rewrite Hlen in Hf. clear -Hf. cbn [length scalar_prologue scalar_epilogue]. lia. }
  destruct (run_loop s1 64 s1 (3 + S (length scalar_epilogue + S f)) Henv ltac:(lia) I1) as (s2 & E2 & I2).
  set (s2' := set_flags (Z.of_nat 64 =? 64) (64 <=? Z.of_nat 64) s2).
  destruct (exec_scalar_epilogue s1 s2' G Sv W F) as (s3 & E3 & V3 & D3); [by apply loop_inv_flags|].
  exists s3. split_and!; [|done|done].
  destruct (sr_regs _ _ _ _ _ _ _ _ Hready 30) as [v Hv]; [lia|].
  rewrite (run_scalar_prologue s1) by exact E1. rewrite E2.
  apply (run_scalar_exit s1 s2 s3 f s1 sx v I2 X E3). rewrite (sd_regs _ _ _ _ _ D3); [done|lia].
Qed.

End Kernel.
