(* ===== verification/ScalarProps.v ===== *)
(** * Properties of the scalar compiler

    The theorems about compile_scalar_expression (src/jit/compiler.cpp), and its
    agreement with the bit-sliced compiler. *)

From S2P Require Import Prelude Planes IR A64 Circuits Analyzer ExprCompiler A64Mem ExprCorrect.
From S2P Require Import ExprKernel ExprProps ScalarCompiler ScalarCorrect ScalarKernel.

(** ** Field indices

    Below 128 distinct fields the numbering is the bit-sliced compiler's. *)

Lemma scalar_assign_fields_eq l ns :
  fp_ok (assign_fields l ns) = true ->
  foldl scalar_assign_field (ns, ∅) l = (fp_nodes (assign_fields l ns), fp_idx (assign_fields l ns)).
Proof.
  unfold assign_fields. induction l as [|i l IH] using rev_ind; [done|]. rewrite !foldl_app. cbn [foldl].
  intros Hok. pose proof (assign_field_ok _ _ Hok) as Hok'. rewrite IH by done.
  set (st := foldl assign_field (mkFP ns ∅ true) l) in *. unfold assign_field in Hok |- *. rewrite Hok' in Hok |- *.
  cbn [negb] in *. unfold scalar_assign_field. cbn [fst snd].
  destruct (decide (kind (node (fp_nodes st) i) = K_LOAD)); [|done].
  destruct (fp_idx st !! field_name (node (fp_nodes st) i)) as [k|] eqn:Ek.
  - cbn [fp_nodes fp_idx]. by rewrite (lookup_total_correct _ _ _ Ek).
  - destruct (128 <=? size (fp_idx st))%nat; [done|]. cbn [fp_nodes fp_idx].
    by rewrite lookup_total_insert_eq.
Qed.

Lemma scalar_assign_fields_indexed l ns :
  length (scalar_assign_fields l ns) = length ns /\
  forall i : nat, indexed (node ns i) (node (scalar_assign_fields l ns) i).
Proof.
  unfold scalar_assign_fields. induction l as [|j l [IHl IH]] using rev_ind; [split; [done|intros; apply indexed_refl]|].
  rewrite foldl_app. cbn [foldl]. set (st := foldl scalar_assign_field (ns, ∅) l) in *.
  unfold scalar_assign_field. destruct (decide _); [|done]. cbn [fst].
  split; [by rewrite length_insert|]. by apply indexed_update.
Qed.

(** ** Slots *)

Lemma first_clear_replicate m k :
  ScratchpadManager.first_clear (replicate m true ++ false :: replicate k false) = Some m.
Proof. induction m as [|m IH]; [done|]. cbn [replicate app ScratchpadManager.first_clear]. by rewrite IH. Qed.

Lemma alloc_slot_replicate m k :
  ScratchpadManager.alloc_slot (replicate m true ++ false :: replicate k false) =
    (replicate (S m) true ++ replicate k false, Z.of_nat m).
Proof.
  unfold ScratchpadManager.alloc_slot. rewrite first_clear_replicate. f_equal.
  rewrite insert_app_r_alt by (rewrite length_replicate; lia). rewrite length_replicate, Nat.sub_diag.
  cbn [list_insert]. rewrite (replicate_S_end m true). rewrite <- app_assoc. done.
Qed.

(** After the nodes [l]: the first [m] slots are taken, one per inner node. *)
Record salloc_inv (ns0 : list Node) (l : list nat) (st : list Node * list bool) (m : nat) : Prop := {
  sa_used : snd st = replicate m true ++ replicate (ScratchpadManager.MAX_SLOTS - m) false;
  sa_count : (m <= length l)%nat;
  sa_len : length (fst st) = length ns0;
  sa_slotted : forall i, slotted (node ns0 i) (node (fst st) i);
  sa_rest : forall i, i ∉ l \/ is_leaf (kind (node ns0 i)) = true -> node (fst st) i = node ns0 i;
  sa_range : forall i, i ∈ l -> is_leaf (kind (node ns0 i)) = false -> 0 <= slot_id (node (fst st) i) < Z.of_nat m;
  sa_inj : forall i j, i ∈ l -> j ∈ l -> is_leaf (kind (node ns0 i)) = false -> is_leaf (kind (node ns0 j)) = false ->
    slot_id (node (fst st) i) = slot_id (node (fst st) j) -> i = j
}.

Lemma salloc_step ns0 l st m i :
  salloc_inv ns0 l st m -> i ∉ l -> (i < length ns0)%nat -> (length l < ScratchpadManager.MAX_SLOTS)%nat ->
  exists m', salloc_inv ns0 (l ++ [i]) (scalar_alloc_node st i) m'.
Proof.
  intros [U C L Sl R Rg J] Hni Hi Hlen. unfold scalar_alloc_node.
  assert (node (fst st) i = node ns0 i) as Ei by (apply R; by left). rewrite Ei.
  destruct (is_leaf (kind (node ns0 i))) eqn:El.
  - exists m. split; try done.
    + rewrite length_app. lia.
    + intros j [Hj|Hj]; apply R; [left; set_solver | by right].
    + intros j [Hj| ->%list_elem_of_singleton]%elem_of_app Hl; [by apply Rg|congruence].
    + intros j k [Hj| ->%list_elem_of_singleton]%elem_of_app [Hk| ->%list_elem_of_singleton]%elem_of_app Hlj Hlk; try congruence.
      by apply J.
  - rewrite U. replace (ScratchpadManager.MAX_SLOTS - m)%nat with (S (ScratchpadManager.MAX_SLOTS - S m)) by lia.
    cbn [replicate]. rewrite alloc_slot_replicate. exists (S m).
    set (n' := set_slots (Z.of_nat m) (eq_slot_id (node ns0 i)) (carry_reg (node ns0 i)) (node ns0 i)).
    assert (node (<[i := n']> (fst st)) i = n') as Eq by (apply list_lookup_total_insert_eq; lia).
    assert (forall j, j <> i -> node (<[i := n']> (fst st)) j = node (fst st) j) as Ne.
    { intros j Hj. by apply list_lookup_total_insert_ne. }
    split; cbn [fst snd].
    + reflexivity.
    + rewrite length_app. cbn [length]. lia.
    + by rewrite length_insert.
    + intros j. destruct (decide (j = i)) as [->|Hj]; [rewrite Eq | by rewrite Ne].
      by exists (Z.of_nat m), (eq_slot_id (node ns0 i)), (carry_reg (node ns0 i)).
    + intros j Hj. destruct (decide (j = i)) as [->|Hne]; [|rewrite Ne by done; apply R; set_solver].
      destruct Hj as [Hj|Hj]; [set_solver|congruence].
    + intros j [Hj| ->%list_elem_of_singleton]%elem_of_app Hl.
      * rewrite Ne by (intros ->; done). pose proof (Rg j Hj Hl). lia.
      * rewrite Eq. cbn. lia.
    + intros j k [Hj| ->%list_elem_of_singleton]%elem_of_app [Hk| ->%list_elem_of_singleton]%elem_of_app Hlj Hlk.
      * rewrite !Ne by (intros ->; done). by apply J.
      * rewrite Eq, Ne by (intros ->; done). pose proof (Rg j Hj Hlj). cbn. lia.
      * rewrite Eq, Ne by (intros ->; done). pose proof (Rg k Hk Hlk). cbn. lia.
      * done.
Qed.

Lemma salloc_all ns0 l :
  NoDup l -> Forall (fun i => (i < length ns0)%nat) l -> (length l <= ScratchpadManager.MAX_SLOTS)%nat ->
  exists m, salloc_inv ns0 l (foldl scalar_alloc_node (ns0, ScratchpadManager.init) l) m.
Proof.
  induction l as [|i l IH] using rev_ind; intros Hnd Hlt Hlen.
  - exists 0%nat. split; cbn [foldl fst snd]; try done.
    + intros i. apply slotted_refl.
    + intros i Hi. by apply not_elem_of_nil in Hi.
    + intros i j Hi. by apply not_elem_of_nil in Hi.
  - rewrite length_app in Hlen. cbn [length] in Hlen. apply NoDup_app in Hnd as (Hnd & Hd & _).
    apply Forall_app in Hlt as [Hlt Hi]. apply Forall_cons in Hi as [Hi _].
    destruct IH as [m I]; [done|done|lia|]. rewrite foldl_app. cbn [foldl].
    apply (salloc_step _ _ _ m); [exact I | intros Hin; apply (Hd i Hin); set_solver | exact Hi | lia].
Qed.

(** ** The compiled kernel *)

(** The root is visited last. *)
Lemma analyze_last fuel r st st' :
  node_map (snd st) !! r = None -> analyze fuel (Some r) st = Some st' ->
  exists l, all_nodes (snd st') = l ++ [r].
Proof.
  destruct fuel as [|fuel]; [done|]. intros Hn H. cbn [analyze] in H. rewrite Hn in H.
  destruct (fst st !! r) as [n|]; [|done]. cbn [mbind option_bind] in H.
  destruct (analyze fuel (left n) st) as [s1|]; [|done]. cbn [mbind option_bind] in H.
  destruct (analyze fuel (right n) s1) as [s2|]; [|done]. cbn [mbind option_bind] in H.
  destruct (analyze fuel (cond n) s2) as [s3|]; [|done]. cbn [mbind option_bind] in H.
  destruct (foldl _ (Some s3) (operands n)) as [[ns an]|]; [|done]. cbn [mbind option_bind] in H.
  unfold visit in H. destruct (ns !! r) as [n'|]; [|done]. injection H as <-. by eexists.
Qed.

(** Expressions without negation, the one operator this backend leaves out. *)
Fixpoint no_notA (e : aexp) : bool :=
  match e with
  | ALoad _ | AConst _ => true
  | AAdd a b | ASub a b => no_notA a && no_notA b
  | ASelect c a b => no_notB c && no_notA a && no_notA b
  end
with no_notB (e : bexp) : bool :=
  match e with
  | BCmp _ a b => no_notA a && no_notA b
  | BAnd a b | BOr a b => no_notB a && no_notB b
  | BNot _ => false
  end.

Definition den_no_not (ns : list Node) (i : nat) : Prop :=
  (exists e, denA ns i e /\ no_notA e = true) \/ (exists e, denB ns i e /\ no_notB e = true).

Lemma den_no_not_child ns i j : den_no_not ns i -> child ns i j -> den_no_not ns j.
Proof.
  intros Hd (n & Hn & Hc).
  destruct Hd as [(e & He & Hb)|(e & He & Hb)]; inversion He; simplify_eq;
    match goal with H : children _ = _ |- _ => rewrite H in Hc end;
    rewrite !elem_of_cons, elem_of_nil in Hc; cbn in Hb; rewrite ?andb_true_iff in Hb;
    unfold den_no_not; naive_solver.
Qed.

Lemma den_no_not_reach ns i j : den_no_not ns i -> reach ns i j -> den_no_not ns j.
Proof. intros Hd Hr. induction Hr as [|i k j Hc _ IH]; [done|]. apply IH. by eapply den_no_not_child. Qed.

Lemma den_no_not_kind ns i n : den_no_not ns i -> ns !! i = Some n -> kind n <> K_NOT.
Proof.
  intros [(e & He & Hb)|(e & He & Hb)] Hn; inversion He; simplify_eq; try congruence.
  match goal with H : kind n = cmp_kind ?op |- _ => rewrite H; by destruct op end.
Qed.

Lemma scalar_nodes_total ns l :
  (forall i, i ∈ l -> (exists e, denA ns i e) \/ (exists e, denB ns i e)) -> is_Some (scalar_nodes ns l).
Proof.
  induction l as [|i l IH] using rev_ind; intros H; [done|]. rewrite scalar_nodes_snoc.
  destruct IH as [code ->]; [intros; apply H; set_solver|]. cbn [mbind option_bind].
  assert (is_Some (scalar_op ns (node ns i))) as [op Hop].
  { destruct (H i) as [[e He]|[e He]]; [set_solver|..]; inversion He; subst;
      match goal with Hn : ns !! i = Some _, Hk : kind _ = _, Hch : children _ = _ |- _ =>
        rewrite (list_lookup_total_correct _ _ _ Hn); unfold scalar_op; rewrite Hk;
        apply children_fields in Hch as (_ & _ & Ec)
      end; try done; [by rewrite Ec | by destruct op]. }
  unfold scalar_node. rewrite Hop. by eexists.
Qed.

(** No leaf below [r] has a slot, as the builders leave them. *)
Definition leaves_unset (ns : list Node) (r : nat) : Prop :=
  forall j n, reach ns r j -> ns !! j = Some n -> is_leaf (kind n) = true -> slot_id n < 0.

(** What the passes give the emitter. *)
Lemma compile_scalar_ready r ns nodes :
  wf_nodes ns -> leaves_unset ns r -> (exists e, denA ns r e) \/ (exists e, denB ns r e) ->
  (forall j, reach ns r j -> j ∈ nodes) -> (length nodes <= 4096)%nat ->
  exists ns' all body,
    compile_scalar_expression (Some r) ns = (ns', Kernel (scalar_code body)) /\
    slots ns' all /\ (exists l, all = l ++ [r]) /\ (forall j, j ∈ all <-> reach ns r j) /\
    length ns' = length ns /\ (forall i : nat, keeps (node ns i) (node ns' i)) /\
    scalar_nodes ns' all = Some body /\
    (forall i, i ∈ all -> is_leaf (kind (node ns' i)) = false -> slot_id (node ns' i) < 4096).
Proof.
  intros Hwf Hlu Hd Hn Hlen. pose proof (den_lt ns r Hd) as Hr.
  destruct (analyze_init ns r Hwf Hr) as ([nsa an] & Ea & I & R). cbn [snd] in R.
  destruct (analyze_last _ _ _ _ (lookup_empty _) Ea) as [l Hl]. cbn [snd] in Hl.
  pose proof (ai_topo _ _ I) as Ht. cbn [snd] in Ht. pose proof (topo_NoDup _ _ Ht) as Hnd.
  assert (length (all_nodes an) <= 4096)%nat as Hal.
  { transitivity (length nodes); [|done]. apply submseteq_length, NoDup_submseteq; [done|]. intros j Hj. by apply Hn, R. }
  destruct (scalar_assign_fields_indexed (all_nodes an) nsa) as [Hfl Hfi].
  set (nsf := scalar_assign_fields (all_nodes an) nsa) in *.
  pose proof (analysis_length ns nsa an I) as Hla.
  destruct (salloc_all nsf (all_nodes an)) as [m A]; [done| |rewrite MAX_SLOTS_eq; lia|].
  { apply Forall_forall. intros i Hi. rewrite Hfl, Hla. by eapply topo_lt. }
  fold (scalar_alloc_nodes (all_nodes an) nsf) in A.
  set (st := foldl scalar_alloc_node (nsf, ScratchpadManager.init) (all_nodes an)) in *.
  assert (forall i : nat, keeps (node ns i) (node st.1 i) /\ kind (node st.1 i) = kind (node nsf i)) as Hk.
  { intros i. destruct (sa_slotted _ _ _ _ A i) as (s & e & c & E & He). destruct (Hfi i) as [v Ev].
    destruct (analysis_analyzed ns nsa an I i) as (x & y & Ex).
    rewrite E, Ev, Ex. rewrite Ev, Ex in He. done. }
  assert (length st.1 = length ns) as Hls by (rewrite (sa_len _ _ _ _ A), Hfl; done).
  assert (forall i, i ∈ all_nodes an -> (exists e, denA st.1 i e) \/ (exists e, denB st.1 i e)) as Hden.
  { destruct (den_core ns st.1) as [HA HB].
    - intros j n Hj. destruct (keeps_lookup ns st.1 j n Hls (fun i => proj1 (Hk i)) Hj) as (n' & Hn' & Hc & _). eauto.
    - intros i Hi. destruct (den_reach ns r i Hd (proj1 (R i) Hi)) as [[e He]|[e He]]; [left|right]; eauto. }
  destruct (scalar_nodes_total st.1 (all_nodes an) Hden) as [body Hbody].
  exists st.1, (all_nodes an), body. split_and!.
  - unfold compile_scalar_expression. rewrite Ea. cbv zeta. fold nsf.
    change (scalar_alloc_nodes (all_nodes an) nsf) with st.1. by rewrite Hbody.
  - split.
    + eapply topo_keeps; [done|intros; apply Hk|done].
    + intros i Hi. destruct (Hk i) as [_ ->]. intros Hlf. pose proof (sa_range _ _ _ _ A i Hi Hlf).
      pose proof (sa_count _ _ _ _ A). lia.
    + intros i j Hi Hj. destruct (Hk i) as [_ ->], (Hk j) as [_ ->]. by apply (sa_inj _ _ _ _ A).
    + intros i Hi Hlf. destruct (Hk i) as [_ Ek]. rewrite Ek in Hlf.
      rewrite (sa_rest _ _ _ _ A) by (by right). destruct (Hfi i) as [v Ev].
      destruct (analysis_analyzed ns nsa an I i) as (x & y & Ex). rewrite Ev, Ex. cbn.
      rewrite Ev, Ex in Hlf. cbn in Hlf.
      apply (Hlu i (node ns i)); [by apply R | | done]. apply list_lookup_lookup_total_lt. by eapply topo_lt.
  - by exists l.
  - done.
  - done.
  - intros i. apply Hk.
  - done.
  - intros i Hi Hlf. destruct (Hk i) as [_ Ek]. rewrite Ek in Hlf. pose proof (sa_range _ _ _ _ A i Hi Hlf).
    pose proof (sa_count _ _ _ _ A). lia.
Qed.

Lemma scalar_mask_kernel r ns nodes e :
  wf_nodes ns -> leaves_unset ns r -> denB ns r e -> no_notB e = true ->
  (forall j, reach ns r j -> j ∈ nodes) -> (length nodes <= 4096)%nat ->
  exists ns' code, compile_scalar_expression (Some r) ns = (ns', Kernel code) /\
    forall rows sc fp stk top s fuel,
      scalar_ready ns' r rows sc fp stk top s -> (64 * length code <= fuel)%nat ->
      exists s', run code fuel 0 s = Done s' /\
        get_int 0 s' = Some (mask64 (fun q => beval (rows q) e)) /\ scalar_done sc stk top s s'.
Proof.
  intros Hwf Hlu He Hnn Hn Hlen.
  destruct (compile_scalar_ready r ns nodes Hwf Hlu (or_intror (ex_intro _ e He)) Hn Hlen)
    as (ns' & all & body & Hc & Hs & Hl & Hall & Hll & Hk & Hb & _).
  exists ns', (scalar_code body). split; [done|]. intros rows sc fp stk top s fuel Hready Hf.
  destruct (den_core ns ns') as [HA HB].
  { intros j n Hj. destruct (keeps_lookup ns ns' j n Hll Hk Hj) as (n' & Hn' & Hcc & _). eauto. }
  assert (forall i, i ∈ all -> den_no_not ns i) as Hd.
  { intros i Hi. apply (den_no_not_reach ns r); [right; eauto | by apply Hall]. }
  eapply (run_scalar_kernel ns' all r rows sc fp stk top s body e); try done.
  - intros j Hj. eapply reach_keeps; [done|done|]. by apply Hall.
  - intros i Hi. destruct (Hk i) as ((-> & _)%core_eq & _).
    pose proof (den_lt ns i) as Hlt. apply (den_no_not_kind ns i); [by apply Hd|]. apply list_lookup_lookup_total_lt, Hlt.
    destruct (Hd i Hi) as [(e' & He' & _)|(e' & He' & _)]; eauto.
  - intros i Hi. destruct (Hd i Hi) as [(e' & He' & _)|(e' & He' & _)]; eauto.
  - by apply HB.
Qed.

(** ** Properties *)

(** C23: compile_scalar_expression compiles every graph of at most 4096 nodes
    that denotes a boolean expression without negation, and its kernel, called
    on arrays that hold 64 rows, terminates without a fault and returns the mask
    whose bit [q] is the expression's value on row [q] (subtraction included,
    modulo 2^64); callee-saved registers and the stack pointer are restored and
    memory outside the scratch memory and the stack frame is unchanged.  64 steps
    of fuel per instruction are enough. *)
Theorem compile_scalar_expression_mask r ns nodes e :
  wf_nodes ns -> leaves_unset ns r -> denB ns r e -> no_notB e = true ->
  (forall j, reach ns r j -> j ∈ nodes) -> (length nodes <= 4096)%nat ->
  exists ns' code, compile_scalar_expression (Some r) ns = (ns', Kernel code) /\
    forall rows sc fp stk top s fuel,
      scalar_ready ns' r rows sc fp stk top s -> (64 * length code <= fuel)%nat ->
      exists s', run code fuel 0 s = Done s' /\
        get_int 0 s' = Some (mask64 (fun q => beval (rows q) e)) /\ scalar_done sc stk top s s'.
Proof. apply scalar_mask_kernel. Qed.

Definition leaves_unsetb : list Node -> bool :=
  all_nodesb (fun _ n => negb (is_leaf (kind n)) || (slot_id n <? 0)).

Lemma leaves_unsetb_spec ns r : leaves_unsetb ns = true -> leaves_unset ns r.
Proof.
  intros H j n _ Hn Hl. pose proof (all_nodesb_spec _ _ _ _ H Hn) as Hb. cbv beta in Hb.
  rewrite Hl in Hb. by apply Z.ltb_lt in Hb.
Qed.

Lemma reach_below ns r j : wf_nodes ns -> reach ns r j -> j ∈ seq 0 (S r).
Proof. intros Hwf Hj. apply elem_of_seq. pose proof (reach_le ns r j Hwf Hj). lia. Qed.

(** The example [price - qty = 0], on the arrays of its fields. *)
Definition scalar_demo (fields : list string) (rows : nat -> string -> Z) : state :=
  demo_caller (fun i => rows (i mod 64)%nat (default "" (fields !! (i / 64)%nat))).

Lemma scalar_demo_ready ns r fields rows :
  (forall q f, u64 (rows q f)) -> (length fields <= 16)%nat ->
  (forall j : nat, reach ns r j -> kind (node ns j) = K_LOAD ->
     exists k, fields !! k = Some (field_name (node ns j)) /\ field_idx (node ns j) = Z.of_nat k) ->
  scalar_ready ns r rows 1 2 4 16 (scalar_demo fields rows).
Proof.
  intros Hrows Hlen Hf. unfold scalar_demo.
  destruct (demo_mem_cells (fun i => rows (i mod 64)%nat (default "" (fields !! (i / 64)%nat)))) as (C1 & C4 & C2 & C3).
  split; [reflexivity | reflexivity | reflexivity | lia | | discriminate | discriminate | discriminate | | | done |].
  - intros q Hq. unfold get. rewrite decide_False by lia. by apply demo_rf_some.
  - exact C1.
  - intros k Hk. apply C4. lia.
  - intros j Hj Hk. destruct (Hf j Hj Hk) as (k & Hn & ->).
    assert (k < 16)%nat as Hk16 by (apply lookup_lt_Some in Hn; lia).
    exists 3%nat, (64 * Z.of_nat k). split; [lia|].
    split; [by apply C2|split; [unfold small; lia|split; [discriminate|split; [discriminate|]]]].
    intros b Hb. cbn [mem demo_caller]. rewrite C3 by done. do 2 f_equal.
    replace ((k * 64 + b) / 64)%nat with k by (rewrite Nat.div_add_l, Nat.div_small by lia; lia).
    replace ((k * 64 + b) mod 64)%nat with b by (rewrite Nat.add_comm, Nat.Div0.mod_add, Nat.mod_small by lia; lia).
    by rewrite Hn.
Qed.

Definition scalar_sub_out := compile_scalar_expression (Some 4%nat) sub_nodes.

Lemma scalar_sub_ready :
  scalar_ready scalar_sub_out.1 4 demo_rows 1 2 4 16 (scalar_demo ["price"; "qty"] demo_rows).
Proof.
  apply scalar_demo_ready; [apply demo_rows_u64 | simpl; lia |].
  apply reach_fields; [by vm_compute | by vm_compute | apply Nat.ltb_lt; by vm_compute].
Qed.

Lemma compile_scalar_expression_mask_witness :
  exists s', run (kernel_of scalar_sub_out.2) 4000 0 (scalar_demo ["price"; "qty"] demo_rows) = Done s' /\
    get_int 0 s' = Some (mask64 (fun q => beval (demo_rows q) sub_bexp)) /\
    scalar_done 1 4 16 (scalar_demo ["price"; "qty"] demo_rows) s'.
Proof.
  destruct (compile_scalar_expression_mask 4 sub_nodes (seq 0 5) sub_bexp) as (ns' & code & Hc & Hrun).
  - apply wf_nodesb_spec. by vm_compute.
  - apply leaves_unsetb_spec. by vm_compute.
  - apply sub_den.
  - reflexivity.
  - intros j. apply reach_below. apply wf_nodesb_spec. by vm_compute.
  - cbn. lia.
  - unfold scalar_sub_out. rewrite Hc. apply (Hrun demo_rows 1%nat 2%nat 4%nat 16).
    + pose proof scalar_sub_ready as H. unfold scalar_sub_out in H. rewrite Hc in H. exact H.
    + replace code with (kernel_of scalar_sub_out.2) by (unfold scalar_sub_out; by rewrite Hc).
      apply Nat.leb_le. by vm_compute.
Defined.

(** C24: on expressions with neither subtraction nor negation the two backends
    agree: called on the same 64 rows, as planes and as arrays, the bit-sliced
    and the scalar kernel return the same mask. *)
Theorem backends_agree r ns nodes pools ns1 pools1 code1 ns2 code2 e rows sc1 fp1 stk1 top1 s1 fuel1 sc2 fp2 stk2 top2 s2 fuel2 :
  wf_nodes ns -> ConstPool.wf pools -> clean ns r -> leaves_unset ns r ->
  denB ns r e -> no_subB e = true -> no_notB e = true ->
  (forall j, reach ns r j -> j ∈ nodes) -> (length nodes <= 4096)%nat ->
  compile_expression (Some r) 64 ns pools = (ns1, pools1, Kernel code1) ->
  compile_scalar_expression (Some r) ns = (ns2, Kernel code2) ->
  kernel_ready ns1 r rows sc1 fp1 stk1 top1 s1 -> (length code1 <= fuel1)%nat ->
  scalar_ready ns2 r rows sc2 fp2 stk2 top2 s2 -> (64 * length code2 <= fuel2)%nat ->
  exists s1' s2' m, run code1 fuel1 0 s1 = Done s1' /\ run code2 fuel2 0 s2 = Done s2' /\
    get_int 0 s1' = Some m /\ get_int 0 s2' = Some m.
Proof.
  intros Hwf Hp Hcl Hlu He Hns Hnn Hn Hlen Hc1 Hc2 Hr1 Hf1 Hr2 Hf2.
  destruct (run_mask_kernel r ns pools ns1 pools1 code1 rows sc1 fp1 stk1 top1 s1 e fuel1) as (s1' & E1 & V1 & _); try done.
  destruct (scalar_mask_kernel r ns nodes e) as (ns' & code & Hc & Hrun); try done.
  rewrite Hc in Hc2. injection Hc2 as -> ->.
  destruct (Hrun rows sc2 fp2 stk2 top2 s2 fuel2 Hr2 Hf2) as (s2' & E2 & V2 & _).
  exists s1', s2', (mask64 (fun q => beval (rows q) e)). split_and!; try done.
  rewrite V1. unfold MB. apply (f_equal Some), mask64_ext. intros q _. by apply lane_no_sub.
Qed.

(** The example of both: [price + qty > 300 && price >= 99]. *)
Definition agree_nodes : list Node :=
  let '(g, a) := Load true "price" None in
  let '(g, b) := Load true "qty" g in
  let '(g, d) := Add true a b g in
  let '(g, z) := Const true 150 g in
  let '(g, _) := GT true d z g in pool_of g.

Definition agree_bexp : bexp := BCmp C_GT (AAdd (ALoad "price") (ALoad "qty")) (AConst 150).

Lemma agree_den : denB agree_nodes 4 agree_bexp.
Proof.
  eapply (denB_cmp _ C_GT _ _ 2 3); [reflexivity.. | |].
  - eapply (denA_add _ _ _ 0 1); [reflexivity.. | |].
    + exact (denA_load agree_nodes 0 _ eq_refl eq_refl eq_refl).
    + exact (denA_load agree_nodes 1 _ eq_refl eq_refl eq_refl).
  - exact (denA_const agree_nodes 3 _ eq_refl eq_refl eq_refl).
Qed.

Definition agree_out := compile_expression (Some 4%nat) 64 agree_nodes ∅.
Definition agree_scalar := compile_scalar_expression (Some 4%nat) agree_nodes.

Lemma agree_ready : kernel_ready agree_out.1.1 4 demo_rows 1 2 4 16 (demo_call ["price"; "qty"] demo_rows).
Proof.
  apply demo_ready; [apply demo_rows_u64 | simpl; lia |].
  apply reach_fields; [by vm_compute | by vm_compute | apply Nat.ltb_lt; by vm_compute].
Qed.

Lemma agree_scalar_ready :
  scalar_ready agree_scalar.1 4 demo_rows 1 2 4 16 (scalar_demo ["price"; "qty"] demo_rows).
Proof.
  apply scalar_demo_ready; [apply demo_rows_u64 | simpl; lia |].
  apply reach_fields; [by vm_compute | by vm_compute | apply Nat.ltb_lt; by vm_compute].
Qed.

Lemma scalar_out_eq r ns :
  is_kernel (compile_scalar_expression r ns).2 = true ->
  compile_scalar_expression r ns =
    ((compile_scalar_expression r ns).1, Kernel (kernel_of (compile_scalar_expression r ns).2)).
Proof. destruct (compile_scalar_expression r ns) as [ns' k]. cbn. by intros <-%is_kernel_of. Qed.

Lemma backends_agree_witness :
  exists s1' s2' m,
    run (kernel_of agree_out.2) 3000 0 (demo_call ["price"; "qty"] demo_rows) = Done s1' /\
    run (kernel_of agree_scalar.2) 4000 0 (scalar_demo ["price"; "qty"] demo_rows) = Done s2' /\
    get_int 0 s1' = Some m /\ get_int 0 s2' = Some m.
Proof.
  apply (backends_agree 4 agree_nodes (seq 0 5) ∅ agree_out.1.1 agree_out.1.2 (kernel_of agree_out.2)
    agree_scalar.1 (kernel_of agree_scalar.2) agree_bexp demo_rows 1 2 4 16 _ _ 1 2 4 16).
  - apply wf_nodesb_spec. by vm_compute.
  - apply pools_empty_wf.
  - apply cleanb_spec. by vm_compute.
  - apply leaves_unsetb_spec. by vm_compute.
  - apply agree_den.
  - reflexivity.
  - reflexivity.
  - intros j. apply reach_below. apply wf_nodesb_spec. by vm_compute.
  - cbn. lia.
  - apply out_eq. by vm_compute.
  - apply scalar_out_eq. by vm_compute.
  - apply agree_ready.
  - apply Nat.leb_le. by vm_compute.
  - apply agree_scalar_ready.
  - apply Nat.leb_le. by vm_compute.
Defined.

(** The graph of [not (price > 100)], and a caller with two scratch cells. *)
Definition not_nodes : list Node :=
  let '(g, a) := Load true "price" None in
  let '(g, b) := Const true 100 g in
  let '(g, c) := GT true a b g in
  let '(g, _) := Not true c g in pool_of g.

Definition not_caller : state :=
  mk_machine
    ([(0, Ptr 2 0); (1, Ptr 1 0); (32, Ptr 4 (8 * 16))]%nat ++ ((fun q => (q, Int 7)) <$> seq 18 13))
    (object 1 2 (fun _ => 0) ++ ((2%nat, 0), Ptr 3 0) :: object 3 64 (fun q => demo_rows q "price") ++
     object 4 16 (fun _ => 0)).

Definition result_mask (o : outcome) : option Z :=
  match o with Done s => get_int 0 s | _ => None end.

(** The scalar backend ignores a negation: the graph of [not (price > 100)]
    denotes the negation, and its kernel returns the mask of [price > 100]. *)
Theorem scalar_not_ignored :
  let e := BNot (BCmp C_GT (ALoad "price") (AConst 100)) in
  denB not_nodes 3 e /\
  result_mask (run (kernel_of (compile_scalar_expression (Some 3%nat) not_nodes).2) 4000 0 not_caller) =
    Some (mask64 (fun q => negb (beval (demo_rows q) e))).
Proof.
  split.
  - eapply (denB_not _ _ _ 2); [reflexivity.. |]. eapply (denB_cmp _ C_GT _ _ 0 1); [reflexivity.. | |].
    + exact (denA_load not_nodes 0 _ eq_refl eq_refl eq_refl).
    + exact (denA_const not_nodes 1 _ eq_refl eq_refl eq_refl).
  - by vm_compute.
Qed.
