(* ===== verification/KernelCall.v ===== *)
(** * Calling a compiled kernel
      (the [KernelFunc]/[ExprKernelFunc] pointers of include/apex/jit/compiler.hpp)

    The engine and the parallel runner hold a kernel as a function pointer and
    call it with an array of pointers to the fields' buffers and the scratch
    memory.  [call_kernel] is that call: it lays the arguments out as objects of
    the machine, runs the emitted code, and reads the result and the scratch
    memory back.  [KernelSpec] is what a compiled kernel promises its callers;
    its instances discharge it for both backends, and the theorems about the
    callers use nothing else. *)

From S2P Require Import Prelude Planes IR A64 Circuits Analyzer ExprCompiler A64Mem ExprCorrect.
From S2P Require Import ExprKernel ScalarCompiler ScalarCorrect ScalarKernel ScalarProps.

Inductive ExecutionMode := BIT_SLICED | SCALAR | GPU_THROUGHPUT.

#[export] Instance ExecutionMode_eq_dec : EqDecision ExecutionMode.
Proof. solve_decision. Defined.

(** ** The call *)

Abbreviation buffer := (list Z).

(** A pointer of the array: null, or the buffer it designates. *)
Abbreviation field_ptr := (option buffer).

(** Object 1 is the scratch memory, 2 the array of pointers, 3 the stack frame,
    10 + i the buffer of field i. *)
Definition kernel_cells (planes : list field_ptr) (scratch : list Z) : list ((nat * Z) * val) :=
  object 1 (length scratch) (fun k => scratch !!! k) ++
  imap (fun i p => ((2%nat, Z.of_nat i), match p with Some _ => Ptr (10 + i) 0 | None => Int 0 end)) planes ++
  object 3 16 (fun _ => 0) ++
  mjoin (imap (fun i p => match p with Some P => object (10 + i) (length P) (fun b => P !!! b) | None => [] end) planes).

Definition kernel_regs_in : list (nat * val) :=
  [(0, Ptr 2 0); (1, Ptr 1 0); (32, Ptr 3 (8 * 16))]%nat ++ ((fun q => (q, Int 0)) <$> seq 18 13).

Definition kernel_state (planes : list field_ptr) (scratch : list Z) : state :=
  mk_machine kernel_regs_in (kernel_cells planes scratch).

(** A word of the scratch memory after the call; the kernels store integers only. *)
Definition word_of (v : option val) : Z := match v with Some (Int z) => z | _ => 0 end.

(** [None] is a fault. *)
Definition call_kernel (code : list instr) (planes : list field_ptr) (scratch : list Z) : option (Z * list Z) :=
  match run code (64 * length code) 0 (kernel_state planes scratch) with
  | Done s =>
      r ← get_int 0 s;
      Some (r, (fun k => word_of (mem s !! (1%nat, Z.of_nat k))) <$> seq 0 (length scratch))
  | _ => None
  end.

(** ** The machine a call starts from *)

Lemma elem_of_object b n f o k v :
  ((o, k), v) ∈ object b n f <-> o = b /\ exists i, (i < n)%nat /\ k = Z.of_nat i /\ v = Int (f i).
Proof.
  unfold object. rewrite list_elem_of_fmap. split.
  - intros (i & [= -> -> ->] & Hi%elem_of_seq). split; [done|]. exists i. split_and!; [lia|done..].
  - intros (-> & i & Hi & -> & ->). exists i. split; [done|]. apply elem_of_seq. lia.
Qed.

Lemma elem_of_pointers (planes : list field_ptr) o k v :
  ((o, k), v) ∈ imap (fun i p => ((2%nat, Z.of_nat i), match p with Some _ => Ptr (10 + i) 0 | None => Int 0 end)) planes <->
  o = 2%nat /\ exists i p, planes !! i = Some p /\ k = Z.of_nat i /\
    v = match p with Some _ => Ptr (10 + i) 0 | None => Int 0 end.
Proof.
  rewrite elem_of_lookup_imap. split.
  - intros (i & p & [= -> -> ->] & Hp). split; [done|]. by exists i, p.
  - intros (-> & i & p & Hp & -> & ->). by exists i, p.
Qed.

Lemma elem_of_buffers (planes : list field_ptr) o k v :
  ((o, k), v) ∈ mjoin (imap (fun i p => match p with
      Some P => object (10 + i) (length P) (fun b => P !!! b) | None => [] end) planes) <->
  exists i P b, planes !! i = Some (Some P) /\ (b < length P)%nat /\ o = (10 + i)%nat /\ k = Z.of_nat b /\ v = Int (P !!! b).
Proof.
  rewrite list_elem_of_join. split.
  - intros (l & Hin & (i & p & -> & Hp)%elem_of_lookup_imap). destruct p as [P|]; [|by apply not_elem_of_nil in Hin].
    apply elem_of_object in Hin as (-> & b & Hb & -> & ->). by exists i, P, b.
  - intros (i & P & b & Hp & Hb & -> & -> & ->). eexists. split; [|apply elem_of_lookup_imap; by exists i, (Some P)].
    apply elem_of_object. split; [done|]. by exists b.
Qed.

Lemma elem_of_cells planes scratch o k v :
  ((o, k), v) ∈ kernel_cells planes scratch <->
  (o = 1%nat /\ exists i, (i < length scratch)%nat /\ k = Z.of_nat i /\ v = Int (scratch !!! i)) \/
  (o = 2%nat /\ exists i p, planes !! i = Some p /\ k = Z.of_nat i /\
     v = match p with Some _ => Ptr (10 + i) 0 | None => Int 0 end) \/
  (o = 3%nat /\ exists i, (i < 16)%nat /\ k = Z.of_nat i /\ v = Int 0) \/
  (exists i P b, planes !! i = Some (Some P) /\ (b < length P)%nat /\ o = (10 + i)%nat /\ k = Z.of_nat b /\ v = Int (P !!! b)).
Proof. unfold kernel_cells. rewrite !elem_of_app, !elem_of_object, elem_of_pointers, elem_of_buffers. done. Qed.

(** Every listed cell is in memory, with the listed value. *)
Lemma kernel_mem_cell planes scratch o k v :
  ((o, k), v) ∈ kernel_cells planes scratch -> mem (kernel_state planes scratch) !! (o, k) = Some v.
Proof.
  intros Hin. cbn [kernel_state mk_machine mem]. apply elem_of_list_to_map_1'; [|done].
  intros w Hw. apply elem_of_cells in Hin, Hw.
  destruct Hin as [(-> & i & Hi & -> & ->)|[(-> & i & p & Hp & -> & ->)|[(-> & i & Hi & -> & ->)|(i & P & b & Hp & Hb & -> & -> & ->)]]];
    destruct Hw as [(Ho & i' & Hi' & Hk & ->)|[(Ho & i' & p' & Hp' & Hk & ->)|[(Ho & i' & Hi' & Hk & ->)|(i' & P' & b' & Hp' & Hb' & Ho & Hk & ->)]]];
    try (exfalso; lia); try done.
  - by replace i' with i by lia.
  - replace i' with i in * by lia. by simplify_eq.
  - replace i' with i in * by lia. replace b' with b by lia. by simplify_eq.
Qed.

Lemma kernel_state_regs planes scratch :
  get 0 (kernel_state planes scratch) = Some (Ptr 2 0) /\ get 1 (kernel_state planes scratch) = Some (Ptr 1 0) /\
  get sp (kernel_state planes scratch) = Some (Ptr 3 (8 * 16)) /\
  forall q, (19 <= q <= 30)%nat -> is_Some (get q (kernel_state planes scratch)).
Proof.
  split_and!; [reflexivity..|]. intros q Hq. unfold get. rewrite decide_False by lia.
  assert (forallb (fun q => bool_decide (is_Some ((list_to_map kernel_regs_in : gmap nat val) !! q))) (seq 19 12) = true)
    as Hb by (by vm_compute).
  rewrite forallb_forall in Hb. eapply bool_decide_eq_true. apply Hb, in_seq. lia.
Qed.

(** ** The promise of a kernel

    [reads i f]: the kernel reads field [f] through pointer [i]. *)

Definition inputs (mode : ExecutionMode) (planes : list field_ptr) (reads : nat -> string -> Prop)
    (rows : nat -> string -> Z) : Prop :=
  forall i f, reads i f -> exists P, planes !! i = Some (Some P) /\ length P = 64%nat /\
    forall b, (b < 64)%nat -> P !!! b = if decide (mode = SCALAR) then rows b f else plane_of (fun q => rows q f) b.

(** Called on the buffers of 64 rows, the kernel returns, and the result and the
    scratch memory satisfy [post]. *)
Class KernelSpec (mode : ExecutionMode) (code : list instr) (reads : nat -> string -> Prop)
    (post : (nat -> string -> Z) -> Z -> list Z -> Prop) : Prop :=
  kernel_spec : forall planes scratch rows,
    (forall q f, u64 (rows q f)) -> inputs mode planes reads rows -> 32768 <= Z.of_nat (length scratch) ->
    exists r scratch', call_kernel code planes scratch = Some (r, scratch') /\
      length scratch' = length scratch /\ post rows r scratch'.

(** Fields read by the nodes below [r] of an annotated pool. *)
Definition node_reads (ns : list Node) (r : nat) (i : nat) (f : string) : Prop :=
  exists j : nat, reach ns r j /\ kind (node ns j) = K_LOAD /\ field_idx (node ns j) = Z.of_nat i /\
    field_name (node ns j) = f.

Lemma fields_some planes ns r mode rows j :
  inputs mode planes (node_reads ns r) rows -> reach ns r j -> kind (node ns j) = K_LOAD ->
  0 <= field_idx (node ns j) ->
  exists P, planes !! Z.to_nat (field_idx (node ns j)) = Some (Some P) /\ length P = 64%nat /\
    forall b, (b < 64)%nat -> P !!! b =
      if decide (mode = SCALAR) then rows b (field_name (node ns j)) else plane_of (fun q => rows q (field_name (node ns j))) b.
Proof.
  intros Hin Hj Hk Hi. apply (Hin (Z.to_nat (field_idx (node ns j))) (field_name (node ns j))).
  exists j. split_and!; [done|done|lia|done].
Qed.

(** The pointer cell and the buffer cells of a field. *)
Lemma buffer_cells planes scratch k P :
  0 <= k -> planes !! Z.to_nat k = Some (Some P) -> length P = 64%nat ->
  mem (kernel_state planes scratch) !! (2%nat, k) = Some (Ptr (10 + Z.to_nat k) (8 * 0)) /\
  forall b, (b < 64)%nat ->
    mem (kernel_state planes scratch) !! ((10 + Z.to_nat k)%nat, 0 + Z.of_nat b) = Some (Int (P !!! b)).
Proof.
  intros Hk HP Hl. split.
  - apply kernel_mem_cell, elem_of_cells. right; left. split; [done|]. exists (Z.to_nat k), (Some P).
    split_and!; [done|lia|done].
  - intros b Hb. apply kernel_mem_cell, elem_of_cells. right; right; right. exists (Z.to_nat k), P, b.
    split_and!; [done|lia|done|lia|done].
Qed.

Lemma scratch_cells planes scratch k :
  32768 <= Z.of_nat (length scratch) -> 0 <= k < 32768 -> is_Some (mem (kernel_state planes scratch) !! (1%nat, k)).
Proof.
  intros Hl Hk. exists (Int (scratch !!! Z.to_nat k)). apply kernel_mem_cell, elem_of_cells. left. split; [done|].
  exists (Z.to_nat k). split_and!; [lia|lia|done].
Qed.

Lemma stack_cells planes scratch k : 0 <= k < 16 -> is_Some (mem (kernel_state planes scratch) !! (3%nat, k)).
Proof.
  intros Hk. exists (Int 0). apply kernel_mem_cell, elem_of_cells. right; right; left. split; [done|].
  exists (Z.to_nat k). split_and!; [lia|lia|done].
Qed.

Lemma kernel_state_ready ns r rows planes scratch :
  (forall q f, u64 (rows q f)) -> 32768 <= Z.of_nat (length scratch) ->
  inputs BIT_SLICED planes (node_reads ns r) rows ->
  (forall j : nat, reach ns r j -> kind (node ns j) = K_LOAD -> 0 <= field_idx (node ns j)) ->
  kernel_ready ns r rows 1 2 3 16 (kernel_state planes scratch).
Proof.
  intros Hr Hl Hin Hidx. destruct (kernel_state_regs planes scratch) as (R0 & R1 & Rs & Rr).
  split; try done; try lia.
  - intros k Hk. by apply scratch_cells.
  - intros k Hk. apply stack_cells. lia.
  - intros j Hj Hk. pose proof (Hidx j Hj Hk) as Hi.
    destruct (fields_some _ _ _ _ _ _ Hin Hj Hk Hi) as (P & HP & HPl & HPv).
    destruct (buffer_cells planes scratch _ P Hi HP HPl) as [C1 C2].
    exists (10 + Z.to_nat (field_idx (node ns j)))%nat, 0.
    refine (conj C1 (conj _ (conj _ (conj _ _)))); [unfold small; lia|lia|lia|].
    intros b Hb. rewrite C2 by done. do 2 f_equal. rewrite HPv by done. done.
Qed.

Lemma scalar_state_ready ns r rows planes scratch :
  (forall q f, u64 (rows q f)) -> 32768 <= Z.of_nat (length scratch) ->
  inputs SCALAR planes (node_reads ns r) rows ->
  (forall j : nat, reach ns r j -> kind (node ns j) = K_LOAD -> 0 <= field_idx (node ns j) < 128) ->
  scalar_ready ns r rows 1 2 3 16 (kernel_state planes scratch).
Proof.
  intros Hr Hl Hin Hidx. destruct (kernel_state_regs planes scratch) as (R0 & R1 & Rs & Rr).
  split; try done; try lia.
  - intros k Hk. by apply scratch_cells.
  - intros k Hk. apply stack_cells. lia.
  - intros j Hj Hk. pose proof (Hidx j Hj Hk) as Hi.
    destruct (fields_some _ _ _ _ _ _ Hin Hj Hk (proj1 Hi)) as (P & HP & HPl & HPv).
    destruct (buffer_cells planes scratch _ P (proj1 Hi) HP HPl) as [C1 C2].
    exists (10 + Z.to_nat (field_idx (node ns j)))%nat, 0.
    refine (conj Hi (conj C1 (conj _ (conj _ (conj _ _))))); [unfold small; lia|lia|lia|].
    intros b Hb. rewrite C2 by done. do 2 f_equal. rewrite HPv by done. done.
Qed.

(** ** The instances *)

(** A run that ends is a call that returns. *)
Lemma call_kernel_done code planes scratch s r :
  run code (64 * length code) 0 (kernel_state planes scratch) = Done s -> get_int 0 s = Some r ->
  exists scratch', call_kernel code planes scratch = Some (r, scratch') /\ length scratch' = length scratch /\
    forall k z, 0 <= k < Z.of_nat (length scratch) -> mem s !! (1%nat, k) = Some (Int z) -> scratch' !!! Z.to_nat k = z.
Proof.
  intros E R. unfold call_kernel. rewrite E, R. cbn [mbind option_bind]. eexists. split; [done|].
  split; [by rewrite length_fmap, length_seq|]. intros k z Hk Hm. apply list_lookup_total_correct.
  rewrite list_lookup_fmap, lookup_seq_lt by lia. cbn [fmap option_fmap option_map Nat.add].
  by rewrite Z2Nat.id, Hm by lia.
Qed.

Section BitSliced.
Variables (r : nat) (ns : list Node) (pools : ConstPool.t) (ns' : list Node) (pools' : ConstPool.t) (code : list instr).
Hypothesis Hwf : wf_nodes ns.
Hypothesis Hp : ConstPool.wf pools.
Hypothesis Hr : (r < length ns)%nat.
Hypothesis Hcomp : compile_expression (Some r) 64 ns pools = (ns', pools', Kernel code).

Lemma bit_sliced_idx j : reach ns' r j -> kind (node ns' j) = K_LOAD -> 0 <= field_idx (node ns' j) < 128.
Proof using Hwf Hp Hr Hcomp.
  destruct (compile_expression_layout r 64 ns pools ns' pools' code Hwf Hr Hp Hcomp)
    as (all & ini & body & c & Hlay & Hall & Hlen & Hk & _).
  intros Hj. apply (ly_idx _ _ Hlay). apply Hall. eapply (reach_keeps ns' ns); [done| |done].
  intros i. destruct (Hk i) as (H1 & H2 & H3). split_and!; [done|done|]. intros Hc. symmetry. apply H3.
  destruct (core_eq _ _ H1) as (<- & _). done.
Qed.

#[export] Instance mask_kernel_spec e :
  clean ns r -> denB ns r e -> no_subB e = true ->
  KernelSpec BIT_SLICED code (node_reads ns' r) (fun rows m _ => m = mask64 (fun q => beval (rows q) e)).
Proof using Hwf Hp Hr Hcomp.
  intros Hcl He Hns planes scratch rows Hrows Hin Hl.
  destruct (run_mask_kernel r ns pools ns' pools' code rows 1 2 3 16 (kernel_state planes scratch) e (64 * length code))
    as (s & E & V & D); try done.
  { apply kernel_state_ready; try done. intros j Hj Hk. by apply bit_sliced_idx. }
  { lia. }
  destruct (call_kernel_done code planes scratch s _ E V) as (scratch' & C & L & _).
  do 2 eexists. split_and!; [exact C|done|]. apply mask64_ext. intros q _. by apply lane_no_sub.
Qed.

#[export] Instance planes_kernel_spec e :
  clean ns r -> denA ns r e -> no_subA e = true -> is_leaf (kind (node ns r)) = false ->
  KernelSpec BIT_SLICED code (node_reads ns' r)
    (fun rows _ sc => forall b, (b < 64)%nat -> sc !!! b = plane_of (fun q => aeval (rows q) e) b).
Proof using Hwf Hp Hr Hcomp.
  intros Hcl He Hns Hleaf planes scratch rows Hrows Hin Hl.
  destruct (run_planes_kernel r ns pools ns' pools' code rows 1 2 3 16 (kernel_state planes scratch) e (64 * length code))
    as (s & E & V & P & D); try done.
  { apply kernel_state_ready; try done. intros j Hj Hk. by apply bit_sliced_idx. }
  { lia. }
  destruct (call_kernel_done code planes scratch s _ E V) as (scratch' & C & L & M).
  do 2 eexists. split_and!; [exact C|done|]. intros b Hb. rewrite <- (Nat2Z.id b) at 1.
  rewrite (M (Z.of_nat b) (PA rows e b)); [|lia|by apply P]. unfold PA. apply mask64_ext.
  intros q _. by rewrite (proj1 (lane_no_sub q (rows q)) e).
Qed.

#[export] Instance skipped_kernel_spec :
  kernel_graph ns r -> skip_jit (node ns r) = true ->
  KernelSpec BIT_SLICED code (node_reads ns' r)
    (fun rows _ sc => forall i e, reach ns r i -> denB ns i e -> skip_jit (node ns i) = false -> no_subB e = true ->
       sc !!! Z.to_nat (slot_id (node ns' i)) = mask64 (fun q => beval (rows q) e) /\ 0 <= slot_id (node ns' i)).
Proof using Hwf Hp Hr Hcomp.
  intros Hg Hsk planes scratch rows Hrows Hin Hl.
  destruct (run_skipped_kernel r ns pools ns' pools' code rows 1 2 3 16 (kernel_state planes scratch) (64 * length code))
    as (s & E & V & P & D); try done.
  { apply kernel_state_ready; try done. intros j Hj Hk. by apply bit_sliced_idx. }
  { lia. }
  destruct (call_kernel_done code planes scratch s _ E V) as (scratch' & C & L & M).
  do 2 eexists. split_and!; [exact C|done|]. intros i e Hi He Hs Hns.
  destruct (compile_expression_ready r ns pools ns' pools' code Hwf Hp Hg Hr Hcomp)
    as (all & ini & body & c & Hlay & _ & Hin' & _ & _ & _ & _ & _ & _ & HB & _).
  destruct (mask_slot_node ns' all Hlay i e (proj2 (Hin' i) Hi) (HB _ _ He)) as (_ & _ & Ho).
  pose proof (owns_range ns' all Hlay _ _ (proj2 (Hin' i) Hi) Ho) as Hr'.
  split; [|lia]. rewrite (M _ (MB rows e)); [|lia|by apply P]. apply mask64_ext. intros q _. by apply lane_no_sub.
Qed.

End BitSliced.

(** The scalar backend. *)
#[export] Instance scalar_kernel_spec r ns nodes e ns' code :
  wf_nodes ns -> leaves_unset ns r -> denB ns r e -> no_notB e = true ->
  (forall j, reach ns r j -> j ∈ nodes) -> (length nodes <= 4096)%nat ->
  compile_scalar_expression (Some r) ns = (ns', Kernel code) ->
  (forall j : nat, reach ns' r j -> kind (node ns' j) = K_LOAD -> 0 <= field_idx (node ns' j) < 128) ->
  KernelSpec SCALAR code (node_reads ns' r) (fun rows m _ => m = mask64 (fun q => beval (rows q) e)).
Proof.
  intros Hwf Hlu He Hnn Hn Hlen Hcomp Hidx planes scratch rows Hrows Hin Hl.
  destruct (scalar_mask_kernel r ns nodes e) as (ns1 & code1 & Hc1 & Hrun); try done.
  rewrite Hcomp in Hc1. injection Hc1 as <- <-.
  destruct (Hrun rows 1%nat 2%nat 3%nat 16 (kernel_state planes scratch) (64 * length code)%nat) as (s & E & V & D).
  { by apply scalar_state_ready. }
  { lia. }
  destruct (call_kernel_done code planes scratch s _ E V) as (scratch' & C & L & _).
  do 2 eexists. by split_and!.
Qed.

(** ** The comparison kernel

    A [KernelFunc] takes the planes of one column. *)
Definition call_comparison (code : list instr) (P : buffer) : option Z :=
  match run code (64 * length code) 0
    (mk_machine [(0, Ptr 10 0); (30, Int 0)]%nat (object 10 (length P) (fun b => P !!! b))) with
  | Done s => get_int 0 s
  | _ => None
  end.

Definition comparison_regs : list (nat * val) := [(0, Ptr 10 0); (30, Int 0)]%nat.

Lemma comparison_regs_get cells :
  get 0 (mk_machine comparison_regs cells) = Some (Ptr 10 0) /\ get 30 (mk_machine comparison_regs cells) = Some (Int 0).
Proof. split; reflexivity. Qed.

Lemma call_comparison_mask threshold P :
  u64 threshold -> length P = 64%nat -> Forall u64 P ->
  call_comparison (compile_comparison threshold) P = Some (mask64 (fun q => threshold <? row_value (fun b => P !!! b) q)).
Proof.
  intros Ht Hl Hp. unfold call_comparison. rewrite Hl. fold comparison_regs.
  destruct (comparison_regs_get (object 10 64 (fun b => P !!! b))) as [G0 G30].
  set (cells := object 10 64 _) in *. set (s := mk_machine comparison_regs cells) in *. set (planes := fun b : nat => if (b <? 64)%nat then P !!! b else 0).
  destruct (exec_comparison threshold 10 planes Ht s) as (s' & E & Hr & _ & Hf).
  - intros b. unfold planes. destruct (Nat.ltb_spec b 64) as [Hb|]; [|apply u64_0].
    rewrite Forall_lookup in Hp. apply (Hp b). apply list_lookup_lookup_total_lt. lia.
  - intros b Hb. unfold planes. rewrite (proj2 (Nat.ltb_lt b 64)) by lia. apply (object_lookup 10 64 (fun b => P !!! b) b Hb).
  - exact G0.
  - unfold compile_comparison. rewrite !app_assoc.
    rewrite (run_exec_ret _ 30 s s' (Int 0)); [|exact E|rewrite Hf by solve_notin; exact G30|].
    + rewrite Hr. apply (f_equal Some), mask64_ext. intros q _. rewrite (row_value_ext planes (fun b => P !!! b)); [done|]. intros b Hb.
      unfold planes. by rewrite (proj2 (Nat.ltb_lt b 64)).
    + rewrite !length_app. cbn [length]. lia.
Qed.
