(* ===== verification/Rows.v ===== *)
(** * Rows of bytes

    What the engine and the parallel runner share: the value of a field on a row
    of bytes, as the lists of bytes and the registry give it. *)

From S2P Require Import Prelude Planes BitSlicer IR Registry A64 KernelCall.

(** ** A field of a row *)

(** [memcpy(&v, base + r * row_stride + offset, 8)]; [base] is an offset into
    the caller's memory, [None] a read past its end. *)
Definition read_field (data : list Z) (base row_stride off r : nat) : option Z :=
  read_le data (base + r * row_stride + off)%nat 8.

(** The value of field [f] on row [r]. *)
Definition row_of (data : list Z) (base row_stride : nat) (desc : string -> option FieldDescriptor)
    (r : nat) (f : string) : Z :=
  match desc f with
  | Some d => default 0 (read_field data base row_stride (offset d) r)
  | None => 0
  end.

Lemma read_field_shift data base stride off k r :
  read_field data (base + k * stride) stride off r = read_field data base stride off (k + r)%nat.
Proof. unfold read_field. f_equal. lia. Qed.

Lemma row_of_shift data base stride desc k r :
  row_of data (base + k * stride) stride desc r = row_of data base stride desc (k + r)%nat.
Proof. unfold row_of, read_field. by replace (base + k * stride + r * stride)%nat with (base + (k + r) * stride)%nat by lia. Qed.

Lemma read_field_u64 data base stride off r v :
  Forall byte data -> read_field data base stride off r = Some v -> u64 v.
Proof. intros Hd Hv. exact (read_le_bound _ _ _ _ Hd Hv). Qed.

Lemma row_of_u64 data base stride desc r f : Forall byte data -> u64 (row_of data base stride desc r f).
Proof.
  intros Hd. unfold row_of. destruct (desc f) as [d|]; [|apply u64_0].
  destruct (read_field _ _ _ _ _) eqn:E; simpl; [by eapply read_field_u64|apply u64_0].
Qed.

(** Rows [0, n) lie in the data, for the described fields. *)
Definition rows_fit (data : list Z) (base row_stride : nat) (fields : list (option FieldDescriptor)) (n : nat) : Prop :=
  Forall byte data /\
  forall r d, (r < n)%nat -> Some d ∈ fields -> (base + r * row_stride + offset d + 8 <= length data)%nat.

Lemma rows_fit_read data base stride fields n r d :
  rows_fit data base stride fields n -> (r < n)%nat -> Some d ∈ fields ->
  exists v, read_field data base stride (offset d) r = Some v /\ u64 v.
Proof.
  intros [Hb Hf] Hr Hd. destruct (read_le_some data (base + r * stride + offset d) 8) as [v Hv]; [by apply Hf|].
  exists v. split; [done|]. by eapply (read_field_u64 data base stride (offset d) r).
Qed.

Lemma rows_fit_shift data base stride fields n k m :
  rows_fit data base stride fields n -> (k + m <= n)%nat -> rows_fit data (base + k * stride) stride fields m.
Proof.
  intros [Hb Hf] Hk. split; [done|]. intros r d Hr Hd. specialize (Hf (k + r)%nat d ltac:(lia) Hd). lia.
Qed.
