(* ===== verification/Aggregate.v ===== *)
(** * Aggregating a chunk
      (the aggregators of src/api/engine.cpp and src/compute/parallel_runner.cpp)

    After the kernel has run on a chunk of at most 64 rows, its result is
    reduced to a number in one of three ways: the population count of the
    returned mask, weighted population counts of masks left in the scratch
    memory, or population counts of the result's bit planes weighted by powers
    of two.  [row_outcome] is what one row contributes; the lemmas show that
    each reduction is the sum of the rows' contributions.  Sums are
    [int64_t] in the code, where overflow is undefined, and kept modulo 2^64 here;
    [hybrid_sum_signed] and [plane_sum_signed]: where no signed operation overflows that is
    what the code computes. *)

From S2P Require Import Prelude Planes Rows.

(** ** Data

    [ag_mask]: the result kind is BITMASK.  [ag_deltas] and [ag_slots] are
    [delta_weights] and [masks_to_popcount]. *)
Record aggregation := mkAggregation {
  ag_mask : bool;
  ag_base : Z;
  ag_deltas : list Z;
  ag_slots : list Z
}.

(** [scratchpad[k]]; outside of it, a fault. *)
Definition scratch_at (scratchpad : list Z) (k : Z) : option Z :=
  if k <? 0 then None else scratchpad !! Z.to_nat k.

(** ** One chunk *)

(** [chunk_sum += popcount(scratchpad[masks_to_popcount[i]] & rows_mask) * delta_weights[i]] *)
Definition hybrid_step (slots deltas scratchpad : list Z) (mask : Z) (i : nat) (sum : Z) : option Z :=
  slot ← slots !! i;
  s ← scratch_at scratchpad slot;
  w ← deltas !! i;
  Some (wrap64 (sum + popcount64 (Z.land s mask) * w)).

Definition hybrid_sum (slots deltas scratchpad : list Z) (mask sum : Z) : option Z :=
  mfold (hybrid_step slots deltas scratchpad mask) (seq 0 (length deltas)) sum.

(** [total_matches += popcount(scratchpad[i] & rows_mask) << i] *)
Definition plane_step (scratchpad : list Z) (mask : Z) (i : nat) (total : Z) : option Z :=
  s ← scratchpad !! i;
  Some (wrap64 (total + wrap64 (Z.shiftl (popcount64 (Z.land s mask)) (Z.of_nat i)))).

Definition plane_sum (scratchpad : list Z) (mask total : Z) : option Z :=
  mfold (plane_step scratchpad mask) (seq 0 64) total.

(** ** One row *)

(** What row [q] contributes. *)
Definition row_outcome (a : aggregation) (result : Z) (scratchpad : list Z) (q : nat) : Z :=
  if ag_mask a then bitz result (Z.of_nat q)
  else match ag_deltas a with
       | [] => row_value (fun b => scratchpad !!! b) q
       | deltas => wrap64 (ag_base a + zsum (length deltas) (fun i =>
           bitz (scratchpad !!! Z.to_nat (ag_slots a !!! i)) (Z.of_nat q) * deltas !!! i))
       end.

(** The slots of the masks lie in a scratch memory of [n] words. *)
Definition slots_in (a : aggregation) (n : Z) : Prop :=
  length (ag_slots a) = length (ag_deltas a) /\ Forall (fun k => 0 <= k < n) (ag_slots a).

(** ** Lemmas *)

Lemma wrap64_idemp_add_l x y : wrap64 (wrap64 x + y) = wrap64 (x + y).
Proof. unfold wrap64. by rewrite Z.add_mod_idemp_l. Qed.

Lemma wrap64_idemp_add_r x y : wrap64 (x + wrap64 y) = wrap64 (x + y).
Proof. unfold wrap64. by rewrite Z.add_mod_idemp_r. Qed.

Lemma wrap64_idemp x : wrap64 (wrap64 x) = wrap64 x.
Proof. unfold wrap64. by rewrite Z.mod_mod. Qed.

Create Rewrite HintDb wrap.
#[export] Hint Rewrite wrap64_idemp_add_l wrap64_idemp_add_r wrap64_idemp : wrap.

(** Wrapping the terms of a sum does not change the sum. *)
Lemma zsum_wrap n f : wrap64 (zsum n (fun i => wrap64 (f i))) = wrap64 (zsum n f).
Proof.
  induction n as [|n IH]; simpl; [done|].
  by rewrite <- wrap64_idemp_add_l, IH, wrap64_idemp_add_l, wrap64_idemp_add_r.
Qed.

(** A loop that adds [f i] to a 64-bit total. *)
Lemma mfold_sum (step : nat -> Z -> option Z) (f : nat -> Z) n t :
  (forall i x, (i < n)%nat -> step i x = Some (wrap64 (x + f i))) ->
  mfold step (seq 0 n) (wrap64 t) = Some (wrap64 (t + zsum n f)).
Proof.
  intros Hs.
  destruct (mfold_seq_rule step (fun i x => x = wrap64 (t + zsum i f)) 0 n (wrap64 t)) as (x & E & ->).
  - simpl. by rewrite Z.add_0_r.
  - intros i x Hi ->. rewrite Hs by lia. eexists. split; [done|]. simpl. by rewrite wrap64_idemp_add_l, Z.add_assoc.
  - exact E.
Qed.

Lemma popcount_ones x : popcount64 (Z.land x ones64) = popcount64 x.
Proof.
  rewrite !popcount64_unfold. apply zsum_ext. intros i Hi. unfold bitz. rewrite Z.land_spec, ones64_bits by lia.
  rewrite (proj2 (Z.ltb_lt _ _)) by lia. by rewrite andb_true_r.
Qed.

Lemma rows_mask_64 : rows_mask 64 = ones64.
Proof. reflexivity. Qed.

Lemma slots_in_le a n m : slots_in a n -> n <= m -> slots_in a m.
Proof. intros [Hl Hf] Hn. split; [done|]. eapply Forall_impl; [exact Hf|]. intros k; simpl. lia. Qed.

Lemma scratch_at_eq sc k : 0 <= k < Z.of_nat (length sc) -> scratch_at sc k = Some (sc !!! Z.to_nat k).
Proof.
  intros Hk. unfold scratch_at. rewrite (proj2 (Z.ltb_ge k 0)) by lia.
  apply list_lookup_lookup_total_lt. lia.
Qed.

Lemma hybrid_step_eq a sc msk i sum :
  slots_in a (Z.of_nat (length sc)) -> (i < length (ag_deltas a))%nat ->
  hybrid_step (ag_slots a) (ag_deltas a) sc msk i sum =
    Some (wrap64 (sum + popcount64 (Z.land (sc !!! Z.to_nat (ag_slots a !!! i)) msk) * ag_deltas a !!! i)).
Proof.
  intros [Hl Hs] Hi. unfold hybrid_step.
  destruct (lookup_lt_is_Some_2 (ag_slots a) i) as [k Hk]; [lia|].
  destruct (lookup_lt_is_Some_2 (ag_deltas a) i) as [w Hw]; [done|].
  rewrite (list_lookup_total_correct _ _ _ Hk), (list_lookup_total_correct _ _ _ Hw), Hk. simpl.
  rewrite Forall_lookup in Hs. rewrite scratch_at_eq by (by eapply Hs). simpl. by rewrite Hw.
Qed.

(** The weighted population counts sum, over the rows, the weights of the masks
    that select the row. *)
Lemma hybrid_sum_rows a sc n t :
  slots_in a (Z.of_nat (length sc)) -> (n <= 64)%nat ->
  hybrid_sum (ag_slots a) (ag_deltas a) sc (rows_mask n) (wrap64 t) =
    Some (wrap64 (t + zsum n (fun q => zsum (length (ag_deltas a)) (fun i =>
      bitz (sc !!! Z.to_nat (ag_slots a !!! i)) (Z.of_nat q) * ag_deltas a !!! i)))).
Proof.
  intros Hs Hn. unfold hybrid_sum. rewrite zsum_swap. apply mfold_sum. intros i x Hi.
  rewrite hybrid_step_eq by done. do 3 f_equal. by rewrite popcount_rows_mask, zsum_mul_r.
Qed.

Lemma plane_sum_rows sc n t :
  (64 <= length sc)%nat -> (n <= 64)%nat ->
  plane_sum sc (rows_mask n) (wrap64 t) = Some (wrap64 (t + zsum n (row_value (fun b => sc !!! b)))).
Proof.
  intros Hl Hn. unfold plane_sum. rewrite <- (plane_popcount_sum (fun b => sc !!! b)) by done.
  apply mfold_sum. intros i x Hi. unfold plane_step.
  destruct (lookup_lt_is_Some_2 sc i) as [s Hs]; [lia|]. rewrite Hs, (list_lookup_total_correct _ _ _ Hs). simpl.
  by rewrite wrap64_idemp_add_r, Z.shiftl_mul_pow2 by lia.
Qed.

(** *** Signed arithmetic

    The loops in C++, where an [int64_t] operation that overflows is undefined. *)

Definition int64 (x : Z) : option Z := if (- 2 ^ 63 <=? x) && (x <? 2 ^ 63) then Some x else None.

Definition hybrid_step_signed (slots weights scratchpad : list Z) (mask : Z) (i : nat) (sum : Z) : option Z :=
  slot ← slots !! i;
  s ← scratch_at scratchpad slot;
  w ← weights !! i;
  p ← int64 (popcount64 (Z.land s mask) * w);
  int64 (sum + p).

Definition plane_step_signed (scratchpad : list Z) (mask : Z) (i : nat) (total : Z) : option Z :=
  s ← scratchpad !! i;
  p ← int64 (Z.shiftl (popcount64 (Z.land s mask)) (Z.of_nat i));
  int64 (total + p).

Lemma int64_Some x y : int64 x = Some y -> y = x.
Proof. unfold int64. destruct (_ && _); [by intros [= ->]|done]. Qed.

(** A loop that computes modulo 2^64 what another one computes follows it. *)
Lemma mfold_wrapped (step signed : nat -> Z -> option Z) l t t' :
  (forall i x x', signed i x = Some x' -> step i (wrap64 x) = Some (wrap64 x')) ->
  mfold signed l t = Some t' -> mfold step l (wrap64 t) = Some (wrap64 t').
Proof.
  intros Hs. revert t. induction l as [|i l IH]; intros t H; cbn [mfold] in *; [by injection H as ->|].
  destruct (signed i t) as [x|] eqn:E; [|discriminate H]. rewrite bind_Some in H. rewrite (Hs _ _ _ E), bind_Some. by apply IH.
Qed.

(** Where no operation overflows the loops kept modulo 2^64 compute what the
    signed ones do; the weights may be kept modulo 2^64, too. *)
Lemma hybrid_sum_signed slots deltas weights sc msk sum sum' :
  Forall2 (fun d w => wrap64 d = wrap64 w) deltas weights ->
  mfold (hybrid_step_signed slots weights sc msk) (seq 0 (length deltas)) sum = Some sum' ->
  hybrid_sum slots deltas sc msk (wrap64 sum) = Some (wrap64 sum').
Proof.
  intros Hw. apply mfold_wrapped. intros i x x' H. unfold hybrid_step_signed in H. unfold hybrid_step.
  destruct (slots !! i) as [slot|]; [|discriminate H]. rewrite bind_Some in H |- *.
  destruct (scratch_at sc slot) as [s|]; [|discriminate H]. rewrite bind_Some in H |- *.
  destruct (weights !! i) as [w|] eqn:Ew; [|discriminate H]. rewrite bind_Some in H.
  destruct (Forall2_lookup_r _ _ _ i w Hw Ew) as (d & -> & Hd). rewrite bind_Some.
  destruct (int64 (popcount64 (Z.land s msk) * w)) as [p|] eqn:Ep; [|discriminate H]. rewrite bind_Some in H.
  apply int64_Some in Ep as ->. apply int64_Some in H as ->.
  rewrite wrap64_idemp_add_l, <- (wrap64_idemp_add_r x), <- (wrap64_idemp_add_r x (_ * w)). do 3 f_equal.
  unfold wrap64 in *. by rewrite <- Z.mul_mod_idemp_r, Hd, Z.mul_mod_idemp_r.
Qed.

Lemma plane_sum_signed sc msk total total' :
  mfold (plane_step_signed sc msk) (seq 0 64) total = Some total' -> plane_sum sc msk (wrap64 total) = Some (wrap64 total').
Proof.
  apply mfold_wrapped. intros i x x' H. unfold plane_step_signed in H. unfold plane_step.
  destruct (sc !! i) as [s|]; [|discriminate H]. rewrite bind_Some in H |- *.
  destruct (int64 (Z.shiftl _ _)) as [p|] eqn:Ep; [|discriminate H]. rewrite bind_Some in H.
  apply int64_Some in Ep as ->. apply int64_Some in H as ->. by rewrite wrap64_idemp_add_l, wrap64_idemp_add_r.
Qed.

(** What a chunk adds to the total, whichever the aggregation. *)
Lemma row_outcome_mask a m sc n :
  ag_mask a = true -> (n <= 64)%nat ->
  popcount64 (Z.land m (rows_mask n)) = zsum n (row_outcome a m sc).
Proof.
  intros Ha Hn. rewrite popcount_rows_mask by done. apply zsum_ext. intros. unfold row_outcome. by rewrite Ha.
Qed.

Lemma row_outcome_hybrid a m sc n t :
  ag_mask a = false -> ag_deltas a <> [] -> slots_in a (Z.of_nat (length sc)) -> (n <= 64)%nat ->
  exists s, hybrid_sum (ag_slots a) (ag_deltas a) sc (rows_mask n) (wrap64 (ag_base a * Z.of_nat n)) = Some s /\
    wrap64 (t + s) = wrap64 (t + zsum n (row_outcome a m sc)).
Proof.
  intros Ha Hd Hs Hn. eexists. split; [by apply hybrid_sum_rows|].
  rewrite wrap64_idemp_add_r. rewrite <- (wrap64_idemp_add_r t (zsum n _)).
  rewrite (zsum_ext n (row_outcome a m sc) (fun q => wrap64 (ag_base a + zsum (length (ag_deltas a)) (fun i =>
      bitz (sc !!! Z.to_nat (ag_slots a !!! i)) (Z.of_nat q) * ag_deltas a !!! i)))).
  - rewrite zsum_wrap, wrap64_idemp_add_r, zsum_add, zsum_const. f_equal. lia.
  - intros q _. unfold row_outcome. rewrite Ha. by destruct (ag_deltas a).
Qed.

Lemma row_outcome_planes a m sc n t :
  ag_mask a = false -> ag_deltas a = [] -> (64 <= length sc)%nat -> (n <= 64)%nat ->
  plane_sum sc (rows_mask n) (wrap64 t) = Some (wrap64 (t + zsum n (row_outcome a m sc))).
Proof.
  intros Ha Hd Hl Hn. rewrite plane_sum_rows by done. do 3 f_equal. apply zsum_ext. intros q _.
  unfold row_outcome. by rewrite Ha, Hd.
Qed.

(** ** Chunks of 64 rows *)

(** The chunks [for (chunk = 0; chunk * 64 < n; chunk++)] visits. *)
Definition chunks (n : nat) : list nat := seq 0 ((n + 63) / 64).

(** After [c] chunks the first [min (64 c) n] rows are done. *)
Lemma chunk_rows n c : (c < (n + 63) / 64)%nat -> (64 * c < n)%nat.
Proof.
  intros Hc. pose proof (Nat.div_mod_eq (n + 63) 64). pose proof (Nat.mod_upper_bound (n + 63) 64). lia.
Qed.

Lemma chunks_cover n : Nat.min (64 * ((n + 63) / 64)) n = n.
Proof. pose proof (Nat.div_mod_eq (n + 63) 64). pose proof (Nat.mod_upper_bound (n + 63) 64). lia. Qed.

(** A loop over the chunks that adds each chunk's rows to a total adds all the
    rows; [P] is what the loop keeps about the rest of its state. *)
Lemma chunk_loop {S} (step : nat -> Z * S -> option (Z * S)) (P : S -> Prop) (f : nat -> Z) n s :
  (forall c t s, (64 * c < n)%nat -> P s ->
     exists s', step c (wrap64 t, s) =
       Some (wrap64 (t + zsum (Nat.min 64 (n - 64 * c)) (fun q => f (64 * c + q)%nat)), s') /\ P s') ->
  P s ->
  exists s', mfold step (chunks n) (0, s) = Some (wrap64 (zsum n f), s') /\ P s'.
Proof.
  intros Hs Hp.
  destruct (mfold_seq_rule step (fun c x => x.1 = wrap64 (zsum (Nat.min (64 * c) n) f) /\ P x.2)
    0 ((n + 63) / 64) (0, s)) as ([t s'] & E & Et & Ps).
  - done.
  - intros c [t s1] Hc [Et Ps]. cbn [fst snd] in *. subst t.
    destruct (Hs c (zsum (Nat.min (64 * c) n) f) s1) as (s2 & E & Ps2); [apply chunk_rows; lia|done|].
    eexists. split; [exact E|]. split; [|done]. cbn [fst]. f_equal.
    assert (64 * c < n)%nat by (apply chunk_rows; lia).
    rewrite (Nat.min_l (64 * c)) by lia. rewrite <- zsum_split. f_equal. lia.
  - exists s'. split; [|done]. unfold chunks. rewrite E. cbn [fst Nat.add] in *. by rewrite Et, chunks_cover.
Qed.
