(* ===== verification/Columns.v ===== *)
(** * Columns of a chunk and the promise of a compiled logic

    The buffers a chunk of rows is gathered into, their slicing in place, and
    [LogicSpec]: what a compiled expression (kernel, field table, aggregation)
    promises to the code that feeds it chunks.  [logic_call] is the promise in
    the form the engine and the runner use it. *)

From S2P Require Import Prelude Planes BitSlicer IR Registry A64 KernelCall Rows Aggregate.

#[export] Instance DataType_eq_dec : EqDecision DataType.
Proof. solve_decision. Defined.
#[export] Instance FieldDescriptor_eq_dec : EqDecision FieldDescriptor.
Proof. solve_decision. Defined.

(** ** The code *)

(** The test for five contiguous 64-bit fields at the start of the row. *)
Definition use_simd_5 (fields : list (option FieldDescriptor)) : bool :=
  match fields with
  | Some f0 :: Some f1 :: Some f2 :: Some f3 :: Some f4 :: _ =>
      (offset f0 =? 0)%nat && (offset f1 =? 8)%nat && (offset f2 =? 16)%nat &&
      (offset f3 =? 24)%nat && (offset f4 =? 32)%nat
  | _ => false
  end.

(** [bufs] are the column buffers, [planes] the array of pointers to them that the
    kernel is given: [Some i] points to buffer [i]. *)

Definition set_lane (f r : nat) (v : Z) (bufs : list buffer) : list buffer := alter (<[r := v]>) f bufs.

(** Two 128-bit loads and a word: fields 0 to 4 of the row at [p]. *)
Definition load_row_5 (data : list Z) (p : nat) : option (list Z) :=
  v0 ← read_le data p 8;
  v1 ← read_le data (p + 8) 8;
  v2 ← read_le data (p + 16) 8;
  v3 ← read_le data (p + 24) 8;
  v4 ← read_le data (p + 32) 8;
  Some [v0; v1; v2; v3; v4].

Definition store_row_5 (r : nat) (vs : list Z) (bufs : list buffer) : list buffer :=
  foldl (fun bufs f => set_lane f r (vs !!! f) bufs) bufs (seq 0 5).

Definition gather_row_5 (data : list Z) (chunk_base row_stride : nat) (r : nat) (bufs : list buffer) : option (list buffer) :=
  vs ← load_row_5 data (chunk_base + r * row_stride);
  Some (store_row_5 r vs bufs).

(** The pointers, followed at the call. *)
Definition pointees (bufs : list buffer) (planes : list (option nat)) : list field_ptr :=
  (fun p => i ← p; bufs !! i) <$> planes.

Section Slice.
Context {T : HwyTarget}.

(** [slicer.slice_n(buf.data, 64, buf.data, active_bits)] *)
Definition slice_in_place (active_bits : Z) (buf : list Z) : option (list Z) :=
  m ← slice_n 0 0 active_bits {[0 := buf]};
  m !! 0.

(** Slice the buffer when the kernel wants planes, and point to it. *)
Definition slice_column (m : ExecutionMode) (active_bits : Z) (f : nat) (st : list buffer * list (option nat)) :
    option (list buffer * list (option nat)) :=
  let '(bufs, planes) := st in
  bufs ← (if decide (m = BIT_SLICED) then
            B ← bufs !! f; B ← slice_in_place active_bits B; Some (<[f := B]> bufs)
          else Some bufs);
  Some (bufs, <[f := Some f]> planes).

Lemma slice_in_place_eq A : words A -> slice_in_place 64 A = Some (low_planes 64 A).
Proof.
  intros HA. unfold slice_in_place. rewrite (slice_n_eq 0 0 64 _ A A) by (done || by rewrite lookup_singleton_eq).
  cbn [mbind option_bind]. by rewrite lookup_insert_eq.
Qed.

End Slice.

#[global] Opaque slice_in_place.

Lemma low_planes_words A : words A -> words (low_planes 64 A).
Proof. intros HA. apply words_arr. intros b Hb. destruct (_ <? _); [apply plane_of_u64|apply u64_0]. Qed.

Lemma low_planes_plane A b : (b < 64)%nat -> low_planes 64 A !!! b = plane_of (fun q => A !!! q) b.
Proof. intros Hb. unfold low_planes. rewrite arr_total by done. by rewrite (proj2 (Z.ltb_lt _ _)) by lia. Qed.

(** ** Specification *)

(** [A] holds field [d] of the [n] first rows; the other lanes are arbitrary words. *)
Definition column_ok (data : list Z) (base stride : nat) (d : FieldDescriptor) (n : nat) (A : list Z) : Prop :=
  words A /\ forall q, (q < n)%nat -> read_field data base stride (offset d) q = Some (A !!! q).

(** What the kernel is given for a column: its planes, or the rows themselves. *)
Definition kernel_column (m : ExecutionMode) (A : list Z) : list Z :=
  if decide (m = BIT_SLICED) then low_planes 64 A else A.

(** The promise of a compiled expression: its kernel reads described fields
    through the table, each field through one entry; on 64 rows it leaves in its
    result and in the scratch memory, under the aggregation [a], the value
    [rowfn] of every row. *)
Class LogicSpec (m : ExecutionMode) (code : list instr) (fields : list (option FieldDescriptor))
    (a : aggregation) (desc : string -> option FieldDescriptor) (rowfn : (string -> Z) -> Z) : Prop := {
  ls_mode : m <> GPU_THROUGHPUT;
  ls_len : (length fields <= 128)%nat;
  ls_inj : forall i j d, fields !! i = Some (Some d) -> fields !! j = Some (Some d) -> i = j;
  ls_slots : slots_in a 32768;
  ls_kernel : exists reads,
    (forall i f, reads i f -> exists d, fields !! i = Some (Some d) /\ desc f = Some d) /\
    KernelSpec m code reads (fun rows r sc => forall q, (q < 64)%nat -> row_outcome a r sc q = rowfn (rows q))
}.

(** The rows a set of columns holds: the data's rows, then the stale lanes. *)
Definition column_rows (data : list Z) (base stride : nat) (desc : string -> option FieldDescriptor)
    (fields : list (option FieldDescriptor)) (cols : nat -> list Z) (n q : nat) : string -> Z :=
  if (q <? n)%nat then row_of data base stride desc q
  else fun f => match list_find (fun o => o = desc f /\ is_Some o) fields with Some (i, _) => cols i !!! q | None => 0 end.

Section Call.
Context (m : ExecutionMode) (code : list instr) (fields : list (option FieldDescriptor))
  (a : aggregation) (desc : string -> option FieldDescriptor) (rowfn : (string -> Z) -> Z).
Context {L : LogicSpec m code fields a desc rowfn}.
Context (data : list Z) (base stride : nat) (cols : nat -> list Z) (n : nat).
Hypothesis Hdata : Forall byte data.
Hypothesis Hn : (n <= 64)%nat.
Hypothesis Hcols : forall i d, fields !! i = Some (Some d) -> column_ok data base stride d n (cols i).

Lemma column_rows_u64 q f : u64 (column_rows data base stride desc fields cols n q f).
Proof using Hdata Hcols.
  clear L. unfold column_rows. destruct (q <? n)%nat; [by apply row_of_u64|].
  destruct (list_find _ fields) as [[i o]|] eqn:E; [|apply u64_0].
  apply list_find_Some in E as (Hi & [_ [d ->]] & _). destruct (Hcols i d Hi) as [[Hl Hw] _].
  destruct (cols i !! q) as [v|] eqn:Eq.
  - rewrite (list_lookup_total_correct _ _ _ Eq). rewrite Forall_lookup in Hw. by eapply Hw.
  - rewrite list_lookup_total_alt, Eq. exact u64_1.
Qed.

Lemma column_rows_at i f d q :
  fields !! i = Some (Some d) -> desc f = Some d -> (q < 64)%nat ->
  column_rows data base stride desc fields cols n q f = cols i !!! q.
Proof using L Hcols.
  intros Hi Hd Hq. unfold column_rows. destruct (Nat.ltb_spec q n) as [Hlt|Hge].
  - unfold row_of. rewrite Hd. destruct (Hcols i d Hi) as [_ Hr]. by rewrite Hr.
  - destruct (list_find _ fields) as [[j o]|] eqn:E.
    + apply list_find_Some in E as (Hj & [-> _] & _). rewrite Hd in Hj.
      by rewrite (ls_inj (LogicSpec := L) j i d Hj Hi).
    + exfalso. apply list_find_None in E. rewrite Forall_lookup in E. apply (E i (Some d) Hi). by rewrite Hd.
Qed.

(** The columns are the kernel's inputs. *)
Lemma column_inputs planes reads :
  (forall i f, reads i f -> exists d, fields !! i = Some (Some d) /\ desc f = Some d) ->
  (forall i d, fields !! i = Some (Some d) -> planes !! i = Some (Some (kernel_column m (cols i)))) ->
  inputs m planes reads (column_rows data base stride desc fields cols n).
Proof using L Hcols.
  intros Hr Hp i f Hif. destruct (Hr i f Hif) as (d & Hi & Hd). exists (kernel_column m (cols i)).
  split; [by apply (Hp i d)|]. pose proof (ls_mode (LogicSpec := L)) as Hm.
  destruct (Hcols i d Hi) as [[Hl Hw] _]. unfold kernel_column. destruct (decide (m = BIT_SLICED)) as [Hb|Hne].
  - split; [apply low_planes_words; by split|]. intros b Hlt. rewrite decide_False by congruence. rewrite low_planes_plane by done.
    apply mask64_ext. intros q Hq. by rewrite (column_rows_at i f d q).
  - split; [done|]. intros b Hb. rewrite decide_True by (clear -Hm Hne; by destruct m). by rewrite (column_rows_at i f d b).
Qed.

(** Fed with the columns of [n] rows, the kernel yields those rows' values. *)
Lemma logic_call planes scratch :
  (forall i d, fields !! i = Some (Some d) -> planes !! i = Some (Some (kernel_column m (cols i)))) ->
  32768 <= Z.of_nat (length scratch) ->
  exists r scratch', call_kernel code planes scratch = Some (r, scratch') /\
    length scratch' = length scratch /\
    forall q, (q < n)%nat -> row_outcome a r scratch' q = rowfn (row_of data base stride desc q).
Proof using L Hdata Hn Hcols.
  intros Hp Hs. destruct (ls_kernel (LogicSpec := L)) as (reads & Hr & Hk).
  destruct (Hk planes scratch (column_rows data base stride desc fields cols n)) as (r & sc & E & Hl & Hq).
  - apply column_rows_u64.
  - by apply column_inputs.
  - done.
  - exists r, sc. split_and!; [done|done|]. intros q Hlt. rewrite Hq by lia.
    unfold column_rows. by rewrite (proj2 (Nat.ltb_lt q n)).
Qed.

End Call.

(** ** Filling the buffers *)

(** Stores at consecutive lanes. *)
Lemma foldl_store (v f : nat -> Z) lo k n :
  (lo + k <= n)%nat ->
  foldl (fun B r => <[r := v r]> B) (arr n f) (seq lo k) =
    arr n (fun q => if decide (lo <= q < lo + k)%nat then v q else f q).
Proof.
  intros Hk. induction k as [|k IH].
  - simpl. apply arr_ext. intros q _. by rewrite decide_False by lia.
  - rewrite seq_S, foldl_app, IH by lia. cbn [foldl]. rewrite arr_insert by lia.
    apply arr_ext. intros q _. repeat case_decide; subst; try done; lia.
Qed.

Lemma mfold_store (g : nat -> option Z) (v f : nat -> Z) lo k n :
  (lo + k <= n)%nat -> (forall r, (lo <= r < lo + k)%nat -> g r = Some (v r)) ->
  mfold (fun r B => x ← g r; Some (<[r := x]> B)) (seq lo k) (arr n f) =
    Some (arr n (fun q => if decide (lo <= q < lo + k)%nat then v q else f q)).
Proof.
  intros Hk Hg. rewrite (mfold_ext _ (fun r B => Some (<[r := v r]> B))).
  - by rewrite mfold_pure, foldl_store.
  - intros r B Hr%elem_of_seq. by rewrite Hg by lia.
Qed.

(** The column of [d] on the first [n] rows, over the old lanes of the buffer. *)
Definition column_over (data : list Z) (base stride n : nat) (d : FieldDescriptor) (old : nat -> Z) : list Z :=
  arr 64 (fun q => if decide (q < n)%nat then default 0 (read_field data base stride (offset d) q) else old q).

Lemma column_over_ok data base stride n d fields old :
  rows_fit data base stride fields n -> Some d ∈ fields -> (n <= 64)%nat -> (forall q, (q < 64)%nat -> u64 (old q)) ->
  column_ok data base stride d n (column_over data base stride n d old).
Proof.
  intros Hf Hd Hn Ho. split.
  - apply words_arr. intros q Hq. case_decide; [|by apply Ho].
    destruct (rows_fit_read data base stride fields n q d Hf) as (v & -> & Hv); done.
  - intros q Hq. unfold column_over. rewrite arr_total, decide_True by lia.
    destruct (rows_fit_read data base stride fields n q d Hf) as (v & -> & Hv); done.
Qed.

(** A store of one lane in each of several buffers. *)
Lemma foldl_set_lane (v : nat -> Z) r l bufs g :
  NoDup l ->
  foldl (fun bufs f => set_lane f r (v f) bufs) bufs l !! g =
    (if decide (g ∈ l) then <[r := v g]> <$> (bufs !! g) else bufs !! g).
Proof.
  intros Hl. revert bufs. induction Hl as [|f l Hf Hl IH]; intros bufs; cbn [foldl].
  - by rewrite decide_False by apply not_elem_of_nil.
  - rewrite IH. unfold set_lane. destruct (decide (g = f)) as [->|Hne].
    + rewrite (decide_False (P := f ∈ l)), decide_True by (done || by left). by rewrite list_lookup_alter_eq.
    + rewrite list_lookup_alter_ne by done. destruct (decide (g ∈ l)).
      * by rewrite decide_True by (by right).
      * rewrite decide_False; [done|]. by intros [?|?]%elem_of_cons.
Qed.

Lemma length_foldl_set_lane (v : nat -> Z) r l bufs :
  length (foldl (fun bufs f => set_lane f r (v f) bufs) bufs l) = length bufs.
Proof. revert bufs. induction l as [|f l IH]; intros bufs; cbn [foldl]; [done|]. rewrite IH. apply length_alter. Qed.

(** ** Five fields at once *)

Lemma use_simd_5_offset fields f :
  use_simd_5 fields = true -> (f < 5)%nat ->
  exists d, fields !! f = Some (Some d) /\ offset d = (8 * f)%nat.
Proof.
  intros Hu Hf. unfold use_simd_5 in Hu.
  destruct fields as [|[f0|] [|[f1|] [|[f2|] [|[f3|] [|[f4|] l]]]]]; try done.
  rewrite !andb_true_iff, !Nat.eqb_eq in Hu. destruct Hu as ((((?&?)&?)&?)&?).
  destruct f as [|[|[|[|[|f]]]]]; try lia; eexists; (split; [reflexivity|]); lia.
Qed.

Section Five.
Variables (data : list Z) (base stride n : nat) (fields : list (option FieldDescriptor)).
Hypothesis Hfit : rows_fit data base stride fields n.
Hypothesis Hn : (n <= 64)%nat.
Hypothesis Hsimd : use_simd_5 fields = true.

Definition five (f q : nat) : Z := default 0 (read_le data (base + q * stride + 8 * f) 8).

(** The first [k] rows of fields 0 to 4 are in their buffers. *)
Record rows_in_five (bufs0 : list buffer) (k : nat) (bufs : list buffer) : Prop := {
  rf_len : length bufs = length bufs0;
  rf_five : forall f B, (f < 5)%nat -> bufs0 !! f = Some B ->
    bufs !! f = Some (arr 64 (fun q => if decide (q < k)%nat then five f q else B !!! q));
  rf_rest : forall f, (5 <= f)%nat -> bufs !! f = bufs0 !! f
}.

Lemma rows_in_five_0 bufs : Forall words bufs -> rows_in_five bufs 0 bufs.
Proof.
  intros Hw. split; [done| |done]. intros f B _ HB. rewrite HB. f_equal.
  rewrite Forall_lookup in Hw. destruct (Hw _ _ HB) as [Hl _].
  rewrite <- (arr_eta 64 B Hl) at 1. apply arr_ext. intros q _. by rewrite decide_False by lia.
Qed.

Lemma load_row_5_reads q :
  (q < n)%nat -> load_row_5 data (base + q * stride) = Some ((fun f => five f q) <$> seq 0 5).
Proof using Hfit Hn Hsimd.
  intros Hq.
  assert (forall f, (f < 5)%nat -> read_le data (base + q * stride + 8 * f) 8 = Some (five f q)) as Hr.
  { intros f Hf. destruct (use_simd_5_offset _ _ Hsimd Hf) as (d & Hd & Ho).
    destruct (rows_fit_read _ _ _ _ _ q d Hfit Hq) as (v & Hv & _); [by eapply list_elem_of_lookup_2|].
    unfold five. unfold read_field in Hv. rewrite Ho in Hv. by rewrite Hv. }
  unfold load_row_5.
  pose proof (Hr 0%nat ltac:(lia)) as H0. rewrite Nat.mul_0_r, Nat.add_0_r in H0. rewrite H0. cbn [mbind option_bind].
  pose proof (Hr 1%nat ltac:(lia)) as H1. change (8 * 1)%nat with 8%nat in H1. rewrite H1. cbn [mbind option_bind].
  pose proof (Hr 2%nat ltac:(lia)) as H2. change (8 * 2)%nat with 16%nat in H2. rewrite H2. cbn [mbind option_bind].
  pose proof (Hr 3%nat ltac:(lia)) as H3. change (8 * 3)%nat with 24%nat in H3. rewrite H3. cbn [mbind option_bind].
  pose proof (Hr 4%nat ltac:(lia)) as H4. change (8 * 4)%nat with 32%nat in H4. rewrite H4. done.
Qed.

Lemma store_row_5_lookup r vs bufs f :
  store_row_5 r vs bufs !! f = if decide (f < 5)%nat then <[r := vs !!! f]> <$> (bufs !! f) else bufs !! f.
Proof.
  unfold store_row_5. rewrite (foldl_set_lane (fun f => vs !!! f)) by apply NoDup_seq.
  destruct (decide (f < 5)%nat); [rewrite decide_True|rewrite decide_False]; try done; rewrite elem_of_seq; lia.
Qed.

Lemma gather_row_5_step bufs0 k bufs :
  rows_in_five bufs0 k bufs -> (k < n)%nat ->
  exists bufs', gather_row_5 data base stride k bufs = Some bufs' /\ rows_in_five bufs0 (S k) bufs'.
Proof using Hfit Hn Hsimd.
  intros [Rl Rf Rr] Hk. unfold gather_row_5. rewrite load_row_5_reads by done. cbn [mbind option_bind].
  eexists. split; [done|]. split.
  - unfold store_row_5. by rewrite length_foldl_set_lane.
  - intros f B Hf HB. rewrite store_row_5_lookup, decide_True, (Rf f B Hf HB) by done. cbn [fmap option_fmap option_map].
    f_equal. rewrite arr_insert by lia. apply arr_ext. intros q Hq.
    rewrite (list_lookup_total_fmap _ (seq 0 5) f) by (rewrite length_seq; lia). rewrite lookup_total_seq_lt by lia.
    repeat case_decide; subst; try done; lia.
  - intros f Hf. rewrite store_row_5_lookup, decide_False by lia. by apply Rr.
Qed.

Lemma gather_five bufs :
  Forall words bufs ->
  exists bufs', mfold (gather_row_5 data base stride) (seq 0 n) bufs = Some bufs' /\ rows_in_five bufs n bufs'.
Proof using Hfit Hn Hsimd.
  intros Hw. apply (mfold_seq_rule _ (rows_in_five bufs) 0 n); [by apply rows_in_five_0|].
  intros k b Hk Hb. apply gather_row_5_step; [done|lia].
Qed.

(** In terms of the fields' columns. *)
Lemma rows_in_five_column bufs0 bufs f d B :
  rows_in_five bufs0 n bufs -> (f < 5)%nat -> fields !! f = Some (Some d) -> bufs0 !! f = Some B ->
  bufs !! f = Some (column_over data base stride n d (fun q => B !!! q)).
Proof using Hsimd.
  intros [_ Rf _] Hf Hd HB. rewrite (Rf f B Hf HB). f_equal.
  destruct (use_simd_5_offset _ _ Hsimd Hf) as (d' & Hd' & Ho). rewrite Hd in Hd'. injection Hd' as <-.
  apply arr_ext. intros q _. unfold five, read_field. by rewrite Ho.
Qed.

End Five.

(** ** All the columns *)

(** The buffers of the first [k] fields are ready for the kernel. *)
Record gathered (m : ExecutionMode) (fields : list (option FieldDescriptor)) (cols : nat -> list Z) (N k : nat)
    (st : list buffer * list (option nat)) : Prop := {
  ga_bufs : length st.1 = N;
  ga_words : Forall words st.1;
  ga_planes : length st.2 = N;
  ga_done : forall i d, (i < k)%nat -> fields !! i = Some (Some d) ->
    st.2 !! i = Some (Some i) /\ st.1 !! i = Some (kernel_column m (cols i))
}.

Lemma kernel_column_words m A : words A -> words (kernel_column m A).
Proof. intros HA. unfold kernel_column. case_decide; [by apply low_planes_words|done]. Qed.

Lemma slice_column_eq `{HwyTarget} m k bufs planes A :
  bufs !! k = Some A -> words A ->
  slice_column m 64 k (bufs, planes) = Some (<[k := kernel_column m A]> bufs, <[k := Some k]> planes).
Proof.
  intros HA Hw. unfold slice_column, kernel_column. destruct (decide (m = BIT_SLICED)) as [_|_].
  - rewrite HA, bind_Some, slice_in_place_eq, !bind_Some by done. reflexivity.
  - rewrite bind_Some, (list_insert_id bufs k) by done. reflexivity.
Qed.

Lemma slice_column_step `{HwyTarget} m fields cols N k st A :
  gathered m fields cols N k st -> (k < N)%nat -> st.1 !! k = Some A -> words A -> A = cols k ->
  exists st', slice_column m 64 k st = Some st' /\ gathered m fields cols N (S k) st' /\
    forall j, j <> k -> st'.1 !! j = st.1 !! j.
Proof.
  destruct st as [bufs planes]. cbn [fst snd]. intros [G1 G2 G3 G4] Hk HA Hw ->. cbn [fst snd] in *.
  pose proof (slice_column_eq m k bufs planes (cols k) HA Hw) as E.
  eexists. split; [exact E|]. cbn [fst snd]. split.
  - split; cbn [fst snd]; rewrite ?length_insert; try done.
    + apply Forall_insert; [done|by apply kernel_column_words].
    + intros i d Hi Hd. destruct (decide (i = k)) as [->|Hne].
      * rewrite !list_lookup_insert_eq by lia. done.
      * rewrite !list_lookup_insert_ne by done. apply (G4 i d); [lia|done].
  - intros j Hj. by rewrite list_lookup_insert_ne.
Qed.

(** A column stored, then sliced. *)
Lemma gathered_store `{HwyTarget} m fields cols N k bufs planes :
  gathered m fields cols N k (bufs, planes) -> (k < N)%nat -> words (cols k) ->
  exists st', slice_column m 64 k (<[k := cols k]> bufs, planes) = Some st' /\ gathered m fields cols N (S k) st' /\
    forall j, j <> k -> st'.1 !! j = bufs !! j.
Proof.
  intros [G1 G2 G3 G4] Hk Hw. cbn [fst snd] in *.
  destruct (slice_column_step m fields cols N k (<[k := cols k]> bufs, planes) (cols k)) as (st' & E & G' & Hne); try done.
  - split; cbn [fst snd]; rewrite ?length_insert; try done; [by apply Forall_insert|].
    intros j d Hj Hd. rewrite list_lookup_insert_ne by lia. by apply (G4 j d).
  - cbn [fst]. apply list_lookup_insert_eq. lia.
  - exists st'. split_and!; [done|done|]. intros j Hj. rewrite Hne by done. cbn [fst]. by rewrite list_lookup_insert_ne.
Qed.

(** The five columns of the first loop, sliced. *)
Lemma gathered_five `{HwyTarget} m fields cols N st :
  gathered m fields cols N 0 st -> (5 <= N)%nat ->
  (forall f, (f < 5)%nat -> st.1 !! f = Some (cols f) /\ words (cols f)) ->
  exists st', mfold (slice_column m 64) (seq 0 5) st = Some st' /\ gathered m fields cols N 5 st'.
Proof.
  intros G H5 Hf.
  destruct (mfold_seq_rule (slice_column m 64)
    (fun k st => gathered m fields cols N k st /\ forall f, (k <= f < 5)%nat -> st.1 !! f = Some (cols f)) 0 5 st)
    as (st' & E & G' & _).
  - split; [done|]. intros f Hlt. apply Hf. lia.
  - intros k st1 Hk [G1 Hf1]. destruct (Hf k) as [_ Hw]; [lia|].
    destruct (slice_column_step m fields cols N k st1 (cols k)) as (st2 & E & G2 & Hne); try done; [lia|apply Hf1; lia|].
    exists st2. split_and!; [done|done|]. intros f Hlt. rewrite Hne by lia. apply Hf1. lia.
  - by exists st'.
Qed.

(** The pointers the kernel gets. *)
Lemma gathered_pointees m fields cols N k st i d :
  gathered m fields cols N k st -> (i < k)%nat -> fields !! i = Some (Some d) ->
  pointees st.1 st.2 !! i = Some (Some (kernel_column m (cols i))).
Proof.
  intros G Hi Hd. destruct (ga_done _ _ _ _ _ _ G i d Hi Hd) as [Hp Hb].
  unfold pointees. rewrite list_lookup_fmap, Hp. cbn [fmap option_fmap option_map mbind option_bind]. by rewrite Hb.
Qed.
