(* ===== verification/Runner.v ===== *)
(** * The parallel runner
      (include/apex/compute/parallel_runner.hpp, src/compute/parallel_runner.cpp)

    [worker_thread] gathers, slices and aggregates the chunks of its share of
    the rows with buffers of its own; [run] splits the rows into shares aligned
    to 64 rows and adds the workers' counts.  The pool that runs the workers is
    in ThreadPool.v. *)

From S2P Require Import Prelude Planes BitSlicer IR Registry A64 KernelCall Rows Aggregate Columns.

(** ** Data *)

Record TaskConfig := mkTaskConfig {
  tc_kernel : list instr;
  tc_fields : list (option FieldDescriptor);
  tc_row_stride : nat;
  tc_mode : ExecutionMode;
  tc_result_kind : Z;                 (* 0 = BITPLANE, 1 = BITMASK *)
  tc_base_sum : Z;
  tc_delta_weights : list Z;
  tc_masks_to_popcount : list Z;
  tc_active_bits : Z
}.

Record PaddedResult := mkResult { count : Z; cycles : Z }.

Record ExecutionStats := mkStats { total_matches : Z; total_cycles : Z; avg_cycles_per_row : Z }.

(** ** Gathering a chunk *)

(** The full-chunk loop's body: four rows loaded, then stored. *)
Definition gather_rows_4 (data : list Z) (chunk_base row_stride : nat) (r : nat) (bufs : list buffer) : option (list buffer) :=
  let cb0 := (chunk_base + r * row_stride)%nat in
  let cb1 := (cb0 + row_stride)%nat in
  let cb2 := (cb1 + row_stride)%nat in
  let cb3 := (cb2 + row_stride)%nat in
  v0 ← load_row_5 data cb0;
  v1 ← load_row_5 data cb1;
  v2 ← load_row_5 data cb2;
  v3 ← load_row_5 data cb3;
  Some (store_row_5 (r + 3) v3 (store_row_5 (r + 2) v2 (store_row_5 (r + 1) v1 (store_row_5 r v0 bufs)))).

Definition zero_pad_5 (n : nat) (bufs : list buffer) : list buffer :=
  foldl (fun bufs r => foldl (fun bufs f => set_lane f r 0 bufs) bufs (seq 0 5)) bufs (seq n (64 - n)).

Definition gather_5 (data : list Z) (chunk_base row_stride n : nat) (bufs : list buffer) : option (list buffer) :=
  bufs ← (if (n =? 64)%nat then mfold (gather_rows_4 data chunk_base row_stride) (blocks_of 4 64) bufs
          else mfold (gather_row_5 data chunk_base row_stride) (seq 0 n) bufs);
  Some (zero_pad_5 n bufs).

Definition gather_column (data : list Z) (chunk_base row_stride n off : nat) (B : buffer) : option buffer :=
  B ← mfold (fun r B => v ← read_field data chunk_base row_stride off r; Some (<[r := v]> B)) (seq 0 n) B;
  Some (foldl (fun B r => <[r := 0]> B) B (seq n (64 - n))).

Section Worker.
Context {T : HwyTarget}.
Variable config : TaskConfig.
Variable data : list Z.

(** One field by the general loop; a null descriptor is dereferenced. *)
Definition tail_column (chunk_base n f : nat) (st : list buffer * list (option nat)) :
    option (list buffer * list (option nat)) :=
  let '(bufs, planes) := st in
  d ← mjoin (tc_fields config !! f);
  B ← bufs !! f;
  B ← gather_column data chunk_base (tc_row_stride config) n (offset d) B;
  slice_column (tc_mode config) (tc_active_bits config) f (<[f := B]> bufs, planes).

Definition gather_chunk (chunk_base n : nat) (bufs : list buffer) : option (list buffer * list (option nat)) :=
  let num_fields := length (tc_fields config) in
  let field_planes := replicate 32 None in
  if use_simd_5 (tc_fields config) then
    bufs ← gather_5 data chunk_base (tc_row_stride config) n bufs;
    st ← mfold (slice_column (tc_mode config) (tc_active_bits config)) (seq 0 5) (bufs, field_planes);
    mfold (tail_column chunk_base n) (seq 5 (Nat.min num_fields 32 - 5)) st
  else
    mfold (tail_column chunk_base n) (seq 0 (Nat.min num_fields 32)) (bufs, field_planes).

(** ** Aggregating it *)

(** Eight weighted population counts: slots, words, counts, then the sums. *)
Definition hybrid_block (slots deltas scratchpad : list Z) (rows_mask : Z) (i : nat) (total_sum : Z) : option Z :=
  m ← mapM (fun j => slots !! j) (seq i 8);
  s ← mapM (scratch_at scratchpad) m;
  w ← mapM (fun j => deltas !! j) (seq i 8);
  Some (foldl (fun sum k => wrap64 (sum + popcount64 (Z.land (s !!! k) rows_mask) * (w !!! k))) total_sum (seq 0 8)).

Definition hybrid_by_8 (slots deltas scratchpad : list Z) (rows_mask total_sum : Z) : option Z :=
  let n := length deltas in
  total_sum ← mfold (hybrid_block slots deltas scratchpad rows_mask) (blocks_of 8 n) total_sum;
  mfold (hybrid_step slots deltas scratchpad rows_mask) (seq (n / 8 * 8) (n mod 8)) total_sum.

Definition aggregate_chunk (n : nat) (kernel_res : Z) (scratchpad : list Z) (total : Z) : option Z :=
  if decide (tc_result_kind config = 1) then
    Some (wrap64 (total + popcount64 (Z.land kernel_res (rows_mask n))))
  else match tc_delta_weights config with
  | _ :: _ =>
      s ← hybrid_by_8 (tc_masks_to_popcount config) (tc_delta_weights config) scratchpad (rows_mask n)
            (wrap64 (tc_base_sum config * Z.of_nat n));
      Some (wrap64 (total + s))
  | [] => plane_sum scratchpad (rows_mask n) total
  end.

(** ** The worker *)

(** The chunk at row [start_row + 64 c]; the buffers and the scratch memory
    persist from chunk to chunk. *)
Definition worker_chunk (base start_row end_row c : nat) (st : Z * (list buffer * list Z)) :
    option (Z * (list buffer * list Z)) :=
  let '(total, (bufs, scratchpad)) := st in
  let row := (start_row + c * 64)%nat in
  let chunk_base := (base + row * tc_row_stride config)%nat in
  let rows_in_chunk := Nat.min 64 (end_row - row) in
  '(bufs, planes) ← gather_chunk chunk_base rows_in_chunk bufs;
  '(kernel_res, scratchpad) ← call_kernel (tc_kernel config) (pointees bufs planes) scratchpad;
  total ← aggregate_chunk rows_in_chunk kernel_res scratchpad total;
  Some (total, (bufs, scratchpad)).

(** [alloc_ok]: the outcome of [posix_memalign]; [field_buffers]: the stack
    memory of the buffers; [clock]: the two readings of the cycle counter. *)
Definition worker_thread (alloc_ok : bool) (field_buffers : list buffer) (clock : Z * Z)
    (base start_row end_row : nat) : option PaddedResult :=
  if negb alloc_ok then Some (mkResult 0 0)
  else if (length (tc_fields config) =? 0)%nat then Some (mkResult 0 0)
  else
    let scratchpad := replicate (Z.to_nat 262144) 0 in
    '(total, _) ← mfold (worker_chunk base start_row end_row) (chunks (end_row - start_row))
                    (0, (field_buffers, scratchpad));
    Some (mkResult total (wrap64 (clock.2 - clock.1))).

End Worker.

(** ** The split *)

Definition rows_per_thread (total_rows num_threads : nat) : nat :=
  let n := (total_rows / num_threads / 64 * 64)%nat in
  if (n =? 0)%nat then 64%nat else n.

(** The enqueue loop from thread [t] on, [k] threads to go. *)
Fixpoint enqueue_tasks (total_rows num_threads rows_per_thread t k : nat) : list (nat * nat) :=
  match k with
  | O => []
  | S k =>
      let start := (t * rows_per_thread)%nat in
      let end_ := (start + rows_per_thread)%nat in
      let end_ := if (total_rows <? end_)%nat || (t =? num_threads - 1)%nat then total_rows else end_ in
      if (total_rows <=? start)%nat then []
      else (start, end_) :: enqueue_tasks total_rows num_threads rows_per_thread (S t) k
  end.

(** The workers' shares of the rows. *)
Definition tasks (total_rows : nat) (num_threads : Z) : list (nat * nat) :=
  let n := Z.to_nat (if num_threads <=? 0 then 1 else num_threads) in
  enqueue_tasks total_rows n (rows_per_thread total_rows n) 0 n.

(** ** The runner

    [worker] is the outcome of a task; the pool runs every task once and the
    results are read after it has (ThreadPool.v). *)
Definition sum_counts (results : list PaddedResult) : Z :=
  foldl (fun total r => wrap64 (total + count r)) 0 results.

Definition sum_cycles (results : list PaddedResult) : Z :=
  foldl (fun total r => wrap64 (total + cycles r)) 0 results.

Definition run (worker : nat * nat -> option PaddedResult) (total_rows : nat) (num_threads : Z) : option Z :=
  if (total_rows =? 0)%nat then Some 0
  else results ← mapM worker (tasks total_rows num_threads); Some (sum_counts results).

Definition run_with_stats (worker : nat * nat -> option PaddedResult) (total_rows : nat) (num_threads : Z) :
    option ExecutionStats :=
  if (total_rows =? 0)%nat then Some (mkStats 0 0 0)
  else
    results ← mapM worker (tasks total_rows num_threads);
    let cycles := sum_cycles results in
    Some (mkStats (sum_counts results) cycles (cycles / Z.of_nat total_rows)).
