(* ===== verification/RunnerCorrect.v ===== *)
(** * The parallel runner: one worker

    [worker_thread] adds up the value of every row of its share. *)

From S2P Require Import Prelude Planes BitSlicer IR Registry A64 KernelCall Rows Aggregate Columns.
From S2P Require Import Runner.

(** ** Gathering *)

Lemma gather_column_eq data base stride n d fields B :
  rows_fit data base stride fields n -> Some d ∈ fields -> (n <= 64)%nat -> length B = 64%nat ->
  gather_column data base stride n (offset d) B = Some (column_over data base stride n d (fun _ => 0)).
Proof.
  intros Hf Hd Hn HB. unfold gather_column. rewrite <- (arr_eta 64 B HB).
  rewrite (mfold_store _ (fun q => default 0 (read_field data base stride (offset d) q)) _ 0 n) by
    (try lia; intros r Hr; destruct (rows_fit_read _ _ _ _ _ r d Hf ltac:(lia) Hd) as (v & -> & _); done).
  rewrite bind_Some, foldl_store by lia. f_equal. apply arr_ext. intros q Hq.
  repeat case_decide; try done; lia.
Qed.

Lemma gather_rows_4_eq data base stride r bufs :
  gather_rows_4 data base stride r bufs = mfold (gather_row_5 data base stride) (seq r 4) bufs.
Proof.
  unfold gather_rows_4, gather_row_5. cbn [seq mfold].
  replace (base + S r * stride)%nat with (base + r * stride + stride)%nat by lia.
  replace (base + S (S r) * stride)%nat with (base + r * stride + stride + stride)%nat by lia.
  replace (base + S (S (S r)) * stride)%nat with (base + r * stride + stride + stride + stride)%nat by lia.
  replace (r + 1)%nat with (S r) by lia. replace (r + 2)%nat with (S (S r)) by lia.
  replace (r + 3)%nat with (S (S (S r))) by lia.
  generalize (base + r * stride)%nat. intros p.
  destruct (load_row_5 data p) as [v0|]; [|done]. rewrite !bind_Some.
  destruct (load_row_5 data (p + stride)) as [v1|]; [|done]. rewrite !bind_Some.
  destruct (load_row_5 data (p + stride + stride)) as [v2|]; [|done]. rewrite !bind_Some.
  destruct (load_row_5 data (p + stride + stride + stride)) as [v3|]; [|done]. by rewrite !bind_Some.
Qed.

(** The full-chunk loop and the row-by-row loop are the same. *)
Lemma gather_5_rows data base stride n bufs :
  gather_5 data base stride n bufs = (bufs ← mfold (gather_row_5 data base stride) (seq 0 n) bufs; Some (zero_pad_5 n bufs)).
Proof.
  unfold gather_5. destruct (Nat.eqb_spec n 64) as [->|]; [|done]. f_equal.
  rewrite (mfold_ext _ (fun i a => mfold (gather_row_5 data base stride) (seq i 4) a)) by (intros; apply gather_rows_4_eq).
  rewrite <- (mfold_blocks _ 4 64) by done.
  change (seq (64 / 4 * 4) (64 mod 4)) with (@nil nat). by destruct (mfold _ (blocks_of 4 64) bufs).
Qed.

Lemma zero_pad_5_lookup n bufs f :
  zero_pad_5 n bufs !! f =
    if decide (f < 5)%nat then (fun B => foldl (fun B r => <[r := 0]> B) B (seq n (64 - n))) <$> (bufs !! f)
    else bufs !! f.
Proof.
  unfold zero_pad_5. generalize (seq n (64 - n)). intros l. revert bufs. induction l as [|r l IH]; intros bufs; cbn [foldl].
  - case_decide; [|done]. by destruct (bufs !! f).
  - rewrite IH, (foldl_set_lane (fun _ => 0)) by apply NoDup_seq.
    destruct (decide (f < 5)%nat); [rewrite decide_True|rewrite decide_False]; try (rewrite elem_of_seq; lia); try done.
    by destruct (bufs !! f).
Qed.

Lemma length_zero_pad_5 n bufs : length (zero_pad_5 n bufs) = length bufs.
Proof.
  unfold zero_pad_5. generalize (seq n (64 - n)). intros l. revert bufs. induction l as [|r l IH]; intros bufs; cbn [foldl].
  - done.
  - rewrite IH. apply (length_foldl_set_lane (fun _ => 0)).
Qed.

Lemma gather_5_spec data base stride n fields bufs :
  rows_fit data base stride fields n -> (n <= 64)%nat -> use_simd_5 fields = true ->
  Forall words bufs -> (5 <= length bufs)%nat ->
  exists bufs', gather_5 data base stride n bufs = Some bufs' /\ length bufs' = length bufs /\
    (forall f d, (f < 5)%nat -> fields !! f = Some (Some d) ->
       bufs' !! f = Some (column_over data base stride n d (fun _ => 0))) /\
    (forall f, (5 <= f)%nat -> bufs' !! f = bufs !! f).
Proof.
  intros Hf Hn Hs Hw Hl. rewrite gather_5_rows.
  destruct (gather_five data base stride n fields Hf Hn Hs bufs Hw) as (b & E & Hr).
  rewrite E, bind_Some. eexists. split; [done|]. rewrite length_zero_pad_5. split_and!.
  - apply Hr.
  - intros f d Hlt Hd. rewrite zero_pad_5_lookup, decide_True by done.
    destruct (lookup_lt_is_Some_2 bufs f) as [B HB]; [lia|].
    rewrite (rows_in_five_column data base stride n fields Hs bufs b f d B Hr Hlt Hd HB). cbn [fmap option_fmap option_map].
    f_equal. unfold column_over. rewrite foldl_store by lia. apply arr_ext. intros q Hq. repeat case_decide; try done; lia.
  - intros f Hge. rewrite zero_pad_5_lookup, decide_False by lia. by apply Hr.
Qed.

(** ** The aggregators *)

Definition config_aggregation (c : TaskConfig) : aggregation :=
  mkAggregation (bool_decide (tc_result_kind c = 1)) (tc_base_sum c) (tc_delta_weights c) (tc_masks_to_popcount c).

Lemma mapM_lookup_seq {A} (l : list A) lo k :
  (lo + k <= length l)%nat -> mapM (fun j => l !! j) (seq lo k) = Some (take k (drop lo l)).
Proof.
  revert lo. induction k as [|k IH]; intros lo Hk; [done|]. cbn [seq mapM].
  destruct (lookup_lt_is_Some_2 l lo) as [x Hx]; [lia|]. rewrite Hx, (drop_S l x lo Hx). cbn [mbind option_bind take].
  rewrite IH by lia. done.
Qed.

(** Eight steps at once are eight steps. *)
Lemma hybrid_block_eq a sc msk i sum :
  slots_in a (Z.of_nat (length sc)) -> (i + 8 <= length (ag_deltas a))%nat ->
  hybrid_block (ag_slots a) (ag_deltas a) sc msk i sum =
    mfold (hybrid_step (ag_slots a) (ag_deltas a) sc msk) (seq i 8) sum.
Proof.
  intros Hs Hi. pose proof Hs as [Hl Hf].
  set (w := fun j => popcount64 (Z.land (sc !!! Z.to_nat (ag_slots a !!! j)) msk) * ag_deltas a !!! j).
  rewrite (mfold_ext _ (fun j x => Some (wrap64 (x + w j)))), mfold_pure by
    (intros j x Hj%elem_of_seq; apply hybrid_step_eq; [done|lia]).
  unfold hybrid_block. rewrite !mapM_lookup_seq, bind_Some by lia.
  assert (mapM (scratch_at sc) (take 8 (drop i (ag_slots a))) = Some ((fun k => sc !!! Z.to_nat k) <$> take 8 (drop i (ag_slots a)))) as ->.
  { assert (Forall (fun k => 0 <= k < Z.of_nat (length sc)) (take 8 (drop i (ag_slots a)))) as Hf' by (by apply Forall_take, Forall_drop).
    revert Hf'. generalize (take 8 (drop i (ag_slots a))). intros l. induction 1 as [|k l Hk _ IH]; [done|].
    cbn [mapM fmap list_fmap]. rewrite scratch_at_eq, bind_Some, IH by done. done. }
  rewrite !bind_Some. f_equal.
  assert (forall l1 l2 x, length l1 = length l2 ->
    (forall k, (k < length l1)%nat -> w (l2 !!! k) = popcount64 (Z.land (((fun k => sc !!! Z.to_nat k) <$> take 8 (drop i (ag_slots a))) !!! (l1 !!! k)) msk)
       * (take 8 (drop i (ag_deltas a)) !!! (l1 !!! k))) ->
    foldl (fun sum k => wrap64 (sum + popcount64 (Z.land (((fun k => sc !!! Z.to_nat k) <$> take 8 (drop i (ag_slots a))) !!! k) msk)
       * (take 8 (drop i (ag_deltas a)) !!! k))) x l1 = foldl (fun x j => wrap64 (x + w j)) x l2) as Hfold.
  { induction l1 as [|y l1 IH]; intros [|z l2] x Hlen Hw; try done. cbn [foldl].
    pose proof (Hw 0%nat) as H0. cbn in H0. rewrite H0 by lia. apply IH; [by injection Hlen|].
    intros k Hk. apply (Hw (S k)). cbn. lia. }
  apply Hfold; [done|]. rewrite length_seq. intros k Hk. rewrite !lookup_total_seq_lt by done. cbn [Nat.add].
  unfold w. rewrite !list_lookup_total_alt, list_lookup_fmap, !lookup_take_lt, !lookup_drop by done.
  destruct (lookup_lt_is_Some_2 (ag_slots a) (i + k)) as [slot ->]; [lia|]. cbn.
  by rewrite list_lookup_total_alt.
Qed.

Lemma hybrid_by_8_eq a sc msk sum :
  slots_in a (Z.of_nat (length sc)) ->
  hybrid_by_8 (ag_slots a) (ag_deltas a) sc msk sum = hybrid_sum (ag_slots a) (ag_deltas a) sc msk sum.
Proof.
  intros Hs. unfold hybrid_by_8, hybrid_sum. rewrite <- (mfold_blocks _ 8 (length (ag_deltas a))) by done.
  unfold mbind, option_bind at 1. rewrite (mfold_ext _ (fun i a0 => mfold (hybrid_step (ag_slots a) (ag_deltas a) sc msk) (seq i 8) a0)); [done|].
  intros i x Hi. apply hybrid_block_eq; [done|]. unfold blocks_of in Hi. apply list_elem_of_fmap in Hi as (b & -> & Hb%elem_of_seq).
  pose proof (Nat.Div0.mul_div_le (length (ag_deltas a)) 8). nia.
Qed.

Lemma aggregate_chunk_rows config n m sc t :
  slots_in (config_aggregation config) (Z.of_nat (length sc)) -> (64 <= length sc)%nat -> (n <= 64)%nat ->
  aggregate_chunk config n m sc (wrap64 t) = Some (wrap64 (t + zsum n (row_outcome (config_aggregation config) m sc))).
Proof.
  intros Hs Hl Hn. unfold aggregate_chunk. destruct (decide (tc_result_kind config = 1)) as [Hk|Hk].
  - rewrite wrap64_idemp_add_l, (row_outcome_mask (config_aggregation config) m sc) by (done || by apply bool_decide_eq_true_2). done.
  - assert (ag_mask (config_aggregation config) = false) as Ha by (by apply bool_decide_eq_false_2).
    destruct (tc_delta_weights config) as [|w ds] eqn:Ed.
    + by apply (row_outcome_planes (config_aggregation config)).
    + rewrite <- Ed in *.
      rewrite (hybrid_by_8_eq (config_aggregation config)) by done.
      destruct (row_outcome_hybrid (config_aggregation config) m sc n t) as (s & E & Es); try done.
      { cbn. by rewrite Ed. }
      cbn [config_aggregation ag_base ag_deltas ag_slots] in E. cbn [config_aggregation ag_deltas ag_slots]. rewrite E, bind_Some.
      by rewrite wrap64_idemp_add_l, Es.
Qed.

(** ** A chunk *)

(** Every entry of the field table is a descriptor, and the thread has a buffer for it. *)
Record config_ok (config : TaskConfig) : Prop := {
  co_some : forall i o, tc_fields config !! i = Some o -> is_Some o;
  co_len : (0 < length (tc_fields config) <= 32)%nat;
  co_bits : tc_active_bits config = 64
}.

Definition buffers_ok (N : nat) (bufs : list buffer) : Prop := length bufs = N /\ Forall words bufs.

Definition padded (data : list Z) (base stride n : nat) (fields : list (option FieldDescriptor)) (i : nat) : list Z :=
  match fields !! i with Some (Some d) => column_over data base stride n d (fun _ => 0) | _ => [] end.

Lemma padded_ok data base stride n fields i d :
  rows_fit data base stride fields n -> (n <= 64)%nat -> fields !! i = Some (Some d) ->
  column_ok data base stride d n (padded data base stride n fields i).
Proof.
  intros Hf Hn Hd. unfold padded. rewrite Hd. eapply column_over_ok; [exact Hf| |done|intros; apply u64_0].
  by eapply list_elem_of_lookup_2.
Qed.

Section Chunk.
Context {T : HwyTarget} (config : TaskConfig) (data : list Z).
Hypothesis Hc : config_ok config.
Variables (base n : nat).
Let fields := tc_fields config.
Let stride := tc_row_stride config.
Let m := tc_mode config.
Hypothesis Hfit : rows_fit data base stride fields n.
Hypothesis Hn : (n <= 64)%nat.
Let cols := padded data base stride n fields.

Lemma field_at i : (i < length fields)%nat -> exists d, fields !! i = Some (Some d) /\ Some d ∈ fields /\ words (cols i).
Proof using Hc Hfit Hn.
  intros Hi. destruct (lookup_lt_is_Some_2 fields i Hi) as [o Ho]. destruct (co_some _ Hc i o Ho) as [d ->].
  exists d. split_and!; [done|by eapply list_elem_of_lookup_2|]. by apply (padded_ok data base stride n fields i d).
Qed.

Lemma tail_column_step i st :
  gathered m fields cols 32 i st -> (i < length fields)%nat ->
  exists st', tail_column config data base n i st = Some st' /\ gathered m fields cols 32 (S i) st'.
Proof using Hc Hfit Hn.
  destruct st as [bufs planes]. intros G Hi. pose proof (co_len _ Hc) as Hl. fold fields in Hl.
  destruct (field_at i Hi) as (d & Hd & Hin & Hw).
  destruct (lookup_lt_is_Some_2 bufs i) as [B HB]; [pose proof (ga_bufs _ _ _ _ _ _ G) as E; cbn [fst] in E; lia|].
  assert (words B) as HBw by (pose proof (ga_words _ _ _ _ _ _ G) as Hws; rewrite Forall_lookup in Hws; by eapply Hws).
  assert (cols i = column_over data base stride n d (fun _ => 0)) as Hcol by (unfold cols, padded; by rewrite Hd).
  unfold tail_column. fold fields stride m. rewrite Hd. cbn [mjoin option_join]. rewrite bind_Some, HB, bind_Some.
  rewrite (gather_column_eq data base stride n d fields B Hfit Hin Hn) by apply HBw. rewrite bind_Some, (co_bits _ Hc), <- Hcol.
  destruct (gathered_store m fields cols 32 i bufs planes G) as (st' & E & G' & _); [lia|done|by exists st'].
Qed.

Lemma gather_chunk_spec bufs :
  buffers_ok 32 bufs ->
  exists st, gather_chunk config data base n bufs = Some st /\ gathered m fields cols 32 (length fields) st.
Proof using Hc Hfit Hn.
  intros [Hbl Hbw]. pose proof (co_len _ Hc) as Hl. fold fields in Hl.
  assert (forall st k, (k <= length fields)%nat -> gathered m fields cols 32 k st ->
    exists st', mfold (tail_column config data base n) (seq k (length fields - k)) st = Some st' /\
      gathered m fields cols 32 (length fields) st') as Htail.
  { intros st k Hk G. destruct (mfold_seq_rule (tail_column config data base n)
      (gathered m fields cols 32) k (length fields - k) st) as (st' & E & G'); [done| |].
    - intros i st1 Hi G1. apply tail_column_step; [done|lia].
    - exists st'. split; [done|]. by replace (k + (length fields - k))%nat with (length fields) in G' by lia. }
  unfold gather_chunk. fold fields. rewrite Nat.min_l by lia. destruct (use_simd_5 fields) eqn:Hs.
  - assert (5 <= length fields)%nat as H5.
    { destruct (use_simd_5_offset fields 4 Hs) as (d & Hd & _); [lia|]. by apply lookup_lt_Some in Hd. }
    destruct (gather_5_spec data base stride n fields bufs Hfit Hn Hs Hbw) as (b & E & Hbl' & H1 & H2); [lia|].
    fold stride. rewrite E, bind_Some, (co_bits _ Hc).
    assert (forall f, (f < 5)%nat -> b !! f = Some (cols f)) as Hcols.
    { intros f Hf. destruct (field_at f) as (d & Hd & _); [lia|]. unfold cols, padded. rewrite Hd. by apply (H1 f d). }
    destruct (gathered_five m fields cols 32 (b, replicate 32 None)) as (st' & E' & G').
    + split; cbn [fst snd]; [lia| |by rewrite length_replicate|lia].
      apply Forall_lookup. intros f B HB. destruct (decide (f < 5)%nat) as [Hf|Hf].
      * rewrite Hcols in HB by done. injection HB as <-. destruct (field_at f) as (d & _ & _ & Hw); [lia|done].
      * rewrite H2 in HB by lia. rewrite Forall_lookup in Hbw. by eapply Hbw.
    + lia.
    + intros f Hf. split; [by apply Hcols|]. by destruct (field_at f) as (d & _ & _ & Hw); [lia|].
    + fold m. rewrite E', bind_Some. apply Htail; [lia|done].
  - pose proof (Htail (bufs, replicate 32 None) 0%nat) as H0. rewrite Nat.sub_0_r in H0. apply H0; [lia|].
    split; cbn [fst snd]; [done|done|by rewrite length_replicate|lia].
Qed.

End Chunk.
