(* ===== verification/RunnerProps.v ===== *)
(** * The parallel runner: the split and the result

    The shares of [tasks] cover the rows exactly once; [run] returns the sum of
    the rows' values, whatever the number of threads. *)

From S2P Require Import Prelude Planes BitSlicer IR Registry A64 KernelCall Rows Aggregate Columns.
From S2P Require Import Runner RunnerCorrect.

(** ** A worker *)

Section Worker.
Context {T : HwyTarget} (config : TaskConfig) (desc : string -> option FieldDescriptor) (rowfn : (string -> Z) -> Z).
Context {L : LogicSpec (tc_mode config) (tc_kernel config) (tc_fields config) (config_aggregation config) desc rowfn}.
Context (data : list Z) (base : nat).
Hypothesis Hc : config_ok config.

(** The value of a row. *)
Definition row_sum (q : nat) : Z := rowfn (row_of data base (tc_row_stride config) desc q).

Definition worker_state_ok (s : list buffer * list Z) : Prop :=
  buffers_ok 32 s.1 /\ 32768 <= Z.of_nat (length s.2).

Lemma worker_chunk_step start_row end_row c t s :
  rows_fit data base (tc_row_stride config) (tc_fields config) end_row ->
  (64 * c < end_row - start_row)%nat -> worker_state_ok s ->
  exists s', worker_chunk config data base start_row end_row c (wrap64 t, s) =
    Some (wrap64 (t + zsum (Nat.min 64 (end_row - start_row - 64 * c)) (fun q => row_sum (start_row + (64 * c + q))%nat)), s') /\
    worker_state_ok s'.
Proof using Hc L.
  destruct s as [bufs sc]. intros Hfit Hlt [Hb Hs]. cbn [fst snd] in *. unfold worker_chunk.
  set (row := (start_row + c * 64)%nat). set (n := Nat.min 64 (end_row - row)).
  replace (Nat.min 64 (end_row - start_row - 64 * c)) with n by (subst n row; lia).
  assert (n <= 64)%nat as Hn by (subst n; lia).
  assert (rows_fit data (base + row * tc_row_stride config) (tc_row_stride config) (tc_fields config) n) as Hfit'
    by (eapply rows_fit_shift; [exact Hfit|subst n row; lia]).
  destruct (gather_chunk_spec config data Hc _ n Hfit' Hn bufs Hb) as ([bufs' planes] & E & G).
  rewrite E, bind_Some.
  destruct (logic_call (tc_mode config) (tc_kernel config) (tc_fields config) (config_aggregation config) desc rowfn
    data (base + row * tc_row_stride config) (tc_row_stride config)
    (padded data (base + row * tc_row_stride config) (tc_row_stride config) n (tc_fields config)) n
    (proj1 Hfit') Hn (fun i d H => padded_ok _ _ _ _ _ i d Hfit' Hn H) (pointees bufs' planes) sc)
    as (r & sc' & Ek & Hl & Hq).
  { intros i d Hd. eapply (gathered_pointees _ _ _ _ _ (bufs', planes)); [exact G| |exact Hd]. by apply lookup_lt_Some in Hd. }
  { done. }
  rewrite Ek, bind_Some. rewrite aggregate_chunk_rows.
  - rewrite bind_Some. eexists. split.
    + do 4 f_equal. apply zsum_ext. intros q Hlt'. rewrite Hq by done. unfold row_sum. rewrite row_of_shift.
      do 2 f_equal. subst row. lia.
    + split; cbn [fst snd]; [|lia]. by destruct G.
  - eapply slots_in_le; [apply (ls_slots (LogicSpec := L))|]. lia.
  - lia.
  - done.
Qed.

Lemma worker_thread_rows field_buffers clock start_row end_row :
  rows_fit data base (tc_row_stride config) (tc_fields config) end_row -> buffers_ok 32 field_buffers ->
  exists r, worker_thread config data true field_buffers clock base start_row end_row = Some r /\
    count r = wrap64 (zsum (end_row - start_row) (fun q => row_sum (start_row + q)%nat)).
Proof using Hc L.
  intros Hfit Hb. unfold worker_thread. cbn [negb].
  destruct (Nat.eqb_spec (length (tc_fields config)) 0) as [E0|_]; [pose proof (co_len _ Hc); lia|].
  destruct (chunk_loop (worker_chunk config data base start_row end_row) worker_state_ok
    (fun q => row_sum (start_row + q)%nat) (end_row - start_row) (field_buffers, replicate (Z.to_nat 262144) 0))
    as (s' & E & _).
  - intros c t s Hlt Hs. by apply worker_chunk_step.
  - split; [done|]. cbn [snd]. rewrite length_replicate. lia.
  - rewrite E, bind_Some. by eexists.
Qed.

End Worker.

(** ** The split *)

(** [ts] cuts [lo, hi) into consecutive shares that start at multiples of 64. *)
Inductive chained : nat -> nat -> list (nat * nat) -> Prop :=
  | chained_nil n : chained n n []
  | chained_cons lo mid hi ts :
      (lo < mid)%nat -> (lo mod 64 = 0)%nat -> chained mid hi ts -> chained lo hi ((lo, mid) :: ts).

Lemma chained_le lo hi ts : chained lo hi ts -> (lo <= hi)%nat.
Proof. induction 1; lia. Qed.

Lemma enqueue_tasks_chained total nt rpt t k :
  (t + k = nt)%nat -> (0 < k)%nat -> (0 < rpt)%nat -> (rpt mod 64 = 0)%nat -> (t * rpt < total)%nat ->
  chained (t * rpt) total (enqueue_tasks total nt rpt t k).
Proof.
  revert t. induction k as [|k IH]; intros t Hnt Hk Hr Hm Ht; [lia|]. cbn [enqueue_tasks].
  rewrite (proj2 (Nat.leb_gt total (t * rpt))) by done.
  assert ((t * rpt) mod 64 = 0)%nat as Hm' by (rewrite Nat.Lcm0.mod_divide in *; by apply Nat.divide_mul_r).
  assert (forall e, (e <= total)%nat -> (total <= (S t) * rpt)%nat -> enqueue_tasks total nt rpt (S t) k = []) as Hnil.
  { intros _ _ Hge. destruct k as [|k]; [done|]. cbn [enqueue_tasks]. by rewrite (proj2 (Nat.leb_le total (S t * rpt))). }
  destruct (Nat.ltb_spec total (t * rpt + rpt)) as [Hend|Hend]; cbn [orb].
  - constructor; [done|done|]. rewrite (Hnil total) by lia. constructor.
  - destruct (Nat.eqb_spec t (nt - 1)) as [Hlast|Hlast].
    + constructor; [done|done|]. assert (k = 0%nat) as -> by lia. constructor.
    + constructor; [lia|done|]. replace (t * rpt + rpt)%nat with (S t * rpt)%nat by lia.
      destruct (decide (S t * rpt = total)%nat) as [<-|Hne].
      * rewrite (Hnil (S t * rpt)%nat) by lia. constructor.
      * apply IH; [lia|lia|done|done|lia].
Qed.

Lemma length_enqueue_tasks total nt rpt t k : (length (enqueue_tasks total nt rpt t k) <= k)%nat.
Proof.
  revert t. induction k as [|k IH]; intros t; cbn [enqueue_tasks length]; [lia|].
  destruct (total <=? t * rpt)%nat; cbn [length]; [lia|]. specialize (IH (S t)). lia.
Qed.

Lemma rows_per_thread_aligned total nt :
  (0 < rows_per_thread total nt)%nat /\ (rows_per_thread total nt mod 64 = 0)%nat.
Proof.
  unfold rows_per_thread. destruct (Nat.eqb_spec (total / nt / 64 * 64) 0); [split; [lia|done]|]. split; [lia|]. apply Nat.Div0.mod_mul.
Qed.

(** The number of threads [run] works with. *)
Definition thread_count (num_threads : Z) : nat := Z.to_nat (if num_threads <=? 0 then 1 else num_threads).

Lemma thread_count_pos nt : (0 < thread_count nt)%nat.
Proof. unfold thread_count. destruct (Z.leb_spec nt 0); lia. Qed.

Lemma tasks_chained total nt : (0 < total)%nat -> chained 0 total (tasks total nt).
Proof.
  intros Ht. unfold tasks. fold (thread_count nt). pose proof (thread_count_pos nt).
  destruct (rows_per_thread_aligned total (thread_count nt)).
  by apply (enqueue_tasks_chained total (thread_count nt) _ 0).
Qed.

(** ** The sum over the shares *)

Lemma chained_sum worker f lo hi ts t :
  chained lo hi ts ->
  (forall s e, (s, e) ∈ ts -> (e <= hi)%nat ->
     exists r, worker (s, e) = Some r /\ count r = wrap64 (zsum (e - s) (fun q => f (s + q)%nat))) ->
  exists rs, mapM worker ts = Some rs /\ length rs = length ts /\
    foldl (fun total r => wrap64 (total + count r)) (wrap64 t) rs =
      wrap64 (t + zsum (hi - lo) (fun q => f (lo + q)%nat)).
Proof.
  intros Hch. revert t. induction Hch as [n|lo mid hi ts Hlt Hm Hch IH]; intros t Hw.
  - exists []. rewrite Nat.sub_diag. cbn. by rewrite Z.add_0_r.
  - pose proof (chained_le _ _ _ Hch). destruct (Hw lo mid) as (r & E & Er); [by left|lia|].
    destruct (IH (t + zsum (mid - lo) (fun q => f (lo + q)%nat))) as (rs & Es & Hl & Hs).
    { intros s e Hin. apply Hw. by right. }
    exists (r :: rs). cbn [mapM]. rewrite E, bind_Some, Es, bind_Some. split; [done|]. cbn [length foldl]. split; [lia|].
    rewrite Er, wrap64_idemp_add_l, wrap64_idemp_add_r, Hs. f_equal.
    replace (hi - lo)%nat with ((mid - lo) + (hi - mid))%nat by lia. rewrite zsum_split, Z.add_assoc. f_equal.
    apply zsum_ext. intros q _. f_equal. lia.
Qed.

Lemma chained_shares lo hi ts :
  chained lo hi ts -> mjoin ((fun s => seq s.1 (s.2 - s.1)) <$> ts) = seq lo (hi - lo).
Proof.
  induction 1 as [n|lo mid hi ts Hlt Hm Hch IH]; [by rewrite Nat.sub_diag|].
  pose proof (chained_le _ _ _ Hch). rewrite fmap_cons.
  change (seq lo (mid - lo) ++ mjoin ((fun s => seq s.1 (s.2 - s.1)%nat) <$> ts) = seq lo (hi - lo)). rewrite IH.
  replace (hi - lo)%nat with ((mid - lo) + (hi - mid))%nat by lia. rewrite seq_app. do 2 f_equal. lia.
Qed.

Lemma chained_in lo hi ts s e :
  chained lo hi ts -> (s, e) ∈ ts -> (s mod 64 = 0)%nat /\ (lo <= s)%nat /\ (s < e)%nat /\ (e <= hi)%nat.
Proof.
  induction 1 as [n|lo mid hi ts Hlt Hm Hc IH]; [intros Hin; by apply not_elem_of_nil in Hin|].
  pose proof (chained_le _ _ _ Hc). intros [E|Hin]%elem_of_cons.
  - injection E as -> ->. split_and!; [exact Hm|lia..].
  - destruct (IH Hin) as (H1 & H2 & H3 & H4). split_and!; [exact H1|lia..].
Qed.

Lemma run_rows worker f total nt :
  (forall s e, (s, e) ∈ tasks total nt -> (e <= total)%nat ->
     exists r, worker (s, e) = Some r /\ count r = wrap64 (zsum (e - s) (fun q => f (s + q)%nat))) ->
  run worker total nt = Some (wrap64 (zsum total f)).
Proof.
  intros Hw. unfold run. destruct (Nat.eqb_spec total 0) as [->|Hne]; [done|].
  destruct (chained_sum worker f 0 total (tasks total nt) 0) as (rs & E & _ & Hs); [apply tasks_chained; lia|done|].
  rewrite E, bind_Some. f_equal. unfold sum_counts. change 0 with (wrap64 0). rewrite Hs, Nat.sub_0_r. done.
Qed.

(** ** Property *)

(** C17: the split.  For any number of rows and threads, the shares are consecutive
    and together are all the rows, each row once; every share starts at a
    multiple of 64, is not empty and ends within the rows; and there are at most as many
    shares as threads, so every write to [results[t]] is in bounds. *)
Theorem shares_partition total nt :
  (0 < total)%nat ->
  mjoin ((fun s => seq s.1 (s.2 - s.1)) <$> tasks total nt) = seq 0 total /\
  (forall s e, (s, e) ∈ tasks total nt -> (s mod 64 = 0)%nat /\ (s < e <= total)%nat) /\
  (length (tasks total nt) <= thread_count nt)%nat.
Proof.
  intros Ht. pose proof (tasks_chained total nt Ht) as Hc. split_and!.
  - rewrite (chained_shares _ _ _ Hc). by rewrite Nat.sub_0_r.
  - intros s e Hin. destruct (chained_in _ _ _ s e Hc Hin) as (H1 & _ & H2 & H3). done.
  - unfold tasks. apply length_enqueue_tasks.
Qed.

Lemma shares_partition_witness :
  mjoin ((fun s => seq s.1 (s.2 - s.1)) <$> tasks 1000 3) = seq 0 1000 /\
  (forall s e, (s, e) ∈ tasks 1000 3 -> (s mod 64 = 0)%nat /\ (s < e <= 1000)%nat) /\
  (length (tasks 1000 3) <= thread_count 3)%nat.
Proof. apply (shares_partition 1000 3). apply Nat.ltb_lt. reflexivity. Defined.
