(* ===== verification/ThreadPool.v ===== *)
(** * The thread pool
      (ThreadPool, get_global_pool and the calls of [run] on them,
      src/compute/parallel_runner.cpp)

    Worker threads take tasks from a queue under a mutex; callers enqueue their
    shares, then wait until the queue is empty and no worker is active.  A
    critical section is one step of the model, as the mutex makes it; what
    happens outside one (running the task, [notify_one] after the push) is a
    step of its own.  A thread blocked on a condition variable becomes ready
    again when it is notified, or spuriously, and then re-checks its predicate
    under the lock. *)

From S2P Require Import Prelude IR A64 Registry KernelCall Rows Runner.

(** ** State *)

Record WorkerTask := mkWorkerTask {
  wt_base : nat;
  wt_start_row : nat;
  wt_end_row : nat;
  wt_config : TaskConfig;
  wt_result : nat * nat          (* the caller and its slot in [results] *)
}.

(** Where a worker is in [worker_loop]. *)
Inductive worker_state :=
  | W_ready                      (* about to take the lock and test the predicate *)
  | W_waiting                    (* blocked in [cv_.wait] *)
  | W_running (task : WorkerTask)
  | W_finishing                  (* the task is done, [active_workers_] not yet decremented *)
  | W_exited.

(** Where a caller is in [run]: tasks still to enqueue, [wait_all], done. *)
Inductive caller_state :=
  | C_enqueue (todo : list WorkerTask)
  | C_notify (todo : list WorkerTask)      (* pushed, about to notify *)
  | C_check                                (* about to test the predicate of [wait_all] *)
  | C_waiting                              (* blocked in [wait_cv_.wait] *)
  | C_done.

(** The destructor, run at exit. *)
Inductive destructor_state := D_none | D_notify | D_join | D_done.

Record ThreadPool := mkPool {
  workers_ : list worker_state;
  tasks_ : list WorkerTask;
  stop_ : bool;
  active_workers_ : Z
}.

(** The pool, its users and the memory of their results. *)
Record system := mkSystem {
  pool : ThreadPool;
  callers : list caller_state;
  destructor : destructor_state;
  results : gmap (nat * nat) PaddedResult
}.

(** ** Operations *)

Definition set_worker (i : nat) (w : worker_state) (p : ThreadPool) : ThreadPool :=
  mkPool (<[i := w]> (workers_ p)) (tasks_ p) (stop_ p) (active_workers_ p).

Definition with_pool (p : ThreadPool) (s : system) : system := mkSystem p (callers s) (destructor s) (results s).

Definition set_caller (c : nat) (st : caller_state) (s : system) : system :=
  mkSystem (pool s) (<[c := st]> (callers s)) (destructor s) (results s).

(** [tasks_.empty() && active_workers_ == 0] *)
Definition idle (p : ThreadPool) : bool := match tasks_ p with [] => active_workers_ p =? 0 | _ => false end.

Definition is_waiting (w : worker_state) : bool := match w with W_waiting => true | _ => false end.
Definition wake_worker (w : worker_state) : worker_state := match w with W_waiting => W_ready | _ => w end.
Definition wake_caller (c : caller_state) : caller_state := match c with C_waiting => C_check | _ => c end.

(** The first critical section of [worker_loop]: the predicate of [cv_.wait], the
    return, the pop. *)
Definition worker_take (i : nat) (s : system) : option system :=
  let p := pool s in
  match workers_ p !! i with
  | Some W_ready =>
      match tasks_ p with
      | task :: rest => Some (with_pool (set_worker i (W_running task) (mkPool (workers_ p) rest (stop_ p) (active_workers_ p + 1))) s)
      | [] => Some (with_pool (set_worker i (if stop_ p then W_exited else W_waiting) p) s)
      end
  | _ => None
  end.

Section Work.
(** [worker_thread]: base, configuration, first and last row. *)
Variable work : nat -> TaskConfig -> nat -> nat -> option PaddedResult.

(** Between the critical sections: the task runs and writes its result. *)
Definition worker_run (i : nat) (s : system) : option system :=
  match workers_ (pool s) !! i with
  | Some (W_running task) =>
      r ← work (wt_base task) (wt_config task) (wt_start_row task) (wt_end_row task);
      Some (mkSystem (set_worker i W_finishing (pool s)) (callers s) (destructor s) (<[wt_result task := r]> (results s)))
  | _ => None
  end.

(** The second critical section of [worker_loop]. *)
Definition worker_release (i : nat) (s : system) : option system :=
  let p := pool s in
  match workers_ p !! i with
  | Some W_finishing =>
      let p' := set_worker i W_ready (mkPool (workers_ p) (tasks_ p) (stop_ p) (active_workers_ p - 1)) in
      Some (mkSystem p' (if idle p' then wake_caller <$> callers s else callers s) (destructor s) (results s))
  | _ => None
  end.

(** [enqueue]: the push under the lock, then [notify_one], which wakes one of the
    waiting workers if there is one: [i] is the choice. *)
Definition enqueue_push (c : nat) (s : system) : option system :=
  match callers s !! c with
  | Some (C_enqueue (task :: todo)) =>
      let p := pool s in
      Some (set_caller c (C_notify todo) (with_pool (mkPool (workers_ p) (tasks_ p ++ [task]) (stop_ p) (active_workers_ p)) s))
  | _ => None
  end.

Definition enqueue_notify (c i : nat) (s : system) : option system :=
  let p := pool s in
  match callers s !! c with
  | Some (C_notify todo) =>
      match workers_ p !! i with
      | Some W_waiting => Some (set_caller c (C_enqueue todo) (with_pool (set_worker i W_ready p) s))
      | _ => if existsb is_waiting (workers_ p) then None else Some (set_caller c (C_enqueue todo) s)
      end
  | _ => None
  end.

(** [wait_all]: the predicate of [wait_cv_.wait] under the lock. *)
Definition wait_all (c : nat) (s : system) : option system :=
  match callers s !! c with
  | Some (C_enqueue []) => Some (set_caller c C_check s)
  | Some C_check => Some (set_caller c (if idle (pool s) then C_done else C_waiting) s)
  | _ => None
  end.

(** [~ThreadPool], at exit: no caller is left. *)
Definition destroy (s : system) : option system :=
  let p := pool s in
  match destructor s with
  | D_none =>
      if forallb (fun c => match c with C_done => true | _ => false end) (callers s) then
        Some (mkSystem (mkPool (workers_ p) (tasks_ p) true (active_workers_ p)) (callers s) D_notify (results s))
      else None
  | D_notify =>
      Some (mkSystem (mkPool (wake_worker <$> workers_ p) (tasks_ p) (stop_ p) (active_workers_ p)) (callers s) D_join (results s))
  | D_join =>
      if forallb (fun w => match w with W_exited => true | _ => false end) (workers_ p) then
        Some (mkSystem p (callers s) D_done (results s))
      else None
  | D_done => None
  end.

(** A waiter that wakes up without a notification. *)
Definition spurious_worker (i : nat) (s : system) : option system :=
  match workers_ (pool s) !! i with
  | Some W_waiting => Some (with_pool (set_worker i W_ready (pool s)) s)
  | _ => None
  end.

Definition spurious_caller (c : nat) (s : system) : option system :=
  match callers s !! c with
  | Some C_waiting => Some (set_caller c C_check s)
  | _ => None
  end.

(** ** Steps *)

(** The steps threads take; [spurious] ones are the scheduler's. *)
Inductive pool_step : system -> system -> Prop :=
  | step_take i s s' : worker_take i s = Some s' -> pool_step s s'
  | step_run i s s' : worker_run i s = Some s' -> pool_step s s'
  | step_release i s s' : worker_release i s = Some s' -> pool_step s s'
  | step_push c s s' : enqueue_push c s = Some s' -> pool_step s s'
  | step_notify c i s s' : enqueue_notify c i s = Some s' -> pool_step s s'
  | step_wait c s s' : wait_all c s = Some s' -> pool_step s s'
  | step_destroy s s' : destroy s = Some s' -> pool_step s s'.

Inductive spurious_step : system -> system -> Prop :=
  | step_spurious_worker i s s' : spurious_worker i s = Some s' -> spurious_step s s'
  | step_spurious_caller c s s' : spurious_caller c s = Some s' -> spurious_step s s'.

Definition any_step (s s' : system) : Prop := pool_step s s' \/ spurious_step s s'.

End Work.

(** ** Callers *)

(** A call of [run]. *)
Record request := mkRequest {
  rq_base : nat;
  rq_config : TaskConfig;
  rq_rows : nat;
  rq_threads : Z
}.

(** The tasks call number [c] enqueues: share [t] writes [results[t]]. *)
Definition request_tasks (c : nat) (r : request) : list WorkerTask :=
  imap (fun t share => mkWorkerTask (rq_base r) share.1 share.2 (rq_config r) (c, t)) (tasks (rq_rows r) (rq_threads r)).

(** [run] up to its first call on the pool. *)
Definition start_call (c : nat) (r : request) : caller_state :=
  if (rq_rows r =? 0)%nat then C_done else C_enqueue (request_tasks c r).

(** [get_global_pool]: one worker per core, four if their number is unknown. *)
Definition global_pool (hardware_concurrency : nat) : ThreadPool :=
  let num_cores := if (hardware_concurrency =? 0)%nat then 4%nat else hardware_concurrency in
  mkPool (replicate num_cores W_ready) [] false 0.

Definition initial (hardware_concurrency : nat) (requests : list request) : system :=
  mkSystem (global_pool hardware_concurrency) (imap start_call requests) D_none ∅.

(** [results[0], ...] of call [c], as [run] reads them: zero where nothing was written. *)
Definition call_results (c : nat) (r : request) (s : system) : list PaddedResult :=
  (fun t => default (mkResult 0 0) (results s !! (c, t))) <$> seq 0 (length (tasks (rq_rows r) (rq_threads r))).
