(* ===== verification/ThreadPoolProps.v ===== *)
(** * The thread pool: safety, progress and the value of a call

    Every task is run exactly once, by one worker, and its slot is written
    once; when a caller's [wait_all] returns, its results are those of its
    tasks, so [run] on the pool returns what the sequential [run] of Runner.v
    does.  No reachable state is stuck, and the number of steps is bounded. *)

From S2P Require Import Prelude IR A64 Registry KernelCall Rows Runner ThreadPool.

(** ** Lists updated at one place *)

Section Update.
Context {A B : Type}.

Lemma update_split (l : list A) i x y : l !! i = Some y -> exists l1 l2, l = l1 ++ y :: l2 /\ <[i := x]> l = l1 ++ x :: l2.
Proof.
  intros Hi. exists (take i l), (drop (S i) l). split; [by rewrite take_drop_middle|].
  apply insert_take_drop. by eapply lookup_lt_Some.
Qed.

Lemma join_update (f : A -> list B) l i x y :
  l !! i = Some y -> f y ++ mjoin (f <$> <[i := x]> l) ≡ₚ f x ++ mjoin (f <$> l).
Proof.
  intros Hi. destruct (update_split l i x y Hi) as (l1 & l2 & -> & ->). rewrite !fmap_app, !join_app. cbn. solve_Permutation.
Qed.

Lemma sum_update (f : A -> nat) l i x y :
  l !! i = Some y -> (sum_list_with f (<[i := x]> l) + f y = sum_list_with f l + f x)%nat.
Proof.
  intros Hi. destruct (update_split l i x y Hi) as (l1 & l2 & -> & ->). rewrite !sum_list_with_app. cbn. lia.
Qed.

Lemma sum_fmap (f : A -> nat) (g : A -> A) l k :
  (forall x, f (g x) <= f x + k)%nat -> (sum_list_with f (g <$> l) <= sum_list_with f l + k * length l)%nat.
Proof. intros H. induction l as [|x l IH]; [cbn; lia|]. cbn [fmap list_fmap sum_list_with length]. specialize (H x). cbn in IH. lia. Qed.

End Update.

(** ** Pending tasks *)

Definition running (w : worker_state) : list WorkerTask := match w with W_running t => [t] | _ => [] end.
Definition todo (c : caller_state) : list WorkerTask := match c with C_enqueue l | C_notify l => l | _ => [] end.
Definition busy (w : worker_state) : nat := match w with W_running _ | W_finishing => 1 | _ => 0 end.

Definition held (s : system) : list WorkerTask := mjoin (running <$> workers_ (pool s)).
Definition planned (s : system) : list WorkerTask := mjoin (todo <$> callers s).
Definition queued (s : system) : list WorkerTask := tasks_ (pool s) ++ held s.
Definition pending (s : system) : list WorkerTask := planned s ++ queued s.

Lemma todo_wake (cs : list caller_state) : todo <$> (wake_caller <$> cs) = todo <$> cs.
Proof. rewrite <- list_fmap_compose. apply list_fmap_ext. intros i c _. by destruct c. Qed.

Lemma running_wake (ws : list worker_state) : running <$> (wake_worker <$> ws) = running <$> ws.
Proof. rewrite <- list_fmap_compose. apply list_fmap_ext. intros i w _. by destruct w. Qed.

Lemma sum_busy_wake (ws : list worker_state) : sum_list_with busy (wake_worker <$> ws) = sum_list_with busy ws.
Proof. induction ws as [|w ws IH]; [done|]. cbn [fmap list_fmap sum_list_with]. rewrite <- IH. by destruct w. Qed.

Lemma held_busy s : sum_list_with busy (workers_ (pool s)) = 0%nat -> held s = [].
Proof.
  unfold held. induction (workers_ (pool s)) as [|w ws IH]; [done|]. cbn [sum_list_with].
  intros H. change (running w ++ mjoin (running <$> ws) = []). rewrite IH by lia. by destruct w; cbn in *.
Qed.

Section Pool.
Variable work : nat -> TaskConfig -> nat -> nat -> option PaddedResult.

Definition outcome (t : WorkerTask) : option PaddedResult := work (wt_base t) (wt_config t) (wt_start_row t) (wt_end_row t).

(** ** What a step does to the tasks *)

(** The tasks stay pending, or one is finished and its result written. *)
Definition tasks_step (s s' : system) : Prop :=
  (pending s' ≡ₚ pending s /\ results s' = results s) \/
  (exists t r, outcome t = Some r /\ t ∈ held s /\ pending s ≡ₚ t :: pending s' /\ results s' = <[wt_result t := r]> (results s)).

Lemma held_update s i w y q st a :
  workers_ (pool s) !! i = Some y ->
  running y ++ mjoin (running <$> workers_ (set_worker i w (mkPool (workers_ (pool s)) q st a))) ≡ₚ running w ++ held s.
Proof. intros H. apply join_update, H. Qed.

Lemma planned_update s c st y : callers s !! c = Some y -> todo y ++ planned (set_caller c st s) ≡ₚ todo st ++ planned s.
Proof. intros H. apply join_update, H. Qed.

Lemma take_tasks i s s' : worker_take i s = Some s' -> tasks_step s s'.
Proof.
  unfold worker_take. destruct (workers_ (pool s) !! i) as [[]|] eqn:E; try done. left. unfold pending, queued, planned, held.
  destruct (tasks_ (pool s)) as [|t q] eqn:Eq; injection H as <-; cbn [with_pool pool callers results set_worker tasks_ workers_].
  - rewrite Eq. split; [|done]. pose proof (join_update running _ i (if stop_ (pool s) then W_exited else W_waiting) _ E) as Hp.
    cbn [running] in Hp. destruct (stop_ (pool s)); cbn [running app] in Hp; by rewrite Hp.
  - split; [|done]. pose proof (join_update running _ i (W_running t) _ E) as Hp. cbn [running app] in Hp. rewrite Hp. solve_Permutation.
Qed.

Lemma run_tasks i s s' : worker_run work i s = Some s' -> tasks_step s s'.
Proof.
  unfold worker_run. destruct (workers_ (pool s) !! i) as [[]|] eqn:E; try done. intros H.
  destruct (work _ _ _ _) as [r|] eqn:Er; [|done]. injection H as <-. right. exists task, r. split; [done|].
  pose proof (join_update running _ i W_finishing _ E) as Hp. cbn [running app] in Hp.
  unfold pending, queued, planned, held. cbn [pool callers results set_worker tasks_ workers_]. split_and!; [|rewrite <- Hp; solve_Permutation|done].
  rewrite <- Hp. by left.
Qed.

Lemma release_tasks i s s' : worker_release i s = Some s' -> tasks_step s s'.
Proof.
  unfold worker_release. destruct (workers_ (pool s) !! i) as [[]|] eqn:E; try done. intros H. injection H as <-. left.
  pose proof (join_update running _ i W_ready _ E) as Hp. cbn [running app] in Hp.
  unfold pending, queued, planned, held. cbn [pool callers results]. split; [|done]. cbn [set_worker tasks_ workers_].
  rewrite Hp. destruct (idle _); by rewrite ?todo_wake.
Qed.

Lemma push_tasks c s s' : enqueue_push c s = Some s' -> tasks_step s s'.
Proof.
  unfold enqueue_push. destruct (callers s !! c) as [[[|t l]| | | |]|] eqn:E; try done. intros [= <-]. left. split; [|done].
  pose proof (join_update todo _ c (C_notify l) _ E) as Hp. cbn [todo] in Hp.
  change ((t :: l) ++ mjoin (todo <$> <[c:=C_notify l]> (callers s))) with ([t] ++ l ++ mjoin (todo <$> <[c:=C_notify l]> (callers s))) in Hp.
  unfold pending, queued, planned, held. cbn [set_caller with_pool pool callers tasks_ workers_].
  assert ([t] ++ mjoin (todo <$> <[c:=C_notify l]> (callers s)) ≡ₚ mjoin (todo <$> callers s)) as Hq.
  { apply (Permutation_app_inv_l l). rewrite <- Hp. solve_Permutation. }
  rewrite <- Hq. solve_Permutation.
Qed.

Lemma notify_tasks c i s s' : enqueue_notify c i s = Some s' -> tasks_step s s'.
Proof.
  unfold enqueue_notify. destruct (callers s !! c) as [[|l| | |]|] eqn:E; try done.
  assert (mjoin (todo <$> <[c := C_enqueue l]> (callers s)) ≡ₚ mjoin (todo <$> callers s)) as Hc.
  { apply (Permutation_app_inv_l l). exact (join_update todo _ c (C_enqueue l) _ E). }
  intros H. left. unfold pending, queued, planned, held.
  assert (s' = set_caller c (C_enqueue l) s \/
    (workers_ (pool s) !! i = Some W_waiting /\ s' = set_caller c (C_enqueue l) (with_pool (set_worker i W_ready (pool s)) s))) as [->|[Ew ->]].
  { destruct (workers_ (pool s) !! i) as [[]|]; try (destruct (existsb _ _); [done|left; congruence]). right. split; congruence. }
  - cbn [set_caller with_pool pool callers results]. by rewrite Hc.
  - pose proof (join_update running _ i W_ready _ Ew) as Hp. cbn [running app] in Hp.
    cbn [set_caller with_pool set_worker pool callers results tasks_ workers_]. by rewrite Hc, Hp.
Qed.

Lemma caller_tasks c s st y : callers s !! c = Some y -> todo y = todo st -> tasks_step s (set_caller c st s).
Proof.
  intros E Hl. left. split; [|done]. unfold pending. pose proof (planned_update s c st y E) as Hp. rewrite Hl in Hp.
  apply Permutation_app_inv_l in Hp. by rewrite Hp.
Qed.

Lemma step_tasks s0 s1 : any_step work s0 s1 -> tasks_step s0 s1.
Proof.
  intros [[i s s' H|i s s' H|i s s' H|c s s' H|c i s s' H|c s s' H|s s' H]|[i s s' H|c s s' H]].
  - by eapply take_tasks.
  - by eapply run_tasks.
  - by eapply release_tasks.
  - by eapply push_tasks.
  - by eapply notify_tasks.
  - unfold wait_all in H. destruct (callers s !! c) as [[[|]| | | |]|] eqn:E; try done; injection H as <-; eapply caller_tasks; try done.
    by destruct (idle _).
  - unfold destroy in H. left. destruct (destructor s); [| | |done]; unfold pending, queued, planned, held.
    + destruct (forallb _ _); [|done]. by injection H as <-.
    + injection H as <-. cbn [pool callers results tasks_ workers_]. by rewrite running_wake.
    + destruct (forallb _ _); [|done]. by injection H as <-.
  - unfold spurious_worker in H. destruct (workers_ (pool s) !! i) as [[]|] eqn:E; try done. injection H as <-. left. split; [|done].
    pose proof (join_update running _ i W_ready _ E) as Hp. cbn [running app] in Hp.
    unfold pending, queued, planned, held. cbn [with_pool set_worker pool callers tasks_ workers_]. by rewrite Hp.
  - unfold spurious_caller in H. destruct (callers s !! c) as [[]|] eqn:E; try done. injection H as <-. by eapply caller_tasks.
Qed.

(** ** Safety *)

(** Tasks are either pending, with no result yet, or finished, with theirs. *)
Record tasks_inv (all : list WorkerTask) (s : system) : Prop := {
  ti_split : exists finished, all ≡ₚ pending s ++ finished /\
    forall t, t ∈ finished -> exists r, outcome t = Some r /\ results s !! wt_result t = Some r;
  ti_fresh : forall t, t ∈ pending s -> results s !! wt_result t = None
}.

Lemma tasks_inv_step all s s' :
  NoDup (wt_result <$> all) -> tasks_inv all s -> tasks_step s s' -> tasks_inv all s'.
Proof.
  intros Hnd [(fin & Hp & Hf) Hfr] [[Hpe Hr]|(t & r & Ho & Ht & Hpe & Hr)].
  - split.
    + exists fin. rewrite Hpe, Hr. done.
    + intros t. rewrite Hpe, Hr. apply Hfr.
  - assert (NoDup (wt_result <$> (t :: pending s') ++ fin)) as Hnd'.
    { eapply NoDup_Permutation_proper; [|exact Hnd]. rewrite <- Hpe. by apply fmap_Permutation. }
    rewrite <- app_comm_cons, fmap_cons in Hnd'. apply NoDup_cons in Hnd' as [Hni Hnd'].
    assert (forall t', t' ∈ pending s' ++ fin -> wt_result t' <> wt_result t) as Hne.
    { intros t' Ht' E. apply Hni. rewrite <- E. by apply list_elem_of_fmap_2. }
    split.
    + exists (t :: fin). split; [rewrite Hp, Hpe; solve_Permutation|]. rewrite Hr. intros t' [->|Ht']%elem_of_cons.
      * exists r. by rewrite lookup_insert_eq.
      * rewrite lookup_insert_ne by (intros E; apply (Hne t'); [apply elem_of_app; by right|done]). by apply Hf.
    + intros t' Ht'. rewrite Hr, lookup_insert_ne by (intros E; apply (Hne t'); [apply elem_of_app; by left|done]).
      apply Hfr. rewrite Hpe. by right.
Qed.

(** The counter counts the busy workers; callers enqueue tasks of their own, and
    one that is done has none in the pool. *)
Record pool_inv (s : system) : Prop := {
  pi_active : active_workers_ (pool s) = Z.of_nat (sum_list_with busy (workers_ (pool s)));
  pi_owner : forall c st t, callers s !! c = Some st -> t ∈ todo st -> (wt_result t).1 = c;
  pi_done : forall c t, callers s !! c = Some C_done -> t ∈ queued s -> (wt_result t).1 <> c
}.

Lemma idle_queued s : pool_inv s -> idle (pool s) = true -> queued s = [].
Proof.
  intros I Hi. unfold idle in Hi. unfold queued. destruct (tasks_ (pool s)); [|done]. apply Z.eqb_eq in Hi.
  rewrite held_busy; [done|]. pose proof (pi_active _ I). lia.
Qed.

(** A change of one caller. *)
Lemma set_caller_inv s c st y :
  pool_inv s -> callers s !! c = Some y -> (forall t, t ∈ todo st -> t ∈ todo y) ->
  (st = C_done -> queued s = []) -> pool_inv (set_caller c st s).
Proof.
  intros [Ha Ho Hd] E Ht Hq. pose proof (lookup_lt_Some _ _ _ E) as Hlt. split; cbn [set_caller pool callers].
  - done.
  - intros c' st' t Hc' Hin. destruct (decide (c = c')) as [<-|Hne].
    + rewrite list_lookup_insert_eq in Hc' by done. injection Hc' as <-. eapply Ho; [exact E|]. by apply Ht.
    + rewrite list_lookup_insert_ne in Hc' by done. by eapply Ho.
  - intros c' t Hc' Hin. change (t ∈ queued s) in Hin. destruct (decide (c = c')) as [<-|Hne].
    + rewrite list_lookup_insert_eq in Hc' by done. injection Hc' as ->. rewrite Hq in Hin by done. by apply not_elem_of_nil in Hin.
    + rewrite list_lookup_insert_ne in Hc' by done. by apply Hd.
Qed.

(** A change of one worker that keeps what the queue and the workers hold. *)
Lemma with_pool_inv s p :
  pool_inv s -> active_workers_ p = Z.of_nat (sum_list_with busy (workers_ p)) ->
  (forall t, t ∈ tasks_ p ++ mjoin (running <$> workers_ p) -> t ∈ queued s) -> pool_inv (with_pool p s).
Proof.
  intros [Ha Ho Hd] Hp Ht. split; cbn [with_pool pool callers]; [done|done|]. intros c t Hc Hin. apply Hd; [done|]. by apply Ht.
Qed.

Lemma worker_update_elem s i w y t :
  workers_ (pool s) !! i = Some y -> (forall t, t ∈ running w -> t ∈ running y \/ t ∈ queued s) ->
  t ∈ mjoin (running <$> <[i := w]> (workers_ (pool s))) -> t ∈ queued s.
Proof.
  intros E Hr Hin. pose proof (join_update running _ i w _ E) as Hp. unfold queued.
  assert (t ∈ running y ++ mjoin (running <$> <[i := w]> (workers_ (pool s)))) as H by (apply elem_of_app; by right).
  rewrite Hp in H. apply elem_of_app in H as [H|H]; [|apply elem_of_app; by right].
  destruct (Hr t H) as [Hy|Hy]; [|done]. apply elem_of_app. right.
  change (t ∈ mjoin (running <$> workers_ (pool s))). apply list_elem_of_join. exists (running y). split; [done|].
  apply list_elem_of_fmap. exists y. split; [done|]. by eapply list_elem_of_lookup_2.
Qed.

Lemma take_inv i s s' : pool_inv s -> worker_take i s = Some s' -> pool_inv s'.
Proof.
  intros I H. unfold worker_take in H. destruct (workers_ (pool s) !! i) as [[]|] eqn:E; try done. pose proof (pi_active _ I) as Ha.
  destruct (tasks_ (pool s)) as [|t q] eqn:Eq; injection H as <-; apply with_pool_inv; try done;
    cbn [set_worker workers_ tasks_ active_workers_].
  - pose proof (sum_update busy _ i (if stop_ (pool s) then W_exited else W_waiting) _ E) as Hs. cbn [busy] in Hs.
    rewrite Ha. f_equal. destruct (stop_ (pool s)); cbn [busy] in Hs; lia.
  - intros t Hin. rewrite Eq in Hin. eapply worker_update_elem; [exact E| |exact Hin]. intros t' Ht'. destruct (stop_ (pool s)); by apply not_elem_of_nil in Ht'.
  - pose proof (sum_update busy _ i (W_running t) _ E) as Hs. cbn [busy] in Hs. lia.
  - intros t' [Hin|Hin]%elem_of_app; [unfold queued; rewrite Eq; apply elem_of_app; left; by right|].
    eapply worker_update_elem; [exact E| |exact Hin]. intros t'' Ht''. right. unfold queued. rewrite Eq.
    apply list_elem_of_singleton in Ht'' as ->. apply elem_of_app. left. by left.
Qed.

Lemma run_inv i s s' : pool_inv s -> worker_run work i s = Some s' -> pool_inv s'.
Proof.
  intros I H. unfold worker_run in H. destruct (workers_ (pool s) !! i) as [[]|] eqn:E; try done.
  destruct (work _ _ _ _) as [r|]; [|done]. injection H as <-.
  assert (pool_inv (with_pool (set_worker i W_finishing (pool s)) s)) as [H1 H2 H3]; [|by split].
  apply with_pool_inv; [done| |]; cbn [set_worker workers_ tasks_ active_workers_].
  - pose proof (sum_update busy _ i W_finishing _ E) as Hs. cbn [busy] in Hs. pose proof (pi_active _ I). lia.
  - intros t [Hin|Hin]%elem_of_app; [apply elem_of_app; by left|]. eapply worker_update_elem; [exact E| |exact Hin].
    intros t' Ht'. by apply not_elem_of_nil in Ht'.
Qed.

Lemma wake_callers_inv s : pool_inv s -> pool_inv (mkSystem (pool s) (wake_caller <$> callers s) (destructor s) (results s)).
Proof.
  intros [Ha Ho Hd]. split; cbn [pool callers]; [done| |].
  - intros c st t Hc Hin. rewrite list_lookup_fmap in Hc. destruct (callers s !! c) as [y|] eqn:E; [|done]. injection Hc as <-.
    eapply Ho; [exact E|]. by destruct y.
  - intros c t Hc Hin. rewrite list_lookup_fmap in Hc. destruct (callers s !! c) as [y|] eqn:E; [|done]. injection Hc as Hy.
    apply Hd; [|done]. by destruct y.
Qed.

Lemma release_inv i s s' : pool_inv s -> worker_release i s = Some s' -> pool_inv s'.
Proof.
  intros I H. unfold worker_release in H. destruct (workers_ (pool s) !! i) as [[]|] eqn:E; try done. injection H as <-.
  set (p := set_worker i W_ready _).
  assert (pool_inv (with_pool p s)) as I'.
  { apply with_pool_inv; [done| |]; subst p; cbn [set_worker workers_ tasks_ active_workers_].
    - pose proof (sum_update busy _ i W_ready _ E) as Hs. cbn [busy] in Hs. pose proof (pi_active _ I). lia.
    - intros t [Hin|Hin]%elem_of_app; [apply elem_of_app; by left|]. eapply worker_update_elem; [exact E| |exact Hin].
      intros t' Ht'. by apply not_elem_of_nil in Ht'. }
  destruct (idle p); [|exact I']. apply (wake_callers_inv _ I').
Qed.

Lemma push_inv c s s' : pool_inv s -> enqueue_push c s = Some s' -> pool_inv s'.
Proof.
  intros I H. unfold enqueue_push in H. destruct (callers s !! c) as [[[|t l]| | | |]|] eqn:E; try done. injection H as <-.
  pose proof (lookup_lt_Some _ _ _ E) as Hlt. pose proof I as [Ha Ho Hd].
  split; cbn [set_caller with_pool pool callers workers_ tasks_ active_workers_].
  - done.
  - intros c' st t' Hc' Hin. destruct (decide (c = c')) as [<-|Hne].
    + rewrite list_lookup_insert_eq in Hc' by done. injection Hc' as <-. eapply Ho; [exact E|]. by right.
    + rewrite list_lookup_insert_ne in Hc' by done. by eapply Ho.
  - intros c' t' Hc' Hin. destruct (decide (c = c')) as [<-|Hne]; [by rewrite list_lookup_insert_eq in Hc' by done|].
    rewrite list_lookup_insert_ne in Hc' by done. unfold queued, held in Hin. cbn [set_caller with_pool pool workers_ tasks_] in Hin.
    rewrite <- app_assoc in Hin. apply elem_of_app in Hin as [Hin|[->%list_elem_of_singleton|Hin]%elem_of_app].
    + apply Hd; [done|]. apply elem_of_app. by left.
    + rewrite (Ho c _ t E) by (by left). done.
    + apply Hd; [done|]. apply elem_of_app. by right.
Qed.

Lemma notify_inv c i s s' : pool_inv s -> enqueue_notify c i s = Some s' -> pool_inv s'.
Proof.
  intros I H. unfold enqueue_notify in H. destruct (callers s !! c) as [[|l| | |]|] eqn:E; try done.
  assert (pool_inv (set_caller c (C_enqueue l) s)) as I1 by (by eapply set_caller_inv).
  destruct (workers_ (pool s) !! i) as [[]|] eqn:Ew; try (destruct (existsb _ _); [done|by injection H as <-]).
  injection H as <-. change (pool_inv (with_pool (set_worker i W_ready (pool s)) (set_caller c (C_enqueue l) s))).
  apply with_pool_inv; [done| |]; cbn [set_worker workers_ tasks_ active_workers_].
  - pose proof (sum_update busy _ i W_ready _ Ew) as Hs. cbn [busy] in Hs. pose proof (pi_active _ I). lia.
  - intros t [Hin|Hin]%elem_of_app; [apply elem_of_app; by left|]. change (t ∈ queued s). eapply worker_update_elem; [exact Ew| |exact Hin].
    intros t' Ht'. by apply not_elem_of_nil in Ht'.
Qed.

Lemma pool_inv_step s0 s1 : pool_inv s0 -> any_step work s0 s1 -> pool_inv s1.
Proof.
  intros I Hs. revert I. destruct Hs as [[i s s' H|i s s' H|i s s' H|c s s' H|c i s s' H|c s s' H|s s' H]|[i s s' H|c s s' H]]; intros I.
  - by eapply take_inv.
  - by eapply run_inv.
  - by eapply release_inv.
  - by eapply push_inv.
  - by eapply notify_inv.
  - unfold wait_all in H. destruct (callers s !! c) as [[[|]| | | |]|] eqn:E; try done; injection H as <-; (eapply set_caller_inv; [done|exact E| |]).
    + intros t Ht. by apply not_elem_of_nil in Ht.
    + done.
    + intros t Ht. destruct (idle _); by apply not_elem_of_nil in Ht.
    + destruct (idle (pool s)) eqn:Ei; [|done]. intros _. by apply idle_queued.
  - unfold destroy in H. destruct I as [Ha Ho Hd]. destruct (destructor s); [| | |done].
    + destruct (forallb _ _); [|done]. injection H as <-. by split.
    + injection H as <-. split; cbn [pool callers workers_ active_workers_]; [by rewrite sum_busy_wake|done|].
      intros c t Hc Hin. apply Hd; [done|]. unfold queued, held in *. cbn [pool workers_ tasks_] in Hin. by rewrite running_wake in Hin.
    + destruct (forallb _ _); [|done]. injection H as <-. by split.
  - unfold spurious_worker in H. destruct (workers_ (pool s) !! i) as [[]|] eqn:E; try done. injection H as <-.
    apply with_pool_inv; [done| |]; cbn [set_worker workers_ tasks_ active_workers_].
    + pose proof (sum_update busy _ i W_ready _ E) as Hs. cbn [busy] in Hs. pose proof (pi_active _ I). lia.
    + intros t [Hin|Hin]%elem_of_app; [apply elem_of_app; by left|]. eapply worker_update_elem; [exact E| |exact Hin].
      intros t' Ht'. by apply not_elem_of_nil in Ht'.
  - unfold spurious_caller in H. destruct (callers s !! c) as [[]|] eqn:E; try done. injection H as <-. by eapply set_caller_inv.
Qed.

(** ** The initial state *)

Lemma request_tasks_lookup c r t k :
  request_tasks c r !! k = Some t ->
  exists share, tasks (rq_rows r) (rq_threads r) !! k = Some share /\
    t = mkWorkerTask (rq_base r) share.1 share.2 (rq_config r) (c, k).
Proof.
  unfold request_tasks. rewrite list_lookup_imap. destruct (tasks _ _ !! k) as [share|]; [|done]. intros [= <-]. by exists share.
Qed.

Lemma request_tasks_owner c r t : t ∈ request_tasks c r -> (wt_result t).1 = c.
Proof. intros Ht. apply list_elem_of_lookup in Ht as [k Hk]. by apply request_tasks_lookup in Hk as (share & _ & ->). Qed.

Lemma request_tasks_nodup c r : NoDup (wt_result <$> request_tasks c r).
Proof.
  apply NoDup_alt. intros i j x Hi Hj. rewrite list_lookup_fmap in Hi, Hj.
  destruct (request_tasks c r !! i) as [t|] eqn:Ei; [|done]. destruct (request_tasks c r !! j) as [t'|] eqn:Ej; [|done].
  apply request_tasks_lookup in Ei as (s1 & _ & ->), Ej as (s2 & _ & ->). cbn in *. congruence.
Qed.

(** The tasks of all calls, the first of which has number [n]. *)
Definition all_tasks (n : nat) (requests : list request) : list WorkerTask :=
  mjoin (todo <$> imap (fun c r => start_call (n + c) r) requests).

Lemma all_tasks_cons n r requests : all_tasks n (r :: requests) = todo (start_call n r) ++ all_tasks (S n) requests.
Proof.
  unfold all_tasks. rewrite imap_cons. rewrite Nat.add_0_r. change (todo (start_call n r) ++
    mjoin (todo <$> imap ((fun c r => start_call (n + c) r) ∘ S) requests) = todo (start_call n r) ++
    mjoin (todo <$> imap (fun c r => start_call (S n + c) r) requests)). do 3 f_equal. apply imap_ext. intros i x _. cbn. f_equal. lia.
Qed.

Lemma start_call_todo c r t : t ∈ todo (start_call c r) -> t ∈ request_tasks c r.
Proof. unfold start_call. destruct (_ =? _)%nat; [intros Ht; by apply not_elem_of_nil in Ht|done]. Qed.

Lemma all_tasks_owner n requests t : t ∈ all_tasks n requests -> (n <= (wt_result t).1)%nat.
Proof.
  revert n. induction requests as [|r requests IH]; intros n Ht; [by apply not_elem_of_nil in Ht|].
  rewrite all_tasks_cons in Ht. apply elem_of_app in Ht as [Ht|Ht].
  - apply start_call_todo, request_tasks_owner in Ht. lia.
  - apply IH in Ht. lia.
Qed.

Lemma all_tasks_nodup n requests : NoDup (wt_result <$> all_tasks n requests).
Proof.
  revert n. induction requests as [|r requests IH]; intros n; [constructor|]. rewrite all_tasks_cons, fmap_app.
  apply NoDup_app. split_and!; [|intros x Hx Hx'|apply IH].
  - unfold start_call. destruct (_ =? _)%nat; [constructor|apply request_tasks_nodup].
  - apply list_elem_of_fmap in Hx as (t & -> & Ht), Hx' as (t' & E & Ht').
    apply start_call_todo, request_tasks_owner in Ht. apply all_tasks_owner in Ht'. rewrite <- E in Ht'. lia.
Qed.

Lemma initial_pending hc requests : pending (initial hc requests) = all_tasks 0 requests.
Proof.
  unfold pending, planned, queued, held, initial, global_pool, all_tasks. cbn [pool callers tasks_ workers_].
  assert (forall n, mjoin (running <$> replicate n W_ready) = []) as -> by (induction n; [done|exact IHn]).
  by rewrite !app_nil_r.
Qed.

Lemma initial_inv hc requests : tasks_inv (all_tasks 0 requests) (initial hc requests) /\ pool_inv (initial hc requests).
Proof.
  split; [split|split].
  - exists []. rewrite app_nil_r, initial_pending. split; [done|]. intros t Ht. by apply not_elem_of_nil in Ht.
  - intros t _. apply lookup_empty.
  - cbn [initial global_pool pool active_workers_ workers_].
    assert (forall n, sum_list_with busy (replicate n W_ready) = 0%nat) as H by (induction n; [done|exact IHn]). by rewrite H.
  - intros c st t Hc Ht. cbn [initial callers] in Hc. rewrite list_lookup_imap in Hc. destruct (requests !! c) as [r|]; [|done].
    injection Hc as <-. by eapply request_tasks_owner, start_call_todo.
  - intros c t Hc Hin. unfold queued, held in Hin. cbn [initial global_pool pool tasks_ workers_] in Hin.
    assert (forall n, mjoin (running <$> replicate n W_ready) = []) as H by (induction n; [done|exact IHn]). rewrite H in Hin.
    by apply not_elem_of_nil in Hin.
Qed.

(** Every reachable state. *)
Lemma reachable_inv hc requests s :
  rtc (any_step work) (initial hc requests) s -> tasks_inv (all_tasks 0 requests) s /\ pool_inv s.
Proof.
  revert s. apply rtc_ind_r; [apply initial_inv|]. intros s s' _ Hs [H1 H2]. split.
  - eapply tasks_inv_step; [apply all_tasks_nodup|exact H1|by apply step_tasks].
  - by eapply pool_inv_step.
Qed.

Lemma all_tasks_in requests n c r t :
  requests !! c = Some r -> rq_rows r <> 0%nat -> t ∈ request_tasks (n + c) r -> t ∈ all_tasks n requests.
Proof.
  revert n c. induction requests as [|r' requests IH]; intros n c Hc Hr Ht; [done|]. rewrite all_tasks_cons. apply elem_of_app.
  destruct c as [|c]; cbn in Hc.
  - injection Hc as <-. left. rewrite Nat.add_0_r in Ht. unfold start_call. by rewrite (proj2 (Nat.eqb_neq _ _)).
  - right. apply (IH (S n) c); [done|done|]. by replace (S n + c)%nat with (n + S c)%nat by lia.
Qed.

(** The results of a caller that is done. *)
Lemma done_results hc requests s c r k share :
  rtc (any_step work) (initial hc requests) s -> requests !! c = Some r -> rq_rows r <> 0%nat -> callers s !! c = Some C_done ->
  tasks (rq_rows r) (rq_threads r) !! k = Some share ->
  exists x, work (rq_base r) (rq_config r) share.1 share.2 = Some x /\ results s !! (c, k) = Some x.
Proof.
  intros Hs Hc Hr Hd Hk. destruct (reachable_inv hc requests s Hs) as [[(fin & Hp & Hf) _] I].
  set (t := mkWorkerTask (rq_base r) share.1 share.2 (rq_config r) (c, k)).
  assert (t ∈ request_tasks c r) as Ht.
  { apply list_elem_of_lookup. exists k. unfold request_tasks. by rewrite list_lookup_imap, Hk. }
  assert (t ∈ pending s ++ fin) as [Hin|Hin]%elem_of_app.
  { rewrite <- Hp. by eapply (all_tasks_in requests 0 c r). }
  - exfalso. unfold pending in Hin. apply elem_of_app in Hin as [Hin|Hin].
    + unfold planned in Hin. apply list_elem_of_join in Hin as (l & Hin & Hl). apply list_elem_of_fmap in Hl as (st & -> & Hst).
      apply list_elem_of_lookup in Hst as [c' Hst]. pose proof (pi_owner _ I c' st t Hst Hin) as Ho. cbn in Ho. subst c'.
      rewrite Hd in Hst. injection Hst as <-. by apply not_elem_of_nil in Hin.
    + by apply (pi_done _ I c t Hd Hin).
  - exact (Hf t Hin).
Qed.

Lemma mapM_pointwise {A B} (f : A -> option B) (l : list A) (g : nat -> B) :
  (forall k x, l !! k = Some x -> f x = Some (g k)) -> mapM f l = Some (g <$> seq 0 (length l)).
Proof.
  revert g. induction l as [|x l IH]; intros g H; [done|]. cbn [mapM length seq fmap list_fmap].
  rewrite (H 0%nat x eq_refl), bind_Some. rewrite (IH (g ∘ S)) by (intros k y Hy; apply (H (S k) y Hy)). rewrite bind_Some.
  rewrite <- (fmap_S_seq 0), <- list_fmap_compose. done.
Qed.

Lemma done_call hc requests s c r :
  rtc (any_step work) (initial hc requests) s -> requests !! c = Some r -> rq_rows r <> 0%nat -> callers s !! c = Some C_done ->
  mapM (fun share => work (rq_base r) (rq_config r) share.1 share.2) (tasks (rq_rows r) (rq_threads r)) = Some (call_results c r s).
Proof.
  intros Hs Hc Hr Hd. apply mapM_pointwise. intros k share Hk.
  by destruct (done_results hc requests s c r k share Hs Hc Hr Hd Hk) as (x & -> & ->).
Qed.

(** ** Progress *)

Definition worker_weight (n : nat) (w : worker_state) : nat :=
  match w with W_ready => 1 | W_running _ => n + 3 | W_finishing => n + 2 | _ => 0 end.
Definition caller_weight (n : nat) (c : caller_state) : nat :=
  match c with C_enqueue l => length l * (n + 6) + 2 | C_notify l => length l * (n + 6) + 4 | C_check => 1 | _ => 0 end.
Definition destructor_weight (m : nat) (d : destructor_state) : nat :=
  match d with D_none => m + 3 | D_notify => m + 2 | D_join => 1 | D_done => 0 end.

(** What is left to do: every step of a thread takes something off it. *)
Definition weight (s : system) : nat :=
  let n := length (callers s) in
  (sum_list_with (worker_weight n) (workers_ (pool s)) + (n + 3) * length (tasks_ (pool s)) +
   sum_list_with (caller_weight n) (callers s) + destructor_weight (length (workers_ (pool s))) (destructor s))%nat.

Lemma weight_step s0 s1 : pool_step work s0 s1 -> (weight s1 < weight s0)%nat.
Proof.
  intros [i s s' H|i s s' H|i s s' H|c s s' H|c i s s' H|c s s' H|s s' H]; unfold weight.
  - unfold worker_take in H. destruct (workers_ (pool s) !! i) as [[]|] eqn:E; try done.
    destruct (tasks_ (pool s)) as [|t q] eqn:Eq; injection H as <-;
      cbn [with_pool set_worker pool callers destructor workers_ tasks_]; rewrite length_insert, ?Eq; cbn [length].
    + pose proof (sum_update (worker_weight (length (callers s))) _ i (if stop_ (pool s) then W_exited else W_waiting) _ E) as Hs.
      cbn [worker_weight] in Hs. destruct (stop_ (pool s)); cbn [worker_weight] in Hs; lia.
    + pose proof (sum_update (worker_weight (length (callers s))) _ i (W_running t) _ E) as Hs. cbn [worker_weight] in Hs. lia.
  - unfold worker_run in H. destruct (workers_ (pool s) !! i) as [[]|] eqn:E; try done.
    destruct (work _ _ _ _) as [r|]; [|done]. injection H as <-. cbn [set_worker pool callers destructor workers_ tasks_]. rewrite length_insert.
    pose proof (sum_update (worker_weight (length (callers s))) _ i W_finishing _ E) as Hs. cbn [worker_weight] in Hs. lia.
  - unfold worker_release in H. destruct (workers_ (pool s) !! i) as [[]|] eqn:E; try done. injection H as <-.
    cbn [pool callers destructor]. set (cs := if idle _ then _ else _).
    assert (length cs = length (callers s) /\ (sum_list_with (caller_weight (length (callers s))) cs <=
      sum_list_with (caller_weight (length (callers s))) (callers s) + 1 * length (callers s))%nat) as [-> Hc].
    { subst cs. destruct (idle _); [|split; [done|lia]]. split; [by rewrite length_fmap|]. apply sum_fmap. intros x. destruct x; cbn; lia. }
    cbn [set_worker workers_ tasks_]. rewrite length_insert.
    pose proof (sum_update (worker_weight (length (callers s))) _ i W_ready _ E) as Hs. cbn [worker_weight] in Hs. lia.
  - unfold enqueue_push in H. destruct (callers s !! c) as [[[|t l]| | | |]|] eqn:E; try done. injection H as <-.
    cbn [set_caller with_pool pool callers destructor workers_ tasks_]. rewrite length_insert, length_app. cbn [length].
    pose proof (sum_update (caller_weight (length (callers s))) _ c (C_notify l) _ E) as Hs. cbn [caller_weight length] in Hs. lia.
  - unfold enqueue_notify in H. destruct (callers s !! c) as [[|l| | |]|] eqn:E; try done.
    pose proof (sum_update (caller_weight (length (callers s))) _ c (C_enqueue l) _ E) as Hs. cbn [caller_weight] in Hs.
    assert (s' = set_caller c (C_enqueue l) s \/
      (workers_ (pool s) !! i = Some W_waiting /\ s' = set_caller c (C_enqueue l) (with_pool (set_worker i W_ready (pool s)) s))) as [->|[Ew ->]].
    { destruct (workers_ (pool s) !! i) as [[]|]; try (destruct (existsb _ _); [done|left; congruence]). right. split; congruence. }
    + cbn [set_caller pool callers destructor]. rewrite length_insert. lia.
    + cbn [set_caller with_pool set_worker pool callers destructor workers_ tasks_]. rewrite !length_insert.
      pose proof (sum_update (worker_weight (length (callers s))) _ i W_ready _ Ew) as Hw. cbn [worker_weight] in Hw. lia.
  - unfold wait_all in H. destruct (callers s !! c) as [[[|]| | | |]|] eqn:E; try done; injection H as <-;
      cbn [set_caller pool callers destructor]; rewrite length_insert.
    + pose proof (sum_update (caller_weight (length (callers s))) _ c C_check _ E) as Hs. cbn [caller_weight length] in Hs. lia.
    + pose proof (sum_update (caller_weight (length (callers s))) _ c (if idle (pool s) then C_done else C_waiting) _ E) as Hs.
      cbn [caller_weight] in Hs. destruct (idle (pool s)); cbn [caller_weight] in Hs; lia.
  - unfold destroy in H. destruct (destructor s) eqn:Ed; [| | |done].
    + destruct (forallb _ _); [|done]. injection H as <-. cbn [pool callers destructor workers_ tasks_ destructor_weight]. lia.
    + injection H as <-. cbn [pool callers destructor workers_ tasks_ destructor_weight].
      pose proof (sum_fmap (worker_weight (length (callers s))) wake_worker (workers_ (pool s)) 1) as Hw.
      assert (forall x, (worker_weight (length (callers s)) (wake_worker x) <= worker_weight (length (callers s)) x + 1)%nat) as Hx
        by (intros []; cbn; lia). specialize (Hw Hx). lia.
    + destruct (forallb _ _); [|done]. injection H as <-. cbn [pool callers destructor destructor_weight]. lia.
Qed.

Lemma weight_spurious s0 s1 : spurious_step s0 s1 -> weight s1 = S (weight s0).
Proof.
  intros [i s s' H|c s s' H]; unfold weight.
  - unfold spurious_worker in H. destruct (workers_ (pool s) !! i) as [[]|] eqn:E; try done. injection H as <-.
    cbn [with_pool set_worker pool callers destructor workers_ tasks_]. rewrite length_insert.
    pose proof (sum_update (worker_weight (length (callers s))) _ i W_ready _ E) as Hs. cbn [worker_weight] in Hs. lia.
  - unfold spurious_caller in H. destruct (callers s !! c) as [[]|] eqn:E; try done. injection H as <-.
    cbn [set_caller pool callers destructor]. rewrite length_insert.
    pose proof (sum_update (caller_weight (length (callers s))) _ c C_check _ E) as Hs. cbn [caller_weight] in Hs. lia.
Qed.

(** A run with [n] steps of threads and [k] spurious wakeups. *)
Inductive pool_run : nat -> nat -> system -> system -> Prop :=
  | run_nil s : pool_run 0 0 s s
  | run_step n k s s' s'' : pool_step work s s' -> pool_run n k s' s'' -> pool_run (S n) k s s''
  | run_wake n k s s' s'' : spurious_step s s' -> pool_run n k s' s'' -> pool_run n (S k) s s''.

Lemma run_bound n k s s' : pool_run n k s s' -> (n + weight s' <= weight s + k)%nat.
Proof.
  induction 1 as [s|n k s s' s'' Hs _ IH|n k s s' s'' Hs _ IH]; [lia| |].
  - apply weight_step in Hs. lia.
  - apply weight_spurious in Hs. lia.
Qed.

(** ** No deadlock

    Counting who can move: workers that are not blocked, callers about to notify. *)

Definition is_alive (w : worker_state) : nat := match w with W_ready | W_running _ | W_finishing => 1 | _ => 0 end.
Definition is_blocked (w : worker_state) : nat := match w with W_waiting => 1 | _ => 0 end.
Definition is_exited (w : worker_state) : nat := match w with W_exited => 1 | _ => 0 end.
Definition is_notifying (c : caller_state) : nat := match c with C_notify _ => 1 | _ => 0 end.
Definition is_blocked_caller (c : caller_state) : nat := match c with C_waiting => 1 | _ => 0 end.
Definition is_undone (c : caller_state) : nat := match c with C_done => 0 | _ => 1 end.

Abbreviation workers_with f s := (sum_list_with f (workers_ (pool s))).
Abbreviation callers_with f s := (sum_list_with f (callers s)).

Record live_inv (s : system) : Prop := {
  li_workers : (0 < length (workers_ (pool s)))%nat;
  li_exited : (workers_with is_exited s = 0)%nat \/ stop_ (pool s) = true;
  li_none : destructor s = D_none <-> stop_ (pool s) = false;
  li_some : destructor s = D_none \/ callers_with is_undone s = 0%nat;
  li_tasks : tasks_ (pool s) = [] \/ (0 < workers_with is_alive s + callers_with is_notifying s)%nat;
  li_waiting : callers_with is_blocked_caller s = 0%nat \/ idle (pool s) = false;
  li_join : destructor s = D_none \/ destructor s = D_notify \/ workers_with is_blocked s = 0%nat
}.

Lemma sum_positive {A} (f : A -> nat) l : (0 < sum_list_with f l)%nat -> exists i x, l !! i = Some x /\ (0 < f x)%nat.
Proof.
  induction l as [|x l IH]; cbn [sum_list_with]; intros H; [lia|]. destruct (decide (0 < f x)%nat).
  - by exists 0%nat, x.
  - destruct IH as (i & y & Hi & Hy); [lia|]. by exists (S i), y.
Qed.

Lemma sum_lookup {A} (f : A -> nat) l i x : l !! i = Some x -> (f x <= sum_list_with f l)%nat.
Proof. intros Hi. apply list_elem_of_lookup_2 in Hi. by apply sum_list_with_in. Qed.

Lemma workers_total ws : (sum_list_with is_alive ws + sum_list_with is_blocked ws + sum_list_with is_exited ws = length ws)%nat.
Proof. induction ws as [|w ws IH]; [done|]. cbn [sum_list_with length]. destruct w; cbn [is_alive is_blocked is_exited]; lia. Qed.

Lemma busy_alive ws : (sum_list_with busy ws <= sum_list_with is_alive ws)%nat.
Proof. induction ws as [|w ws IH]; [done|]. cbn [sum_list_with]. destruct w; cbn [is_alive busy]; lia. Qed.

Lemma wake_workers ws :
  sum_list_with is_blocked (wake_worker <$> ws) = 0%nat /\ sum_list_with is_exited (wake_worker <$> ws) = sum_list_with is_exited ws /\
  (sum_list_with is_alive ws <= sum_list_with is_alive (wake_worker <$> ws))%nat.
Proof.
  induction ws as [|w ws (IH1 & IH2 & IH3)]; [done|]. cbn [fmap list_fmap sum_list_with] in *.
  destruct w; cbn [wake_worker is_blocked is_exited is_alive]; split_and!; lia.
Qed.

Lemma wake_callers cs :
  sum_list_with is_blocked_caller (wake_caller <$> cs) = 0%nat /\
  sum_list_with is_undone (wake_caller <$> cs) = sum_list_with is_undone cs /\
  sum_list_with is_notifying (wake_caller <$> cs) = sum_list_with is_notifying cs.
Proof.
  induction cs as [|c cs (IH1 & IH2 & IH3)]; [done|]. cbn [fmap list_fmap sum_list_with] in *.
  destruct c; cbn [wake_caller is_blocked_caller is_undone is_notifying]; split_and!; lia.
Qed.

(** The counts after one worker, or one caller, has changed. *)
Ltac count_worker E w :=
  pose proof (sum_update is_alive _ _ w _ E); pose proof (sum_update is_blocked _ _ w _ E);
  pose proof (sum_update is_exited _ _ w _ E); pose proof (sum_lookup is_alive _ _ _ E); cbn [is_alive is_blocked is_exited] in *.
Ltac count_caller E c :=
  pose proof (sum_update is_notifying _ _ c _ E); pose proof (sum_update is_blocked_caller _ _ c _ E);
  pose proof (sum_update is_undone _ _ c _ E); pose proof (sum_lookup is_undone _ _ _ E);
  cbn [is_notifying is_blocked_caller is_undone] in *.
Ltac live_close := first [done | lia | tauto | left; first [done | lia | tauto] | right; first [done | lia | tauto] | right; right; lia].
Ltac live_cases I :=
  destruct I as [Hw He Hn Hs Ht Hc Hj]; split; cbn [set_caller with_pool set_worker pool callers destructor workers_ tasks_ stop_ active_workers_] in *;
  rewrite ?length_insert, ?length_fmap; try live_close;
  try (destruct He; destruct Hs; destruct Ht; destruct Hc; destruct Hj as [?|[?|?]]; solve [live_close]).

Lemma idle_active s q : pool_inv s -> tasks_ q = tasks_ (pool s) -> active_workers_ q = active_workers_ (pool s) -> idle q = idle (pool s).
Proof. intros _ H1 H2. unfold idle. by rewrite H1, H2. Qed.

Lemma take_live i s s' : pool_inv s -> live_inv s -> worker_take i s = Some s' -> live_inv s'.
Proof.
  intros P I H. unfold worker_take in H. destruct (workers_ (pool s) !! i) as [[]|] eqn:E; try done. pose proof (pi_active _ P) as Ha.
  destruct (tasks_ (pool s)) as [|t q] eqn:Eq; injection H as <-.
  - count_worker E (if stop_ (pool s) then W_exited else W_waiting). destruct (stop_ (pool s)) eqn:Es; cbn [is_alive is_blocked is_exited] in *; live_cases I.
  - count_worker E (W_running t). live_cases I. right. unfold idle. cbn [set_worker tasks_ active_workers_]. destruct q; [|done]. apply Z.eqb_neq. lia.
Qed.

Lemma run_live i s s' : live_inv s -> worker_run work i s = Some s' -> live_inv s'.
Proof.
  intros I H. unfold worker_run in H. destruct (workers_ (pool s) !! i) as [[]|] eqn:E; try done.
  destruct (work _ _ _ _) as [r|]; [|done]. injection H as <-. count_worker E W_finishing. live_cases I.
Qed.

Lemma release_live i s s' : live_inv s -> worker_release i s = Some s' -> live_inv s'.
Proof.
  intros I H. unfold worker_release in H. destruct (workers_ (pool s) !! i) as [[]|] eqn:E; try done. injection H as <-.
  count_worker E W_ready. set (p := set_worker i W_ready _). destruct (idle p) eqn:Ei.
  - destruct (wake_callers (callers s)) as (Hw1 & Hw2 & Hw3). subst p. live_cases I.
  - subst p. live_cases I.
Qed.

Lemma push_live c s s' : live_inv s -> enqueue_push c s = Some s' -> live_inv s'.
Proof.
  intros I H. unfold enqueue_push in H. destruct (callers s !! c) as [[[|t l]| | | |]|] eqn:E; try done. injection H as <-.
  count_caller E (C_notify l). live_cases I. right. unfold idle. cbn [tasks_]. by destruct (tasks_ (pool s)).
Qed.

Lemma no_blocked ws : existsb is_waiting ws = false -> sum_list_with is_blocked ws = 0%nat.
Proof.
  induction ws as [|w ws IH]; [done|]. cbn [existsb sum_list_with]. intros [H1 H2]%orb_false_iff. rewrite IH by done.
  by destruct w.
Qed.

Lemma notify_live c i s s' : live_inv s -> enqueue_notify c i s = Some s' -> live_inv s'.
Proof.
  intros I H. unfold enqueue_notify in H. destruct (callers s !! c) as [[|l| | |]|] eqn:E; try done.
  count_caller E (C_enqueue l).
  assert ((existsb is_waiting (workers_ (pool s)) = false /\ s' = set_caller c (C_enqueue l) s) \/
    (workers_ (pool s) !! i = Some W_waiting /\ s' = set_caller c (C_enqueue l) (with_pool (set_worker i W_ready (pool s)) s)))
    as [[Hno%no_blocked ->]|[Ew ->]].
  { destruct (workers_ (pool s) !! i) as [[]|]; try (destruct (existsb _ _) eqn:Ex; [done|left; split; [done|congruence]]).
    right. split; congruence. }
  - pose proof (workers_total (workers_ (pool s))) as Htot. live_cases I. right.
    assert (destructor s = D_none) as Hd by (destruct Hs; [done|lia]). apply Hn in Hd. destruct He; [lia|congruence].
  - count_worker Ew W_ready. live_cases I.
Qed.

Lemma wait_live c s s' : live_inv s -> wait_all c s = Some s' -> live_inv s'.
Proof.
  intros I H. unfold wait_all in H. destruct (callers s !! c) as [[[|]| | | |]|] eqn:E; try done; injection H as <-.
  - count_caller E C_check. live_cases I.
  - destruct (idle (pool s)) eqn:Ei; [count_caller E C_done|count_caller E C_waiting]; live_cases I.
Qed.

Lemma undone_done cs :
  forallb (fun c => match c with C_done => true | _ => false end) cs = bool_decide (sum_list_with is_undone cs = 0%nat).
Proof.
  induction cs as [|c cs IH]; [done|]. cbn [forallb sum_list_with]. rewrite IH.
  destruct c; cbn [is_undone andb]; try (symmetry; by apply bool_decide_eq_false_2). done.
Qed.

Lemma exited_all ws :
  sum_list_with is_blocked ws = 0%nat -> sum_list_with is_alive ws = 0%nat ->
  forallb (fun w => match w with W_exited => true | _ => false end) ws = true.
Proof.
  induction ws as [|w ws IH]; [done|]. cbn [forallb sum_list_with]. intros H1 H2.
  destruct w; cbn [is_blocked is_alive] in *; try lia. apply IH; lia.
Qed.

Lemma destroy_live s s' : live_inv s -> destroy s = Some s' -> live_inv s'.
Proof.
  intros I H. unfold destroy in H. destruct (destructor s) eqn:Ed; [| | |done].
  - rewrite undone_done in H. case_bool_decide as Hu; [|done]. injection H as <-.
    destruct I as [Hw He Hn Hs Ht Hc Hj]. split; cbn [pool callers destructor workers_ tasks_ stop_ active_workers_]; auto. done.
  - injection H as <-. destruct (wake_workers (workers_ (pool s))) as (Hw1 & Hw2 & Hw3). live_cases I; rewrite Ed in Hn, Hs, Hj.
    + by split; intros Hx; [|apply Hn in Hx].
    + destruct Hs; [done|]. by right.
  - destruct (forallb _ _) eqn:Ef; [|done]. injection H as <-. live_cases I; rewrite Ed in Hn, Hs, Hj.
    + by split; intros Hx; [|apply Hn in Hx].
    + destruct Hs; [done|]. by right.
    + destruct Hj as [?|[?|?]]; try done. auto.
Qed.

Lemma live_inv_step s0 s1 : pool_inv s0 -> live_inv s0 -> any_step work s0 s1 -> live_inv s1.
Proof.
  intros P I Hs. revert P I. destruct Hs as [[i s s' H|i s s' H|i s s' H|c s s' H|c i s s' H|c s s' H|s s' H]|[i s s' H|c s s' H]]; intros P I.
  - by eapply take_live.
  - by eapply run_live.
  - by eapply release_live.
  - by eapply push_live.
  - by eapply notify_live.
  - by eapply wait_live.
  - by eapply destroy_live.
  - unfold spurious_worker in H. destruct (workers_ (pool s) !! i) as [[]|] eqn:E; try done. injection H as <-.
    count_worker E W_ready. live_cases I.
  - unfold spurious_caller in H. destruct (callers s !! c) as [[]|] eqn:E; try done. injection H as <-.
    count_caller E C_check. live_cases I.
Qed.

Lemma initial_live hc requests : live_inv (initial hc requests).
Proof.
  assert (forall f n, f W_ready = 0%nat -> sum_list_with f (replicate n W_ready) = 0%nat) as H0.
  { intros f n Hf. induction n as [|n IH]; [done|]. cbn [replicate sum_list_with]. by rewrite Hf. }
  split; cbn [initial global_pool pool callers destructor workers_ tasks_ stop_ active_workers_]; auto.
  - rewrite length_replicate. destruct (Nat.eqb_spec hc 0); lia.
  - by split.
  - left. destruct (decide (0 < sum_list_with is_blocked_caller (imap start_call requests))%nat) as [Hp|Hp]; [|lia].
    apply sum_positive in Hp as (i & x & Hi & Hx). rewrite list_lookup_imap in Hi. destruct (requests !! i) as [r|]; [|done].
    injection Hi as <-. unfold start_call in Hx. destruct (_ =? _)%nat; cbn in Hx; lia.
Qed.

Lemma find_blocked ws : existsb is_waiting ws = true -> exists i, ws !! i = Some W_waiting.
Proof.
  intros (w & Hw & E)%existsb_exists. apply list_elem_of_In, list_elem_of_lookup in Hw as [i Hi]. exists i. by destruct w.
Qed.

Lemma undone_blocked cs :
  (sum_list_with is_undone cs <= sum_list_with is_blocked_caller cs)%nat \/
  exists c st, cs !! c = Some st /\ match st with C_done | C_waiting => False | _ => True end.
Proof.
  induction cs as [|x cs [IH|(c & st & Hc & Hst)]]; [left; cbn; lia| |right; by exists (S c), st].
  destruct x; try (right; exists 0%nat; eexists; split; [reflexivity|done]); left; cbn [sum_list_with is_undone is_blocked_caller]; lia.
Qed.

(** Someone can always move. *)
Lemma progress s :
  pool_inv s -> live_inv s -> (forall t, t ∈ held s -> is_Some (outcome t)) ->
  destructor s = D_done \/ exists s', pool_step work s s'.
Proof.
  intros P I Hout. pose proof (workers_total (workers_ (pool s))) as Htot. pose proof (busy_alive (workers_ (pool s))) as Hbusy.
  destruct (decide (0 < workers_with is_alive s)%nat) as [Ha|Ha].
  { right. apply sum_positive in Ha as (i & w & E & Hw). destruct w; cbn in Hw; try lia.
    - destruct (worker_take i s) as [s'|] eqn:H; [exists s'; by eapply step_take|]. unfold worker_take in H. rewrite E in H. by destruct (tasks_ _).
    - destruct (worker_run work i s) as [s'|] eqn:H; [exists s'; by eapply step_run|]. exfalso. unfold worker_run in H. rewrite E in H.
      destruct (Hout task) as [r Hr].
      { apply list_elem_of_join. exists (running (W_running task)). split; [by left|]. apply list_elem_of_fmap.
        exists (W_running task). split; [done|]. by eapply list_elem_of_lookup_2. }
      unfold outcome in Hr. by rewrite Hr in H.
    - destruct (worker_release i s) as [s'|] eqn:H; [exists s'; by eapply step_release|]. unfold worker_release in H. by rewrite E in H. }
  destruct (decide (0 < callers_with is_undone s)%nat) as [Hu|Hu].
  - destruct (undone_blocked (callers s)) as [Hb|(c & st & Hc & Hst)].
    + exfalso. pose proof (pi_active _ P) as Hact. assert (idle (pool s) = false) as Hi by (destruct (li_waiting _ I); [lia|done]).
      unfold idle in Hi. destruct (tasks_ (pool s)) as [|t q] eqn:Eq; [apply Z.eqb_neq in Hi; lia|].
      destruct (li_tasks _ I) as [?|Hlive]; [congruence|].
      assert (0 < callers_with is_notifying s)%nat as Hnot by lia. assert (callers_with is_notifying s + callers_with is_blocked_caller s <= callers_with is_undone s)%nat.
      { clear. induction (callers s) as [|x cs IH]; [done|]. cbn [sum_list_with]. destruct x; cbn [is_notifying is_blocked_caller is_undone]; lia. }
      lia.
    + right. destruct st as [[|t l]|l| | |]; try done.
      * exists (set_caller c C_check s). apply (step_wait _ c). unfold wait_all. by rewrite Hc.
      * eexists. apply (step_push _ c). unfold enqueue_push. by rewrite Hc.
      * destruct (existsb is_waiting (workers_ (pool s))) eqn:Ex.
        -- destruct (find_blocked _ Ex) as [i Hi]. eexists. apply (step_notify _ c i). unfold enqueue_notify. by rewrite Hc, Hi.
        -- exists (set_caller c (C_enqueue l) s). apply (step_notify _ c 0). unfold enqueue_notify. rewrite Hc, Ex.
           destruct (workers_ (pool s) !! 0%nat) as [[]|] eqn:E0; try done. exfalso.
           assert (existsb is_waiting (workers_ (pool s)) = true); [|congruence]. apply existsb_exists. exists W_waiting.
           split; [|done]. apply list_elem_of_In. by eapply list_elem_of_lookup_2.
      * eexists. apply (step_wait _ c). unfold wait_all. by rewrite Hc.
  - destruct (destructor s) eqn:Ed; [| | |by left]; right.
    + eexists. apply step_destroy. unfold destroy. rewrite Ed, undone_done, bool_decide_eq_true_2 by lia. reflexivity.
    + eexists. apply step_destroy. unfold destroy. by rewrite Ed.
    + eexists. apply step_destroy. unfold destroy. rewrite Ed, exited_all; [reflexivity| |lia].
      destruct (li_join _ I) as [?|[?|?]]; [congruence|congruence|done].
Qed.

End Pool.

(** ** Properties *)

Section Theorems.
Variable work : nat -> TaskConfig -> nat -> nat -> option PaddedResult.

Lemma reachable_live hc requests s :
  rtc (any_step work) (initial hc requests) s -> live_inv s.
Proof.
  intros Hs. assert (pool_inv s /\ live_inv s) as [_ H]; [|exact H]. revert s Hs.
  apply (rtc_ind_r (fun s => pool_inv s /\ live_inv s) (initial hc requests)); [split; [apply (initial_inv work)|apply initial_live]|].
  intros s s' _ Hs [H1 H2]. split; [by eapply pool_inv_step|by eapply live_inv_step].
Qed.

End Theorems.

(** C3: what a parallel call returns.  However the workers and callers are
    interleaved, and whatever other calls share the pool, when call [c] has
    left [wait_all] the counts it adds up are those of the sequential [run]: each share was
    computed by one worker and its result was written. *)
Theorem pool_refines_run work hc requests s c r :
  rtc (any_step work) (initial hc requests) s -> requests !! c = Some r -> callers s !! c = Some C_done ->
  run (fun share => work (rq_base r) (rq_config r) share.1 share.2) (rq_rows r) (rq_threads r) =
    Some (if (rq_rows r =? 0)%nat then 0 else sum_counts (call_results c r s)).
Proof.
  intros Hs Hc Hd. unfold run. destruct (Nat.eqb_spec (rq_rows r) 0) as [|Hr]; [done|].
  by rewrite (done_call work hc requests s c r Hs Hc Hr Hd).
Qed.

(** A share of the example: the number of its rows. *)
Definition demo_work (base : nat) (config : TaskConfig) (start_row end_row : nat) : option PaddedResult :=
  Some (mkResult (Z.of_nat (end_row - start_row)) 1).

Definition demo_request : request := mkRequest 0 (mkTaskConfig [] [] 0 BIT_SLICED 1 0 [] [] 64) 100 2.

(** Schedules: who moves next. *)
Inductive move := M_take (i : nat) | M_run (i : nat) | M_release (i : nat) | M_push (c : nat) | M_notify (c i : nat) | M_wait (c : nat).

Definition play (m : move) : system -> option system :=
  match m with
  | M_take i => worker_take i
  | M_run i => worker_run demo_work i
  | M_release i => worker_release i
  | M_push c => enqueue_push c
  | M_notify c i => enqueue_notify c i
  | M_wait c => wait_all c
  end.

Lemma play_reachable ms s s' : mfold play ms s = Some s' -> rtc (any_step demo_work) s s'.
Proof.
  revert s. induction ms as [|m ms IH]; intros s H; cbn [mfold] in H; [injection H as ->; apply rtc_refl|].
  destruct (play m s) as [s1|] eqn:E; [|discriminate H]. rewrite bind_Some in H. eapply rtc_l; [left|exact (IH s1 H)].
  destruct m; [eapply step_take|eapply step_run|eapply step_release|eapply step_push|eapply step_notify|eapply step_wait]; exact E.
Qed.

Lemma played ms s (P : system -> Prop) :
  match mfold play ms s with Some s' => P s' | None => False end ->
  rtc (any_step demo_work) s (default s (mfold play ms s)) /\ P (default s (mfold play ms s)).
Proof. destruct (mfold play ms s) as [s'|] eqn:E; [|done]. intros HP. split; [by apply (play_reachable ms)|exact HP]. Qed.

(** One worker, one call of two tasks, run to the end of [wait_all]. *)
Definition demo_schedule : list move :=
  [M_push 0; M_notify 0 0; M_take 0; M_push 0; M_run 0; M_notify 0 0; M_wait 0; M_wait 0; M_release 0; M_take 0; M_run 0;
   M_release 0; M_wait 0].

Definition demo_end : system := default (initial 1 [demo_request]) (mfold play demo_schedule (initial 1 [demo_request])).

Lemma demo_reachable : rtc (any_step demo_work) (initial 1 [demo_request]) demo_end.
Proof. apply (played demo_schedule _ (fun _ => True)). by vm_compute. Qed.

Lemma pool_refines_run_witness :
  run (fun share => demo_work 0 (rq_config demo_request) share.1 share.2) 100 2 =
    Some (if (rq_rows demo_request =? 0)%nat then 0 else sum_counts (call_results 0 demo_request demo_end)).
Proof.
  apply (pool_refines_run demo_work 1 [demo_request] demo_end 0 demo_request demo_reachable); by vm_compute.
Defined.

(** C32: no data race on the results.  In every reachable state, two workers never
    run tasks that write the same slot, a slot being computed has not been
    written before, and no task in the pool writes a slot of a call that has returned. *)
Theorem pool_no_race work hc requests s :
  rtc (any_step work) (initial hc requests) s ->
  (forall i j t t', workers_ (pool s) !! i = Some (W_running t) -> workers_ (pool s) !! j = Some (W_running t') ->
     i <> j -> wt_result t <> wt_result t') /\
  (forall i t, workers_ (pool s) !! i = Some (W_running t) -> results s !! wt_result t = None) /\
  (forall t c, t ∈ queued s -> callers s !! c = Some C_done -> (wt_result t).1 <> c).
Proof.
  intros Hs. destruct (reachable_inv work hc requests s Hs) as [[(fin & Hp & Hf) Hfr] I].
  assert (forall i t, workers_ (pool s) !! i = Some (W_running t) -> t ∈ pending s) as Hin.
  { intros i t Hi. apply elem_of_app. right. apply elem_of_app. right. apply list_elem_of_join. exists [t]. split; [by left|].
    apply list_elem_of_fmap. exists (W_running t). split; [done|]. by eapply list_elem_of_lookup_2. }
  split_and!; [|intros i t Hi; apply Hfr; by eapply Hin|intros t c Ht Hc; by apply (pi_done _ I)].
  intros i j t t' Hi Hj Hne.
  assert (NoDup (wt_result <$> held s)) as Hnd.
  { pose proof (all_tasks_nodup 0 requests) as Hall. rewrite Hp in Hall. unfold pending, queued in Hall.
    rewrite !fmap_app in Hall. apply NoDup_app in Hall as (Hall & _ & _). apply NoDup_app in Hall as (_ & _ & Hall).
    by apply NoDup_app in Hall as (_ & _ & Hall). }
  unfold held in Hnd. clear -Hi Hj Hne Hnd. revert i j Hi Hj Hne. induction (workers_ (pool s)) as [|w ws IH]; intros i j Hi Hj Hne; [done|].
  change (running <$> w :: ws) with (running w :: (running <$> ws)) in Hnd.
  change (mjoin (running w :: (running <$> ws))) with (running w ++ mjoin (running <$> ws)) in Hnd.
  rewrite fmap_app in Hnd. apply NoDup_app in Hnd as (_ & Hd & Hnd).
  assert (forall k x, ws !! k = Some (W_running x) -> wt_result x ∈ wt_result <$> mjoin (running <$> ws)) as Hin.
  { intros k x Hk. apply list_elem_of_fmap_2, list_elem_of_join. exists [x]. split; [by left|].
    apply list_elem_of_fmap. exists (W_running x). split; [done|]. by eapply list_elem_of_lookup_2. }
  destruct i as [|i], j as [|j]; cbn in Hi, Hj; try lia.
  - injection Hi as ->. intros E. apply (Hd (wt_result t)); [by left|]. rewrite E. by eapply Hin.
  - injection Hj as ->. intros E. apply (Hd (wt_result t')); [by left|]. rewrite <- E. by eapply Hin.
  - apply (IH Hnd i j Hi Hj). lia.
Qed.

(** Two workers, two calls: the first has returned, both workers run tasks of the second, a
    third task is queued and a fourth not yet pushed. *)
Definition busy_request : request := mkRequest 0 (mkTaskConfig [] [] 0 BIT_SLICED 1 0 [] [] 64) 400 4.
Definition busy_start : system := initial 2 [demo_request; busy_request].
Definition busy_schedule : list move :=
  [M_push 0; M_notify 0 0; M_push 0; M_notify 0 0; M_take 0; M_take 1; M_run 1; M_run 0; M_wait 0; M_release 0; M_release 1;
   M_wait 0; M_push 1; M_notify 1 0; M_push 1; M_take 1; M_notify 1 0; M_push 1; M_take 0; M_notify 1 0].
Definition crowded : system := default busy_start (mfold play busy_schedule busy_start).

Definition busy_task (t : nat) : WorkerTask := nth t (request_tasks 1 busy_request) (mkWorkerTask 0 0 0 (rq_config busy_request) (0, 0)%nat).

Lemma busy_reachable : rtc (any_step demo_work) busy_start crowded /\
  (workers_ (pool crowded) = [W_running (busy_task 1); W_running (busy_task 0)] /\ tasks_ (pool crowded) = [busy_task 2] /\
   callers crowded = [C_done; C_enqueue [busy_task 3]] /\ results crowded !! (0, 0)%nat = Some (mkResult 64 1)).
Proof.
  apply (played busy_schedule busy_start (fun s =>
    workers_ (pool s) = [W_running (busy_task 1); W_running (busy_task 0)] /\ tasks_ (pool s) = [busy_task 2] /\
    callers s = [C_done; C_enqueue [busy_task 3]] /\ results s !! (0, 0)%nat = Some (mkResult 64 1))).
  by vm_compute.
Qed.

Lemma pool_no_race_witness :
  workers_ (pool crowded) = [W_running (busy_task 1); W_running (busy_task 0)] /\ tasks_ (pool crowded) = [busy_task 2] /\
  callers crowded !! 0%nat = Some C_done /\
  wt_result (busy_task 1) <> wt_result (busy_task 0) /\
  results crowded !! wt_result (busy_task 1) = None /\ results crowded !! wt_result (busy_task 0) = None /\
  (wt_result (busy_task 2)).1 <> 0%nat.
Proof.
  destruct busy_reachable as (Hr & Hw & Ht & Hc & _).
  destruct (pool_no_race demo_work 2 [demo_request; busy_request] crowded Hr) as (H1 & H2 & H3).
  assert (callers crowded !! 0%nat = Some C_done) as Hd by (by rewrite Hc). split_and!; [exact Hw|exact Ht|exact Hd| | | |].
  - apply (H1 0%nat 1%nat); [by rewrite Hw|by rewrite Hw|lia].
  - apply (H2 0%nat). by rewrite Hw.
  - apply (H2 1%nat). by rewrite Hw.
  - apply (H3 (busy_task 2) 0%nat); [|exact Hd]. unfold queued. rewrite Ht. apply elem_of_app. left. by left.
Defined.

(** C14: progress.  If every share can be computed, then from every reachable state the threads
    take at most [weight s] steps, plus one for each spurious wakeup;
    and a state in which no thread can take a step is the final one: every call has
    returned and the pool is destroyed.  No wakeup is lost and nobody
    waits for ever. *)
Theorem pool_terminates work hc requests s :
  (forall t, t ∈ all_tasks 0 requests -> is_Some (outcome work t)) ->
  rtc (any_step work) (initial hc requests) s ->
  (forall n k s', pool_run work n k s s' -> (n <= weight s + k)%nat) /\
  ((forall s', ~ pool_step work s s') ->
     destructor s = D_done /\ forall c st, callers s !! c = Some st -> st = C_done).
Proof.
  intros Hout Hs. destruct (reachable_inv work hc requests s Hs) as [[(fin & Hp & _) _] I].
  pose proof (reachable_live work hc requests s Hs) as HL. split.
  - intros n k s' Hrun. apply run_bound in Hrun. lia.
  - intros Hno. destruct (progress work s I HL) as [Hd|[s' Hs']]; [| |by destruct (Hno s')].
    + intros t Ht. apply Hout. rewrite Hp. apply elem_of_app. left. apply elem_of_app. right. apply elem_of_app. by right.
    + split; [done|]. intros c st Hc. destruct (li_some _ HL) as [?|Hu]; [congruence|].
      pose proof (sum_lookup is_undone _ _ _ Hc) as Hle. destruct st; cbn in Hle; try lia. done.
Qed.

Lemma pool_terminates_witness :
  (forall n k s', pool_run demo_work n k (initial 2 [demo_request; demo_request]) s' ->
     (n <= weight (initial 2 [demo_request; demo_request]) + k)%nat) /\
  ((forall s', ~ pool_step demo_work (initial 2 [demo_request; demo_request]) s') ->
     destructor (initial 2 [demo_request; demo_request]) = D_done /\
     forall c st, callers (initial 2 [demo_request; demo_request]) !! c = Some st -> st = C_done).
Proof.
  apply (pool_terminates demo_work 2 [demo_request; demo_request]).
  - intros t _. by eexists.
  - apply rtc_refl.
Defined.
