(* ===== verification/Forest.v ===== *)
(** * The engine's passes over a graph
      ([ApexEngine::set_expression] of src/api/engine.cpp)

    Before compiling, the engine marks the nodes it evaluates itself (a SUM and
    its SELECT operands); after compiling it collects the field descriptors the
    kernel needs and, for a SUM, the base sum, the weights and the slots of the
    masks to count.  The recursions have fuel: a graph's children come before
    their parents, so the number of nodes is enough. *)

From S2P Require Import Prelude IR A64 Registry Analyzer ExprCompiler Rows.

(** ** The root of a forest

    [sum + const] or [sum]: the node that plays the SUM's part, and the constant
    node when there is one.  [None] is a null dereference. *)
Definition sum_root (ns : list Node) (r : nat) : option (nat * option nat) :=
  if decide (kind (node ns r) = K_ADD) then
    l ← left (node ns r);
    if decide (kind (node ns l) = K_SUM) then
      c ← right (node ns r);
      if decide (kind (node ns c) = K_CONST) then Some (l, Some c) else Some (r, None)
    else Some (r, None)
  else Some (r, None).

(** ** Active bits

    The widest constant of the graph; the conditions of SELECT nodes are not
    visited. *)
Fixpoint analyze_bits (fuel : nat) (ns : list Node) (p : ptr) (active_bits : Z) : option Z :=
  match p, fuel with
  | None, _ => Some active_bits
  | Some _, O => None
  | Some i, S fuel =>
      let n := node ns i in
      let active_bits :=
        if decide (kind n = K_CONST) then
          let val := wrap64 (const_value n) in
          let bits := if val =? 0 then 1 else width64 val in
          Z.max active_bits bits
        else active_bits in
      active_bits ← mfold (analyze_bits fuel ns) (operands n) active_bits;
      active_bits ← analyze_bits fuel ns (left n) active_bits;
      analyze_bits fuel ns (right n) active_bits
  end.

(** ** Marking *)

Definition skip (i : nat) (ns : list Node) : list Node := alter (set_skip_jit true) i ns.

Definition mark_skip_jit (r : nat) (ns : list Node) : option (list Node) :=
  '(effective_root, c) ← sum_root ns r;
  let ns := match c with Some c => skip c (skip r ns) | None => ns end in
  if decide (kind (node ns effective_root) = K_SUM) then
    mfold (fun op ns => o ← op; Some (if decide (kind (node ns o) = K_SELECT) then skip o ns else ns))
      (operands (node ns effective_root)) (skip effective_root ns)
  else Some ns.

Fixpoint reset_skip_jit (fuel : nat) (p : ptr) (ns : list Node) : option (list Node) :=
  match p, fuel with
  | None, _ => Some ns
  | Some _, O => None
  | Some i, S fuel =>
      let ns := alter (set_skip_jit false) i ns in
      let n := node ns i in
      ns ← reset_skip_jit fuel (left n) ns;
      ns ← reset_skip_jit fuel (right n) ns;
      ns ← reset_skip_jit fuel (cond n) ns;
      mfold (reset_skip_jit fuel) (operands n) ns
  end.

(** ** Field descriptors *)

Definition collect_field (reg : SchemaRegistry) (schema_name : string) (n : Node)
    (fields : list (option FieldDescriptor)) : list (option FieldDescriptor) :=
  if decide (kind n = K_LOAD) then
    if (0 <=? field_idx n) && (field_idx n <? 128) then
      match get_field reg schema_name (field_name n) with
      | Some d => <[Z.to_nat (field_idx n) := Some d]> fields
      | None => fields
      end
    else fields
  else fields.

Fixpoint collect_fields (fuel : nat) (reg : SchemaRegistry) (schema_name : string) (ns : list Node) (p : ptr)
    (fields : list (option FieldDescriptor)) : option (list (option FieldDescriptor)) :=
  match p, fuel with
  | None, _ => Some fields
  | Some _, O => None
  | Some i, S fuel =>
      let n := node ns i in
      let fields := collect_field reg schema_name n fields in
      fields ← collect_fields fuel reg schema_name ns (left n) fields;
      fields ← collect_fields fuel reg schema_name ns (right n) fields;
      fields ← collect_fields fuel reg schema_name ns (cond n) fields;
      mfold (collect_fields fuel reg schema_name ns) (operands n) fields
  end.

(** [fields.resize(max_idx)]: nothing after the last descriptor. *)
Definition max_idx (fields : list (option FieldDescriptor)) : nat :=
  foldl (fun m i => if decide (is_Some (mjoin (fields !! i))) then S i else m) 0%nat (seq 0 128).

(** ** The forest *)

Record forest := mkForest { base_sum : Z; delta_weights : list Z; masks_to_popcount : list Z }.

(** The value of an arm when it is a constant. *)
Definition const_arm (ns : list Node) (p : ptr) : option Z :=
  a ← p; if decide (kind (node ns a) = K_CONST) then Some (const_value (node ns a)) else None.

Definition sum_operand (ns : list Node) (op : ptr) (f : forest) : option forest :=
  o ← op;
  let n := node ns o in
  if decide (kind n = K_SELECT) then
    c ← cond n;
    let right_val := default 0 (const_arm ns (right n)) in
    let left_val := default (weight n) (const_arm ns (left n)) in
    Some (mkForest (wrap64 (base_sum f + right_val)) (delta_weights f ++ [wrap64 (left_val - right_val)])
            (masks_to_popcount f ++ [slot_id (node ns c)]))
  else
    Some (mkForest (base_sum f) (delta_weights f ++ [weight n]) (masks_to_popcount f ++ [slot_id n])).

Definition extract_forest (ns : list Node) (r : nat) : option forest :=
  '(sum_node, c) ← sum_root ns r;
  let base := match c with Some c => wrap64 (const_value (node ns c)) | None => 0 end in
  if decide (kind (node ns sum_node) = K_SUM) then
    mfold (sum_operand ns) (operands (node ns sum_node)) (mkForest base [] [])
  else Some (mkForest base [] []).
