(* ===== verification/Msl.v ===== *)
(** * The Metal shader generator
      ([ApexEngine::generate_msl_source] of src/api/engine.cpp)

    For the GPU mode the engine prints the graph as a Metal compute kernel: a
    fixed header, one statement per node over a per-thread scratch array whose
    slots are numbered in post-order, and a fixed reduction.  The text is
    modelled literally; the slots are written into the nodes, as the code
    does. *)

From stdpp Require Import pretty.
From S2P Require Import Prelude IR A64 Registry Analyzer ExprCompiler Rows Forest.

(** ** Text *)

Definition newline : string := String (Ascii.ascii_of_nat 10) EmptyString.

(** Every line ended by a newline. *)
Definition lines (l : list string) : string := foldr (fun s r => s +:+ newline +:+ r) "" l.

(** [std::to_string] of an integer, and of an [int64_t]. *)
Definition to_string (z : Z) : string := pretty z.
Definition int64_to_string (w : Z) : string := pretty (sint64 (wrap64 w)).

(** ** Post-order *)

Fixpoint dfs (fuel : nat) (ns : list Node) (p : ptr) (st : gset nat * list nat) : option (gset nat * list nat) :=
  match p, fuel with
  | None, _ => Some st
  | Some _, O => None
  | Some i, S fuel =>
      if decide (i ∈ st.1) then Some st
      else
        let n := node ns i in
        st ← dfs fuel ns (left n) ({[i]} ∪ st.1, st.2);
        st ← dfs fuel ns (right n) st;
        st ← dfs fuel ns (cond n) st;
        st ← mfold (dfs fuel ns) (operands n) st;
        Some (st.1, st.2 ++ [i])
  end.

(** A slot for every node that is not skipped, in order. *)
Definition gpu_slot (st : list Node * Z) (i : nat) : list Node * Z :=
  let '(ns, next_slot_id) := st in
  if skip_jit (node ns i) then (ns, next_slot_id)
  else (alter (fun n => set_slots next_slot_id (eq_slot_id n) (carry_reg n) n) i ns, next_slot_id + 1).

Definition gpu_slots (post_order : list nat) (ns : list Node) : list Node * Z := foldl gpu_slot (ns, 0) post_order.

(** ** The fixed parts *)

Definition msl_header : string := lines [
     "#include <metal_stdlib>";
     "using namespace metal;";
     "";
     "inline uint64_t shuffle_up_64(uint64_t val, ushort delta) {";
     "    uint2 parts = as_type<uint2>(val);";
     "    parts.x = simd_shuffle_up(parts.x, delta);";
     "    parts.y = simd_shuffle_up(parts.y, delta);";
     "    return as_type<uint64_t>(parts);";
     "}";
     "";
     "inline uint64_t shuffle_down_64(uint64_t val, ushort delta) {";
     "    uint2 parts = as_type<uint2>(val);";
     "    parts.x = simd_shuffle_down(parts.x, delta);";
     "    parts.y = simd_shuffle_down(parts.y, delta);";
     "    return as_type<uint64_t>(parts);";
     "}";
     "";
     "inline void kogge_stone_scan(uint64_t g, uint64_t p, thread uint64_t& cur_g, thread uint64_t& cur_p, ushort lane_id) {";
     "    cur_g = g;";
     "    cur_p = p;";
     "    uint64_t g_prev, p_prev;";
     "    g_prev = shuffle_up_64(cur_g, 1);";
     "    p_prev = shuffle_up_64(cur_p, 1);";
     "    if (lane_id >= 1) {";
     "        cur_g = cur_g | (cur_p & g_prev);";
     "        cur_p = cur_p & p_prev;";
     "    }";
     "    g_prev = shuffle_up_64(cur_g, 2);";
     "    p_prev = shuffle_up_64(cur_p, 2);";
     "    if (lane_id >= 2) {";
     "        cur_g = cur_g | (cur_p & g_prev);";
     "        cur_p = cur_p & p_prev;";
     "    }";
     "    g_prev = shuffle_up_64(cur_g, 4);";
     "    p_prev = shuffle_up_64(cur_p, 4);";
     "    if (lane_id >= 4) {";
     "        cur_g = cur_g | (cur_p & g_prev);";
     "        cur_p = cur_p & p_prev;";
     "    }";
     "    g_prev = shuffle_up_64(cur_g, 8);";
     "    p_prev = shuffle_up_64(cur_p, 8);";
     "    if (lane_id >= 8) {";
     "        cur_g = cur_g | (cur_p & g_prev);";
     "        cur_p = cur_p & p_prev;";
     "    }";
     "    g_prev = shuffle_up_64(cur_g, 16);";
     "    p_prev = shuffle_up_64(cur_p, 16);";
     "    if (lane_id >= 16) {";
     "        cur_g = cur_g | (cur_p & g_prev);";
     "        cur_p = cur_p & p_prev;";
     "    }";
     "}";
     "";
     "kernel void bit_sliced_evaluate(";
     "    device const uint64_t* columns         [[buffer(0)]],";
     "    device uint64_t* output_masks          [[buffer(1)]],";
     "    uint3 group_idx                        [[threadgroup_position_in_grid]],";
     "    uint thread_in_group                   [[thread_index_in_threadgroup]],";
     "    uint simd_id                           [[simdgroup_index_in_threadgroup]],";
     "    uint lane_id                           [[thread_index_in_simdgroup]]";
     ") {";
     "    const uint block_idx = group_idx.x;";
     "    const uint bit_idx = thread_in_group;";
     ""].

Definition msl_shared : string := lines [
     "    threadgroup uint64_t shared_A[64];";
     "    threadgroup uint64_t shared_B[64];";
     "    threadgroup uint64_t shared_sums[2];";
     "    threadgroup uint64_t shared_carry;";
     ""].

Definition msl_reduction : string := lines [
     "";
     "    // Stage 1: SIMDgroup Reduction via shuffles";
     "    uint64_t local_sum = static_cast<uint64_t>(row_sum);";
     "    local_sum += shuffle_down_64(local_sum, 16);";
     "    local_sum += shuffle_down_64(local_sum, 8);";
     "    local_sum += shuffle_down_64(local_sum, 4);";
     "    local_sum += shuffle_down_64(local_sum, 2);";
     "    local_sum += shuffle_down_64(local_sum, 1);";
     "";
     "    if (lane_id == 0) {";
     "        shared_sums[simd_id] = local_sum;";
     "    }";
     "    threadgroup_barrier(mem_flags::mem_threadgroup);";
     "";
     "    // Stage 2: Threadgroup Leader write to block-buffered output slot";
     "    if (thread_in_group == 0) {";
     "        uint64_t block_sum = shared_sums[0] + shared_sums[1];";
     "        output_masks[block_idx] = block_sum;";
     "    }";
     "}"].

(** ** One node *)

Definition slot_text (slot : Z) : string := "scratchpad[" +:+ to_string slot +:+ "]".

Definition cmp_mask_loop (mask update : string) (active_bits : Z) : string := lines [
       "        uint64_t mask_" +:+ mask +:+ " = 0;";
       "        uint64_t mask_eq = ~0ULL;";
       "        for (int b = " +:+ to_string (active_bits - 1) +:+ "; b >= 0; --b) {";
       "            uint64_t a_plane = shared_A[b];";
       "            uint64_t b_plane = shared_B[b];";
       "            mask_" +:+ mask +:+ " = mask_" +:+ mask +:+ " | (mask_eq & " +:+ update +:+ ");";
       "            mask_eq = mask_eq & ~(a_plane ^ b_plane);";
       "        }"].

Definition eq_mask_loop (active_bits : Z) : string := lines [
       "        uint64_t mask_eq = ~0ULL;";
       "        for (int b = " +:+ to_string (active_bits - 1) +:+ "; b >= 0; --b) {";
       "            uint64_t a_plane = shared_A[b];";
       "            uint64_t b_plane = shared_B[b];";
       "            mask_eq = mask_eq & ~(a_plane ^ b_plane);";
       "        }"].

(** The comparison and the mask it leaves in slot [n]. *)
Definition cmp_text (k : NodeKind) (n : Z) (active_bits : Z) : string :=
  match k with
  | K_GT => cmp_mask_loop "gt" "a_plane & ~b_plane" active_bits +:+
            lines ["        " +:+ slot_text n +:+ " = mask_gt;"]
  | K_GE => cmp_mask_loop "gt" "a_plane & ~b_plane" active_bits +:+
            lines ["        " +:+ slot_text n +:+ " = mask_gt | mask_eq;"]
  | K_LT => cmp_mask_loop "lt" "~a_plane & b_plane" active_bits +:+
            lines ["        " +:+ slot_text n +:+ " = mask_lt;"]
  | K_LE => cmp_mask_loop "lt" "~a_plane & b_plane" active_bits +:+
            lines ["        " +:+ slot_text n +:+ " = mask_lt | mask_eq;"]
  | K_EQ => eq_mask_loop active_bits +:+ lines ["        " +:+ slot_text n +:+ " = mask_eq;"]
  | _ => ""
  end.

(** Slot [n] receives the sum of the slots [l] and [r]. *)
Definition add_text (n l r : Z) : string := lines ([
       "    {";
       "        uint64_t g = " +:+ slot_text l +:+ " & " +:+ slot_text r +:+ ";";
       "        uint64_t p = " +:+ slot_text l +:+ " ^ " +:+ slot_text r +:+ ";";
       "        uint64_t cur_g, cur_p;";
       "        kogge_stone_scan(g, p, cur_g, cur_p, lane_id);";
       "        if (lane_id == 31 && simd_id == 0) {";
       "            shared_carry = cur_g;";
       "        }";
       "        threadgroup_barrier(mem_flags::mem_threadgroup);";
       "        if (simd_id == 1) {";
       "            cur_g = cur_g | (shared_carry & cur_p);";
       "        }";
       "        uint64_t carry_in = 0;";
       "        if (simd_id == 0) {";
       "            carry_in = (lane_id == 0) ? 0ULL : shuffle_up_64(cur_g, 1);";
       "        } else {";
       "            carry_in = (lane_id == 0) ? shared_carry : shuffle_up_64(cur_g, 1);";
       "        }";
       "        " +:+ slot_text n +:+ " = " +:+ slot_text l +:+ " ^ " +:+ slot_text r +:+ " ^ carry_in;";
       "    }"]).

Definition sub_text (n l r : Z) : string := lines ([
       "    {";
       "        uint64_t g = " +:+ slot_text l +:+ " & ~" +:+ slot_text r +:+ ";";
       "        uint64_t p = " +:+ slot_text l +:+ " ^ ~" +:+ slot_text r +:+ ";";
       "        if (lane_id == 0 && simd_id == 0) {";
       "            g = g | p;";
       "        }";
       "        uint64_t cur_g, cur_p;";
       "        kogge_stone_scan(g, p, cur_g, cur_p, lane_id);";
       "        if (lane_id == 31 && simd_id == 0) {";
       "            shared_carry = cur_g;";
       "        }";
       "        threadgroup_barrier(mem_flags::mem_threadgroup);";
       "        if (simd_id == 1) {";
       "            cur_g = cur_g | (shared_carry & cur_p);";
       "        }";
       "        uint64_t carry_in = 0;";
       "        if (simd_id == 0) {";
       "            carry_in = (lane_id == 0) ? 1ULL : shuffle_up_64(cur_g, 1);";
       "        } else {";
       "            carry_in = (lane_id == 0) ? shared_carry : shuffle_up_64(cur_g, 1);";
       "        }";
       "        " +:+ slot_text n +:+ " = " +:+ slot_text l +:+ " ^ ~" +:+ slot_text r +:+ " ^ carry_in;";
       "    }"]).

(** The statement of a node; [None] is a null dereference. *)
Definition node_text (ns : list Node) (num_fields : nat) (active_bits : Z) (n : Node) : option string :=
  let at_ p := (fun i => node ns i) <$> p in
  match kind n with
  | K_LOAD =>
      Some (lines ["    " +:+ slot_text (slot_id n) +:+ " = columns[block_idx * " +:+ to_string (Z.of_nat num_fields) +:+
                   " * 64 + " +:+ to_string (field_idx n) +:+ " * 64 + bit_idx];"])
  | K_CONST =>
      Some (lines ["    " +:+ slot_text (slot_id n) +:+ " = (((" +:+ int64_to_string (const_value n) +:+
                   "ULL) >> bit_idx) & 1) ? 0xFFFFFFFFFFFFFFFFULL : 0ULL;"])
  | K_AND => l ← at_ (left n); r ← at_ (right n);
      Some (lines ["    " +:+ slot_text (slot_id n) +:+ " = " +:+ slot_text (slot_id l) +:+ " & " +:+ slot_text (slot_id r) +:+ ";"])
  | K_OR => l ← at_ (left n); r ← at_ (right n);
      Some (lines ["    " +:+ slot_text (slot_id n) +:+ " = " +:+ slot_text (slot_id l) +:+ " | " +:+ slot_text (slot_id r) +:+ ";"])
  | K_NOT => l ← at_ (left n);
      Some (lines ["    " +:+ slot_text (slot_id n) +:+ " = ~" +:+ slot_text (slot_id l) +:+ ";"])
  | K_SELECT => c ← at_ (cond n); l ← at_ (left n); r ← at_ (right n);
      Some (lines ["    " +:+ slot_text (slot_id n) +:+ " = (" +:+ slot_text (slot_id c) +:+ " & " +:+ slot_text (slot_id l) +:+ ") | (~" +:+
                   slot_text (slot_id c) +:+ " & " +:+ slot_text (slot_id r) +:+ ");"])
  | K_GT | K_GE | K_LT | K_LE | K_EQ => l ← at_ (left n); r ← at_ (right n);
      Some (lines ["    {";
                   "        shared_A[bit_idx] = " +:+ slot_text (slot_id l) +:+ ";";
                   "        shared_B[bit_idx] = " +:+ slot_text (slot_id r) +:+ ";";
                   "        threadgroup_barrier(mem_flags::mem_threadgroup);"] +:+
            cmp_text (kind n) (slot_id n) active_bits +:+
            lines ["        threadgroup_barrier(mem_flags::mem_threadgroup);"; "    }"])
  | K_ADD => l ← at_ (left n); r ← at_ (right n); Some (add_text (slot_id n) (slot_id l) (slot_id r))
  | K_SUB => l ← at_ (left n); r ← at_ (right n); Some (sub_text (slot_id n) (slot_id l) (slot_id r))
  | _ => Some ""
  end.

(** ** The aggregator *)

Definition weight_text (slot w : Z) : string := lines [
       "    if ((scratchpad[" +:+ to_string slot +:+ "] >> bit_idx) & 1) {";
       "        row_sum += " +:+ int64_to_string w +:+ "LL;";
       "    }"].

Definition aggregator_text (f : forest) : string :=
  lines [""; "    // --- Vectorized Aggregator with Two-Stage reduction ---";
         "    int64_t row_sum = " +:+ to_string (base_sum f) +:+ "LL;"] +:+
  foldr String.append "" (zip_with weight_text (masks_to_popcount f) (delta_weights f)).

(** ** The whole source

    The pool with the GPU slots, and the text.  [num_fields] is the number of
    fields of the schema, 0 when it is not registered. *)
Definition generate_msl_source (num_fields : nat) (ns : list Node) (root : nat) : option (list Node * string) :=
  let active_bits := 64 in
  _ ← analyze_bits (length ns) ns (Some root) 0;
  '(_, post_order) ← dfs (length ns) ns (Some root) (∅, []);
  let '(ns, next_slot_id) := gpu_slots post_order ns in
  let scratchpad_size := if next_slot_id =? 0 then 1 else next_slot_id in
  body ← mfold (fun i text =>
      if skip_jit (node ns i) then Some text
      else t ← node_text ns num_fields active_bits (node ns i); Some (text +:+ t)) post_order "";
  f ← extract_forest ns root;
  Some (ns, msl_header +:+ lines ["    uint64_t scratchpad[" +:+ to_string scratchpad_size +:+ "] = {0};"] +:+
            msl_shared +:+ body +:+ aggregator_text f +:+ msl_reduction).
