(* ===== verification/Shader.v ===== *)
(** * The Metal shader: what the generated source means
      ([ApexEngine::generate_msl_source] of src/api/engine.cpp)

    The source generated for the GPU is a program over 64 threads, two simdgroups of
    32 lanes.  A [shader] is that program as data, [render] prints it, and the
    generator's text is the print of [generate_shader].  The program is run as
    Metal runs it: each simdgroup executes its statements in lockstep, the
    two simdgroups interleave freely between barriers and communicate through
    threadgroup memory.

    A shuffle that reads a lane which the branch around it leaves inactive is
    undefined in Metal; what it delivers is a parameter ([Gpu]). *)

From S2P Require Import Prelude Planes IR A64 Registry Analyzer ExprCompiler Rows Forest Msl.

(** ** The program *)

(** The numbers are slots of the scratchpad. *)
Inductive stmt :=
  | S_load (dst : Z) (num_fields : nat) (field : Z)
  | S_const (dst value : Z)
  | S_and (dst l r : Z)
  | S_or (dst l r : Z)
  | S_not (dst l : Z)
  | S_select (dst c l r : Z)
  | S_cmp (op : cmpop) (dst l r : Z)
  | S_add (dst l r : Z)
  | S_sub (dst l r : Z).

(** [sh_weights]: slots of masks and the weights of their rows. *)
Record shader := mkShader {
  sh_slots : Z;
  sh_body : list stmt;
  sh_base : Z;
  sh_weights : list (Z * Z)
}.

(** ** Its text *)

Definition stmt_text (active_bits : Z) (s : stmt) : string :=
  match s with
  | S_load dst nf f =>
      lines ["    " +:+ slot_text dst +:+ " = columns[block_idx * " +:+ to_string (Z.of_nat nf) +:+
             " * 64 + " +:+ to_string f +:+ " * 64 + bit_idx];"]
  | S_const dst v =>
      lines ["    " +:+ slot_text dst +:+ " = (((" +:+ int64_to_string v +:+
             "ULL) >> bit_idx) & 1) ? 0xFFFFFFFFFFFFFFFFULL : 0ULL;"]
  | S_and dst l r => lines ["    " +:+ slot_text dst +:+ " = " +:+ slot_text l +:+ " & " +:+ slot_text r +:+ ";"]
  | S_or dst l r => lines ["    " +:+ slot_text dst +:+ " = " +:+ slot_text l +:+ " | " +:+ slot_text r +:+ ";"]
  | S_not dst l => lines ["    " +:+ slot_text dst +:+ " = ~" +:+ slot_text l +:+ ";"]
  | S_select dst c l r =>
      lines ["    " +:+ slot_text dst +:+ " = (" +:+ slot_text c +:+ " & " +:+ slot_text l +:+ ") | (~" +:+
             slot_text c +:+ " & " +:+ slot_text r +:+ ");"]
  | S_cmp op dst l r =>
      lines ["    {";
             "        shared_A[bit_idx] = " +:+ slot_text l +:+ ";";
             "        shared_B[bit_idx] = " +:+ slot_text r +:+ ";";
             "        threadgroup_barrier(mem_flags::mem_threadgroup);"] +:+
      cmp_text (cmp_kind op) dst active_bits +:+
      lines ["        threadgroup_barrier(mem_flags::mem_threadgroup);"; "    }"]
  | S_add dst l r => add_text dst l r
  | S_sub dst l r => sub_text dst l r
  end.

Definition body_text (l : list stmt) : string := foldr (fun s t => stmt_text 64 s +:+ t) "" l.

Definition render (sh : shader) : string :=
  msl_header +:+ lines ["    uint64_t scratchpad[" +:+ to_string (sh_slots sh) +:+ "] = {0};"] +:+
  msl_shared +:+ body_text (sh_body sh) +:+
  (lines [""; "    // --- Vectorized Aggregator with Two-Stage reduction ---";
         "    int64_t row_sum = " +:+ to_string (sh_base sh) +:+ "LL;"] +:+
   foldr String.append "" ((fun kw => weight_text kw.1 kw.2) <$> sh_weights sh)) +:+
  msl_reduction.

(** ** The program of a graph *)

(** The statement of a node, if it has one; [None] is a null dereference. *)
Definition node_stmt (ns : list Node) (num_fields : nat) (n : Node) : option (option stmt) :=
  let slot_of p := (fun i => slot_id (node ns i)) <$> p in
  let binary (s : Z -> Z -> Z -> stmt) := l ← slot_of (left n); r ← slot_of (right n); Some (Some (s (slot_id n) l r)) in
  match kind n with
  | K_LOAD => Some (Some (S_load (slot_id n) num_fields (field_idx n)))
  | K_CONST => Some (Some (S_const (slot_id n) (const_value n)))
  | K_AND => binary S_and
  | K_OR => binary S_or
  | K_NOT => l ← slot_of (left n); Some (Some (S_not (slot_id n) l))
  | K_SELECT => c ← slot_of (cond n); binary (fun dst => S_select dst c)
  | K_GT => binary (S_cmp C_GT)
  | K_GE => binary (S_cmp C_GE)
  | K_LT => binary (S_cmp C_LT)
  | K_LE => binary (S_cmp C_LE)
  | K_EQ => binary (S_cmp C_EQ)
  | K_ADD => binary S_add
  | K_SUB => binary S_sub
  | _ => Some None
  end.

Definition add_node (ns : list Node) (num_fields : nat) (i : nat) (body : list stmt) : option (list stmt) :=
  if skip_jit (node ns i) then Some body
  else s ← node_stmt ns num_fields (node ns i); Some (body ++ option_list s).

Definition generate_shader (num_fields : nat) (ns : list Node) (root : nat) : option (list Node * shader) :=
  _ ← analyze_bits (length ns) ns (Some root) 0;
  '(_, post_order) ← dfs (length ns) ns (Some root) (∅, []);
  let '(ns, next_slot_id) := gpu_slots post_order ns in
  body ← mfold (add_node ns num_fields) post_order [];
  f ← extract_forest ns root;
  Some (ns, mkShader (if next_slot_id =? 0 then 1 else next_slot_id) body (base_sum f)
              (zip (masks_to_popcount f) (delta_weights f))).

(** ** Simdgroups

    A vector holds one word for each of the 32 lanes. *)

Abbreviation vector := (list Z).

(** [inactive_lane x]: what a lane gets when it reads a lane that the branch
    leaves inactive and whose register holds [x]. *)
Class Gpu := {
  inactive_lane : Z -> Z;
  inactive_u32 : forall x, 0 <= x < 2 ^ 32 -> 0 <= inactive_lane x < 2 ^ 32
}.

Definition lanes (f : nat -> Z) : vector := arr 32 f.
Definition lanewise (f : Z -> Z -> Z) (v w : vector) : vector := lanes (fun i => f (v !!! i) (w !!! i)).

Section Shuffles.
Context {G : Gpu}.

(** [simd_shuffle_up]: the lowest [delta] lanes keep their value. *)
Definition simd_shuffle_up (active : nat -> bool) (v : vector) (delta : nat) : vector :=
  lanes (fun i => if (i <? delta)%nat then v !!! i
                  else if active (i - delta)%nat then v !!! (i - delta)%nat else inactive_lane (v !!! (i - delta)%nat)).

(** [simd_shuffle_down]: the highest ones do. *)
Definition simd_shuffle_down (v : vector) (delta : nat) : vector :=
  lanes (fun i => if (i + delta <? 32)%nat then v !!! (i + delta)%nat else v !!! i).

(** [as_type<uint2>] and back. *)
Definition parts_x (v : vector) : vector := lanes (fun i => (v !!! i) mod 2 ^ 32).
Definition parts_y (v : vector) : vector := lanes (fun i => Z.shiftr (v !!! i) 32).
Definition of_parts (x y : vector) : vector := lanewise (fun x y => Z.lor x (Z.shiftl y 32)) x y.

Definition shuffle_up_64 (active : nat -> bool) (v : vector) (delta : nat) : vector :=
  of_parts (simd_shuffle_up active (parts_x v) delta) (simd_shuffle_up active (parts_y v) delta).
Definition shuffle_down_64 (v : vector) (delta : nat) : vector :=
  of_parts (simd_shuffle_down (parts_x v) delta) (simd_shuffle_down (parts_y v) delta).

Definition all_active (i : nat) : bool := true.

(** One round: lanes from [delta] on take in the lane [delta] below. *)
Definition scan_round (gp : vector * vector) (delta : nat) : vector * vector :=
  let '(cur_g, cur_p) := gp in
  let g_prev := shuffle_up_64 all_active cur_g delta in
  let p_prev := shuffle_up_64 all_active cur_p delta in
  (lanes (fun i => if (delta <=? i)%nat then Z.lor (cur_g !!! i) (Z.land (cur_p !!! i) (g_prev !!! i)) else cur_g !!! i),
   lanes (fun i => if (delta <=? i)%nat then Z.land (cur_p !!! i) (p_prev !!! i) else cur_p !!! i)).

Definition kogge_stone_scan (g p : vector) : vector * vector := foldl scan_round (g, p) [1; 2; 4; 8; 16]%nat.

(** [local_sum += shuffle_down_64(local_sum, delta)] from 16 to 1. *)
Definition reduce_lanes (local_sum : vector) : vector :=
  foldl (fun v delta => lanewise (fun x y => wrap64 (x + y)) v (shuffle_down_64 v delta)) local_sum [16; 8; 4; 2; 1]%nat.

End Shuffles.

(** ** State *)

(** The registers of a simdgroup's threads, a vector per variable. *)
Record simdgroup := mkSimd { scratchpad : list vector; cur_g : vector; cur_p : vector }.

(** The threadgroup's memory and its slot of the output buffer. *)
Record threadgroup := mkShared {
  shared_A : list Z;
  shared_B : list Z;
  shared_sums : list Z;
  shared_carry : Z;
  output_mask : Z
}.

Definition slot_at (sp : list vector) (k : Z) : option vector := if 0 <=? k then sp !! Z.to_nat k else None.
Definition set_slot (k : Z) (v : vector) (g : simdgroup) : option simdgroup :=
  _ ← slot_at (scratchpad g) k; Some (mkSimd (<[Z.to_nat k := v]> (scratchpad g)) (cur_g g) (cur_p g)).

(** ** Actions

    A statement is one or two actions with barriers between them: what a
    simdgroup does on its own from one access of the threadgroup's memory to the next. *)
Inductive act :=
  | A_local (s : stmt)
  | A_share (l r : Z)
  | A_compare (op : cmpop) (dst : Z)
  | A_scan (sub : bool) (l r : Z)
  | A_sum (sub : bool) (dst l r : Z)
  | A_reduce (base : Z) (weights : list (Z * Z))
  | A_output.

(** [None] is [threadgroup_barrier]. *)
Definition stmt_acts (s : stmt) : list (option act) :=
  match s with
  | S_cmp op dst l r => [Some (A_share l r); None; Some (A_compare op dst); None]
  | S_add dst l r => [Some (A_scan false l r); None; Some (A_sum false dst l r)]
  | S_sub dst l r => [Some (A_scan true l r); None; Some (A_sum true dst l r)]
  | _ => [Some (A_local s)]
  end.

Definition program (sh : shader) : list (option act) :=
  mjoin (stmt_acts <$> sh_body sh) ++ [Some (A_reduce (sh_base sh) (sh_weights sh)); None; Some A_output].

(** What an action writes to the threadgroup's memory. *)
Inductive write :=
  | W_none
  | W_share (a b : vector)                     (* this simdgroup's half of both arrays *)
  | W_carry (c : Z)
  | W_sum (s : Z)                              (* this simdgroup's sum *)
  | W_output (o : Z).

Definition set_half (sid : nat) (v : vector) (A : list Z) : list Z :=
  arr 64 (fun i => if ((sid * 32 <=? i) && (i <? sid * 32 + 32))%nat then v !!! (i - sid * 32)%nat else A !!! i).

Definition apply_write (sid : nat) (w : write) (t : threadgroup) : threadgroup :=
  match w with
  | W_none => t
  | W_share a b => mkShared (set_half sid a (shared_A t)) (set_half sid b (shared_B t)) (shared_sums t) (shared_carry t) (output_mask t)
  | W_carry c => mkShared (shared_A t) (shared_B t) (shared_sums t) c (output_mask t)
  | W_sum s => mkShared (shared_A t) (shared_B t) (<[sid := s]> (shared_sums t)) (shared_carry t) (output_mask t)
  | W_output s => mkShared (shared_A t) (shared_B t) (shared_sums t) (shared_carry t) s
  end.

(** The comparison loop over the shared planes, from bit 63 down. *)
Definition cmp_round (op : cmpop) (A B : list Z) (st : Z * Z) (b : nat) : Z * Z :=
  let '(mask, meq) := st in
  let a_plane := A !!! b in
  let b_plane := B !!! b in
  (match op with
   | C_GT | C_GE => Z.lor mask (Z.land (Z.land meq a_plane) (lnot64 b_plane))
   | C_LT | C_LE => Z.lor mask (Z.land (Z.land meq (lnot64 a_plane)) b_plane)
   | C_EQ => mask
   end, Z.land meq (lnot64 (Z.lxor a_plane b_plane))).

Definition cmp_result (op : cmpop) (A B : list Z) : Z :=
  let '(mask, meq) := foldl (cmp_round op A B) (0, ones64) (rev (seq 0 64)) in
  match op with
  | C_GT | C_LT => mask
  | C_GE | C_LE => Z.lor mask meq
  | C_EQ => meq
  end.

(** The row of lane [i]: the base and the weights of the masks that have it. *)
Definition row_sum (sp : list vector) (weights : list (Z * Z)) (base : Z) (sid i : nat) : option Z :=
  mfold (fun kw sum =>
    v ← slot_at sp kw.1;
    Some (if Z.testbit (v !!! i) (Z.of_nat (sid * 32 + i)) then wrap64 (sum + kw.2) else sum)) weights (wrap64 base).

Section Run.
Context {G : Gpu}.
(** The column buffer and the block of this threadgroup. *)
Variables (columns : list Z) (block : Z).

(** [uint] arithmetic. *)
Definition column_index (nf : nat) (field : Z) (bit_idx : nat) : Z :=
  (block * Z.of_nat nf * 64 + field * 64 + Z.of_nat bit_idx) mod 2 ^ 32.

Definition load_lanes (sid nf : nat) (field : Z) : option vector :=
  mapM (fun i => columns !! Z.to_nat (column_index nf field (sid * 32 + i))) (seq 0 32).

(** A statement that stays within its thread. *)
Definition local_value (sid : nat) (sp : list vector) (s : stmt) : option (Z * vector) :=
  match s with
  | S_load dst nf field => v ← load_lanes sid nf field; Some (dst, v)
  | S_const dst value =>
      Some (dst, lanes (fun i => if Z.testbit (wrap64 value) (Z.of_nat (sid * 32 + i)) then ones64 else 0))
  | S_and dst l r => a ← slot_at sp l; b ← slot_at sp r; Some (dst, lanewise Z.land a b)
  | S_or dst l r => a ← slot_at sp l; b ← slot_at sp r; Some (dst, lanewise Z.lor a b)
  | S_not dst l => a ← slot_at sp l; Some (dst, lanes (fun i => lnot64 (a !!! i)))
  | S_select dst c l r =>
      m ← slot_at sp c; a ← slot_at sp l; b ← slot_at sp r;
      Some (dst, lanes (fun i => Z.lor (Z.land (m !!! i) (a !!! i)) (Z.land (lnot64 (m !!! i)) (b !!! i))))
  | S_cmp _ _ _ _ | S_add _ _ _ | S_sub _ _ _ => None
  end.

(** Generate and propagate of a bit: [l] and [r], or [l] and [~r]. *)
Definition operand (sub : bool) (v : vector) : vector := if sub then lanes (fun i => lnot64 (v !!! i)) else v.

Definition scan_inputs (sub : bool) (sid : nat) (a b : vector) : vector * vector :=
  let g := lanewise Z.land a (operand sub b) in
  let p := lanewise Z.lxor a (operand sub b) in
  (if sub && (sid =? 0)%nat then <[0%nat := Z.lor (g !!! 0%nat) (p !!! 0%nat)]> g else g, p).

(** The carry into each lane's bit; lane 0 does not take part in the shuffle. *)
Definition carry_in (sub : bool) (sid : nat) (shared_carry : Z) (cur_g : vector) : vector :=
  let up := shuffle_up_64 (fun i => negb (i =? 0)%nat) cur_g 1 in
  lanes (fun i => if (i =? 0)%nat then (if (sid =? 0)%nat then (if sub then 1 else 0) else shared_carry) else up !!! i).

(** One action of simdgroup [sid]: its registers afterwards and what it writes. *)
Definition run_act (sid : nat) (a : act) (g : simdgroup) (t : threadgroup) : option (simdgroup * write) :=
  let sp := scratchpad g in
  match a with
  | A_local s => '(dst, v) ← local_value sid sp s; g ← set_slot dst v g; Some (g, W_none)
  | A_share l r => a ← slot_at sp l; b ← slot_at sp r; Some (g, W_share a b)
  | A_compare op dst =>
      g ← set_slot dst (lanes (fun _ => cmp_result op (shared_A t) (shared_B t))) g; Some (g, W_none)
  | A_scan sub l r =>
      a ← slot_at sp l; b ← slot_at sp r;
      let '(gen, prop) := scan_inputs sub sid a b in
      let '(cur_g, cur_p) := kogge_stone_scan gen prop in
      Some (mkSimd sp cur_g cur_p, if (sid =? 0)%nat then W_carry (cur_g !!! 31%nat) else W_none)
  | A_sum sub dst l r =>
      a ← slot_at sp l; b ← slot_at sp r;
      let carry := shared_carry t in
      let cur_g := if (sid =? 1)%nat then lanewise (fun x y => Z.lor x (Z.land carry y)) (cur_g g) (cur_p g) else cur_g g in
      let c := carry_in sub sid carry cur_g in
      g ← set_slot dst (lanewise Z.lxor (lanewise Z.lxor a (operand sub b)) c) (mkSimd sp cur_g (cur_p g));
      Some (g, W_none)
  | A_reduce base weights =>
      rows ← mapM (row_sum sp weights base sid) (seq 0 32);
      Some (g, W_sum (reduce_lanes rows !!! 0%nat))
  | A_output =>
      Some (g, if (sid =? 0)%nat then W_output (wrap64 (shared_sums t !!! 0%nat + shared_sums t !!! 1%nat)) else W_none)
  end.

Definition act_step (sid : nat) (a : act) (g : simdgroup) (t : threadgroup) : option (simdgroup * threadgroup) :=
  '(g, w) ← run_act sid a g t; Some (g, apply_write sid w t).

(** ** Runs

    The barriers cut the program into segments. *)
Fixpoint segments (p : list (option act)) : list (list act) :=
  match p with
  | [] => [[]]
  | None :: p => [] :: segments p
  | Some a :: p => match segments p with s :: ss => (a :: s) :: ss | [] => [[a]] end
  end.

(** What is left of the current segment for each simdgroup, and the segments
    after it. *)
Record config := mkConfig {
  todo0 : list act; todo1 : list act; ahead : list (list act);
  group0 : simdgroup; group1 : simdgroup; shared : threadgroup
}.

(** A step of either simdgroup, or the barrier when both are there. *)
Inductive step : config -> config -> Prop :=
  | step_0 a s0 s1 ss g0 g1 t g0' t' :
      act_step 0 a g0 t = Some (g0', t') ->
      step (mkConfig (a :: s0) s1 ss g0 g1 t) (mkConfig s0 s1 ss g0' g1 t')
  | step_1 a s0 s1 ss g0 g1 t g1' t' :
      act_step 1 a g1 t = Some (g1', t') ->
      step (mkConfig s0 (a :: s1) ss g0 g1 t) (mkConfig s0 s1 ss g0 g1' t')
  | step_barrier s ss g0 g1 t :
      step (mkConfig [] [] (s :: ss) g0 g1 t) (mkConfig s s ss g0 g1 t).

Definition finished (c : config) : Prop := todo0 c = [] /\ todo1 c = [] /\ ahead c = [].

Definition start (p : list (option act)) (g0 g1 : simdgroup) (t : threadgroup) : config :=
  match segments p with s :: ss => mkConfig s s ss g0 g1 t | [] => mkConfig [] [] [] g0 g1 t end.

(** The scratchpad is cleared; the other variables are not initialised. *)
Definition thread_init (sh : shader) (regs : vector) : simdgroup :=
  mkSimd (replicate (Z.to_nat (sh_slots sh)) (replicate 32 0)) regs regs.

(** A complete run of the shader, with whatever the registers and the threadgroup's memory held,
    and the output it leaves. *)
Definition kernel_run (sh : shader) (out : Z) : Prop :=
  exists r0 r1 t c, length (shared_sums t) = 2%nat /\
    rtc step (start (program sh) (thread_init sh r0) (thread_init sh r1) t) c /\ finished c /\ output_mask (shared c) = out.

(** The two simdgroups in step: every action by simdgroup 0, then by 1. *)
Fixpoint lockstep (p : list (option act)) (st : simdgroup * simdgroup * threadgroup) : option (simdgroup * simdgroup * threadgroup) :=
  match p with
  | [] => Some st
  | None :: p => lockstep p st
  | Some a :: p =>
      let '(g0, g1, t) := st in
      '(g0, t) ← act_step 0 a g0 t;
      '(g1, t) ← act_step 1 a g1 t;
      lockstep p (g0, g1, t)
  end.

End Run.

(** ** Races *)

(** Whether an action of simdgroup 0 and one of simdgroup 1 access the
    same memory, one of them writing. *)
Definition conflict (a b : act) : bool :=
  match a, b with
  | A_share _ _, A_compare _ _ | A_compare _ _, A_share _ _ => true
  | A_scan _ _ _, A_sum _ _ _ _ => true
  | A_output, A_reduce _ _ => true
  | _, _ => false
  end.

Definition race_free (p : list (option act)) : bool :=
  forallb (fun s => forallb (fun a => forallb (fun b => negb (conflict a b)) s) s) (segments p).

(** The device's answer over [blocks] blocks: the outputs of complete runs,
    added up. *)
Definition device_result {G : Gpu} (sh : shader) (columns : list Z) (blocks : nat) (total : Z) : Prop :=
  exists outs, length outs = blocks /\
    (forall b o, outs !! b = Some o -> kernel_run columns (Z.of_nat b) sh o) /\
    total = foldl (fun s x => wrap64 (s + x)) 0 outs.
