(* ===== verification/ShaderText.v ===== *)
(** * The Metal shader: the generated text is its print

    [generate_msl_source] and [generate_shader] pass over the graph the same
    way: the source handed to the device is the print of the shader. *)

From S2P Require Import Prelude Planes IR A64 Registry Analyzer ExprCompiler Rows Forest Msl Shader.

Lemma append_assoc (a b c : string) : (a +:+ b) +:+ c = a +:+ (b +:+ c).
Proof. induction a as [|x a IH]; [done|]. exact (f_equal (String x) IH). Qed.

Lemma append_nil (a : string) : a +:+ "" = a.
Proof. induction a as [|x a IH]; [done|]. exact (f_equal (String x) IH). Qed.

Lemma body_text_1 s : body_text (option_list (Some s)) = stmt_text 64 s.
Proof. exact (append_nil (stmt_text 64 s)). Qed.

Lemma node_text_stmt ns nf n :
  node_text ns nf 64 n = (fun s => body_text (option_list s)) <$> node_stmt ns nf n.
Proof.
  unfold node_text, node_stmt. destruct (kind n) eqn:Ek; cbv zeta;
    destruct (left n), (right n), (cond n); try reflexivity; symmetry; exact (f_equal Some (body_text_1 _)).
Qed.

Lemma body_text_app l1 l2 : body_text (l1 ++ l2) = body_text l1 +:+ body_text l2.
Proof. induction l1 as [|s l IH]; [done|]. cbn [app body_text foldr]. fold (body_text (l ++ l2)). by rewrite IH, append_assoc. Qed.

Lemma body_text_mfold ns nf po body :
  mfold (fun i text => if skip_jit (node ns i) then Some text
                       else t ← node_text ns nf 64 (node ns i); Some (text +:+ t)) po (body_text body) =
  body_text <$> mfold (add_node ns nf) po body.
Proof.
  revert body. induction po as [|i po IH]; intros body; [done|]. cbn [mfold].
  destruct (add_node ns nf i body) as [body'|] eqn:E; unfold add_node in E;
    destruct (skip_jit (node ns i)); try done.
  - injection E as <-. exact (IH body).
  - rewrite node_text_stmt. destruct (node_stmt ns nf (node ns i)) as [s|]; [|done]. injection E as <-.
    rewrite bind_Some. rewrite <- IH, body_text_app. reflexivity.
  - rewrite node_text_stmt. by destruct (node_stmt ns nf (node ns i)).
Qed.

Lemma weights_text f :
  foldr String.append "" (zip_with weight_text (masks_to_popcount f) (delta_weights f)) =
  foldr String.append "" ((fun kw => weight_text kw.1 kw.2) <$> zip (masks_to_popcount f) (delta_weights f)).
Proof.
  f_equal. destruct f as [b ds ks]. cbn [delta_weights masks_to_popcount]. revert ds.
  induction ks as [|k ks IH]; intros [|d ds]; [done..|]. exact (f_equal (cons _) (IH ds)).
Qed.

(** The source is the print of the shader, on every graph; both fail together. *)
Lemma generate_msl_renders nf ns root :
  generate_msl_source nf ns root = (fun p => (p.1, render p.2)) <$> generate_shader nf ns root.
Proof.
  unfold generate_msl_source, generate_shader. cbv zeta. destruct (analyze_bits _ _ _ _); [|done]. rewrite !bind_Some.
  destruct (dfs _ _ _ _) as [[seen po]|]; [|done]. rewrite !bind_Some.
  destruct (gpu_slots po ns) as [ns1 next]. pose proof (body_text_mfold ns1 nf po []) as Hb.
  change (body_text []) with "" in Hb. rewrite Hb. clear Hb.
  destruct (mfold (add_node ns1 nf) po []) as [body|]; [|done]. cbn [fmap option_fmap option_map]. rewrite !bind_Some.
  destruct (extract_forest ns1 root) as [f|]; [|done]. rewrite !bind_Some.
  cbn [fmap option_fmap option_map fst snd]. unfold render, aggregator_text. cbn [sh_slots sh_body sh_base sh_weights].
  rewrite weights_text. done.
Qed.
