(* ===== verification/ShaderRun.v ===== *)
(** * The Metal shader: interleavings

    Between two barriers the simdgroups run in any order.  When no two
    actions of a segment conflict ([race_free]), every run ends, and ends where
    the run in lockstep ends: a step of simdgroup 1 can be moved behind all that
    simdgroup 0 still does in the segment.  With a conflict this fails: two
    additions in a row race on [shared_carry]. *)

From S2P Require Import Prelude Planes IR Shader.

Section Interleaving.
Context {G : Gpu} (columns : list Z) (block : Z).

Abbreviation act_step := (act_step columns block).
Abbreviation run_act := (run_act columns block).
Abbreviation step := (step columns block).
Abbreviation lockstep := (lockstep columns block).

(** Take the next binding of a run apart. *)
Ltac next_bind E :=
  match type of E with
  | (?m ≫= _) = Some _ => destruct m as [?|] eqn:?; [rewrite bind_Some in E|discriminate E]
  end;
  repeat match type of E with (let '(_, _) := ?p in _) = Some _ => destruct p end.

Lemma act_step_inv sid a g t g' t' : act_step sid a g t = Some (g', t') ->
  exists w, run_act sid a g t = Some (g', w) /\ t' = apply_write sid w t.
Proof.
  unfold Shader.act_step. destruct (run_act sid a g t) as [[g1 w]|]; [|discriminate]. rewrite bind_Some.
  intros E. exists w. injection E as <- <-. done.
Qed.

(** ** Moving actions past each other *)

Lemma set_half_comm v w A : set_half 0 v (set_half 1 w A) = set_half 1 w (set_half 0 v A).
Proof.
  unfold set_half. apply arr_ext. intros i Hi. rewrite !arr_total by done.
  destruct (Nat.leb_spec (1 * 32) i), (Nat.ltb_spec i (1 * 32 + 32)), (Nat.leb_spec (0 * 32) i), (Nat.ltb_spec i (0 * 32 + 32));
    cbn [andb]; done || lia.
Qed.

(** Writes of the two simdgroups that do not touch the same place. *)
Definition writes_apart (w0 w1 : write) : bool :=
  match w0, w1 with
  | W_carry _, W_carry _ => false
  | W_output _, W_output _ => false
  | _, _ => true
  end.

Lemma apply_write_comm w0 w1 t : writes_apart w0 w1 = true ->
  apply_write 0 w0 (apply_write 1 w1 t) = apply_write 1 w1 (apply_write 0 w0 t).
Proof.
  destruct w0, w1; try done; intros _; cbn [apply_write shared_A shared_B shared_sums shared_carry output_mask];
    first [by rewrite !set_half_comm | by rewrite list_insert_insert_ne | done].
Qed.

(** What an action of a simdgroup writes. *)
Definition writes_of (sid : nat) (a : act) (w : write) : Prop :=
  match a, w with
  | _, W_none => True
  | A_share _ _, W_share _ _ => True
  | A_scan _ _ _, W_carry _ => sid = 0%nat
  | A_reduce _ _, W_sum _ => True
  | A_output, W_output _ => sid = 0%nat
  | _, _ => False
  end.

Lemma run_act_writes sid a g t g' w : run_act sid a g t = Some (g', w) -> writes_of sid a w.
Proof.
  destruct a; unfold Shader.run_act; intros E; repeat next_bind E; apply Some_inj, (f_equal snd) in E; cbn [snd] in E; subst w.
  1-3, 5-6: exact I.
  all: cbn [writes_of]; destruct (Nat.eqb_spec sid 0) as [Hs|_]; [exact Hs|exact I].
Qed.

(** The registers and the write do not depend on the other simdgroup's write. *)
Lemma run_act_frame_0 a b w g t : conflict a b = false -> writes_of 1 b w ->
  run_act 0 a g (apply_write 1 w t) = run_act 0 a g t.
Proof. destruct a, b; try done; destruct w; try done. Qed.

Lemma run_act_frame_1 a b w g t : conflict a b = false -> writes_of 0 a w ->
  run_act 1 b g (apply_write 0 w t) = run_act 1 b g t.
Proof. destruct a, b; try done; destruct w; try done. Qed.

(** ** The result a configuration is bound to

    Simdgroup 0 finishes its segment, then simdgroup 1, and so on. *)

Definition run_seg (sid : nat) (s : list act) (gt : simdgroup * threadgroup) : option (simdgroup * threadgroup) :=
  mfold (fun a gt => act_step sid a gt.1 gt.2) s gt.

Fixpoint run_segs (ss : list (list act)) (st : simdgroup * simdgroup * threadgroup) : option (simdgroup * simdgroup * threadgroup) :=
  match ss with
  | [] => Some st
  | s :: ss => p ← run_seg 0 s (st.1.1, st.2); q ← run_seg 1 s (st.1.2, p.2); run_segs ss (p.1, q.1, q.2)
  end.

Definition bound_for (c : config) : option (simdgroup * simdgroup * threadgroup) :=
  p ← run_seg 0 (todo0 c) (group0 c, shared c);
  q ← run_seg 1 (todo1 c) (group1 c, p.2);
  run_segs (ahead c) (p.1, q.1, q.2).

Definition apart (s0 s1 : list act) : Prop := forall a b, a ∈ s0 -> b ∈ s1 -> conflict a b = false.

Definition compatible (c : config) : Prop := apart (todo0 c) (todo1 c) /\ Forall (fun s => apart s s) (ahead c).

Lemma run_act_apart a b w0 w1 : conflict a b = false -> writes_of 0 a w0 -> writes_of 1 b w1 -> writes_apart w0 w1 = true.
Proof. intros Hc H0 H1. destruct a, w0; try done; destruct b, w1; done. Qed.

Lemma act_step_push a b w g0 t : conflict a b = false -> writes_of 1 b w ->
  act_step 0 a g0 (apply_write 1 w t) = (fun p => (p.1, apply_write 1 w p.2)) <$> act_step 0 a g0 t.
Proof.
  intros Hc Hw. unfold Shader.act_step. rewrite (run_act_frame_0 a b w) by done.
  destruct (run_act 0 a g0 t) as [[g' w']|] eqn:E; [|done]. rewrite !bind_Some. cbn [fmap option_fmap option_map fst snd].
  rewrite apply_write_comm; [done|]. apply (run_act_apart a b); [done|by eapply run_act_writes|done].
Qed.

(** An action of simdgroup 1 does not disturb the segment of simdgroup 0, ... *)
Lemma run_seg_push s0 b w g0 t :
  (forall a, a ∈ s0 -> conflict a b = false) -> writes_of 1 b w ->
  run_seg 0 s0 (g0, apply_write 1 w t) = (fun p => (p.1, apply_write 1 w p.2)) <$> run_seg 0 s0 (g0, t).
Proof.
  intros Hc Hw. revert g0 t. unfold run_seg. induction s0 as [|a s0 IH]; intros g0 t; [done|].
  cbn [mfold fst snd]. rewrite (act_step_push a b) by (try done; apply Hc; by left).
  destruct (act_step 0 a g0 t) as [[g' t']|]; [|done]. cbn [fmap option_fmap option_map fst snd]. rewrite !bind_Some.
  apply IH. intros. apply Hc. by right.
Qed.

(** ... and what it does is the same before and after it. *)
Lemma run_seg_frame s0 b g0 g1 t g0' t0 :
  (forall a, a ∈ s0 -> conflict a b = false) -> run_seg 0 s0 (g0, t) = Some (g0', t0) ->
  run_act 1 b g1 t0 = run_act 1 b g1 t.
Proof.
  revert g0 t. induction s0 as [|a s0 IH]; intros g0 t Hc E; [apply Some_inj, (f_equal snd) in E; cbn [snd] in E; by subst t0|].
  unfold run_seg in E. cbn [mfold fst snd] in E.
  destruct (act_step 0 a g0 t) as [[g' t']|] eqn:Ea; [|discriminate E]. rewrite bind_Some in E.
  apply act_step_inv in Ea as (w' & Ea & ->).
  rewrite (IH _ _ (fun a Ha => Hc a (list_elem_of_further _ _ _ Ha)) E).
  apply (run_act_frame_1 a); [apply Hc; by left|by eapply run_act_writes].
Qed.

Lemma bound_step c c' : compatible c -> step c c' -> bound_for c' = bound_for c /\ compatible c'.
Proof.
  intros [Ha Hf] Hs. destruct Hs as [a s0 s1 ss g0 g1 t g0' t' E|b s0 s1 ss g0 g1 t g1' t' E|s ss g0 g1 t];
    cbn [todo0 todo1 ahead] in Ha, Hf; (split; [|split; cbn [todo0 todo1 ahead]; try done]).
  - unfold bound_for, run_seg. cbn [todo0 todo1 ahead group0 group1 shared mfold fst snd]. by rewrite E.
  - intros x y Hx. apply Ha. by right.
  - apply act_step_inv in E as (w & Eb & ->).
    unfold bound_for. cbn [todo0 todo1 ahead group0 group1 shared].
    assert (forall a, a ∈ s0 -> conflict a b = false) as Hc by (intros x Hx; apply Ha; [done|by left]).
    rewrite (run_seg_push s0 b w) by (try done; by eapply run_act_writes).
    destruct (run_seg 0 s0 (g0, t)) as [[g0' t0]|] eqn:E0; [|done].
    cbn [fmap option_fmap option_map fst snd]. rewrite !bind_Some. cbn [fst snd].
    assert (act_step 1 b g1 t0 = Some (g1', apply_write 1 w t0)) as E1
      by (unfold Shader.act_step; by rewrite (run_seg_frame s0 b _ _ _ _ _ Hc E0), Eb).
    unfold run_seg at 2. cbn [mfold fst snd]. by rewrite E1.
  - intros x y Hx Hy. apply Ha; [done|by right].
  - reflexivity.
  - by inversion Hf.
  - by inversion Hf.
Qed.

Lemma bound_steps c c' : compatible c -> rtc step c c' -> bound_for c' = bound_for c /\ compatible c'.
Proof.
  intros Hc Hs. induction Hs as [c|c c1 c2 H1 _ IH]; [done|].
  destruct (bound_step c c1 Hc H1) as [E H']. rewrite <- E. by apply IH.
Qed.

(** ** Every run ends *)

Definition size (c : config) : nat :=
  (length (todo0 c) + length (todo1 c) + foldr (fun s n => S (2 * length s) + n) 0 (ahead c))%nat.

Lemma size_step c c' : step c c' -> size c = S (size c').
Proof. intros H. destruct H; unfold size; cbn [todo0 todo1 ahead length foldr]; lia. Qed.

Lemma size_nsteps n c c' : nsteps step n c c' -> size c = (n + size c')%nat.
Proof. induction 1 as [|n c c1 c2 H _ IH]; [done|]. rewrite (size_step c c1 H). lia. Qed.

Lemma bound_progress c r : bound_for c = Some r -> finished c \/ exists c', step c c'.
Proof.
  destruct c as [[|a s0] [|b s1] [|s ss] g0 g1 t]; unfold bound_for, run_seg;
    cbn [todo0 todo1 ahead group0 group1 shared mfold fst snd]; intros E; [left; repeat split|right; eexists; apply step_barrier|..]; right.
  1-2: rewrite bind_Some in E; cbn [fst snd] in E; destruct (act_step 1 b g1 t) as [[g' t']|] eqn:Eb; [|discriminate E]; eexists; by apply step_1.
  all: destruct (act_step 0 a g0 t) as [[g' t']|] eqn:Ea; [|discriminate E]; eexists; by apply step_0.
Qed.

Lemma size_finished c : size c = 0%nat -> finished c.
Proof.
  destruct c as [[|a s0] [|b s1] [|s ss] g0 g1 t]; unfold size; cbn [todo0 todo1 ahead length foldr]; try lia. repeat split.
Qed.

(** ** The run in lockstep is one of them *)

Lemma lockstep_run p g0 g1 t r : lockstep p (g0, g1, t) = Some r ->
  rtc step (start p g0 g1 t) (mkConfig [] [] [] r.1.1 r.1.2 r.2).
Proof.
  revert g0 g1 t. unfold start. induction p as [|[a|] p IH]; intros g0 g1 t E; cbn [segments].
  - injection E as <-. apply rtc_refl.
  - cbn [Shader.lockstep] in E.
    destruct (act_step 0 a g0 t) as [[g0' t']|] eqn:E0; [|done]. rewrite bind_Some in E.
    destruct (act_step 1 a g1 t') as [[g1' t'']|] eqn:E1; [|done]. rewrite bind_Some in E.
    specialize (IH _ _ _ E). destruct (segments p) as [|s ss] eqn:Es; [by destruct p as [|[?|] ?]; cbn in Es; repeat case_match|].
    eapply rtc_l; [by apply step_0|]. eapply rtc_l; [by apply step_1|]. exact IH.
  - cbn [Shader.lockstep] in E. specialize (IH _ _ _ E).
    destruct (segments p) as [|s ss] eqn:Es; [by destruct p as [|[?|] ?]; cbn in Es; repeat case_match|].
    eapply rtc_l; [apply step_barrier|]. exact IH.
Qed.

Lemma race_free_start p g0 g1 t : race_free p = true -> compatible (start p g0 g1 t).
Proof.
  unfold race_free, start. rewrite forallb_forall. intros H.
  assert (Forall (fun s => apart s s) (segments p)) as Hf.
  { rewrite Forall_forall. intros s Hs a b Ha Hb. apply list_elem_of_In, H in Hs.
    rewrite forallb_forall in Hs. apply list_elem_of_In, Hs in Ha. rewrite forallb_forall in Ha.
    apply list_elem_of_In, Ha, negb_true_iff in Hb. done. }
  destruct (segments p) as [|s ss]; [split; [intros a b Ha; by apply not_elem_of_nil in Ha|constructor]|].
  inversion Hf; subst. split; assumption.
Qed.

(** What the run in lockstep computes is what the configuration is bound to. *)
Lemma lockstep_bound p g0 g1 t : race_free p = true -> lockstep p (g0, g1, t) = bound_for (start p g0 g1 t).
Proof.
  intros Hr. pose proof (race_free_start p g0 g1 t Hr) as Hc. clear Hr. revert g0 g1 t Hc.
  unfold start. induction p as [|[a|] p IH]; intros g0 g1 t Hc; cbn [segments Shader.lockstep] in *; [done|..];
    (destruct (segments p) as [|s ss] eqn:Es; [by destruct p as [|[?|] ?]; cbn in Es; repeat case_match|]).
  - destruct (act_step 0 a g0 t) as [[g0' t']|] eqn:E0.
    2:{ unfold bound_for, run_seg. cbn [todo0 group0 shared mfold fst snd]. by rewrite E0. }
    rewrite bind_Some. pose proof (step_0 columns block a s (a :: s) ss g0 g1 t g0' t' E0) as S0.
    destruct (bound_step _ _ Hc S0) as [<- Hc0].
    destruct (act_step 1 a g1 t') as [[g1' t'']|] eqn:E1.
    + rewrite bind_Some. pose proof (step_1 columns block a s s ss g0' g1 t' g1' t'' E1) as S1.
      destruct (bound_step _ _ Hc0 S1) as [<- Hc1]. by apply IH.
    + unfold bound_for. cbn [todo0 todo1 ahead group0 group1 shared].
      destruct (run_seg 0 s (g0', t')) as [[g0'' t0]|] eqn:Es0; [|done]. rewrite !bind_Some. cbn [fst snd].
      assert (act_step 1 a g1 t0 = None) as E1'.
      { unfold Shader.act_step in *. rewrite (run_seg_frame s a g0' g1 t' g0'' t0); [|intros x Hx; apply Hc0; [done|by left]|done].
        by destruct (run_act 1 a g1 t') as [[? ?]|]. }
      unfold run_seg. cbn [mfold fst snd]. by rewrite E1'.
  - pose proof (step_barrier columns block s ss g0 g1 t) as Sb. destruct (bound_step _ _ Hc Sb) as [<- Hcb]. by apply IH.
Qed.

(** A race-free program whose run in lockstep succeeds: no run gets stuck, and
    all complete ones agree. *)
Lemma race_free_runs p g0 g1 t r : race_free p = true -> lockstep p (g0, g1, t) = Some r ->
  forall c, rtc step (start p g0 g1 t) c ->
    (finished c \/ exists c', step c c') /\ (finished c -> group0 c = r.1.1 /\ group1 c = r.1.2 /\ shared c = r.2).
Proof.
  intros Hr El c Hc. rewrite lockstep_bound in El by done.
  destruct (bound_steps _ _ (race_free_start p g0 g1 t Hr) Hc) as [E _]. rewrite <- E in El.
  split; [by eapply bound_progress|]. destruct c as [s0 s1 ss h0 h1 u]. intros (H0 & H1 & H2).
  cbn [todo0 todo1 ahead] in *. subst. injection El as <-. done.
Qed.

(** A complete run shows that the run in lockstep succeeds, with its result. *)
Lemma finished_lockstep p g0 g1 t c : race_free p = true -> rtc step (start p g0 g1 t) c -> finished c ->
  lockstep p (g0, g1, t) = Some (group0 c, group1 c, shared c).
Proof.
  intros Hr Hc (H0 & H1 & H2). rewrite lockstep_bound by done.
  destruct (bound_steps _ _ (race_free_start p g0 g1 t Hr) Hc) as [<- _]. destruct c as [s0 s1 ss h0 h1 u]. cbn [todo0 todo1 ahead] in *. by subst.
Qed.

(** ** Chosen interleavings

    One move of the simdgroup [sid1] names, the barrier when neither has a move. *)
Definition move (sid1 : bool) (c : config) : option config :=
  match todo0 c, todo1 c, ahead c with
  | [], [], s :: ss => Some (mkConfig s s ss (group0 c) (group1 c) (shared c))
  | a :: s0, s1, ss =>
      if sid1 then
        match s1 with
        | b :: s1 => '(g1, t) ← act_step 1 b (group1 c) (shared c); Some (mkConfig (a :: s0) s1 ss (group0 c) g1 t)
        | [] => None
        end
      else '(g0, t) ← act_step 0 a (group0 c) (shared c); Some (mkConfig s0 s1 ss g0 (group1 c) t)
  | [], b :: s1, ss =>
      if sid1 then '(g1, t) ← act_step 1 b (group1 c) (shared c); Some (mkConfig [] s1 ss (group0 c) g1 t) else None
  | [], [], [] => None
  end.

Definition schedule (l : list bool) (c : config) : option config := mfold move l c.

Lemma move_step b c c' : move b c = Some c' -> step c c'.
Proof.
  destruct c as [[|a s0] [|a1 s1] [|s ss] g0 g1 t], b; unfold move; cbn [todo0 todo1 ahead group0 group1 shared];
    intros E; try discriminate E;
    try (injection E as <-; apply step_barrier);
    next_bind E; injection E as <-; by constructor.
Qed.

Lemma schedule_steps l c c' : schedule l c = Some c' -> rtc step c c'.
Proof.
  unfold schedule. revert c. induction l as [|b l IH]; intros c E; cbn [mfold] in E; [injection E as <-; apply rtc_refl|].
  destruct (move b c) as [c1|] eqn:Em; [|discriminate E]. rewrite bind_Some in E.
  eapply rtc_l; [by eapply move_step|by apply IH].
Qed.

End Interleaving.
