(* ===== verification/ShaderLanes.v ===== *)
(** * The Metal shader: what its statements compute

    The columns of 64 planes live one plane per thread.  The scan of an addition
    leaves the carries of the ripple adder, the comparison loop the masks of the
    ripple comparator (Planes.v), and the reduction the sum of the 64 rows. *)

From S2P Require Import Prelude Planes IR Aggregate Shader.

(** ** Vectors *)

Lemma lanes_total f i : (i < 32)%nat -> lanes f !!! i = f i.
Proof. apply arr_total. Qed.

Lemma lanes_ext f g : (forall i, (i < 32)%nat -> f i = g i) -> lanes f = lanes g.
Proof. apply arr_ext. Qed.

Lemma lanewise_lanes h f g : lanewise h (lanes f) (lanes g) = lanes (fun i => h (f i) (g i)).
Proof. apply lanes_ext. intros i Hi. by rewrite !lanes_total. Qed.

Lemma parts_join x : Z.lor (x mod 2 ^ 32) (Z.shiftl (Z.shiftr x 32) 32) = x.
Proof.
  apply Z.bits_inj'. intros i Hi. rewrite Z.lor_spec, Z.shiftl_spec by done.
  destruct (Z.lt_ge_cases i 32).
  - rewrite Z.mod_pow2_bits_low, (Z.testbit_neg_r _ (i - 32)), orb_false_r by lia. done.
  - rewrite Z.mod_pow2_bits_high, Z.shiftr_spec by lia. cbn [orb]. f_equal. lia.
Qed.

(** ** Shuffles *)

Section Scan.
Context {G : Gpu}.

Lemma of_parts_total x y i : (i < 32)%nat -> of_parts x y !!! i = Z.lor (x !!! i) (Z.shiftl (y !!! i) 32).
Proof. apply lanes_total. Qed.

Lemma shuffle_up_all v d i : (i < 32)%nat ->
  shuffle_up_64 all_active v d !!! i = if (i <? d)%nat then v !!! i else v !!! (i - d)%nat.
Proof.
  intros Hi. unfold shuffle_up_64. rewrite of_parts_total by done. unfold simd_shuffle_up, all_active.
  rewrite !(lanes_total _ i) by done. destruct (i <? d)%nat; unfold parts_x, parts_y; rewrite !lanes_total by lia; apply parts_join.
Qed.

Lemma shuffle_down_total v d i : (i < 32)%nat ->
  shuffle_down_64 v d !!! i = if (i + d <? 32)%nat then v !!! (i + d)%nat else v !!! i.
Proof.
  intros Hi. unfold shuffle_down_64. rewrite of_parts_total by done. unfold simd_shuffle_down.
  rewrite !(lanes_total _ i) by done.
  destruct (Nat.ltb_spec (i + d) 32); unfold parts_x, parts_y; rewrite !lanes_total by lia; apply parts_join.
Qed.

(** What a lane sees of the 64-bit register [x] of an inactive lane. *)
Definition seen (x : Z) : Z := Z.lor (inactive_lane (x mod 2 ^ 32)) (Z.shiftl (inactive_lane (Z.shiftr x 32)) 32).

Lemma seen_u64 x : u64 x -> u64 (seen x).
Proof.
  intros Hx. pose proof (inactive_u32 (x mod 2 ^ 32) ltac:(apply Z.mod_pos_bound; lia)) as H0.
  assert (0 <= Z.shiftr x 32 < 2 ^ 32) as Hs.
  { unfold u64 in Hx. rewrite Z.shiftr_div_pow2 by lia. split; [apply Z.div_pos; lia|]. apply Z.div_lt_upper_bound; lia. }
  pose proof (inactive_u32 _ Hs) as H1. apply u64_lor; unfold u64; [lia|]. rewrite Z.shiftl_mul_pow2 by lia. lia.
Qed.

(** Where inactive lanes keep their registers, that is [x]. *)
Lemma seen_kept x : (forall y, inactive_lane y = y) -> seen x = x.
Proof. intros H. unfold seen. rewrite !H. apply parts_join. Qed.

(** The shuffle in a branch that lane 0 does not take. *)
Lemma shuffle_up_branch v i : (0 < i < 32)%nat ->
  shuffle_up_64 (fun i => negb (i =? 0)%nat) v 1 !!! i = if (i =? 1)%nat then seen (v !!! 0%nat) else v !!! (i - 1)%nat.
Proof.
  intros Hi. unfold shuffle_up_64. rewrite of_parts_total by lia. unfold simd_shuffle_up. rewrite !(lanes_total _ i) by lia.
  rewrite (proj2 (Nat.ltb_ge i 1)) by lia. destruct (Nat.eqb_spec i 1) as [->|Hne].
  - cbn [Nat.sub Nat.eqb negb]. unfold parts_x, parts_y. by rewrite !lanes_total by lia.
  - rewrite (proj2 (Nat.eqb_neq (i - 1) 0)) by lia. cbn [negb]. unfold parts_x, parts_y. rewrite !lanes_total by lia. apply parts_join.
Qed.

(** ** The parallel prefix

    [C] are the carries the generate and propagate words describe; after the
    round with [delta], a lane accounts for the [2 * delta] lanes up to it. *)
Definition scanned (C : nat -> Z) (w : nat) (gp : vector * vector) : Prop :=
  forall i, (i < 32)%nat -> C (S i) = Z.lor (gp.1 !!! i) (Z.land (gp.2 !!! i) (C (S i - w)%nat)).

Lemma scan_round_step C d gp : (0 < d)%nat -> scanned C d gp -> scanned C (d + d) (scan_round gp d).
Proof.
  intros Hd H i Hi. destruct gp as [g p]. unfold scan_round. cbn [fst snd]. rewrite !lanes_total, !shuffle_up_all by done.
  rewrite (H i Hi). cbn [fst snd]. destruct (Nat.leb_spec d i) as [Hle|Hlt].
  - rewrite (proj2 (Nat.ltb_ge i d)) by done. replace (S i - d)%nat with (S (i - d)) by lia.
    rewrite (H (i - d)%nat) by lia. cbn [fst snd]. replace (S (i - d) - d)%nat with (S i - (d + d))%nat by lia.
    rewrite Z.land_lor_distr_r, Z.lor_assoc, Z.land_assoc. done.
  - replace (S i - d)%nat with 0%nat by lia. by replace (S i - (d + d))%nat with 0%nat by lia.
Qed.

Lemma kogge_stone_correct C g p : scanned C 1 (g, p) -> scanned C 32 (kogge_stone_scan g p).
Proof. intros H. unfold kogge_stone_scan. cbn [foldl]. do 4 (apply (scan_round_step C) in H; [|lia]). by apply (scan_round_step C 16) in H; [|lia]. Qed.

(** ** The reduction *)

(** The first [w] lanes hold the partial sums of the residues modulo [w]. *)
Lemma reduce_step d (s : nat -> Z) v :
  (d + d <= 32)%nat -> (forall i, (i < d + d)%nat -> v !!! i = wrap64 (s i)) ->
  forall i, (i < d)%nat ->
    lanewise (fun x y => wrap64 (x + y)) v (shuffle_down_64 v d) !!! i = wrap64 (s i + s (d + i)%nat).
Proof.
  intros Hd Hv i Hi. unfold lanewise. rewrite lanes_total, shuffle_down_total by lia.
  rewrite (proj2 (Nat.ltb_lt _ _)), !Hv by lia.
  rewrite wrap64_idemp_add_l, wrap64_idemp_add_r. by rewrite (Nat.add_comm i d).
Qed.

Lemma zsum_fold d f : zsum d (fun i => f i + f (d + i)%nat) = zsum (d + d) f.
Proof. by rewrite zsum_split, zsum_add. Qed.

Lemma reduce_lanes_sum s : reduce_lanes (lanes (fun i => wrap64 (s i))) !!! 0%nat = wrap64 (zsum 32 s).
Proof.
  unfold reduce_lanes. cbn [foldl].
  set (v0 := lanes _). assert (forall i, (i < 16 + 16)%nat -> v0 !!! i = wrap64 (s i)) as H0 by (intros; by apply lanes_total).
  pose proof (reduce_step 16 _ _ ltac:(lia) H0) as H1. pose proof (reduce_step 8 _ _ ltac:(lia) H1) as H2.
  pose proof (reduce_step 4 _ _ ltac:(lia) H2) as H3. pose proof (reduce_step 2 _ _ ltac:(lia) H3) as H4.
  pose proof (reduce_step 1 _ _ ltac:(lia) H4 0%nat ltac:(lia)) as H5. rewrite H5. f_equal.
  rewrite <- (zsum_fold 16 s : _ = zsum 32 s), <- (zsum_fold 8 _ : _ = zsum 16 _), <- (zsum_fold 4 _ : _ = zsum 8 _),
    <- (zsum_fold 2 _ : _ = zsum 4 _), <- (zsum_fold 1 _ : _ = zsum 2 _). cbn [zsum]. done.
Qed.
End Scan.

(** ** Slots of the two simdgroups *)

(** The part of a column of 64 words that simdgroup [sid] holds. *)
Definition vec (sid : nat) (V : nat -> Z) : vector := lanes (fun i => V (sid * 32 + i)%nat).

Lemma vec_total sid V i : (i < 32)%nat -> vec sid V !!! i = V (sid * 32 + i)%nat.
Proof. intros Hi. by apply (lanes_total (fun i => V (sid * 32 + i)%nat)). Qed.

Lemma vec_ext sid V W : (sid < 2)%nat -> (forall k, (k < 64)%nat -> V k = W k) -> vec sid V = vec sid W.
Proof. intros Hs H. apply lanes_ext. intros i Hi. apply H. lia. Qed.

Definition pair_state : Type := simdgroup * simdgroup * threadgroup.

(** Slot [k] holds the column [V], a word in each of the 64 threads. *)
Definition holds (st : pair_state) (k : Z) (V : nat -> Z) : Prop :=
  slot_at (scratchpad st.1.1) k = Some (vec 0 V) /\ slot_at (scratchpad st.1.2) k = Some (vec 1 V).

Definition has_slot (st : pair_state) (k : Z) : Prop :=
  is_Some (slot_at (scratchpad st.1.1) k) /\ is_Some (slot_at (scratchpad st.1.2) k).

(** [st'] is [st] but for slot [dst], which holds [V]. *)
Definition wrote (st st' : pair_state) (dst : Z) (V : nat -> Z) : Prop :=
  holds st' dst V /\
  forall j, j <> dst -> slot_at (scratchpad st'.1.1) j = slot_at (scratchpad st.1.1) j /\
                        slot_at (scratchpad st'.1.2) j = slot_at (scratchpad st.1.2) j.

Lemma holds_ext st k V W : (forall i, (i < 64)%nat -> V i = W i) -> holds st k V -> holds st k W.
Proof. intros H [H0 H1]. split; [rewrite H0|rewrite H1]; f_equal; apply vec_ext; done || lia. Qed.

Lemma holds_agree st k V W b : holds st k V -> holds st k W -> (b < 64)%nat -> V b = W b.
Proof.
  intros [V0 V1] [W0 W1] Hb. rewrite V0 in W0. rewrite V1 in W1. apply (inj Some) in W0 as E0, W1 as E1.
  destruct (Nat.lt_ge_cases b 32) as [Hlt|Hge].
  - pose proof (vec_total 0 V b Hlt) as HV. pose proof (vec_total 0 W b Hlt) as HW. rewrite E0, HW in HV. symmetry. exact HV.
  - pose proof (vec_total 1 V (b - 32) ltac:(lia)) as HV. pose proof (vec_total 1 W (b - 32) ltac:(lia)) as HW.
    rewrite E1, HW in HV. by replace (1 * 32 + (b - 32))%nat with b in HV by lia.
Qed.

Lemma wrote_holds st st' dst V k W : wrote st st' dst V -> k <> dst -> holds st k W -> holds st' k W.
Proof. intros [_ Hf] Hk [H0 H1]. destruct (Hf k Hk) as [E0 E1]. split; [by rewrite E0|by rewrite E1]. Qed.

Lemma wrote_slot st st' dst V k : wrote st st' dst V -> has_slot st k -> has_slot st' k.
Proof.
  intros [[H0 H1] Hf] [S0 S1]. destruct (decide (k = dst)) as [->|Hk]; [split; by eexists|].
  destruct (Hf k Hk) as [E0 E1]. split; [by rewrite E0|by rewrite E1].
Qed.

Lemma set_slot_ok k v g : is_Some (slot_at (scratchpad g) k) ->
  exists g', set_slot k v g = Some g' /\ slot_at (scratchpad g') k = Some v /\
    forall j, j <> k -> slot_at (scratchpad g') j = slot_at (scratchpad g) j.
Proof.
  intros [w Hw]. unfold set_slot. rewrite Hw, bind_Some. eexists. split; [reflexivity|]. cbn [scratchpad].
  unfold slot_at in *. destruct (Z.leb_spec 0 k) as [Hk|]; [|discriminate Hw].
  pose proof (lookup_lt_Some _ _ _ Hw). split; [by apply list_lookup_insert_eq|].
  intros j Hj. destruct (Z.leb_spec 0 j); [|done]. apply list_lookup_insert_ne. lia.
Qed.

(** What both simdgroups write into their own part of a slot. *)
Lemma set_slots g0 g1 t dst V : has_slot (g0, g1, t) dst ->
  exists g0' g1', set_slot dst (vec 0 V) g0 = Some g0' /\ set_slot dst (vec 1 V) g1 = Some g1' /\
    forall t', wrote (g0, g1, t) (g0', g1', t') dst V.
Proof.
  intros [H0 H1]. cbn [fst snd] in *.
  destruct (set_slot_ok dst (vec 0 V) g0 H0) as (g0' & E0 & V0 & F0).
  destruct (set_slot_ok dst (vec 1 V) g1 H1) as (g1' & E1 & V1 & F1).
  exists g0', g1'. split_and!; [done|done|]. intros t'. split; [by split|]. intros j Hj. cbn [fst snd]. auto.
Qed.

(** ** Statements *)

Section Statements.
Context {G : Gpu} (columns : list Z) (block : Z).

Abbreviation act_step := (act_step columns block).
Abbreviation run_act := (run_act columns block).
Abbreviation lockstep := (lockstep columns block).

(** Statement [s] leaves the column [V] in slot [dst]. *)
Definition computes (s : stmt) (st : pair_state) (dst : Z) (V : nat -> Z) : Prop :=
  exists st', lockstep (stmt_acts s) st = Some st' /\ wrote st st' dst V /\ length (shared_sums st'.2) = length (shared_sums st.2).

Lemma computes_ext s st dst V W : (forall i, (i < 64)%nat -> V i = W i) -> computes s st dst V -> computes s st dst W.
Proof using. intros H (st' & E & [Hh Hf] & Hl). exists st'. split_and!; [done|split; [by eapply holds_ext|done]|done]. Qed.

Lemma local_computes s st dst V :
  stmt_acts s = [Some (A_local s)] -> has_slot st dst ->
  local_value columns block 0 (scratchpad st.1.1) s = Some (dst, vec 0 V) ->
  local_value columns block 1 (scratchpad st.1.2) s = Some (dst, vec 1 V) ->
  computes s st dst V.
Proof using.
  intros Hs Hd E0 E1. destruct st as [[g0 g1] t]. cbn [fst snd] in *.
  destruct (set_slots g0 g1 t dst V Hd) as (g0' & g1' & W0 & W1 & Hw).
  exists (g0', g1', t). split_and!; [|apply Hw|done]. rewrite Hs. cbn [Shader.lockstep].
  unfold Shader.act_step, Shader.run_act. by rewrite E0, E1, !bind_Some, W0, W1, !bind_Some.
Qed.

Lemma const_computes st dst v : has_slot st dst ->
  computes (S_const dst v) st dst (fun b => if Z.testbit (wrap64 v) (Z.of_nat b) then ones64 else 0).
Proof using. intros Hd. by apply local_computes. Qed.

Lemma load_computes st dst nf f V : has_slot st dst ->
  (forall b, (b < 64)%nat -> columns !! Z.to_nat (column_index block nf f b) = Some (V b)) ->
  computes (S_load dst nf f) st dst V.
Proof using.
  intros Hd HV. assert (forall sid, (sid < 2)%nat -> load_lanes columns block sid nf f = Some (vec sid V)) as H.
  { intros sid Hs. unfold load_lanes, vec, lanes, arr. apply mapM_Some_2.
    rewrite Forall2_fmap_r. apply Forall_Forall2_diag. rewrite Forall_forall. intros i Hi%elem_of_seq. apply HV. lia. }
  apply local_computes; [done|done|..]; cbn [local_value]; by rewrite H by lia.
Qed.

Lemma binary_computes (h : Z -> Z -> Z) (s : stmt) st dst l r A B :
  stmt_acts s = [Some (A_local s)] ->
  (forall sid sp, local_value columns block sid sp s = (a ← slot_at sp l; b ← slot_at sp r; Some (dst, lanewise h a b))) ->
  has_slot st dst -> holds st l A -> holds st r B -> computes s st dst (fun k => h (A k) (B k)).
Proof using.
  intros Hs Hv Hd [A0 A1] [B0 B1]. apply local_computes; [done|done|..]; rewrite Hv.
  - rewrite A0, B0, !bind_Some. unfold vec. by rewrite lanewise_lanes.
  - rewrite A1, B1, !bind_Some. unfold vec. by rewrite lanewise_lanes.
Qed.

Lemma not_computes st dst l A : has_slot st dst -> holds st l A -> computes (S_not dst l) st dst (fun k => lnot64 (A k)).
Proof using.
  intros Hd [A0 A1]. apply local_computes; [done|done|..]; cbn [local_value].
  - rewrite A0, bind_Some. apply (f_equal (fun v => Some (dst, v))), lanes_ext. intros i Hi. by rewrite vec_total.
  - rewrite A1, bind_Some. apply (f_equal (fun v => Some (dst, v))), lanes_ext. intros i Hi. by rewrite vec_total.
Qed.

Lemma select_computes st dst c l r M A B : has_slot st dst -> holds st c M -> holds st l A -> holds st r B ->
  computes (S_select dst c l r) st dst (fun k => Z.lor (Z.land (M k) (A k)) (Z.land (lnot64 (M k)) (B k))).
Proof using.
  intros Hd [M0 M1] [A0 A1] [B0 B1]. apply local_computes; [done|done|..]; cbn [local_value].
  - rewrite M0, A0, B0, !bind_Some. apply (f_equal (fun v => Some (dst, v))), lanes_ext. intros i Hi. by rewrite !vec_total.
  - rewrite M1, A1, B1, !bind_Some. apply (f_equal (fun v => Some (dst, v))), lanes_ext. intros i Hi. by rewrite !vec_total.
Qed.

(** ** Comparisons *)

Lemma set_halves A X : set_half 1 (vec 1 A) (set_half 0 (vec 0 A) X) = arr 64 A.
Proof using.
  unfold set_half. apply arr_ext. intros i Hi.
  destruct (Nat.leb_spec (1 * 32) i), (Nat.ltb_spec i (1 * 32 + 32)); cbn [andb]; try lia.
  - rewrite vec_total by lia. f_equal. lia.
  - rewrite arr_total by done. destruct (Nat.leb_spec (0 * 32) i), (Nat.ltb_spec i (0 * 32 + 32)); cbn [andb]; try lia.
    rewrite vec_total by lia. f_equal. lia.
Qed.

Lemma land_lnot_r x a b : u64 x -> u64 a -> u64 b -> Z.land (Z.land x a) (lnot64 b) = Z.land x (Z.ldiff a b).
Proof using.
  intros. apply u64_eq_bits; [eauto with u64|eauto with u64|]. intros i Hi.
  rewrite !Z.land_spec, Z.ldiff_spec, lnot64_bits by done. by rewrite andb_assoc.
Qed.

Lemma land_lnot x a : u64 x -> u64 a -> Z.land x (lnot64 a) = Z.ldiff x a.
Proof using. intros. apply u64_eq_bits; [eauto with u64|eauto with u64|]. intros i Hi. by rewrite Z.land_spec, Z.ldiff_spec, lnot64_bits. Qed.

Lemma col_eq_comm A B k : col_eq A B k = col_eq B A k.
Proof using. apply mask64_ext. intros. apply Z.eqb_sym. Qed.

(** The two columns of the comparator: the larger side first. *)
Definition cmp_left (op : cmpop) (A B : nat -> Z) : nat -> Z := match op with C_LT | C_LE => B | _ => A end.
Definition cmp_right (op : cmpop) (A B : nat -> Z) : nat -> Z := match op with C_LT | C_LE => A | _ => B end.
Definition cmp_first (op : cmpop) (A B : nat -> Z) (k : nat) : Z :=
  match op with C_EQ => 0 | _ => col_gt (cmp_left op A B) (cmp_right op A B) k end.

Lemma cmp_round_step op A B k : (k < 64)%nat -> (forall b, (b < 64)%nat -> u64 (A b)) -> (forall b, (b < 64)%nat -> u64 (B b)) ->
  cmp_round op (arr 64 A) (arr 64 B) (cmp_first op A B (S k), col_eq A B (S k)) k = (cmp_first op A B k, col_eq A B k).
Proof using.
  intros Hk HA HB. unfold cmp_round. rewrite !arr_total by done. f_equal.
  - destruct op; cbn [cmp_first cmp_left cmp_right]; [..|done].
    1, 3: rewrite land_lnot_r by eauto with u64; by rewrite <- (col_gt_step A B k) by auto.
    all: rewrite <- Z.land_assoc, (Z.land_comm (lnot64 _)), Z.land_assoc, land_lnot_r, (col_eq_comm A B) by eauto with u64;
      by rewrite <- (col_gt_step B A k) by auto.
  - rewrite land_lnot by eauto with u64. by apply col_eq_step; auto.
Qed.

Lemma cmp_rounds op A B n : (n <= 64)%nat -> (forall b, (b < 64)%nat -> u64 (A b)) -> (forall b, (b < 64)%nat -> u64 (B b)) ->
  foldl (cmp_round op (arr 64 A) (arr 64 B)) (cmp_first op A B n, col_eq A B n) (rev (seq 0 n)) = (cmp_first op A B 0, col_eq A B 0).
Proof using.
  intros Hn HA HB. induction n as [|n IH]; [done|].
  rewrite seq_S, rev_unit. cbn [foldl Nat.add]. rewrite cmp_round_step by (done || lia). apply IH. lia.
Qed.

(** The mask of the rows whose values compare. *)
Lemma cmp_result_mask op A B : (forall b, (b < 64)%nat -> u64 (A b)) -> (forall b, (b < 64)%nat -> u64 (B b)) ->
  cmp_result op (arr 64 A) (arr 64 B) = mask64 (fun r => cmp_eval op (row_value A r) (row_value B r)).
Proof using.
  intros HA HB. unfold cmp_result. pose proof (cmp_rounds op A B 64 ltac:(lia) HA HB) as H.
  replace (cmp_first op A B 64) with 0 in H by (destruct op; cbn [cmp_first]; by rewrite ?col_gt_64).
  rewrite col_eq_64 in H. rewrite H.
  assert (forall A B, Z.lor (col_gt A B 0) (col_eq A B 0) = mask64 (fun r => row_value B r <=? row_value A r)) as Hor.
  { intros A' B'. apply u64_eq_nbits; [eauto with u64|apply mask64_u64|]. intros r Hr.
    rewrite Z.lor_spec, col_gt_bit, col_eq_bit, mask64_bit by done. rewrite gt_from_0, eq_from_0.
    generalize (row_value A' r) (row_value B' r). intros x y.
    destruct (Z.ltb_spec y x), (Z.eqb_spec x y), (Z.leb_spec y x); reflexivity || lia. }
  destruct op; cbn [cmp_first cmp_left cmp_right cmp_eval]; try apply col_gt_0; try apply col_eq_0.
  - apply Hor.
  - rewrite col_eq_comm. apply Hor.
Qed.

Lemma cmp_computes op st dst l r A B : has_slot st dst -> holds st l A -> holds st r B ->
  (forall b, (b < 64)%nat -> u64 (A b)) -> (forall b, (b < 64)%nat -> u64 (B b)) ->
  computes (S_cmp op dst l r) st dst (fun _ => mask64 (fun r => cmp_eval op (row_value A r) (row_value B r))).
Proof using.
  intros Hd [A0 A1] [B0 B1] HA HB. destruct st as [[g0 g1] t]. cbn [fst snd] in *.
  set (m := mask64 _). destruct (set_slots g0 g1 t dst (fun _ => m) Hd) as (g0' & g1' & W0 & W1 & Hw).
  set (t' := mkShared (arr 64 A) (arr 64 B) (shared_sums t) (shared_carry t) (output_mask t)).
  exists (g0', g1', t'). split_and!; [|apply Hw|done].
  cbn [stmt_acts Shader.lockstep]. unfold Shader.act_step, Shader.run_act.
  rewrite A0, B0, !bind_Some, A1, B1, !bind_Some. cbn [apply_write shared_A shared_B shared_sums shared_carry output_mask].
  rewrite !set_halves. fold t'. change (shared_A t') with (arr 64 A). change (shared_B t') with (arr 64 B).
  rewrite !cmp_result_mask by done. fold m. change (lanes (fun _ => m)) with (vec 0 (fun _ => m)) at 1.
  rewrite W0, !bind_Some. cbn [apply_write]. change (shared_A t') with (arr 64 A). change (shared_B t') with (arr 64 B).
  rewrite !cmp_result_mask by done. fold m. change (lanes (fun _ => m)) with (vec 1 (fun _ => m)).
  by rewrite W1, !bind_Some.
Qed.

(** ** Additions *)

(** The second operand as the adder sees it, the carries, and the planes of the result: the word
    that enters bit 0 is 1 for a subtraction, the carry of row 0 alone, and
    lane 1 of each simdgroup takes its carry from an inactive lane. *)
Definition addend (sub : bool) (B : nat -> Z) (k : nat) : Z := if sub then lnot64 (B k) else B k.
Definition carries (sub : bool) (A B : nat -> Z) : nat -> Z := col_carry A (addend sub B) (fun _ => sub).
Definition lane_carry (i : nat) (x : Z) : Z := if (i =? 1)%nat then seen x else x.
Definition sum_planes (sub : bool) (A B : nat -> Z) (k : nat) : Z :=
  Z.lxor (Z.lxor (A k) (addend sub B k)) (if (k =? 0)%nat then Z.b2z sub else lane_carry (k mod 32) (carries sub A B k)).

Section Add.
Variables (sub : bool) (A B : nat -> Z).
Hypothesis HA : forall b, (b < 64)%nat -> u64 (A b).
Hypothesis HB : forall b, (b < 64)%nat -> u64 (B b).

Abbreviation C := (carries sub A B).

Lemma addend_u64 b : (b < 64)%nat -> u64 (addend sub B b).
Proof using HB. clear HA. intros Hb. unfold addend. destruct sub; [by apply u64_lnot64, HB|by apply HB]. Qed.

Lemma carries_step k : (k < 64)%nat -> Z.lor (Z.land (A k) (addend sub B k)) (Z.land (Z.lxor (A k) (addend sub B k)) (C k)) = C (S k).
Proof using HA HB. intros Hk. apply col_carry_step; [done|by apply HA|by apply addend_u64]. Qed.

Lemma carries_0 : C 0 = if sub then ones64 else 0.
Proof using. clear HA HB. unfold carries. rewrite col_carry_0. destruct sub; [apply mask64_true|apply mask64_false]. Qed.

Lemma operand_vec sid : operand sub (vec sid B) = vec sid (addend sub B).
Proof using.
  clear HA HB. unfold operand, vec, addend. destruct sub; [|done]. apply lanes_ext. intros i Hi. by rewrite lanes_total.
Qed.

(** The carries each simdgroup starts from: its own half, with no carry into the lower one. *)
Definition group_carry (sid k : nat) : Z := if ((sid =? 0) && (k =? 0))%nat then 0 else C (sid * 32 + k).

Lemma scan_inputs_vec sid : scan_inputs sub sid (vec sid A) (vec sid B) =
  (lanes (fun i => let k := (sid * 32 + i)%nat in
     if sub && (k =? 0)%nat then Z.lor (Z.land (A k) (addend sub B k)) (Z.lxor (A k) (addend sub B k)) else Z.land (A k) (addend sub B k)),
   lanes (fun i => let k := (sid * 32 + i)%nat in Z.lxor (A k) (addend sub B k))).
Proof using.
  clear HA HB. unfold scan_inputs. rewrite operand_vec. unfold vec. rewrite !lanewise_lanes. f_equal.
  destruct (sub && (sid =? 0)%nat) eqn:E.
  - apply andb_true_iff in E as [-> ->%Nat.eqb_eq]. rewrite !lanes_total by lia. unfold lanes. rewrite arr_insert by lia.
    apply arr_ext. intros i Hi. cbv zeta. cbn [andb Nat.mul Nat.add]. destruct (decide (i = 0%nat)) as [->|Hne]; [done|].
    by rewrite (proj2 (Nat.eqb_neq _ _)).
  - apply lanes_ext. intros i Hi. cbv zeta. destruct sub; [|done]. cbn [andb] in *. apply Nat.eqb_neq in E.
    by rewrite (proj2 (Nat.eqb_neq _ _)) by lia.
Qed.

Lemma scan_inputs_scanned sid : (sid < 2)%nat -> scanned (group_carry sid) 1 (scan_inputs sub sid (vec sid A) (vec sid B)).
Proof using HA HB.
  intros Hs i Hi. rewrite scan_inputs_vec. cbn [fst snd]. rewrite !lanes_total by done. cbv zeta.
  replace (S i - 1)%nat with i by lia. unfold group_carry. rewrite Nat.add_succ_r.
  replace ((sid =? 0) && (S i =? 0))%nat with false by (by rewrite andb_false_r).
  rewrite <- carries_step by lia. set (k := (sid * 32 + i)%nat).
  assert (u64 (Z.lxor (A k) (addend sub B k))) as Hp by (apply u64_lxor; [apply HA|apply addend_u64]; lia).
  replace ((sid =? 0) && (i =? 0))%nat with (k =? 0)%nat.
  2:{ subst k. destruct (Nat.eqb_spec sid 0), (Nat.eqb_spec i 0), (Nat.eqb_spec (sid * 32 + i) 0); done || lia. }
  destruct (Nat.eqb_spec k 0) as [Hk|Hk]; [|by rewrite andb_false_r].
  rewrite Hk, carries_0, Z.land_0_r, Z.lor_0_r in *. destruct sub; cbn [andb]; [|by rewrite Z.land_0_r, Z.lor_0_r].
  f_equal. apply u64_eq_bits; [eauto with u64|done|]. intros b Hb. rewrite Z.land_spec, ones64_bits by lia.
  rewrite (proj2 (Z.ltb_lt b 64)) by lia. by rewrite andb_true_r.
Qed.

(** After the scan, lane [i] of simdgroup 0 has the carry out of bit [i]; in
    simdgroup 1 the carry into bit 32 is still to come. *)
Lemma scan_0 i : (i < 32)%nat ->
  (kogge_stone_scan (scan_inputs sub 0 (vec 0 A) (vec 0 B)).1 (scan_inputs sub 0 (vec 0 A) (vec 0 B)).2).1 !!! i = C (S i).
Proof using HA HB.
  intros Hi. pose proof (scan_inputs_scanned 0 ltac:(lia)) as H. destruct (scan_inputs sub 0 _ _) as [g p].
  apply kogge_stone_correct in H. specialize (H i Hi). replace (S i - 32)%nat with 0%nat in H by lia.
  unfold group_carry in H. cbn [Nat.eqb andb] in H. by rewrite Z.land_0_r, Z.lor_0_r in H.
Qed.

Lemma scan_1 i : (i < 32)%nat ->
  let s := kogge_stone_scan (scan_inputs sub 1 (vec 1 A) (vec 1 B)).1 (scan_inputs sub 1 (vec 1 A) (vec 1 B)).2 in
  Z.lor (s.1 !!! i) (Z.land (C 32) (s.2 !!! i)) = C (32 + S i).
Proof using HA HB.
  intros Hi. pose proof (scan_inputs_scanned 1 ltac:(lia)) as H. destruct (scan_inputs sub 1 _ _) as [g p].
  apply kogge_stone_correct in H. specialize (H i Hi). replace (S i - 32)%nat with 0%nat in H by lia.
  unfold group_carry in H. cbn [fst snd]. rewrite Z.land_comm. symmetry. exact H.
Qed.

End Add.

Lemma carry_in_total sub sid carry g i : (i < 32)%nat ->
  carry_in sub sid carry g !!! i =
    if (i =? 0)%nat then (if (sid =? 0)%nat then Z.b2z sub else carry) else lane_carry i (g !!! (i - 1)%nat).
Proof using.
  intros Hi. unfold carry_in. rewrite lanes_total by done. destruct (Nat.eqb_spec i 0) as [->|Hne]; [by destruct sub|].
  rewrite shuffle_up_branch by lia. unfold lane_carry. destruct (Nat.eqb_spec i 1) as [->|]; done.
Qed.

Lemma sum_planes_u64 sub A B b : (forall b, (b < 64)%nat -> u64 (A b)) -> (forall b, (b < 64)%nat -> u64 (B b)) -> (b < 64)%nat ->
  u64 (sum_planes sub A B b).
Proof using.
  intros HA HB Hb. unfold sum_planes. apply u64_lxor; [apply u64_lxor; [by apply HA|by apply addend_u64]|].
  destruct (b =? 0)%nat; [apply u64_b2z|]. unfold lane_carry. destruct (b mod 32 =? 1)%nat; [apply seen_u64|]; apply mask64_u64.
Qed.

(** Where inactive lanes keep their registers. *)
Lemma sum_planes_kept sub A B k : (forall x, inactive_lane x = x) ->
  sum_planes sub A B k = Z.lxor (Z.lxor (A k) (addend sub B k)) (if (k =? 0)%nat then Z.b2z sub else carries sub A B k).
Proof using. intros Hin. unfold sum_planes, lane_carry. rewrite seen_kept by done. by destruct (k =? 0)%nat, (k mod 32 =? 1)%nat. Qed.

Lemma add_lockstep sub dst l r st A B : has_slot st dst -> holds st l A -> holds st r B ->
  (forall b, (b < 64)%nat -> u64 (A b)) -> (forall b, (b < 64)%nat -> u64 (B b)) ->
  exists st', lockstep [Some (A_scan sub l r); None; Some (A_sum sub dst l r)] st = Some st' /\ wrote st st' dst (sum_planes sub A B) /\ length (shared_sums st'.2) = length (shared_sums st.2).
Proof using.
  intros Hd [A0 A1] [B0 B1] HA HB. destruct st as [[g0 g1] t]. cbn [fst snd] in *.
  pose proof (scan_0 sub A B HA HB) as S0. pose proof (scan_1 sub A B HA HB) as S1. cbv zeta in S1.
  destruct (scan_inputs sub 0 (vec 0 A) (vec 0 B)) as [x0 y0] eqn:I0. destruct (scan_inputs sub 1 (vec 1 A) (vec 1 B)) as [x1 y1] eqn:I1.
  cbn [fst snd] in S0, S1.
  destruct (kogge_stone_scan x0 y0) as [cg0 cp0] eqn:K0. destruct (kogge_stone_scan x1 y1) as [cg1 cp1] eqn:K1. cbn [fst snd] in S0, S1.
  set (t' := mkShared (shared_A t) (shared_B t) (shared_sums t) (carries sub A B 32) (output_mask t)).
  set (cg1' := lanewise (fun x y => Z.lor x (Z.land (carries sub A B 32) y)) cg1 cp1).
  destruct (set_slots (mkSimd (scratchpad g0) cg0 cp0) (mkSimd (scratchpad g1) cg1' cp1) t dst (sum_planes sub A B) Hd)
    as (g0' & g1' & W0 & W1 & Hw).
  exists (g0', g1', t'). split_and!; [|exact (Hw t')|done].
  cbn [Shader.lockstep]. unfold Shader.act_step, Shader.run_act.
  rewrite A0, B0, !bind_Some, A1, B1, !bind_Some, I0, I1, K0, K1, !bind_Some.
  change (0 =? 0)%nat with true. change (1 =? 0)%nat with false. change (0 =? 1)%nat with false. change (1 =? 1)%nat with true.
  cbv iota. cbn [apply_write scratchpad cur_g cur_p shared_carry].
  rewrite (S0 31%nat) by lia. fold t'. change (shared_carry t') with (carries sub A B 32).
  rewrite A0, B0, !bind_Some, operand_vec.
  assert (forall sid cg, (sid < 2)%nat -> (forall i, (i < 31)%nat -> cg !!! i = carries sub A B (sid * 32 + S i)) ->
    lanewise Z.lxor (lanewise Z.lxor (vec sid A) (vec sid (addend sub B))) (carry_in sub sid (carries sub A B 32) cg) =
    vec sid (sum_planes sub A B)) as Hsum.
  { intros sid cg Hs Hcg. apply lanes_ext. intros i Hi. unfold lanewise. rewrite !lanes_total, carry_in_total, !vec_total by done.
    unfold sum_planes. f_equal. destruct (Nat.eqb_spec i 0) as [->|Hi0].
    - destruct sid as [|[|]]; [done|done|lia].
    - destruct (Nat.eqb_spec (sid * 32 + i) 0); [lia|]. rewrite Hcg by lia.
      replace ((sid * 32 + i) mod 32)%nat with i by (rewrite (Nat.add_comm (sid * 32)), Nat.Div0.mod_add, Nat.mod_small by done; done).
      do 2 f_equal. lia. }
  rewrite (Hsum 0%nat) by (try lia; intros i Hi; rewrite S0 by lia; f_equal; lia).
  rewrite W0, !bind_Some. cbn [apply_write]. change (shared_carry t') with (carries sub A B 32).
  rewrite A1, B1, !bind_Some, operand_vec. fold cg1'.
  rewrite (Hsum 1%nat).
  - by rewrite W1, !bind_Some.
  - lia.
  - intros i Hi. subst cg1'. unfold lanewise. rewrite lanes_total by lia. apply S1. lia.
Qed.

Lemma sum_planes_add A B k : (forall x, inactive_lane x = x) -> (k < 64)%nat ->
  (forall b, (b < 64)%nat -> u64 (A b)) -> (forall b, (b < 64)%nat -> u64 (B b)) ->
  sum_planes false A B k = col_add A B (fun _ => false) k.
Proof using.
  intros Hin Hk HA HB. rewrite sum_planes_kept by done. unfold addend, carries. rewrite <- col_add_step by auto. f_equal.
  destruct (Nat.eqb_spec k 0) as [->|]; [|done]. by rewrite col_carry_0, mask64_false.
Qed.

(** A subtraction, where inactive lanes keep their registers: the planes of the difference, bit 0 wrong in every row but the first. *)
Lemma sub_computes dst l r st A B : (forall x, inactive_lane x = x) -> has_slot st dst -> holds st l A -> holds st r B ->
  (forall b, (b < 64)%nat -> u64 (A b)) -> (forall b, (b < 64)%nat -> u64 (B b)) ->
  computes (S_sub dst l r) st dst (plane_of (fun q =>
    Z.lxor (wrap64 (row_value A q - row_value B q)) (if (q =? 0)%nat then 0 else 1))).
Proof using.
  intros Hin Hd H0 H1 HA HB. apply (computes_ext _ _ _ (sum_planes true A B)); [|by apply add_lockstep].
  intros k Hk. apply u64_eq_nbits; [by apply sum_planes_u64|apply plane_of_u64|].
  intros q Hq. rewrite plane_of_bit, Z.lxor_spec by done.
  assert (col_add A (addend true B) (fun _ => true) k = plane_of (fun q => wrap64 (row_value A q - row_value B q)) k) as Hc.
  { apply mask64_ext. intros p Hp. f_equal. unfold addend. rewrite row_value_lnot by done. cbn [Z.b2z].
    unfold wrap64, ones64. rewrite <- (Z.mod_add (row_value A p - _) 1) by lia. f_equal. lia. }
  rewrite <- col_add_step in Hc by (done || apply HA || apply addend_u64; done).
  apply (f_equal (fun w => Z.testbit w (Z.of_nat q))) in Hc. rewrite plane_of_bit, Z.lxor_spec in Hc by done.
  rewrite <- Hc, sum_planes_kept by done. unfold carries. rewrite Z.lxor_spec, xorb_assoc. f_equal.
  destruct (Nat.eqb_spec k 0) as [->|Hk0].
  - rewrite col_carry_0, mask64_bit by done. destruct q as [|q]; [done|].
    cbn [Nat.eqb Z.b2z xorb]. change 1 with (2 ^ 0). rewrite Z.pow2_bits_false by lia. by rewrite Z.pow2_bits_true by lia.
  - assert (Z.testbit (if (q =? 0)%nat then 0 else 1) (Z.of_nat k) = false) as ->; [|by rewrite xorb_false_r].
    destruct (q =? 0)%nat; [apply Z.bits_0|]. change 1 with (2 ^ 0). by rewrite Z.pow2_bits_false by lia.
Qed.

End Statements.
