(* ===== verification/Engine.v ===== *)
(** * The engine
      (include/apex/engine.hpp, src/api/engine.cpp)

    [ApexEngine] holds the registered schemas, the compiled logic of each
    schema and the column buffers; its operations are functions on that state.
    Row data is a list of bytes, a pointer into it an offset; the result is
    [None] where the code's behaviour is undefined.  The map the engine picks
    "its" logic from is a hash table whose first element is unspecified: the
    choice is a parameter ([Host]), as are the outcome of the scratch
    allocation and the GPU. *)

From Stdlib Require Import SpecFloat.
From S2P Require Import Prelude Planes BitSlicer IR Registry A64 Circuits Analyzer ExprCompiler.
From S2P Require Import ScalarCompiler KernelCall Rows Aggregate Columns Runner Forest Msl.

(** ** Data *)

Record SchemaMetadata := mkMetadata { sm_row_stride : nat; sm_fields : list FieldDescriptor }.

Record CompiledLogic := mkCompiledLogic { cl_field : FieldDescriptor; cl_kernel : list instr }.

Record ExprCompiledLogic := mkExprLogic {
  ec_kernel : list instr;
  ec_fields : list (option FieldDescriptor);
  ec_mode : ExecutionMode;
  ec_result_kind : ResultKind;
  ec_msl_source : string;
  ec_base_sum : Z;
  ec_delta_weights : list Z;
  ec_masks_to_popcount : list Z;
  ec_active_bits : Z
}.

(** A descriptor pointer into the registry is a copy: entries are never moved or
    overwritten.  [const_pools] is the compiler's pool of constants. *)
Record ApexEngine := mkEngine {
  registry_ : SchemaRegistry;
  const_pools : ConstPool.t;
  schema_metadata_ : gmap string SchemaMetadata;
  compiled_logic_ : gmap string CompiledLogic;
  expr_logic_ : gmap string ExprCompiledLogic;
  field_buffers_ : list buffer;
  num_threads_ : Z
}.

Definition set_field_buffers (bufs : list buffer) (e : ApexEngine) : ApexEngine :=
  mkEngine (registry_ e) (const_pools e) (schema_metadata_ e) (compiled_logic_ e) (expr_logic_ e) bufs (num_threads_ e).

(** ** Floating point

    A [double] is the binary64 model of the Standard Library.  The code is compiled with [-ffast-math
    -fno-finite-math-only]: a division may become a multiplication by the reciprocal, and the sign of a
    zero is not kept.  [quotient x y q]: [q] may be what [x / y] computes, for [x] an
    integer and [y] an [ordinary] number, far from the ends of the range. *)
Abbreviation double := spec_float.
Definition double_of_int64 (z : Z) : double := binary_normalize 53 1024 (sint64 (wrap64 z)) 0 false.
Definition double_div (x y : double) : double := SFdiv 53 1024 x y.
Definition double_mul (x y : double) : double := SFmul 53 1024 x y.

Definition ordinary (y : double) : bool :=
  valid_binary 53 1024 y &&
  match y with S754_finite _ m e => (-900 <=? e + Zpos (digits2_pos m)) && (e + Zpos (digits2_pos m) <=? 900) | _ => false end.

Definition quotient (x y q : double) : Prop :=
  match x with
  | S754_zero _ => exists s, q = S754_zero s
  | _ => q = double_div x y \/ q = double_mul x (double_div (double_of_int64 1) y)
  end.

(** What the engine relies on from its surroundings: [begin()] of a hash map is
    some entry of it, if there is one; [malloc_ok] is whether the scratch memory
    could be obtained; [metal] is the GPU's [dispatch], absent off Apple; [divide] is the
    compiler's choice of a division for each row of [execute_vector]. *)
Class Host := {
  first_key : forall {A}, gmap string A -> option string;
  first_key_some : forall {A} (m : gmap string A) k, first_key m = Some k -> is_Some (m !! k);
  first_key_none : forall {A} (m : gmap string A), first_key m = None -> m = ∅;
  malloc_ok : bool;
  metal : option (string -> list Z -> nat -> nat -> string -> list Z -> Z -> Z);
  divide : nat -> double -> double -> double;
  divide_quotient : forall r z y, ordinary y = true -> quotient (double_of_int64 z) y (divide r (double_of_int64 z) y)
}.

(** [*map.begin()] *)
Definition begin_ `{Host} {A} (m : gmap string A) : option (string * A) :=
  k ← first_key m; v ← m !! k; Some (k, v).

(** ** Construction and registration *)

Fixpoint atoi_digits (s : string) (acc : Z) : Z :=
  match s with
  | String c s =>
      let d := Z.of_nat (Ascii.nat_of_ascii c) - 48 in
      if (0 <=? d) && (d <=? 9) then atoi_digits s (10 * acc + d) else acc
  | EmptyString => acc
  end.

(** [std::atoi]: leading blanks, a sign, digits (a value beyond [int] is undefined). *)
Fixpoint atoi (s : string) : Z :=
  match s with
  | EmptyString => 0
  | String c rest =>
      let n := Ascii.nat_of_ascii c in
      if (n =? 32)%nat || ((9 <=? n)%nat && (n <=? 13)%nat) then atoi rest
      else if (n =? 45)%nat then - atoi_digits rest 0
      else if (n =? 43)%nat then atoi_digits rest 0
      else atoi_digits s 0
  end.

(** [perf_cores]: what [sysctlbyname] reported (an [int64_t] cut to an [int]);
    [env_threads]: APEX_THREADS. *)
Definition initial_threads (perf_cores : option Z) (env_threads : option string) : Z :=
  let num_threads := match perf_cores with
                     | Some c => let w := c mod 2 ^ 32 in if w <? 2 ^ 31 then w else w - 2 ^ 32
                     | None => 4 end in
  match env_threads with
  | Some s => let count := atoi s in if 0 <? count then count else num_threads
  | None => num_threads
  end.

(** [buffers]: the contents of the uninitialised column buffers. *)
Definition ApexEngine_new (perf_cores : option Z) (env_threads : option string) (buffers : list buffer) : ApexEngine :=
  mkEngine ∅ ∅ ∅ ∅ ∅ buffers (initial_threads perf_cores env_threads).

Definition set_thread_count (count : Z) (e : ApexEngine) : ApexEngine :=
  mkEngine (registry_ e) (const_pools e) (schema_metadata_ e) (compiled_logic_ e) (expr_logic_ e) (field_buffers_ e) count.

Definition engine_register_schema (schema_name : string) (fields : list FieldDescriptor) (total_row_stride : nat)
    (e : ApexEngine) : ApexEngine :=
  mkEngine (register_schema schema_name fields (registry_ e)) (const_pools e)
    (<[schema_name := mkMetadata total_row_stride fields]> (schema_metadata_ e))
    (compiled_logic_ e) (expr_logic_ e) (field_buffers_ e) (num_threads_ e).

Definition set_logic (schema_name field_name : string) (threshold : Z) (e : ApexEngine) : ApexEngine :=
  match get_field (registry_ e) schema_name field_name with
  | None => e
  | Some field =>
      mkEngine (registry_ e) (const_pools e) (schema_metadata_ e)
        (<[schema_name := mkCompiledLogic field (compile_comparison threshold)]> (compiled_logic_ e))
        (expr_logic_ e) (field_buffers_ e) (num_threads_ e)
  end.

(** ** Expressions *)

(** The pool after the passes that precede compilation. *)
Definition prepare_nodes (mode : ExecutionMode) (r : nat) (ns : list Node) : option (list Node) :=
  match mode with
  | BIT_SLICED => mark_skip_jit r ns
  | GPU_THROUGHPUT => reset_skip_jit (length ns) (Some r) ns
  | SCALAR => Some ns
  end.

Definition compile_for (mode : ExecutionMode) (r : nat) (ns : list Node) (pools : ConstPool.t) :
    list Node * ConstPool.t * compiled :=
  match mode with
  | SCALAR => let '(ns, k) := compile_scalar_expression (Some r) ns in (ns, pools, k)
  | _ => compile_expression (Some r) 64 ns pools
  end.

Definition schema_num_fields (e : ApexEngine) (schema_name : string) : nat :=
  match schema_metadata_ e !! schema_name with Some m => length (sm_fields m) | None => 0%nat end.

(** The pool of nodes and the engine after the call; [None] on a null
    dereference or when the compiler's behaviour is undefined. *)
Definition set_expression (schema_name : string) (expr_root : ptr) (mode : ExecutionMode)
    (st : list Node * ApexEngine) : option (list Node * ApexEngine) :=
  match expr_root with
  | None => Some st
  | Some r =>
      let '(ns, e) := st in
      _ ← analyze_bits (length ns) ns (Some r) 0;
      ns ← prepare_nodes mode r ns;
      let '(ns, pools, kernel) := compile_for mode r ns (const_pools e) in
      match kernel with
      | Undefined => None
      | NullKernel =>
          Some (ns, mkEngine (registry_ e) pools (schema_metadata_ e) (compiled_logic_ e) (expr_logic_ e)
                      (field_buffers_ e) (num_threads_ e))
      | Kernel code =>
          fields ← collect_fields (length ns) (registry_ e) schema_name ns (Some r) (replicate 128 None);
          f ← extract_forest ns r;
          '(ns, msl_source) ← (if decide (mode = GPU_THROUGHPUT)
                               then generate_msl_source (schema_num_fields e schema_name) ns r
                               else Some (ns, ""));
          let logic := mkExprLogic code (take (max_idx fields) fields) mode (result_kind (node ns r)) msl_source
                         (base_sum f) (delta_weights f) (masks_to_popcount f) 64 in
          Some (ns, mkEngine (registry_ e) pools (schema_metadata_ e) (compiled_logic_ e)
                      (<[schema_name := logic]> (expr_logic_ e)) (field_buffers_ e) (num_threads_ e))
      end
  end.

(** ** Gathering *)

(** Four rows loaded, then stored. *)
Definition gather_4 (data : list Z) (base row_stride off i : nat) (out : buffer) : option buffer :=
  v0 ← read_field data base row_stride off (i + 0);
  v1 ← read_field data base row_stride off (i + 1);
  v2 ← read_field data base row_stride off (i + 2);
  v3 ← read_field data base row_stride off (i + 3);
  Some (<[(i + 3)%nat := v3]> (<[(i + 2)%nat := v2]> (<[(i + 1)%nat := v1]> (<[(i + 0)%nat := v0]> out)))).

Definition gather_field (data : list Z) (base : nat) (field : FieldDescriptor) (row_stride row_count : nat)
    (out : buffer) : option buffer :=
  let rows_to_gather := Nat.min row_count 64 in
  out ← mfold (gather_4 data base row_stride (offset field)) (blocks_of 4 rows_to_gather) out;
  out ← mfold (fun i out => v ← read_field data base row_stride (offset field) i; Some (<[i := v]> out))
          (seq (rows_to_gather / 4 * 4) (rows_to_gather mod 4)) out;
  Some (foldl (fun out i => <[i := 0]> out) out (seq rows_to_gather (64 - rows_to_gather))).

Section Chunk.
Context {T : HwyTarget}.
Variable L : ExprCompiledLogic.
Variable data : list Z.

(** One field by the general loop. *)
Definition gather_slot (base row_stride row_count i : nat) (st : list buffer * list (option nat)) :
    option (list buffer * list (option nat)) :=
  let '(bufs, planes) := st in
  match mjoin (ec_fields L !! i) with
  | Some d =>
      B ← bufs !! i;
      B ← gather_field data base d row_stride row_count B;
      slice_column (ec_mode L) (ec_active_bits L) i (<[i := B]> bufs, planes)
  | None => Some (bufs, <[i := None]> planes)
  end.

(** The column buffers, the pointer array and the kernel's result. *)
Definition gather_chunk_expr (base row_stride row_count : nat) (bufs : list buffer) :
    option (list buffer * list (option nat)) :=
  let num_fields := Nat.min (length (ec_fields L)) 128 in
  let field_planes_array := replicate 128 None in
  if use_simd_5 (ec_fields L) then
    bufs ← mfold (gather_row_5 data base row_stride) (seq 0 row_count) bufs;
    st ← mfold (slice_column (ec_mode L) (ec_active_bits L)) (seq 0 5) (bufs, field_planes_array);
    mfold (gather_slot base row_stride row_count) (seq 5 (num_fields - 5)) st
  else
    mfold (gather_slot base row_stride row_count) (seq 0 num_fields) (bufs, field_planes_array).

Definition process_chunk_expr (base row_stride row_count : nat) (scratchpad : list Z) (bufs : list buffer) :
    option (Z * list Z * list buffer) :=
  '(bufs, planes) ← gather_chunk_expr base row_stride row_count bufs;
  '(r, scratchpad) ← call_kernel (ec_kernel L) (pointees bufs planes) scratchpad;
  Some (r, scratchpad, bufs).

(** ** Execution *)

(** What a chunk adds to the total. *)
Definition aggregate_rows (rows_in_chunk : nat) (chunk_mask : Z) (scratchpad : list Z) (total : Z) : option Z :=
  match ec_result_kind L with
  | BITMASK => Some (wrap64 (total + popcount64 (Z.land chunk_mask (rows_mask rows_in_chunk))))
  | BITPLANE =>
      match ec_delta_weights L with
      | _ :: _ =>
          s ← hybrid_sum (ec_masks_to_popcount L) (ec_delta_weights L) scratchpad (rows_mask rows_in_chunk)
                (wrap64 (ec_base_sum L * Z.of_nat rows_in_chunk));
          Some (wrap64 (total + s))
      | [] => plane_sum scratchpad (rows_mask rows_in_chunk) total
      end
  end.

Definition scratch_words : nat := Z.to_nat 32768.

Definition execute_chunk (row_stride row_count chunk : nat) (st : Z * list buffer) : option (Z * list buffer) :=
  let '(total, bufs) := st in
  let rows_in_chunk := Nat.min 64 (row_count - chunk * 64) in
  '(chunk_mask, scratchpad, bufs) ←
    process_chunk_expr (chunk * 64 * row_stride) row_stride rows_in_chunk (replicate scratch_words 0) bufs;
  total ← aggregate_rows rows_in_chunk chunk_mask scratchpad total;
  Some (total, bufs).

Definition execute_rows (row_stride row_count : nat) (bufs : list buffer) : option (Z * list buffer) :=
  mfold (execute_chunk row_stride row_count) (chunks row_count) (0, bufs).

End Chunk.

Lemma scratch_words_eq : Z.of_nat scratch_words = 32768.
Proof. unfold scratch_words. by rewrite Z2Nat.id by lia. Qed.

#[global] Opaque scratch_words.

(** ** The GPU path

    The planes of every block and field, [block * num_fields + field] being the
    place of a buffer of 64 words; four threads fill disjoint ranges of
    blocks. *)
Section Gpu.
Context {T : HwyTarget}.
Variable L : ExprCompiledLogic.
Variable data : list Z.

Definition gpu_field (row_stride row_count block f : nat) (bit_planes : list buffer) : option (list buffer) :=
  match mjoin (ec_fields L !! f) with
  | None => Some bit_planes
  | Some d =>
      let rows_in_block := Nat.min 64 (row_count - block * 64) in
      let place := (block * length (ec_fields L) + f)%nat in
      temp_buf ← gather_field data (block * 64 * row_stride) d row_stride rows_in_block (replicate 64 0);
      dest ← bit_planes !! place;
      m ← slice_n 0 1 64 {[0 := temp_buf; 1 := dest]};
      P ← m !! 1;
      Some (<[place := P]> bit_planes)
  end.

Definition gpu_block (row_stride row_count block : nat) (bit_planes : list buffer) : option (list buffer) :=
  mfold (gpu_field row_stride row_count block) (seq 0 (length (ec_fields L))) bit_planes.

(** The ranges of blocks of the workers. *)
Definition gpu_shares (num_blocks : nat) : list (nat * nat) :=
  let num_workers := Nat.min 4 num_blocks in
  (fun w => ((num_blocks * w / num_workers)%nat, (num_blocks * (w + 1) / num_workers)%nat)) <$> seq 0 num_workers.

Definition gpu_planes (row_stride row_count : nat) : option (list buffer) :=
  let num_blocks := ((row_count + 63) / 64)%nat in
  mfold (fun s => mfold (gpu_block row_stride row_count) (seq s.1 (s.2 - s.1))) (gpu_shares num_blocks)
    (replicate (num_blocks * length (ec_fields L)) (replicate 64 0)).

End Gpu.

Definition execute_gpu `{HwyTarget} `{Host} (schema_name : string) (L : ExprCompiledLogic) (data : list Z)
    (row_stride row_count : nat) : option Z :=
  match metal with
  | None => Some 0
  | Some dispatch =>
      if negb malloc_ok then Some 0
      else
        bit_planes ← gpu_planes L data row_stride row_count;
        Some (dispatch schema_name (mjoin bit_planes) ((row_count + 63) / 64)%nat (length (ec_fields L))
                (ec_msl_source L) (ec_delta_weights L) (ec_base_sum L))
  end.

(** ** The legacy path: one field against a threshold *)

Definition legacy_chunk `{HwyTarget} (logic : CompiledLogic) (data : list Z) (row_stride row_count chunk : nat)
    (st : Z * list buffer) : option (Z * list buffer) :=
  let '(total, bufs) := st in
  let rows_in_chunk := Nat.min 64 (row_count - chunk * 64) in
  B ← bufs !! 0%nat;
  B ← gather_field data (chunk * 64 * row_stride) (cl_field logic) row_stride rows_in_chunk B;
  B ← slice_in_place 64 B;
  chunk_mask ← call_comparison (cl_kernel logic) B;
  Some (wrap64 (total + popcount64 chunk_mask), <[0%nat := B]> bufs).

(** ** The entry points *)

Section Execute.
Context {T : HwyTarget} {H : Host}.

Definition execute (data : list Z) (row_count : nat) (e : ApexEngine) : option (Z * ApexEngine) :=
  match begin_ (expr_logic_ e) with
  | Some (schema_name, L) =>
      match schema_metadata_ e !! schema_name with
      | None => Some (0, e)
      | Some meta =>
          if decide (ec_mode L = GPU_THROUGHPUT) then
            r ← execute_gpu schema_name L data (sm_row_stride meta) row_count;
            Some (r, e)
          else if negb malloc_ok then Some (0, e)
          else
            '(total, bufs) ← execute_rows L data (sm_row_stride meta) row_count (field_buffers_ e);
            Some (total, set_field_buffers bufs e)
      end
  | None =>
      match begin_ (compiled_logic_ e) with
      | None => Some (0, e)
      | Some (logic_key, logic) =>
          match schema_metadata_ e !! logic_key with
          | None => Some (0, e)
          | Some meta =>
              '(total, bufs) ← mfold (legacy_chunk logic data (sm_row_stride meta) row_count) (chunks row_count)
                                 (0, field_buffers_ e);
              Some (total, set_field_buffers bufs e)
          end
      end
  end.

(** The runner's configuration of a logic. *)
Definition task_config (L : ExprCompiledLogic) (row_stride : nat) : TaskConfig :=
  mkTaskConfig (ec_kernel L) (ec_fields L) row_stride (ec_mode L)
    (match ec_result_kind L with BITPLANE => 0 | BITMASK => 1 end)
    (ec_base_sum L) (ec_delta_weights L) (ec_masks_to_popcount L) (ec_active_bits L).

(** [stack] and [clock]: each worker's uninitialised buffers and clock readings. *)
Definition execute_parallel (stack : nat * nat -> list buffer) (clock : nat * nat -> Z * Z) (data : list Z)
    (row_count : nat) (num_threads : Z) (e : ApexEngine) : option (Z * ApexEngine) :=
  let num_threads := if num_threads <=? 0 then num_threads_ e else num_threads in
  match begin_ (expr_logic_ e) with
  | None => execute data row_count e
  | Some (schema_name, L) =>
      match schema_metadata_ e !! schema_name with
      | None => Some (0, e)
      | Some meta =>
          let config := task_config L (sm_row_stride meta) in
          r ← run (fun t => worker_thread config data malloc_ok (stack t) (clock t) 0 t.1 t.2) row_count num_threads;
          Some (r, e)
      end
  end.

(** ** Native planes: the caller's columns are sliced already *)

Definition native_words : nat := Z.to_nat 262144.

(** The place of field [i] of the logic among the schema's fields: the first of
    that name, or 0. *)
Definition dynamic_to_schema_index (schema_fields : list FieldDescriptor) (o : option FieldDescriptor) : nat :=
  match o with
  | Some d => match list_find (fun f => name f = name d) schema_fields with Some (f, _) => f | None => 0%nat end
  | None => 0%nat
  end.

(** [kernel_ptrs]: eight pointers into the block; a ninth is written out of bounds. *)
Definition native_pointers (L : ExprCompiledLogic) (schema_fields : list FieldDescriptor) (bit_planes : list Z) (b : nat) :
    option (list field_ptr) :=
  if (8 <? length (ec_fields L))%nat then None
  else
    let block_base := (b * length schema_fields * 64)%nat in
    Some (((fun o => Some (take 64 (drop (block_base + dynamic_to_schema_index schema_fields o * 64) bit_planes)))
            <$> ec_fields L) ++ replicate (8 - length (ec_fields L)) None).

(** [chunk_sum += popcount(scratchpad[masks_to_popcount[i]]) * delta_weights[i]] *)
Definition native_step (slots deltas scratchpad : list Z) (i : nat) (sum : Z) : option Z :=
  slot ← slots !! i;
  s ← scratch_at scratchpad slot;
  w ← deltas !! i;
  Some (wrap64 (sum + popcount64 s * w)).

(** The sums, sixteen to a turn of the loop, then one by one. *)
Definition native_sum (slots deltas scratchpad : list Z) (sum : Z) : option Z :=
  let num_trees := length deltas in
  sum ← mfold (fun i => mfold (fun j => native_step slots deltas scratchpad (i + j)) (seq 0 16)) (blocks_of 16 num_trees) sum;
  mfold (native_step slots deltas scratchpad) (seq (num_trees / 16 * 16) (num_trees mod 16)) sum.

Definition native_plane (scratchpad : list Z) (i : nat) (total : Z) : option Z :=
  s ← scratchpad !! i;
  Some (wrap64 (total + wrap64 (Z.shiftl (popcount64 s) (Z.of_nat i)))).

Definition native_block (L : ExprCompiledLogic) (schema_fields : list FieldDescriptor) (bit_planes : list Z) (b : nat)
    (st : Z * list Z) : option (Z * list Z) :=
  let '(total, scratchpad) := st in
  kernel_ptrs ← native_pointers L schema_fields bit_planes b;
  '(mask, scratchpad) ← call_kernel (ec_kernel L) kernel_ptrs scratchpad;
  total ← (match ec_result_kind L with
           | BITMASK => Some (wrap64 (total + popcount64 mask))
           | BITPLANE =>
               match ec_delta_weights L with
               | _ :: _ =>
                   s ← native_sum (ec_masks_to_popcount L) (ec_delta_weights L) scratchpad (wrap64 (ec_base_sum L * 64));
                   Some (wrap64 (total + s))
               | [] => mfold (native_plane scratchpad) (seq 0 64) total
               end
           end);
  Some (total, scratchpad).

(** The blocks [start, end_) with a fresh scratch memory. *)
Definition native_blocks (L : ExprCompiledLogic) (schema_fields : list FieldDescriptor) (bit_planes : list Z)
    (start_block end_block : nat) : option Z :=
  if negb malloc_ok then Some 0
  else
    '(total, _) ← mfold (native_block L schema_fields bit_planes) (seq start_block (end_block - start_block))
                    (0, replicate native_words 0);
    Some total.

Definition execute_native (schema_name : string) (bit_planes : list Z) (num_blocks : nat) (e : ApexEngine) : option Z :=
  match expr_logic_ e !! schema_name with
  | None => Some 0
  | Some L =>
      if decide (ec_mode L = GPU_THROUGHPUT) then
        match metal with
        | Some dispatch => Some (dispatch schema_name bit_planes num_blocks (length (ec_fields L)) (ec_msl_source L)
                                   (ec_delta_weights L) (ec_base_sum L))
        | None => Some 0
        end
      else
        match schema_metadata_ e !! schema_name with
        | None => Some 0
        | Some meta => native_blocks L (sm_fields meta) bit_planes 0 num_blocks
        end
  end.

(** The blocks of thread [t]. *)
Definition native_share (num_blocks num_threads t : nat) : nat * nat :=
  let start_block := (num_blocks / num_threads * t)%nat in
  (start_block, if (t =? num_threads - 1)%nat then num_blocks else (start_block + num_blocks / num_threads)%nat).

(** A negative thread count is a negative vector length, which throws out of a
    [noexcept] function. *)
Definition execute_native_parallel (schema_name : string) (bit_planes : list Z) (num_blocks : nat) (num_threads : Z)
    (e : ApexEngine) : option Z :=
  let num_threads := if num_threads <=? 0 then num_threads_ e else num_threads in
  match expr_logic_ e !! schema_name with
  | None => Some 0
  | Some L =>
      match schema_metadata_ e !! schema_name with
      | None => Some 0
      | Some meta =>
          if num_threads <? 0 then None
          else
            let n := Z.to_nat num_threads in
            results ← mapM (fun t => let '(s, e) := native_share num_blocks n t in
                                     native_blocks L (sm_fields meta) bit_planes s e) (seq 0 n);
            Some (foldl (fun total r => wrap64 (total + r)) 0 results)
      end
  end.

End Execute.

Lemma native_words_eq : Z.of_nat native_words = 262144.
Proof. unfold native_words. by rewrite Z2Nat.id by lia. Qed.

#[global] Opaque native_words.

(** ** Per-row results *)

(** [row_sum] of a forest: the base sum plus the weights of the masks that select row [r]. *)
Definition vector_step (slots deltas scratchpad : list Z) (r i : nat) (row_sum : Z) : option Z :=
  slot ← slots !! i;
  s ← scratch_at scratchpad slot;
  w ← deltas !! i;
  Some (if Z.testbit s (Z.of_nat r) then wrap64 (row_sum + w) else row_sum).

(** [row_sum |= 1 << b] for every plane with the bit of row [r]. *)
Definition vector_plane (scratchpad : list Z) (r b : nat) (row_sum : Z) : option Z :=
  s ← scratchpad !! b;
  Some (if Z.testbit s (Z.of_nat r) then Z.lor row_sum (Z.shiftl 1 (Z.of_nat b)) else row_sum).

Definition vector_row `{Host} (L : ExprCompiledLogic) (row : nat) (precision_multiplier : double) (chunk_mask : Z) (scratchpad : list Z)
    (r : nat) : option double :=
  match ec_result_kind L with
  | BITMASK => Some (double_of_int64 (if Z.testbit chunk_mask (Z.of_nat r) then 1 else 0))
  | BITPLANE =>
      row_sum ← (match ec_delta_weights L with
                 | _ :: _ => mfold (vector_step (ec_masks_to_popcount L) (ec_delta_weights L) scratchpad r)
                               (seq 0 (length (ec_delta_weights L))) (wrap64 (ec_base_sum L))
                 | [] => mfold (vector_plane scratchpad r) (seq 0 64) 0
                 end);
      Some (divide row (double_of_int64 row_sum) precision_multiplier)
  end.

Definition vector_chunk `{HwyTarget} `{Host} (L : ExprCompiledLogic) (data : list Z) (precision_multiplier : double)
    (row_stride row_count chunk : nat) (st : list double * list buffer) : option (list double * list buffer) :=
  let '(results, bufs) := st in
  let rows_in_chunk := Nat.min 64 (row_count - chunk * 64) in
  '(chunk_mask, scratchpad, bufs) ←
    process_chunk_expr L data (chunk * 64 * row_stride) row_stride rows_in_chunk (replicate scratch_words 0) bufs;
  results ← mfold (fun r results =>
      v ← vector_row L (chunk * 64 + r) precision_multiplier chunk_mask scratchpad r;
      Some (<[(chunk * 64 + r)%nat := v]> results)) (seq 0 rows_in_chunk) results;
  Some (results, bufs).

Definition execute_vector `{HwyTarget} `{Host} (data : list Z) (row_count : nat) (precision_multiplier : double)
    (e : ApexEngine) : option (list double * ApexEngine) :=
  let results := replicate row_count (S754_zero false) in
  match begin_ (expr_logic_ e) with
  | None => Some (results, e)
  | Some (schema_name, L) =>
      match schema_metadata_ e !! schema_name with
      | None => Some (results, e)
      | Some meta =>
          if negb malloc_ok then Some (results, e)
          else
            '(results, bufs) ← mfold (vector_chunk L data precision_multiplier (sm_row_stride meta) row_count)
                                 (chunks row_count) (results, field_buffers_ e);
            Some (results, set_field_buffers bufs e)
      end
  end.
