(* ===== verification/EngineCorrect.v ===== *)
(** * The engine: one chunk and the loop over the chunks

    [gather_field] fills a column; [process_chunk_expr] runs the kernel on the
    columns of a chunk; [execute_rows] adds up the value of every row. *)

From S2P Require Import Prelude Planes BitSlicer IR Registry A64 KernelCall Rows Aggregate Columns.
From S2P Require Import Runner Forest Msl Engine RunnerCorrect.

(** ** Gathering *)

Lemma gather_4_eq data base stride off i out :
  gather_4 data base stride off i out =
    mfold (fun i out => v ← read_field data base stride off i; Some (<[i := v]> out)) (seq i 4) out.
Proof.
  unfold gather_4. cbn [seq mfold]. replace (i + 0)%nat with i by lia. replace (i + 1)%nat with (S i) by lia.
  replace (i + 2)%nat with (S (S i)) by lia. replace (i + 3)%nat with (S (S (S i))) by lia.
  destruct (read_field data base stride off i) as [v0|]; [|done]. rewrite !bind_Some.
  destruct (read_field data base stride off (S i)) as [v1|]; [|done]. rewrite !bind_Some.
  destruct (read_field data base stride off (S (S i))) as [v2|]; [|done]. rewrite !bind_Some.
  destruct (read_field data base stride off (S (S (S i)))) as [v3|]; [|done]. by rewrite !bind_Some.
Qed.

(** The unrolled loop, the remainder and the padding are the runner's plain loops. *)
Lemma gather_field_column data base d stride n out :
  gather_field data base d stride n out = gather_column data base stride (Nat.min n 64) (offset d) out.
Proof.
  unfold gather_field, gather_column. generalize (Nat.min n 64). intros k.
  rewrite <- (mfold_blocks _ 4 k) by done.
  rewrite (mfold_ext _ (fun i a => mfold (fun i out => v ← read_field data base stride (offset d) i; Some (<[i := v]> out)) (seq i 4) a))
    by (intros; apply gather_4_eq).
  destruct (mfold _ (blocks_of 4 k) out); done.
Qed.

Lemma gather_field_eq data base stride n d fields B :
  rows_fit data base stride fields n -> Some d ∈ fields -> (n <= 64)%nat -> length B = 64%nat ->
  gather_field data base d stride n B = Some (column_over data base stride n d (fun _ => 0)).
Proof.
  intros Hf Hd Hn HB. rewrite gather_field_column, Nat.min_l by done. by apply (gather_column_eq _ _ _ _ _ fields).
Qed.

(** ** A chunk *)

Definition logic_aggregation (L : ExprCompiledLogic) : aggregation :=
  mkAggregation (bool_decide (ec_result_kind L = BITMASK)) (ec_base_sum L) (ec_delta_weights L) (ec_masks_to_popcount L).

(** The columns of a chunk; with five contiguous fields the lanes past the rows
    keep what the buffers held. *)
Definition chunk_cols (data : list Z) (base stride n : nat) (fields : list (option FieldDescriptor))
    (bufs : list buffer) (i : nat) : list Z :=
  match fields !! i with
  | Some (Some d) =>
      column_over data base stride n d
        (if use_simd_5 fields && (i <? 5)%nat then fun q => (bufs !!! i) !!! q else fun _ => 0)
  | _ => []
  end.

Lemma buffer_u64 N bufs i q : buffers_ok N bufs -> (i < N)%nat -> (q < 64)%nat -> u64 ((bufs !!! i) !!! q).
Proof.
  intros [Hl Hw] Hi Hq. destruct (lookup_lt_is_Some_2 bufs i) as [B HB]; [lia|].
  rewrite (list_lookup_total_correct _ _ _ HB). rewrite Forall_lookup in Hw. apply words_total; [by eapply Hw|done].
Qed.

Section Chunk.
Context {T : HwyTarget} (L : ExprCompiledLogic) (data : list Z).
Hypothesis Hlen : (length (ec_fields L) <= 128)%nat.
Hypothesis Hbits : ec_active_bits L = 64.
Variables (base stride n : nat) (bufs0 : list buffer).
Hypothesis Hfit : rows_fit data base stride (ec_fields L) n.
Hypothesis Hn : (n <= 64)%nat.
Hypothesis Hbufs : buffers_ok 128 bufs0.

Abbreviation fields := (ec_fields L).
Abbreviation cols := (chunk_cols data base stride n fields bufs0).

Lemma chunk_cols_ok i d : fields !! i = Some (Some d) -> column_ok data base stride d n (cols i).
Proof using Hlen Hfit Hn Hbufs.
  intros Hd. unfold chunk_cols. rewrite Hd. eapply column_over_ok; [exact Hfit| |done|].
  - by eapply list_elem_of_lookup_2.
  - intros q Hq. apply lookup_lt_Some in Hd. destruct (use_simd_5 fields && (i <? 5)%nat); [|apply u64_0].
    apply (buffer_u64 128); [done|lia|done].
Qed.

Lemma gather_slot_step i st :
  gathered (ec_mode L) fields cols 128 i st -> (i < length fields)%nat -> (use_simd_5 fields = true -> 5 <= i)%nat ->
  exists st', gather_slot L data base stride n i st = Some st' /\ gathered (ec_mode L) fields cols 128 (S i) st'.
Proof using Hlen Hbits Hfit Hn Hbufs.
  destruct st as [bufs planes]. intros G Hi H5. unfold gather_slot.
  destruct (lookup_lt_is_Some_2 fields i Hi) as [[d|] Hd]; rewrite Hd; cbn [mjoin option_join].
  - destruct (lookup_lt_is_Some_2 bufs i) as [B HB]; [pose proof (ga_bufs _ _ _ _ _ _ G) as E; cbn [fst] in E; lia|].
    rewrite HB, bind_Some. rewrite (gather_field_eq data base stride n d fields B); [|done|by eapply list_elem_of_lookup_2|done|].
    2:{ pose proof (ga_words _ _ _ _ _ _ G) as Hws. rewrite Forall_lookup in Hws. by destruct (Hws _ _ HB). }
    rewrite bind_Some, Hbits. replace (column_over data base stride n d (fun _ => 0)) with (cols i).
    2:{ unfold chunk_cols. rewrite Hd. destruct (use_simd_5 fields); [|done].
        rewrite (proj2 (Nat.ltb_ge i 5)) by (by apply H5). done. }
    destruct (gathered_store (ec_mode L) fields cols 128 i bufs planes G) as (st' & E & G' & _);
      [lia|by apply (chunk_cols_ok i d)|by exists st'].
  - eexists. split; [done|]. destruct G as [G1 G2 G3 G4]. cbn [fst snd] in *. split; cbn [fst snd]; rewrite ?length_insert; try done.
    intros j d Hj Hd'. destruct (decide (j = i)) as [->|Hne]; [congruence|].
    rewrite list_lookup_insert_ne by done. apply (G4 j d); [lia|done].
Qed.

Lemma gather_slots k st :
  (k <= length fields)%nat -> (use_simd_5 fields = true -> 5 <= k)%nat ->
  gathered (ec_mode L) fields cols 128 k st ->
  exists st', mfold (gather_slot L data base stride n) (seq k (length fields - k)) st = Some st' /\
    gathered (ec_mode L) fields cols 128 (length fields) st'.
Proof using Hlen Hbits Hfit Hn Hbufs.
  intros Hk H5 G. destruct (mfold_seq_rule (gather_slot L data base stride n)
    (gathered (ec_mode L) fields cols 128) k (length fields - k) st) as (st' & E & G'); [done| |].
  - intros i st1 Hi G1. apply gather_slot_step; [done|lia|]. intros Hx. specialize (H5 Hx). lia.
  - exists st'. split; [done|]. by replace (k + (length fields - k))%nat with (length fields) in G' by lia.
Qed.

Lemma gather_chunk_expr_spec :
  exists st, gather_chunk_expr L data base stride n bufs0 = Some st /\
    gathered (ec_mode L) fields cols 128 (length fields) st.
Proof using Hlen Hbits Hfit Hn Hbufs.
  destruct Hbufs as [Hbl Hbw]. unfold gather_chunk_expr. rewrite Nat.min_l by done.
  assert (forall st, st = (bufs0, replicate 128 None) -> gathered (ec_mode L) fields cols 128 0 st) as G0.
  { intros st ->. split; cbn [fst snd]; [done|done|by rewrite length_replicate|lia]. }
  destruct (use_simd_5 fields) eqn:Hs.
  - destruct (gather_five data base stride n fields Hfit Hn Hs bufs0 Hbw) as (b & E & Hr). rewrite E, bind_Some, Hbits.
    assert (forall f, (f < 5)%nat -> b !! f = Some (cols f) /\ words (cols f)) as Hcols.
    { intros f Hf. destruct (use_simd_5_offset fields f Hs Hf) as (d & Hd & _).
      destruct (lookup_lt_is_Some_2 bufs0 f) as [B HB]; [lia|].
      split; [|by apply (chunk_cols_ok f d)].
      rewrite (rows_in_five_column data base stride n fields Hs bufs0 b f d B Hr Hf Hd HB).
      unfold chunk_cols. rewrite Hd, Hs, (proj2 (Nat.ltb_lt f 5) Hf). cbn [andb].
      by rewrite (list_lookup_total_correct _ _ _ HB). }
    destruct (gathered_five (ec_mode L) fields cols 128 (b, replicate 128 None)) as (st' & E' & G').
    + split; cbn [fst snd]; [by rewrite (rf_len _ _ _ _ _ _ Hr)| |by rewrite length_replicate|lia].
      apply Forall_lookup. intros f B HB. destruct (decide (f < 5)%nat) as [Hf|Hf].
      * destruct (Hcols f Hf) as [E1 Hw]. rewrite E1 in HB. by injection HB as <-.
      * rewrite (rf_rest _ _ _ _ _ _ Hr) in HB by lia. rewrite Forall_lookup in Hbw. by eapply Hbw.
    + lia.
    + exact Hcols.
    + rewrite E', bind_Some. apply gather_slots; [|lia|done].
      destruct (use_simd_5_offset fields 4 Hs) as (d & Hd & _); [lia|]. apply lookup_lt_Some in Hd. lia.
  - pose proof (gather_slots 0 (bufs0, replicate 128 None)) as H0. rewrite Nat.sub_0_r in H0. apply H0; [lia|congruence|by apply G0].
Qed.

End Chunk.

(** ** The chunk's rows *)

Section Rows.
Context {T : HwyTarget} (L : ExprCompiledLogic) (desc : string -> option FieldDescriptor) (rowfn : (string -> Z) -> Z).
Context {S : LogicSpec (ec_mode L) (ec_kernel L) (ec_fields L) (logic_aggregation L) desc rowfn}.
Context (data : list Z).
Hypothesis Hbits : ec_active_bits L = 64.

Lemma process_chunk_rows base stride n scratch bufs :
  rows_fit data base stride (ec_fields L) n -> (n <= 64)%nat -> buffers_ok 128 bufs ->
  32768 <= Z.of_nat (length scratch) ->
  exists r scratch' bufs', process_chunk_expr L data base stride n scratch bufs = Some (r, scratch', bufs') /\
    buffers_ok 128 bufs' /\ length scratch' = length scratch /\
    forall q, (q < n)%nat -> row_outcome (logic_aggregation L) r scratch' q = rowfn (row_of data base stride desc q).
Proof using Hbits S.
  intros Hfit Hn Hb Hs. unfold process_chunk_expr. pose proof (ls_len (LogicSpec := S)) as Hlen.
  destruct (gather_chunk_expr_spec L data Hlen Hbits base stride n bufs Hfit Hn Hb) as ([bufs' planes] & E & G).
  rewrite E, bind_Some.
  destruct (logic_call (ec_mode L) (ec_kernel L) (ec_fields L) (logic_aggregation L) desc rowfn data base stride
    (chunk_cols data base stride n (ec_fields L) bufs) n (proj1 Hfit) Hn
    (fun i d H => chunk_cols_ok L data Hlen base stride n bufs Hfit Hn Hb i d H) (pointees bufs' planes) scratch)
    as (r & sc & Ek & Hl & Hq).
  { intros i d Hd. eapply (gathered_pointees _ _ _ _ _ (bufs', planes)); [exact G| |exact Hd]. by apply lookup_lt_Some in Hd. }
  { done. }
  rewrite Ek, bind_Some. exists r, sc, bufs'. split_and!; [done| |done|done]. by destruct G.
Qed.

Lemma aggregate_rows_spec n m sc t :
  (n <= 64)%nat -> 32768 <= Z.of_nat (length sc) ->
  aggregate_rows L n m sc (wrap64 t) = Some (wrap64 (t + zsum n (row_outcome (logic_aggregation L) m sc))).
Proof using S.
  intros Hn Hl. assert (slots_in (logic_aggregation L) (Z.of_nat (length sc))) as Hs
    by (eapply slots_in_le; [apply (ls_slots (LogicSpec := S))|done]).
  unfold aggregate_rows. destruct (ec_result_kind L) eqn:Ek.
  - assert (ag_mask (logic_aggregation L) = false) as Ha by (by apply bool_decide_eq_false_2; rewrite Ek).
    destruct (ec_delta_weights L) as [|w ds] eqn:Ed.
    + apply (row_outcome_planes (logic_aggregation L)); [done|done|lia|done].
    + rewrite <- Ed in *. destruct (row_outcome_hybrid (logic_aggregation L) m sc n t) as (s & E & Es); try done.
      { cbn. by rewrite Ed. }
      cbn [logic_aggregation ag_base ag_deltas ag_slots] in E. rewrite E, bind_Some. by rewrite wrap64_idemp_add_l, Es.
  - rewrite wrap64_idemp_add_l, (row_outcome_mask (logic_aggregation L) m sc); [done|by apply bool_decide_eq_true_2|done].
Qed.

(** Every chunk, every row. *)
Lemma execute_rows_sum stride row_count bufs :
  rows_fit data 0 stride (ec_fields L) row_count -> buffers_ok 128 bufs ->
  exists bufs', execute_rows L data stride row_count bufs =
    Some (wrap64 (zsum row_count (fun q => rowfn (row_of data 0 stride desc q))), bufs') /\ buffers_ok 128 bufs'.
Proof using Hbits S.
  intros Hfit Hb. unfold execute_rows.
  apply (chunk_loop (execute_chunk L data stride row_count) (buffers_ok 128) (fun q => rowfn (row_of data 0 stride desc q))); [|done].
  intros c t b Hc Hb'. unfold execute_chunk. replace (c * 64)%nat with (64 * c)%nat by lia.
  set (n := Nat.min 64 (row_count - 64 * c)). assert (n <= 64)%nat as Hn by (subst n; lia).
  assert (rows_fit data (64 * c * stride) stride (ec_fields L) n) as Hf.
  { rewrite <- (Nat.add_0_l (64 * c * stride)). eapply rows_fit_shift; [exact Hfit|subst n; lia]. }
  destruct (process_chunk_rows (64 * c * stride) stride n (replicate scratch_words 0) b Hf Hn Hb') as (r & sc & b' & E & Hb2 & Hl & Hq).
  { by rewrite length_replicate, scratch_words_eq. }
  rewrite length_replicate in Hl.
  rewrite E, bind_Some, aggregate_rows_spec, bind_Some; [|done|by rewrite Hl, scratch_words_eq].
  exists b'. split; [|done]. do 4 f_equal. apply zsum_ext. intros q Hlt. rewrite Hq by done. f_equal.
  rewrite <- (Nat.add_0_l (64 * c * stride)). apply row_of_shift.
Qed.

End Rows.
