(* ===== verification/ForestCorrect.v ===== *)
(** * The engine's passes over a graph: what they compute

    On a graph whose children come before their parents the recursions end
    within their fuel; [collect_fields] finds the descriptor of every field the
    kernel reads, at its index and nowhere else. *)

From S2P Require Import Prelude IR A64 Registry Analyzer ExprCompiler Rows Forest.

(** ** Termination *)

Lemma wf_child ns i c : wf_nodes ns -> Some c ∈ children (node ns i) -> (i < length ns)%nat -> (c < i)%nat.
Proof.
  intros Hwf Hc Hi. pose proof (list_lookup_lookup_total_lt ns i Hi) as Hn.
  pose proof (Hwf i _ Hn) as Hf. rewrite Forall_forall in Hf. exact (Hf _ Hc).
Qed.

Lemma mfold_total {A B} (f : B -> A -> option A) l a :
  (forall b a, b ∈ l -> is_Some (f b a)) -> is_Some (mfold f l a).
Proof.
  revert a. induction l as [|b l IH]; intros a H; [done|]. cbn [mfold].
  destruct (H b a) as [a' E]; [by left|]. rewrite E, bind_Some. apply IH. intros. apply H. by right.
Qed.

Lemma analyze_bits_total ns fuel p b :
  wf_nodes ns -> (forall i, p = Some i -> i < fuel /\ i < length ns)%nat -> is_Some (analyze_bits fuel ns p b).
Proof.
  intros Hwf. revert p b. induction fuel as [|fuel IH]; intros [i|] b Hp; try done.
  - destruct (Hp i); [done|lia].
  - destruct (Hp i) as [Hf Hl]; [done|].
    assert (forall p b, p ∈ children (node ns i) -> is_Some (analyze_bits fuel ns p b)) as Hc.
    { intros q b' Hq. apply IH. intros j ->. pose proof (wf_child ns i j Hwf Hq Hl). lia. }
    cbn [analyze_bits]. set (b0 := if decide (kind (node ns i) = K_CONST) then _ else b).
    destruct (mfold_total (analyze_bits fuel ns) (operands (node ns i)) b0) as [b1 E1].
    { intros q b' Hq. apply Hc. unfold children. rewrite !elem_of_cons. auto. }
    rewrite E1, bind_Some. destruct (Hc (left (node ns i)) b1) as [b2 E2]; [unfold children; rewrite !elem_of_cons; auto|].
    rewrite E2, bind_Some. apply Hc. unfold children. rewrite !elem_of_cons. auto.
Qed.

(** ** Field descriptors *)

Section Collect.
Variables (reg : SchemaRegistry) (s : string) (ns : list Node) (root : nat).
Hypothesis Hwf : wf_nodes ns.

(** Entry [i] of the table should hold [d]. *)
Definition wants (i : nat) (d : FieldDescriptor) : Prop :=
  exists j : nat, reach ns root j /\ kind (node ns j) = K_LOAD /\ field_idx (node ns j) = Z.of_nat i /\ (i < 128)%nat /\
    get_field reg s (field_name (node ns j)) = Some d.

Hypothesis Hfun : forall i d d', wants i d -> wants i d' -> d = d'.

Record table_ok (fields : list (option FieldDescriptor)) : Prop := {
  tb_len : length fields = 128%nat;
  tb_sound : forall i d, fields !! i = Some (Some d) -> wants i d
}.

(** [l] extends [l']: entries are never lost. *)
Definition extends (l l' : list (option FieldDescriptor)) : Prop :=
  forall i (d : FieldDescriptor), l !! i = Some (Some d) -> l' !! i = Some (Some d).

Lemma collect_field_ok j fields :
  reach ns root j -> table_ok fields ->
  let fields' := collect_field reg s (node ns j) fields in
  table_ok fields' /\ extends fields fields' /\
  (forall i d, kind (node ns j) = K_LOAD -> field_idx (node ns j) = Z.of_nat i -> (i < 128)%nat ->
     get_field reg s (field_name (node ns j)) = Some d -> fields' !! i = Some (Some d)).
Proof using Hfun.
  intros Hj [Hl Hs]. unfold collect_field. destruct (decide (kind (node ns j) = K_LOAD)) as [Hk|Hk].
  2:{ cbn zeta. split_and!; [done| |congruence]. by intros i d. }
  destruct ((0 <=? field_idx (node ns j)) && (field_idx (node ns j) <? 128)) eqn:Er.
  2:{ cbn zeta. split_and!; [done|by intros i d|]. intros i d _ Hi Hlt. rewrite Hi in Er. lia. }
  rewrite andb_true_iff, Z.leb_le, Z.ltb_lt in Er.
  destruct (get_field reg s (field_name (node ns j))) as [d|] eqn:Eg; cbn zeta.
  2:{ split_and!; [done|by intros i d|done]. }
  assert (wants (Z.to_nat (field_idx (node ns j))) d) as Hw.
  { exists j. split_and!; [done|done|lia|lia|done]. }
  split_and!.
  - split; [by rewrite length_insert|]. intros i d' Hi.
    destruct (decide (i = Z.to_nat (field_idx (node ns j)))) as [->|Hne].
    + rewrite list_lookup_insert_eq in Hi by lia. by injection Hi as <-.
    + rewrite list_lookup_insert_ne in Hi by done. by apply Hs.
  - intros i d' Hi. destruct (decide (i = Z.to_nat (field_idx (node ns j)))) as [->|Hne].
    + rewrite list_lookup_insert_eq by lia. by rewrite (Hfun _ _ _ (Hs _ _ Hi) Hw).
    + by rewrite list_lookup_insert_ne.
  - intros i d' _ Hi Hlt Hd'. injection Hd' as <-. rewrite Hi, Nat2Z.id. apply list_lookup_insert_eq. lia.
Qed.

(** Every LOAD below [p] is in the table. *)
Definition collected (p : ptr) (fields : list (option FieldDescriptor)) : Prop :=
  forall k j i d, p = Some k -> reach ns k j -> kind (node ns j) = K_LOAD -> field_idx (node ns j) = Z.of_nat i ->
    (i < 128)%nat -> get_field reg s (field_name (node ns j)) = Some d -> fields !! i = Some (Some d).

Lemma collected_extends p l l' : collected p l -> extends l l' -> collected p l'.
Proof. intros Hc He k j i d Hk Hj Hl Hi Hlt Hd. apply He. by eapply Hc. Qed.

Definition collect_ok (fuel : nat) (p : ptr) : Prop :=
  forall fields, (forall i, p = Some i -> i < fuel /\ i < length ns /\ reach ns root i)%nat -> table_ok fields ->
  exists fields', collect_fields fuel reg s ns p fields = Some fields' /\ table_ok fields' /\ extends fields fields' /\
    collected p fields'.

Lemma collect_list fuel ps fields :
  (forall p, p ∈ ps -> collect_ok fuel p) ->
  (forall p i, p ∈ ps -> p = Some i -> i < fuel /\ i < length ns /\ reach ns root i)%nat -> table_ok fields ->
  exists fields', mfold (collect_fields fuel reg s ns) ps fields = Some fields' /\ table_ok fields' /\
    extends fields fields' /\ forall p, p ∈ ps -> collected p fields'.
Proof.
  revert fields. induction ps as [|p ps IH]; intros fields Hok Hb Ht.
  - exists fields. split_and!; [done|done|by intros i d|]. intros p Hp. by apply not_elem_of_nil in Hp.
  - destruct (Hok p) with (fields := fields) as (f1 & E1 & T1 & X1 & C1); [by left|intros i; apply Hb; by left|done|].
    destruct (IH f1) as (f2 & E2 & T2 & X2 & C2);
      [intros; apply Hok; by right|intros q i Hq; apply Hb; by right|done|].
    exists f2. cbn [mfold]. rewrite E1, bind_Some. split_and!; [done|done|intros i d Hi; auto|].
    intros q [->|Hq]%elem_of_cons; [by eapply collected_extends|by apply C2].
Qed.

Lemma collect_fields_unfold fuel i fields :
  collect_fields (S fuel) reg s ns (Some i) fields =
  mfold (collect_fields fuel reg s ns) (children (node ns i)) (collect_field reg s (node ns i) fields).
Proof. reflexivity. Qed.

Lemma collect_all fuel p : collect_ok fuel p.
Proof using Hwf Hfun.
  revert p. induction fuel as [|fuel IH]; intros p fields Hp Ht; (destruct p as [i|];
    [destruct (Hp i) as (Hf & Hl & Hr); [done|]|exists fields; split_and!; [done|done|by intros i d|done]]); [lia|].
  destruct (collect_field_ok i fields Hr Ht) as (T1 & X1 & C1). cbv zeta in *.
  assert (forall q j, q ∈ children (node ns i) -> q = Some j -> j < fuel /\ j < length ns /\ reach ns root j)%nat as Hb.
  { intros q j Hq ->. pose proof (wf_child ns i j Hwf Hq Hl). split_and!; [lia|lia|].
    eapply rtc_r; [exact Hr|]. exists (node ns i). split; [by apply list_lookup_lookup_total_lt|done]. }
  destruct (collect_list fuel (children (node ns i)) (collect_field reg s (node ns i) fields)) as (f2 & E2 & T2 & X2 & C2);
    [intros q _; apply IH|done|done|].
  exists f2. rewrite collect_fields_unfold. split_and!; [done|done|intros k d Hk; auto|].
  intros k j a d [= <-] Hj Hk Hi Hlt Hd. inversion Hj as [|? c ? (n & Hn & Hc) Hcj]; subst.
  - apply X2. by apply C1.
  - apply list_lookup_total_correct in Hn as Hn'. rewrite <- Hn' in Hc.
    eapply (C2 (Some c) Hc c j a d); done.
Qed.

(** The table of the whole graph. *)
Lemma collect_fields_root :
  (root < length ns)%nat ->
  exists fields, collect_fields (length ns) reg s ns (Some root) (replicate 128 None) = Some fields /\
    length fields = 128%nat /\ forall i d, fields !! i = Some (Some d) <-> wants i d.
Proof using Hwf Hfun.
  intros Hr. destruct (collect_all (length ns) (Some root) (replicate 128 None)) as (f & E & [T1 T2] & _ & C).
  - intros i [= <-]. split_and!; [done|done|apply rtc_refl].
  - split; [by rewrite length_replicate|]. intros i d Hi. apply lookup_replicate in Hi. by destruct Hi.
  - exists f. split_and!; [done|done|]. intros i d. split; [apply T2|].
    intros (j & Hj & Hk & Hi & Hlt & Hd). by eapply (C root j i d).
Qed.

End Collect.

(** [max_idx] keeps every descriptor. *)
Lemma max_idx_fold (fields : list (option FieldDescriptor)) (l : list nat) m :
  let g := fun m i => if decide (is_Some (mjoin (fields !! i))) then S i else m in
  NoDup l -> (forall i j l1 l2, l = l1 ++ i :: l2 -> j ∈ l2 -> i < j)%nat -> (forall i, i ∈ l -> m <= i)%nat ->
  (m <= foldl g m l)%nat /\ forall i, i ∈ l -> is_Some (mjoin (fields !! i)) -> (i < foldl g m l)%nat.
Proof.
  intros g Hnd. revert m. induction Hnd as [|i l Hi Hnd IH]; intros m Hs Hm; cbn [foldl].
  - split; [done|]. intros i Hi. by apply not_elem_of_nil in Hi.
  - assert (g m i <= S i)%nat as Hg by (unfold g; case_decide; [lia|]; specialize (Hm i); rewrite elem_of_cons in Hm; lia).
    assert (m <= g m i)%nat as Hg2 by (unfold g; case_decide; [|lia]; specialize (Hm i); rewrite elem_of_cons in Hm; lia).
    destruct (IH (g m i)) as [H1 H2].
    + intros a b l1 l2 E Hb. apply (Hs a b (i :: l1) l2); [by rewrite E|done].
    + intros j Hj. pose proof (Hs i j [] l eq_refl Hj). lia.
    + split; [lia|]. intros j [->|Hj]%elem_of_cons Hd; [|by apply H2].
      unfold g in H1 at 1. rewrite decide_True in H1 by done. lia.
Qed.

Lemma max_idx_above (fields : list (option FieldDescriptor)) i d : (i < 128)%nat -> fields !! i = Some (Some d) -> (i < max_idx fields)%nat.
Proof.
  intros Hi Hd. unfold max_idx. apply (max_idx_fold fields (seq 0 128) 0).
  - apply NoDup_seq.
  - intros a b l1 l2 E Hb. apply list_elem_of_lookup in Hb as [k Hk].
    assert (seq 0 128 !! length l1 = Some a) as Ha by (rewrite E; apply list_lookup_middle; done).
    assert (seq 0 128 !! (length l1 + S k)%nat = Some b) as Hb.
    { rewrite E, lookup_app_r by lia. by replace (length l1 + S k - length l1)%nat with (S k) by lia. }
    apply lookup_seq in Ha, Hb. lia.
  - intros j _. lia.
  - apply elem_of_seq. lia.
  - by rewrite Hd.
Qed.

Lemma max_idx_bound fields : (max_idx fields <= 128)%nat.
Proof.
  unfold max_idx. assert (forall l m, (m <= 128)%nat -> Forall (fun i => i < 128)%nat l ->
    (foldl (fun m i => if decide (is_Some (mjoin (fields !! i))) then S i else m) m l <= 128)%nat) as H.
  { induction l as [|i l IH]; intros m Hm Hl; cbn [foldl]; [done|]. inversion Hl; subst. apply IH; [case_decide; lia|done]. }
  apply H; [lia|]. apply Forall_forall. intros i Hi%elem_of_seq. lia.
Qed.

(** ** Marking and the forest of a graph without SUM *)

Definition denotes (ns : list Node) (i : nat) : Prop := (exists e, denA ns i e) \/ (exists e, denB ns i e).

Lemma denotes_kind ns i : denotes ns i -> kind (node ns i) <> K_SUM.
Proof.
  intros [[e He]|[e He]]; inversion He; subst; rewrite (list_lookup_total_correct _ _ _ H); try congruence.
  destruct op; unfold cmp_kind in *; congruence.
Qed.

Lemma sum_root_denotes ns r : denotes ns r -> sum_root ns r = Some (r, None).
Proof.
  intros Hd. unfold sum_root. destruct (decide (kind (node ns r) = K_ADD)) as [Hk|]; [|done].
  destruct Hd as [[e He]|[e He]]; inversion He; subst;
    match goal with Hn : ns !! r = Some _ |- _ => rewrite (list_lookup_total_correct _ _ _ Hn) in Hk |- * end; try congruence.
  - match goal with Hc : children _ = _, Ha : denA ns ?a _ |- _ =>
      injection Hc as -> _ _; rewrite bind_Some; rewrite decide_False; [done|apply denotes_kind; left; eauto] end.
  - exfalso. destruct op; unfold cmp_kind in *; congruence.
Qed.

Lemma mark_skip_denotes ns r : denotes ns r -> mark_skip_jit r ns = Some ns.
Proof.
  intros Hd. unfold mark_skip_jit. rewrite (sum_root_denotes ns r Hd), bind_Some. cbn [fst snd].
  rewrite decide_False; [done|]. by apply denotes_kind.
Qed.

Lemma extract_forest_denotes ns r : denotes ns r -> extract_forest ns r = Some (mkForest 0 [] []).
Proof.
  intros Hd. unfold extract_forest. rewrite (sum_root_denotes ns r Hd), bind_Some. cbn [fst snd].
  rewrite decide_False; [done|]. by apply denotes_kind.
Qed.
