(* ===== verification/SetExpression.v ===== *)
(** * The engine: compiling an expression

    [set_expression] stores a logic that keeps the promise [LogicSpec]: its
    kernel, its field table and its aggregation yield, for every row, the value
    of the expression. *)

From S2P Require Import Prelude Planes BitSlicer IR A64 Registry Circuits Analyzer ExprCompiler A64Mem.
From S2P Require Import ExprBits ExprCorrect ExprKernel ExprProps ScalarCompiler ScalarCorrect.
From S2P Require Import ScalarKernel ScalarProps KernelCall Rows Aggregate Columns Runner Forest Msl.
From S2P Require Import Engine RunnerCorrect EngineCorrect ForestCorrect.

(** ** The engine's invariant *)

(** Descriptors are registered under their names. *)
Definition registry_ok (reg : SchemaRegistry) : Prop :=
  forall s f d, get_field reg s f = Some d -> name d = f.

Record engine_ok (e : ApexEngine) : Prop := {
  eo_registry : registry_ok (registry_ e);
  eo_pools : ConstPool.wf (const_pools e);
  eo_buffers : buffers_ok 128 (field_buffers_ e)
}.

Lemma first_named_name n fields d : first_named n fields = Some d -> name d = n.
Proof.
  induction fields as [|f fs IH]; cbn [first_named]; [done|].
  destruct (decide (name f = n)); [|done]. by intros [= <-].
Qed.

Lemma register_schema_ok reg s fields : registry_ok reg -> registry_ok (register_schema s fields reg).
Proof.
  intros H s' f d. destruct (decide (s = s')) as [<-|Hne].
  - destruct (reg !! s) eqn:E.
    + intros Hd. apply (H s f). unfold get_field, register_schema in *.
      rewrite emplace_lookup, decide_True, E in Hd by done. by rewrite E.
    + rewrite register_schema_new by done. apply first_named_name.
  - rewrite register_schema_other by done. apply H.
Qed.

(** ** The field table of a compiled graph *)

Section Table.
Variables (reg : SchemaRegistry) (s : string) (ns : list Node) (root : nat).
Hypothesis Hwf : wf_nodes ns.
Hypothesis Hreg : registry_ok reg.
Hypothesis Hroot : (root < length ns)%nat.
(** Indices identify names. *)
Hypothesis Hidx : forall i j, reach ns root i -> reach ns root j ->
  kind (node ns i) = K_LOAD -> kind (node ns j) = K_LOAD ->
  (field_idx (node ns i) = field_idx (node ns j) <-> field_name (node ns i) = field_name (node ns j)).
Hypothesis Hrange : forall i : nat, reach ns root i -> kind (node ns i) = K_LOAD -> 0 <= field_idx (node ns i) < 128.
(** Every field is registered. *)
Hypothesis Hfields : forall i : nat, reach ns root i -> kind (node ns i) = K_LOAD ->
  is_Some (get_field reg s (field_name (node ns i))).

Lemma wants_fun i d d' : wants reg s ns root i d -> wants reg s ns root i d' -> d = d'.
Proof using Hidx.
  intros (j & Hj & Hk & Hi & _ & Hd) (j' & Hj' & Hk' & Hi' & _ & Hd').
  assert (field_name (node ns j) = field_name (node ns j')) as E by (apply Hidx; [done..|congruence]).
  rewrite E in Hd. congruence.
Qed.

Lemma wants_inj i j d : wants reg s ns root i d -> wants reg s ns root j d -> i = j.
Proof using Hreg Hidx.
  intros (a & Ha & Hka & Hi & _ & Hd) (b & Hb & Hkb & Hj & _ & Hd').
  assert (field_name (node ns a) = field_name (node ns b)) as E.
  { rewrite <- (Hreg _ _ _ Hd), <- (Hreg _ _ _ Hd'). done. }
  assert (field_idx (node ns a) = field_idx (node ns b)) by (by apply Hidx). apply Nat2Z.inj. congruence.
Qed.

(** The table the engine stores. *)
Lemma field_table :
  exists fields, collect_fields (length ns) reg s ns (Some root) (replicate 128 None) = Some fields /\
    let table := take (max_idx fields) fields in
    (length table <= 128)%nat /\
    (forall i d, table !! i = Some (Some d) -> exists f, get_field reg s f = Some d) /\
    (forall i j d, table !! i = Some (Some d) -> table !! j = Some (Some d) -> i = j) /\
    (forall i f, node_reads ns root i f -> exists d, table !! i = Some (Some d) /\ get_field reg s f = Some d).
Proof using Hwf Hreg Hroot Hidx Hrange Hfields.
  destruct (collect_fields_root reg s ns root Hwf wants_fun Hroot) as (fields & E & Hl & Hw).
  exists fields. split; [done|]. intros table. subst table. split_and!.
  - rewrite length_take. lia.
  - intros i d Hi. apply lookup_take_Some in Hi as [Hi _]. apply Hw in Hi as (j & _ & _ & _ & _ & Hd). eauto.
  - intros i j d Hi Hj. apply lookup_take_Some in Hi as [Hi _], Hj as [Hj _]. apply Hw in Hi, Hj. by eapply wants_inj.
  - intros i f (j & Hj & Hk & Hi & <-). destruct (Hfields j Hj Hk) as [d Hd]. exists d. split; [|done].
    pose proof (Hrange j Hj Hk). assert (i < 128)%nat as Hlt by lia.
    assert (fields !! i = Some (Some d)) as Hf by (apply Hw; exists j; done).
    rewrite lookup_take_lt; [done|]. by eapply max_idx_above.
Qed.

End Table.

(** ** The promise, from the kernel's *)

Section Promise.
Variables (reg : SchemaRegistry) (s : string) (ns : list Node) (root : nat).
Variables (m : ExecutionMode) (code : list instr) (table : list (option FieldDescriptor)) (a : aggregation).
Hypothesis Hm : m <> GPU_THROUGHPUT.
Hypothesis Hlen : (length table <= 128)%nat.
Hypothesis Hinj : forall i j d, table !! i = Some (Some d) -> table !! j = Some (Some d) -> i = j.
Hypothesis Hreads : forall i f, node_reads ns root i f -> exists d, table !! i = Some (Some d) /\ get_field reg s f = Some d.

(** A boolean expression: its mask is counted. *)
Lemma mask_logic_spec e :
  ag_mask a = true -> slots_in a 32768 ->
  KernelSpec m code (node_reads ns root) (fun rows r _ => r = mask64 (fun q => beval (rows q) e)) ->
  LogicSpec m code table a (get_field reg s) (fun row => Z.b2z (beval row e)).
Proof using Hm Hlen Hinj Hreads.
  intros Ha Hs Hk. split; [done|done|done|done|]. exists (node_reads ns root). split; [done|].
  intros planes scratch rows Hr Hi Hl. destruct (Hk planes scratch rows Hr Hi Hl) as (r & sc & E & Hl' & ->).
  do 2 eexists. split_and!; [exact E|done|]. intros q Hq. unfold row_outcome. rewrite Ha. unfold bitz. by rewrite mask64_bit.
Qed.

(** An arithmetic one: its planes are summed. *)
Lemma planes_logic_spec e :
  ag_mask a = false -> ag_deltas a = [] -> ag_slots a = [] ->
  KernelSpec m code (node_reads ns root)
    (fun rows _ sc => forall b, (b < 64)%nat -> sc !!! b = plane_of (fun q => aeval (rows q) e) b) ->
  LogicSpec m code table a (get_field reg s) (fun row => aeval row e).
Proof using Hm Hlen Hinj Hreads.
  intros Ha Hd Hs Hk. split; [done|done|done| |].
  { split; [by rewrite Hd, Hs|]. rewrite Hs. constructor. }
  exists (node_reads ns root). split; [done|].
  intros planes scratch rows Hr Hi Hl. destruct (Hk planes scratch rows Hr Hi Hl) as (r & sc & E & Hl' & Hp).
  do 2 eexists. split_and!; [exact E|done|]. intros q Hq. unfold row_outcome. rewrite Ha, Hd.
  rewrite (row_value_ext _ (plane_of (fun q => aeval (rows q) e))) by done.
  apply (row_value_plane_of (fun q => aeval (rows q) e)); [done|]. apply aeval_u64. intros f. apply Hr.
Qed.

(** A forest: the masks in the slots are counted with their weights. *)
Lemma forest_logic_spec (bs : list bexp) :
  ag_mask a = false -> ag_deltas a <> [] -> slots_in a 32768 -> length bs = length (ag_deltas a) ->
  KernelSpec m code (node_reads ns root)
    (fun rows _ sc => forall i k b, ag_slots a !! i = Some k -> bs !! i = Some b ->
       sc !!! Z.to_nat k = mask64 (fun q => beval (rows q) b)) ->
  LogicSpec m code table a (get_field reg s)
    (fun row => wrap64 (ag_base a + zsum (length (ag_deltas a)) (fun i =>
       match bs !! i with Some b => Z.b2z (beval row b) * ag_deltas a !!! i | None => 0 end))).
Proof using Hm Hlen Hinj Hreads.
  intros Ha Hd Hs Hbl Hk. split; [done|done|done|done|]. exists (node_reads ns root). split; [done|].
  intros planes scratch rows Hr Hi Hl. destruct (Hk planes scratch rows Hr Hi Hl) as (r & sc & E & Hl' & Hp).
  do 2 eexists. split_and!; [exact E|done|]. intros q Hq. unfold row_outcome. rewrite Ha.
  destruct (ag_deltas a) as [|w ds] eqn:Ed; [done|]. rewrite <- Ed in *. do 2 f_equal.
  apply zsum_ext. intros i Hlt. destruct Hs as [Hsl _].
  destruct (lookup_lt_is_Some_2 (ag_slots a) i) as [k Hk']; [lia|].
  destruct (lookup_lt_is_Some_2 bs i) as [b Hb]; [lia|].
  rewrite (list_lookup_total_correct _ _ _ Hk'), Hb, (Hp i k b Hk' Hb). unfold bitz. by rewrite mask64_bit.
Qed.

End Promise.

(** ** [set_expression] in the bit-sliced mode *)

(** The engine with a logic stored for schema [s]. *)
Definition store_logic (s : string) (L : ExprCompiledLogic) (pools : ConstPool.t) (e : ApexEngine) : ApexEngine :=
  mkEngine (registry_ e) pools (schema_metadata_ e) (compiled_logic_ e) (<[s := L]> (expr_logic_ e))
    (field_buffers_ e) (num_threads_ e).

(** Every field the graph below [r] loads is registered in schema [s]. *)
Definition fields_registered (reg : SchemaRegistry) (s : string) (ns : list Node) (r : nat) : Prop :=
  forall i : nat, reach ns r i -> kind (node ns i) = K_LOAD -> is_Some (get_field reg s (field_name (node ns i))).

Lemma wf_keeps ns ns' :
  length ns' = length ns -> (forall i : nat, keeps (node ns i) (node ns' i)) -> wf_nodes ns -> wf_nodes ns'.
Proof.
  intros Hl Hk Hwf i n Hn. pose proof (lookup_lt_Some _ _ _ Hn) as Hi.
  destruct (Hk i) as ((_ & _ & _ & Hc)%core_eq & _). rewrite (list_lookup_total_correct _ _ _ Hn) in Hc.
  rewrite Hc. apply (Hwf i). apply list_lookup_lookup_total_lt. lia.
Qed.

Lemma reach_keeps_back ns ns' i j :
  length ns' = length ns -> (forall j : nat, keeps (node ns j) (node ns' j)) -> reach ns' i j -> reach ns i j.
Proof.
  intros Hl Hk. induction 1 as [|i k j (n & Hn & Hc) _ IH]; [apply rtc_refl|].
  apply rtc_l with k; [|done]. pose proof (lookup_lt_Some _ _ _ Hn) as Hi.
  exists (node ns i). split; [apply list_lookup_lookup_total_lt; lia|].
  destruct (Hk i) as ((_ & _ & _ & Hch)%core_eq & _). rewrite (list_lookup_total_correct _ _ _ Hn) in Hch. by rewrite <- Hch.
Qed.

(** The table and the stored logic, for a pool [ns0] the marking left. *)
Lemma set_expression_sliced s r ns ns0 e ns1 pools1 code f :
  engine_ok e -> wf_nodes ns -> (r < length ns)%nat ->
  mark_skip_jit r ns = Some ns0 -> wf_nodes ns0 -> length ns0 = length ns ->
  fields_registered (registry_ e) s ns0 r ->
  compile_expression (Some r) 64 ns0 (const_pools e) = (ns1, pools1, Kernel code) ->
  extract_forest ns1 r = Some f ->
  exists table,
    set_expression s (Some r) BIT_SLICED (ns, e) =
      Some (ns1, store_logic s (mkExprLogic code table BIT_SLICED (result_kind (node ns1 r)) ""
                   (base_sum f) (delta_weights f) (masks_to_popcount f) 64) pools1 e) /\
    (length table <= 128)%nat /\
    (forall i d, table !! i = Some (Some d) -> exists f, get_field (registry_ e) s f = Some d) /\
    (forall i j d, table !! i = Some (Some d) -> table !! j = Some (Some d) -> i = j) /\
    (forall i f, node_reads ns1 r i f -> exists d, table !! i = Some (Some d) /\ get_field (registry_ e) s f = Some d) /\
    result_kind (node ns1 r) = result_of (kind (node ns1 r)) /\ ConstPool.wf pools1.
Proof.
  intros He Hwf Hr Hmark Hwf0 Hl0 Hreg Hcomp Hf.
  destruct (compile_expression_layout r 64 ns0 (const_pools e) ns1 pools1 code Hwf0 ltac:(lia) (eo_pools _ He) Hcomp)
    as (all & ini & body & c & Hlay & Hall & Hlen & Hk & Hp & _).
  assert (forall j, reach ns1 r j -> j ∈ all) as Hin by (intros j Hj; apply Hall; eapply reach_keeps_back; done).
  assert (forall j : nat, kind (node ns1 j) = kind (node ns0 j) /\ field_name (node ns1 j) = field_name (node ns0 j)) as Hkf
    by (intros j; destruct (Hk j) as ((-> & -> & _)%core_eq & _); done).
  destruct (field_table (registry_ e) s ns1 r) as (fields & Ec & Ht1 & Ht2 & Ht3 & Ht4).
  - by eapply wf_keeps.
  - apply He.
  - lia.
  - intros i j Hi Hj. apply (ly_inj _ _ Hlay); auto.
  - intros i Hi. apply (ly_idx _ _ Hlay); auto.
  - intros i Hi Hkl. destruct (Hkf i) as [E1 ->]. apply Hreg; [by eapply reach_keeps_back|congruence].
  - exists (take (max_idx fields) fields). split_and!; [|done..|by apply (ly_result _ _ Hlay), Hin, rtc_refl|done].
    unfold set_expression. destruct (analyze_bits_total ns (length ns) (Some r) 0 Hwf) as [b Eb]; [by intros i [= <-]|].
    rewrite Eb, bind_Some. cbn [prepare_nodes compile_for]. rewrite Hmark, bind_Some, Hcomp, Ec, bind_Some, Hf, bind_Some.
    reflexivity.
Qed.

Lemma store_logic_ok s L pools e : engine_ok e -> ConstPool.wf pools -> engine_ok (store_logic s L pools e).
Proof. intros [H1 H2 H3] Hp. by split. Qed.

Section Denoting.
Variables (s : string) (r : nat) (ns : list Node) (e : ApexEngine).
Variables (ns1 : list Node) (pools1 : ConstPool.t) (code : list instr).
Hypothesis He : engine_ok e.
Hypothesis Hwf : wf_nodes ns.
Hypothesis Hclean : clean ns r.
Hypothesis Hreg : fields_registered (registry_ e) s ns r.
Hypothesis Hcomp : compile_expression (Some r) 64 ns (const_pools e) = (ns1, pools1, Kernel code).

(** A graph without SUM: nothing is marked, the forest is empty. *)
Lemma set_expression_denoting :
  denotes ns r ->
  exists table,
    let L := mkExprLogic code table BIT_SLICED (result_kind (node ns1 r)) "" 0 [] [] 64 in
    set_expression s (Some r) BIT_SLICED (ns, e) = Some (ns1, store_logic s L pools1 e) /\
    (length table <= 128)%nat /\
    (forall i d, table !! i = Some (Some d) -> exists f, get_field (registry_ e) s f = Some d) /\
    (forall i j d, table !! i = Some (Some d) -> table !! j = Some (Some d) -> i = j) /\
    (forall i f, node_reads ns1 r i f -> exists d, table !! i = Some (Some d) /\ get_field (registry_ e) s f = Some d) /\
    result_kind (node ns1 r) = result_of (kind (node ns1 r)) /\ ConstPool.wf pools1 /\ denotes ns1 r.
Proof using He Hwf Hreg Hcomp.
  intros Hd. pose proof (den_lt ns r Hd) as Hr.
  destruct (compile_expression_layout r 64 ns (const_pools e) ns1 pools1 code Hwf Hr (eo_pools _ He) Hcomp)
    as (all & ini & body & c & _ & _ & Hlen & Hk & _).
  assert (denotes ns1 r) as Hd1.
  { destruct (den_core ns ns1) as [HA HB].
    { intros i n Hn. destruct (keeps_lookup ns ns1 i n Hlen Hk Hn) as (n' & Hn' & Hc & _). eauto. }
    destruct Hd as [[x Hx]|[x Hx]]; [left|right]; eauto. }
  destruct (set_expression_sliced s r ns ns e ns1 pools1 code (mkForest 0 [] [])) as (table & H); try done.
  - by apply mark_skip_denotes.
  - by apply extract_forest_denotes.
  - exists table. cbn [base_sum delta_weights masks_to_popcount] in H. cbv zeta.
    destruct H as (H1 & H2 & H3 & H4 & H5 & H6 & H7). done.
Qed.

Lemma kind_result e1 : denB ns1 r e1 -> result_of (kind (node ns1 r)) = BITMASK.
Proof.
  intros H. inversion H; subst; rewrite (list_lookup_total_correct _ _ _ H0), H1; try done. by destruct op.
Qed.

Lemma kind_result_plane e1 : denA ns1 r e1 -> result_of (kind (node ns1 r)) = BITPLANE.
Proof. intros H. inversion H; subst; rewrite (list_lookup_total_correct _ _ _ H0), H1; done. Qed.

End Denoting.

Lemma den_compiled ns r pools ns1 pools1 code :
  wf_nodes ns -> (r < length ns)%nat -> ConstPool.wf pools ->
  compile_expression (Some r) 64 ns pools = (ns1, pools1, Kernel code) ->
  (forall i x, denA ns i x -> denA ns1 i x) /\ (forall i x, denB ns i x -> denB ns1 i x).
Proof.
  intros Hwf Hr Hp Hcomp.
  destruct (compile_expression_layout r 64 ns pools ns1 pools1 code Hwf Hr Hp Hcomp)
    as (all & ini & body & c & _ & _ & Hlen & Hk & _).
  apply den_core. intros i n Hn. destruct (keeps_lookup ns ns1 i n Hlen Hk Hn) as (n' & Hn' & Hc & _). eauto.
Qed.

(** A boolean expression. *)
Lemma set_expression_mask_logic s r ns e ns1 pools1 code b :
  engine_ok e -> wf_nodes ns -> clean ns r -> denB ns r b -> no_subB b = true ->
  fields_registered (registry_ e) s ns r ->
  compile_expression (Some r) 64 ns (const_pools e) = (ns1, pools1, Kernel code) ->
  exists L, set_expression s (Some r) BIT_SLICED (ns, e) = Some (ns1, store_logic s L pools1 e) /\
    ec_mode L = BIT_SLICED /\ ec_active_bits L = 64 /\
    LogicSpec (ec_mode L) (ec_kernel L) (ec_fields L) (logic_aggregation L) (get_field (registry_ e) s)
      (fun row => Z.b2z (beval row b)) /\
    (forall i d, ec_fields L !! i = Some (Some d) -> exists f, get_field (registry_ e) s f = Some d) /\
    engine_ok (store_logic s L pools1 e).
Proof.
  intros He Hwf Hcl Hb Hns Hreg Hcomp.
  pose proof (or_intror (ex_intro _ b Hb) : denotes ns r) as Hd. pose proof (den_lt ns r Hd) as Hr.
  destruct (set_expression_denoting s r ns e ns1 pools1 code He Hwf Hreg Hcomp Hd)
    as (table & E & H1 & H2 & H3 & H4 & H5 & H6 & _).
  destruct (den_compiled ns r (const_pools e) ns1 pools1 code Hwf Hr (eo_pools _ He) Hcomp) as [_ HB].
  eexists. split; [exact E|]. cbn [ec_mode ec_active_bits ec_kernel ec_fields]. split_and!; [done|done| |done|by apply store_logic_ok].
  apply (mask_logic_spec (registry_ e) s ns1 r); [done|done|done|done| |by split|].
  - apply bool_decide_eq_true_2. cbn [ec_result_kind]. rewrite H5. by eapply kind_result, HB.
  - by apply (mask_kernel_spec r ns (const_pools e) ns1 pools1 code Hwf (eo_pools _ He) Hr Hcomp).
Qed.

(** An arithmetic one. *)
Lemma set_expression_planes_logic s r ns e ns1 pools1 code a :
  engine_ok e -> wf_nodes ns -> clean ns r -> denA ns r a -> no_subA a = true -> is_leaf (kind (node ns r)) = false ->
  fields_registered (registry_ e) s ns r ->
  compile_expression (Some r) 64 ns (const_pools e) = (ns1, pools1, Kernel code) ->
  exists L, set_expression s (Some r) BIT_SLICED (ns, e) = Some (ns1, store_logic s L pools1 e) /\
    ec_mode L = BIT_SLICED /\ ec_active_bits L = 64 /\
    LogicSpec (ec_mode L) (ec_kernel L) (ec_fields L) (logic_aggregation L) (get_field (registry_ e) s)
      (fun row => aeval row a) /\
    (forall i d, ec_fields L !! i = Some (Some d) -> exists f, get_field (registry_ e) s f = Some d) /\
    engine_ok (store_logic s L pools1 e).
Proof.
  intros He Hwf Hcl Ha Hns Hlf Hreg Hcomp.
  pose proof (or_introl (ex_intro _ a Ha) : denotes ns r) as Hd. pose proof (den_lt ns r Hd) as Hr.
  destruct (set_expression_denoting s r ns e ns1 pools1 code He Hwf Hreg Hcomp Hd)
    as (table & E & H1 & H2 & H3 & H4 & H5 & H6 & _).
  destruct (den_compiled ns r (const_pools e) ns1 pools1 code Hwf Hr (eo_pools _ He) Hcomp) as [HA _].
  eexists. split; [exact E|]. cbn [ec_mode ec_active_bits ec_kernel ec_fields]. split_and!; [done|done| |done|by apply store_logic_ok].
  apply (planes_logic_spec (registry_ e) s ns1 r); [done|done|done|done| |done|done|].
  - apply bool_decide_eq_false_2. cbn [ec_result_kind]. rewrite H5. erewrite kind_result_plane by (by apply HA). done.
  - by apply (planes_kernel_spec r ns (const_pools e) ns1 pools1 code Hwf (eo_pools _ He) Hr Hcomp).
Qed.
