(* ===== verification/ForestLogic.v ===== *)
(** * The engine: a forest

    [SUM] of decision trees' leaves, the shape the engine evaluates itself: every
    operand is [SELECT cond const const], or a boolean expression with a
    weight, possibly with a constant added to the sum.  The kernel leaves the
    masks of the conditions in their slots; the stored logic computes, on
    every row, the constant plus each tree's value. *)

From S2P Require Import Prelude Planes BitSlicer IR A64 Registry Circuits Analyzer ExprCompiler A64Mem.
From S2P Require Import ExprBits ExprCorrect ExprKernel ExprProps KernelCall Rows Aggregate Columns.
From S2P Require Import Runner Forest Msl Engine RunnerCorrect EngineCorrect ForestCorrect SetExpression.

(** ** Forests *)

(** A tree: its condition and its values where the condition holds and where
    it does not. *)
Abbreviation tree := (bexp * Z * Z)%type.

Definition const_node (ns : list Node) (i : nat) (v : Z) : Prop :=
  exists n, ns !! i = Some n /\ kind n = K_CONST /\ const_value n = v /\ children n = [None; None; None].

(** Operand [op] of the SUM denotes tree [t]. *)
Inductive denT (ns : list Node) : ptr -> tree -> Prop :=
  | denT_select o n c l r b tv fv :
      ns !! o = Some n -> kind n = K_SELECT -> children n = [Some l; Some r; Some c] ->
      denB ns c b -> const_node ns l tv -> const_node ns r fv -> denT ns (Some o) (b, tv, fv)
  | denT_mask o b : denB ns o b -> denT ns (Some o) (b, weight (node ns o), 0).

(** The node whose mask the tree counts. *)
Definition mask_of (ns : list Node) (op : ptr) : nat :=
  match op with
  | Some o => if decide (kind (node ns o) = K_SELECT) then default 0%nat (cond (node ns o)) else o
  | None => 0%nat
  end.

(** The nodes the engine keeps for itself. *)
Definition is_marked (ns : list Node) (r sn i : nat) : Prop :=
  i = r \/ i = sn \/ (Some i ∈ operands (node ns sn) /\ kind (node ns i) = K_SELECT).

#[export] Instance is_marked_dec ns r sn i : Decision (is_marked ns r sn i).
Proof. unfold is_marked. apply _. Defined.

(** The graph of [SUM trees] or [SUM trees + const]. *)
Record forest_graph (ns : list Node) (r sn : nat) (c : option nat) (trees : list tree) : Prop := {
  fg_root : (c = None /\ r = sn) \/
    (exists k v, c = Some k /\ kind (node ns r) = K_ADD /\ children (node ns r) = [Some sn; Some k; None] /\ const_node ns k v);
  fg_sum : kind (node ns sn) = K_SUM;
  fg_children : children (node ns sn) = None :: None :: None :: operands (node ns sn);
  fg_trees : Forall2 (denT ns) (operands (node ns sn)) trees;
  fg_closed : forall i j, reach ns r i -> ~ is_marked ns r sn i -> Some j ∈ children (node ns i) -> ~ is_marked ns r sn j
}.

(** The value of the constant node, and of the forest on a row. *)
Definition base_of (ns : list Node) (c : option nat) : Z :=
  match c with Some k => wrap64 (const_value (node ns k)) | None => 0 end.

Fixpoint trees_value (trees : list tree) (row : string -> Z) : Z :=
  match trees with
  | [] => 0
  | (b, tv, fv) :: ts => (if beval row b then tv else fv) + trees_value ts row
  end.

Lemma denB_shape ns i b : denB ns i b -> kind (node ns i) <> K_SELECT /\ kind (node ns i) <> K_SUM /\ is_leaf (kind (node ns i)) = false.
Proof.
  intros H. inversion H; subst; rewrite (list_lookup_total_correct _ _ _ H0), H1; try done. by destruct op.
Qed.

Lemma denB_not_add ns i b : denB ns i b -> kind (node ns i) <> K_ADD.
Proof.
  intros H. inversion H; subst; rewrite (list_lookup_total_correct _ _ _ H0), H1; try done. by destruct op.
Qed.

Lemma denT_mask_of ns op t : denT ns op t -> exists o, op = Some o /\ denB ns (mask_of ns op) t.1.1.
Proof.
  intros H. inversion H; subst; (eexists; split; [reflexivity|]); unfold mask_of.
  - rewrite (list_lookup_total_correct _ _ _ H0), decide_True by done. by injection H2 as _ _ -> _.
  - by rewrite decide_False by (by eapply denB_shape).
Qed.

(** ** Marking *)

Section Marking.
Variables (ns : list Node) (r sn : nat) (c : option nat) (trees : list tree).
Hypothesis Hg : forest_graph ns r sn c trees.

Lemma sum_root_forest (ns' : list Node) :
  (forall i : nat, kind (node ns' i) = kind (node ns i) /\ children (node ns' i) = children (node ns i)) ->
  sum_root ns' r = Some (sn, c).
Proof using Hg.
  intros Hk. unfold sum_root. destruct (fg_root _ _ _ _ _ Hg) as [[-> ->]|(k & v & -> & Ha & Hc & n & Hn & Hkn & _)].
  - destruct (Hk sn) as [-> _]. rewrite decide_False by (rewrite (fg_sum _ _ _ _ _ Hg); done). done.
  - destruct (Hk r) as [-> Hch]. rewrite decide_True by done. rewrite Hc in Hch. injection Hch as -> -> _ _.
    rewrite bind_Some. destruct (Hk sn) as [-> _]. rewrite decide_True by apply Hg. rewrite bind_Some.
    destruct (Hk k) as [-> _]. by rewrite decide_True by (by rewrite (list_lookup_total_correct _ _ _ Hn)).
Qed.

(** [ns0] is the pool with the nodes of [l] marked. *)
Definition marks (ns0 : list Node) (l : list nat) : Prop :=
  length ns0 = length ns /\ forall i, (i < length ns)%nat ->
    node ns0 i = if decide (i ∈ l) then set_skip_jit true (node ns i) else node ns i.

Lemma marks_skip ns0 l k : marks ns0 l -> marks (skip k ns0) (k :: l).
Proof.
  intros [Hl Hp]. split; [by unfold skip; rewrite length_alter|]. intros i Hi. unfold skip.
  destruct (decide (i = k)) as [->|Hne].
  - rewrite (decide_True (P := k ∈ k :: l)) by (by left).
    rewrite (list_lookup_total_correct (alter _ k ns0) k (set_skip_jit true (node ns0 k))).
    + rewrite Hp by done. case_decide; [by destruct (node ns k)|done].
    + rewrite list_lookup_alter_eq, list_lookup_lookup_total_lt by lia. done.
  - rewrite list_lookup_total_alt, list_lookup_alter_ne, <- list_lookup_total_alt, Hp by done.
    destruct (decide (i ∈ l)); [rewrite decide_True by (by right)|rewrite decide_False by (by intros [?|?]%elem_of_cons)]; done.
Qed.

Lemma marks_kind ns0 l (i : nat) : marks ns0 l ->
  core (node ns0 i) = core (node ns i) /\ weight (node ns0 i) = weight (node ns i) /\
  eq_slot_id (node ns0 i) = eq_slot_id (node ns i).
Proof.
  intros [Hl Hp]. destruct (decide (i < length ns)%nat) as [Hi|Hi].
  - rewrite Hp by done. case_decide; done.
  - rewrite !list_lookup_total_alt, !lookup_ge_None_2 by lia. done.
Qed.

(** The loop over the operands. *)
Lemma marks_operands ops ns0 l :
  marks ns0 l -> (forall p, p ∈ ops -> exists o, p = Some o) ->
  exists ns1 l1, mfold (fun op ns => o ← op; Some (if decide (kind (node ns o) = K_SELECT) then skip o ns else ns)) ops ns0 = Some ns1 /\
    marks ns1 l1 /\ forall i, i ∈ l1 <-> i ∈ l \/ (Some i ∈ ops /\ kind (node ns i) = K_SELECT).
Proof.
  revert ns0 l. induction ops as [|p ops IH]; intros ns0 l Hm Ho.
  - exists ns0, l. split_and!; [done|done|]. intros i. rewrite elem_of_nil. tauto.
  - destruct (Ho p) as [o ->]; [by left|]. cbn [mfold]. rewrite bind_Some, bind_Some.
    destruct (marks_kind ns0 l o Hm) as ((Ek & _)%core_eq & _). rewrite Ek.
    destruct (decide (kind (node ns o) = K_SELECT)) as [Hk|Hk].
    + destruct (IH (skip o ns0) (o :: l)) as (ns1 & l1 & E & Hm1 & Hl1); [by apply marks_skip|intros q Hq; apply Ho; by right|].
      exists ns1, l1. split_and!; [done|done|]. intros i. rewrite Hl1, !elem_of_cons. naive_solver.
    + destruct (IH ns0 l) as (ns1 & l1 & E & Hm1 & Hl1); [done|intros q Hq; apply Ho; by right|].
      exists ns1, l1. split_and!; [done|done|]. intros i. rewrite Hl1, !elem_of_cons. naive_solver.
Qed.

Lemma operands_some p : p ∈ operands (node ns sn) -> exists o, p = Some o.
Proof using Hg.
  intros Hp. apply list_elem_of_lookup in Hp as [k Hk].
  destruct (Forall2_lookup_l _ _ _ k p (fg_trees _ _ _ _ _ Hg) Hk) as (t & _ & Ht). destruct (denT_mask_of _ _ _ Ht) as (o & -> & _).
  by exists o.
Qed.

(** The engine marks the root, the SUM, its SELECT operands and the constant. *)
Lemma mark_skip_forest :
  exists ns0 l, mark_skip_jit r ns = Some ns0 /\ marks ns0 l /\
    forall i, i ∈ l <-> is_marked ns r sn i \/ c = Some i.
Proof using Hg.
  unfold mark_skip_jit. rewrite (sum_root_forest ns) by done. rewrite bind_Some.
  set (ns1 := match c with Some c => skip c (skip r ns) | None => ns end).
  assert (exists l1, marks ns1 l1 /\ forall i, i ∈ l1 <-> (c = Some i \/ (is_Some c /\ i = r))) as (l1 & Hm1 & Hl1).
  { assert (marks ns []) as H0 by (by split).
    subst ns1. destruct c as [k|].
    - exists [k; r]. split; [by do 2 apply marks_skip|]. intros i. rewrite !elem_of_cons, elem_of_nil.
      split; [intros [->|[->|[]]]; eauto|intros [[= ->]|[_ ->]]; auto].
    - exists []. split; [done|]. intros i. rewrite elem_of_nil. split; [done|]. intros [?|[[? ?] _]]; done. }
  destruct (marks_kind ns1 l1 sn Hm1) as ((-> & _ & _ & Ech)%core_eq & _).
  rewrite decide_True by apply Hg.
  assert (operands (node ns1 sn) = operands (node ns sn)) as -> by (unfold children in Ech; by injection Ech).
  destruct (marks_operands (operands (node ns sn)) (skip sn ns1) (sn :: l1)) as (ns2 & l2 & E & Hm2 & Hl2).
  { by apply marks_skip. }
  { apply operands_some. }
  exists ns2, l2. split_and!; [done|done|]. intros i. rewrite Hl2, elem_of_cons, Hl1. unfold is_marked.
  destruct (fg_root _ _ _ _ _ Hg) as [[-> ->]|(k & v & -> & _)].
  - split; [intros [[->|[?|[[? ?] _]]]|?]; auto; done|intros [[->|[->|?]]|?]; auto; done].
  - split; [intros [[->|[?|[_ ->]]]|?]; auto|intros [[->|[->|?]]|?]; eauto].
Qed.

(** ** The kernel's graph *)

Lemma forest_reach_lt i : wf_nodes ns -> (r < length ns)%nat -> reach ns r i -> (i < length ns)%nat.
Proof. intros Hwf Hr Hi. pose proof (reach_le ns r i Hwf Hi). lia. Qed.

Lemma const_denotes i v : const_node ns i v -> denA ns i (AConst v).
Proof. intros (n & Hn & Hk & <- & Hc). by apply (denA_const _ _ _ Hn). Qed.

Lemma select_child o j : Some o ∈ operands (node ns sn) -> child ns o j -> denotes ns o \/ denotes ns j.
Proof using Hg.
  intros Ho (n & Hn & Hc). apply list_elem_of_lookup in Ho as [k Hk].
  destruct (Forall2_lookup_l _ _ _ k _ (fg_trees _ _ _ _ _ Hg) Hk) as (t & _ & Ht).
  inversion Ht as [o' n' c' l' r' b tv fv Hn' Hkn Hch Hb Hl Hr|o' b Hb]; subst.
  - simplify_eq. right. rewrite Hch, !elem_of_cons, elem_of_nil in Hc.
    destruct Hc as [[= ->]|[[= ->]|[[= ->]|[]]]]; [left|left|right]; eauto using const_denotes.
  - left. right. eauto.
Qed.

(** Every node below the root is kept by the engine, is the constant, or denotes. *)
Lemma forest_reach i : reach ns r i -> is_marked ns r sn i \/ denotes ns i.
Proof using Hg.
  revert i. apply (rtc_ind_r (fun i => is_marked ns r sn i \/ denotes ns i) r); [left; by left|].
  intros i j Hi Hc IH.
  destruct IH as [Hm|Hd]; [|right; by eapply den_child].
  assert (child ns sn j -> is_marked ns r sn j \/ denotes ns j) as Hsn.
  { intros (n & Hn & Hch). rewrite <- (list_lookup_total_correct _ _ _ Hn), (fg_children _ _ _ _ _ Hg), !elem_of_cons in Hch.
    destruct Hch as [?|[?|[?|Hop]]]; try done. apply list_elem_of_lookup in Hop as Hop'. destruct Hop' as [k Hk].
    destruct (Forall2_lookup_l _ _ _ k _ (fg_trees _ _ _ _ _ Hg) Hk) as (t & _ & Ht).
    inversion Ht as [o' n' c' l' r' b tv fv Hn' Hkn|o' b Hb]; subst; [left|right; right; eauto].
    right; right. split; [done|]. by rewrite (list_lookup_total_correct _ _ _ Hn'). }
  destruct Hm as [->|[->|[Ho Hk]]].
  - destruct (fg_root _ _ _ _ _ Hg) as [[_ Er]|(k & v & Ec & _ & Hch & Hv)]; [rewrite Er in Hc; by apply Hsn|].
    destruct Hc as (n & Hn & Hc). rewrite <- (list_lookup_total_correct _ _ _ Hn), Hch, !elem_of_cons, elem_of_nil in Hc.
    destruct Hc as [[= ->]|[[= ->]|[?|[]]]]; [left; right; by left| |done].
    right; left. eexists. by apply const_denotes.
  - by apply Hsn.
  - destruct (select_child i j Ho Hc) as [Hd|Hd]; right; [by eapply den_child|done].
Qed.

End Marking.

(** ** The weights and slots the engine extracts *)

Lemma compile_weight r ns pools ns1 pools1 code (i : nat) :
  wf_nodes ns -> (r < length ns)%nat -> ConstPool.wf pools ->
  compile_expression (Some r) 64 ns pools = (ns1, pools1, Kernel code) -> weight (node ns1 i) = weight (node ns i).
Proof.
  intros Hwf Hr Hp H. apply compile_expression_inv in H as (nsa & an & ini & body & c & Ea & H).
  cbv zeta in H. destruct H as (Hf & Ha & -> & _).
  destruct (analyze_init ns r Hwf Hr) as (st & Ea' & I & _). rewrite Ea in Ea'. injection Ea' as <-.
  destruct (passes_inv ns nsa an pools I Hp Hf Ha) as (Fi & _ & _ & Hc & Hal).
  destruct (av_slotted _ _ _ _ Hal i) as (s & e & k & -> & _). destruct (Hc i) as [[w ->] _].
  destruct (fi_indexed _ _ _ Fi i) as [v ->]. by destruct (analysis_analyzed ns nsa an I i) as (x & y & ->).
Qed.

(** [d] is the weight of a tree, modulo 2^64. *)
Definition delta_of (t : tree) (d : Z) : Prop := wrap64 d = wrap64 (t.1.2 - t.2).

Definition sum_false (trees : list tree) : Z := foldr (fun t x => t.2 + x) 0 trees.

Lemma extract_operands ns ns1 ops trees f :
  (forall i : nat, core (node ns1 i) = core (node ns i) /\ weight (node ns1 i) = weight (node ns i)) ->
  Forall2 (denT ns) ops trees ->
  exists f1 ds ks, mfold (sum_operand ns1) ops f = Some f1 /\
    delta_weights f1 = delta_weights f ++ ds /\ masks_to_popcount f1 = masks_to_popcount f ++ ks /\
    wrap64 (base_sum f1) = wrap64 (base_sum f + sum_false trees) /\
    Forall2 delta_of trees ds /\ Forall2 (fun op k => k = slot_id (node ns1 (mask_of ns op))) ops ks.
Proof.
  intros Hc Ht. revert f. induction Ht as [|op t ops trees Hop Ht IH]; intros f.
  - exists f, [], []. rewrite !app_nil_r, Z.add_0_r. done.
  - assert (exists f0 d k, sum_operand ns1 op f = Some f0 /\ delta_weights f0 = delta_weights f ++ [d] /\
      masks_to_popcount f0 = masks_to_popcount f ++ [k] /\ wrap64 (base_sum f0) = wrap64 (base_sum f + t.2) /\
      delta_of t d /\ k = slot_id (node ns1 (mask_of ns op))) as (f0 & d & k & E & Ed & Ek & Eb & Hd & Hk).
    { inversion Hop as [o n c l r b tv fv Hn Hkn Hch Hb Hl Hr|o b Hb]; subst; unfold sum_operand; rewrite bind_Some;
        destruct (Hc o) as ((Ko & _ & _ & Co)%core_eq & Wo); rewrite Ko.
      - rewrite (list_lookup_total_correct _ _ _ Hn), Hkn in *. rewrite decide_True by done.
        assert (forall j x, const_node ns j x -> const_arm ns1 (Some j) = Some x) as Harm.
        { intros j x (m & Hm & Hkm & <- & _). unfold const_arm. rewrite bind_Some.
          destruct (Hc j) as ((-> & _ & -> & _)%core_eq & _). by rewrite (list_lookup_total_correct _ _ _ Hm), decide_True. }
        rewrite Hch in Co. injection Co as Cl Cr Cc _. rewrite Cc, bind_Some, Cl, Cr, (Harm _ _ Hl), (Harm _ _ Hr). cbn [default].
        eexists _, _, _. split_and!; [done|done|done| | |].
        + cbn. by rewrite wrap64_idemp.
        + unfold delta_of. cbn. apply wrap64_idemp.
        + unfold mask_of. rewrite (list_lookup_total_correct _ _ _ Hn), decide_True by done.
          by injection Hch as _ _ -> _.
      - destruct (denB_shape _ _ _ Hb) as [Hk _]. rewrite decide_False by done.
        eexists _, _, _. split_and!; [done|done|done| | |].
        + cbn. by rewrite Z.add_0_r.
        + unfold delta_of. cbn. by rewrite Wo, Z.sub_0_r.
        + unfold mask_of. by rewrite decide_False. }
    destruct (IH f0) as (f1 & ds & ks & E1 & Ed1 & Ek1 & Eb1 & Hds & Hks).
    exists f1, (d :: ds), (k :: ks). cbn [mfold]. rewrite E, bind_Some. split_and!; [done| | | | |].
    + by rewrite Ed1, Ed, <- app_assoc.
    + by rewrite Ek1, Ek, <- app_assoc.
    + rewrite Eb1, <- wrap64_idemp_add_l, Eb, wrap64_idemp_add_l. f_equal. unfold sum_false. cbn [foldr]. lia.
    + by constructor.
    + by constructor.
Qed.

(** The forest the engine extracts from a pool that differs from [ns] in its
    annotations only. *)
Lemma extract_forest_graph ns r sn c trees ns1 :
  forest_graph ns r sn c trees ->
  (forall i : nat, core (node ns1 i) = core (node ns i) /\ weight (node ns1 i) = weight (node ns i)) ->
  exists f, extract_forest ns1 r = Some f /\
    wrap64 (base_sum f) = wrap64 (base_of ns c + sum_false trees) /\ Forall2 delta_of trees (delta_weights f) /\
    Forall2 (fun op k => k = slot_id (node ns1 (mask_of ns op))) (operands (node ns sn)) (masks_to_popcount f).
Proof.
  intros Hg Hk.
  destruct (extract_operands ns ns1 (operands (node ns sn)) trees (mkForest (base_of ns c) [] []) Hk (fg_trees _ _ _ _ _ Hg))
    as (f & ds & ks & Ef & Ed & Ek & Eb & Hds & Hks).
  exists f. cbn [delta_weights masks_to_popcount base_sum app] in *. rewrite Ed, Ek. split_and!; [|done..].
  unfold extract_forest. rewrite (sum_root_forest ns r sn c trees Hg ns1), bind_Some.
  2:{ intros i. destruct (Hk i) as ((-> & _ & _ & ->)%core_eq & _). done. }
  destruct (Hk sn) as ((-> & _ & _ & Hch)%core_eq & _). rewrite decide_True by apply Hg.
  assert (operands (node ns1 sn) = operands (node ns sn)) as -> by (unfold children in Hch; by injection Hch).
  replace (match c with Some c0 => wrap64 (const_value (node ns1 c0)) | None => 0 end) with (base_of ns c); [exact Ef|].
  clear -Hk. unfold base_of. destruct c as [k|]; [|done].
  by destruct (Hk k) as ((_ & _ & -> & _)%core_eq & _).
Qed.

Lemma zsum_S_first n f : zsum (S n) f = f 0%nat + zsum n (fun i => f (S i)).
Proof. change (S n) with (1 + n)%nat. rewrite zsum_split. change (0 + f 0%nat + zsum n (fun i => f (S i)) = f 0%nat + zsum n (fun i => f (S i))). lia. Qed.

(** The weighted masks on a row are the trees' values, up to the false arms. *)
Lemma forest_row_value trees ds row :
  Forall2 delta_of trees ds ->
  wrap64 (sum_false trees + zsum (length ds) (fun i =>
    match ((fun t : tree => t.1.1) <$> trees) !! i with Some b => Z.b2z (beval row b) * ds !!! i | None => 0 end)) =
  wrap64 (trees_value trees row).
Proof.
  induction 1 as [|[[b tv] fv] d trees ds Hd _ IH]; [done|].
  cbn [length fmap list_fmap]. rewrite zsum_S_first. cbn [lookup list_lookup fst snd lookup_total list_lookup_total].
  change (sum_false ((b, tv, fv) :: trees)) with (fv + sum_false trees). cbn [trees_value].
  unfold delta_of in Hd. cbn in Hd.
  match type of IH with wrap64 (_ + ?z) = _ => set (zs := z) in IH;
    match goal with |- wrap64 (fv + sum_false trees + (_ + ?z')) = _ => change z' with zs end end.
  rewrite <- (wrap64_idemp_add_r _ (trees_value trees row)), <- IH, wrap64_idemp_add_r.
  destruct (beval row b); cbn [Z.b2z].
  - rewrite Z.mul_1_l. replace (fv + sum_false trees + (d + zs)) with (d + (fv + sum_false trees + zs)) by lia.
    rewrite <- wrap64_idemp_add_l, Hd, wrap64_idemp_add_l. f_equal. lia.
  - f_equal. lia.
Qed.

Lemma logic_spec_ext m code fields a desc f g :
  LogicSpec m code fields a desc f -> (forall row, f row = g row) -> LogicSpec m code fields a desc g.
Proof.
  intros [H1 H2 H3 H4 (reads & Hr & Hk)] Hfg. split; [done..|]. exists reads. split; [done|].
  intros planes scratch rows Hu Hi Hl. destruct (Hk planes scratch rows Hu Hi Hl) as (r & sc & E & L & Hq).
  exists r, sc. split_and!; [done|done|]. intros q Hlt. by rewrite Hq, Hfg.
Qed.

Definition trees_no_sub (trees : list tree) : bool := forallb (fun t => no_subB t.1.1) trees.

Section Kernel.
Variables (ns : list Node) (r sn : nat) (c : option nat) (trees : list tree) (ns0 : list Node) (l : list nat).
Hypothesis Hg : forest_graph ns r sn c trees.
Hypothesis Hwf : wf_nodes ns.
Hypothesis Hr : (r < length ns)%nat.
Hypothesis Hclean : clean ns r.
Hypothesis Hm : marks ns ns0 l.
Hypothesis Hl : forall i, i ∈ l <-> is_marked ns r sn i \/ c = Some i.

Lemma marks_children i : children (node ns0 i) = children (node ns i).
Proof using Hg Hwf Hr Hclean Hm Hl. by destruct (marks_kind ns ns0 l i Hm) as ((_ & _ & _ & ->)%core_eq & _). Qed.

Lemma marks_lookup i : (i < length ns)%nat -> ns0 !! i = Some (node ns0 i) /\ ns !! i = Some (node ns i).
Proof using Hg Hwf Hr Hclean Hm Hl. intros Hi. destruct Hm as [Hlen _]. split; apply list_lookup_lookup_total_lt; lia. Qed.

Lemma marks_wf : wf_nodes ns0.
Proof using Hg Hwf Hr Hclean Hm Hl.
  intros i n Hn. pose proof (lookup_lt_Some _ _ _ Hn) as Hi. destruct Hm as [Hlen _].
  rewrite <- (list_lookup_total_correct _ _ _ Hn), marks_children. apply (Hwf i), list_lookup_lookup_total_lt. lia.
Qed.

Lemma marks_reach i j : reach ns0 i j <-> reach ns i j.
Proof using Hg Hwf Hr Hclean Hm Hl.
  pose proof Hm as [Hlen _].
  split; (induction 1 as [|i k j (n & Hn & Hc) _ IH]; [apply rtc_refl|]; apply rtc_l with k; [|done];
    pose proof (lookup_lt_Some _ _ _ Hn) as Hi; rewrite <- (list_lookup_total_correct _ _ _ Hn) in Hc).
  - exists (node ns i). rewrite <- marks_children. split; [apply list_lookup_lookup_total_lt; lia|done].
  - exists (node ns0 i). rewrite marks_children. split; [apply list_lookup_lookup_total_lt; lia|done].
Qed.

Lemma marks_den : (forall i x, denA ns i x -> denA ns0 i x) /\ (forall i x, denB ns i x -> denB ns0 i x).
Proof using Hg Hwf Hr Hclean Hm Hl.
  apply den_core. intros i n Hn. pose proof (lookup_lt_Some _ _ _ Hn) as Hi.
  exists (node ns0 i). split; [by apply marks_lookup|]. rewrite <- (list_lookup_total_correct _ _ _ Hn).
  apply (marks_kind ns ns0 l i Hm).
Qed.

(** The kept nodes are no leaves; the constant is one. *)
Lemma marked_inner i : is_marked ns r sn i -> is_leaf (kind (node ns i)) = false.
Proof using Hg Hwf Hr Hclean Hm Hl.
  intros [->|[->|[_ ->]]]; [|by rewrite (fg_sum _ _ _ _ _ Hg)|done].
  destruct (fg_root _ _ _ _ _ Hg) as [[_ ->]|(k & v & _ & -> & _)]; [by rewrite (fg_sum _ _ _ _ _ Hg)|done].
Qed.

Lemma const_leaf i : c = Some i -> is_leaf (kind (node ns i)) = true /\ children (node ns i) = [None; None; None].
Proof using Hg Hwf Hr Hclean Hm Hl.
  intros Hc. destruct (fg_root _ _ _ _ _ Hg) as [[-> _]|(k & v & -> & _ & _ & n & Hn & Hk & _ & Hch)]; [done|].
  injection Hc as ->. rewrite (list_lookup_total_correct _ _ _ Hn), Hk. done.
Qed.

Lemma marks_live i : reach ns r i -> live (node ns0 i) = negb (bool_decide (is_marked ns r sn i)).
Proof using Hg Hwf Hr Hclean Hm Hl.
  intros Hi. pose proof (forest_reach_lt ns r i Hwf Hr Hi) as Hlt. unfold live.
  destruct (marks_kind ns ns0 l i Hm) as ((-> & _)%core_eq & _). destruct Hm as [_ Hp]. rewrite Hp by done.
  destruct (Hclean i (node ns i) Hi) as [Hs _]; [by apply list_lookup_lookup_total_lt|].
  destruct (decide (i ∈ l)) as [Hin|Hin]; rewrite Hl in Hin.
  - cbn [skip_jit set_skip_jit negb orb]. destruct Hin as [Hin|Hin].
    + rewrite (bool_decide_eq_true_2 _ Hin). by rewrite marked_inner.
    + destruct (const_leaf i Hin) as [-> _]. rewrite bool_decide_eq_false_2; [done|]. intros Hk%marked_inner.
      destruct (const_leaf i Hin) as [Hk' _]. congruence.
  - rewrite Hs. cbn [negb orb]. rewrite bool_decide_eq_false_2; [done|]. tauto.
Qed.

Lemma forest_kernel_graph : kernel_graph ns0 r.
Proof using Hg Hwf Hr Hclean Hm Hl.
  assert (forall j n, reach ns0 r j -> ns0 !! j = Some n -> n = node ns0 j /\ reach ns r j /\ ns !! j = Some (node ns j)) as Hat.
  { intros j n Hj Hn. apply marks_reach in Hj. split; [by rewrite (list_lookup_total_correct _ _ _ Hn)|].
    split; [done|]. apply marks_lookup. by eapply forest_reach_lt. }
  split.
  - intros j n Hj Hn. destruct (Hat j n Hj Hn) as (-> & Hj' & Hnj).
    destruct (marks_kind ns ns0 l j Hm) as ((-> & _)%core_eq & _ & ->). by apply (Hclean j).
  - intros j n Hj Hn Hlv. destruct (Hat j n Hj Hn) as (-> & Hj' & Hnj). rewrite marks_live in Hlv by done.
    destruct (forest_reach ns r sn c trees Hg j Hj') as [Hk|[[x Hx]|[x Hx]]].
    + by rewrite bool_decide_eq_true_2 in Hlv.
    + left. exists x. by apply marks_den.
    + right. exists x. by apply marks_den.
  - intros i n j m Hi Hn Hlv Hc Hj. destruct (Hat i n Hi Hn) as (-> & Hi' & Hni).
    assert (reach ns0 r j) as Hjr by (eapply rtc_r; [exact Hi|]; by exists (node ns0 i)).
    destruct (Hat j m Hjr Hj) as (-> & Hj' & _). rewrite marks_live in Hlv |- * by done.
    rewrite marks_children in Hc. rewrite bool_decide_eq_false_2; [done|].
    apply (fg_closed _ _ _ _ _ Hg i j Hi'); [|done]. intros Hk. by rewrite bool_decide_eq_true_2 in Hlv.
Qed.

Lemma forest_root_skipped : skip_jit (node ns0 r) = true.
Proof using Hg Hwf Hr Hclean Hm Hl.
  destruct Hm as [_ Hp]. rewrite Hp, decide_True by (done || (apply Hl; left; by left)). done.
Qed.

Lemma mask_unmarked op t : op ∈ operands (node ns sn) -> denT ns op t ->
  reach ns r (mask_of ns op) /\ skip_jit (node ns0 (mask_of ns op)) = false.
Proof using Hg Hwf Hr Hclean Hm Hl.
  intros Hin Ht.
  assert (reach ns r sn) as Hsn.
  { destruct (fg_root _ _ _ _ _ Hg) as [[_ ->]|(k & v & _ & _ & Hch & _)]; [apply rtc_refl|].
    apply rtc_once. exists (node ns r). split; [by apply marks_lookup|]. rewrite Hch. by left. }
  assert (forall o, op = Some o -> reach ns r o) as Hop.
  { intros o ->. eapply rtc_r; [exact Hsn|]. exists (node ns sn). split; [apply marks_lookup; by eapply forest_reach_lt|].
    rewrite (fg_children _ _ _ _ _ Hg), !elem_of_cons. auto. }
  destruct (denT_mask_of ns op t Ht) as (o & -> & Hb). pose proof (Hop o eq_refl) as Ho.
  assert (reach ns r (mask_of ns (Some o))) as Hrm.
  { unfold mask_of in *. destruct (decide (kind (node ns o) = K_SELECT)) as [Hk|]; [|done].
    eapply rtc_r; [exact Ho|]. inversion Ht as [o' n c' l' r' b tv fv Hn Hkn Hch|o' b Hb']; subst;
      [|by destruct (denB_shape _ _ _ Hb') as [? _]].
    exists n. split; [done|]. rewrite (list_lookup_total_correct _ _ _ Hn). unfold children in Hch |- *. injection Hch as -> -> -> _. cbn.
    rewrite !elem_of_cons. auto. }
  split; [done|].
  assert (~ is_marked ns r sn (mask_of ns (Some o))) as Hnm.
  { intros [E|[E|[_ Hk]]].
    - destruct (denB_shape _ _ _ Hb) as (_ & Hs & _). rewrite E in Hb, Hs.
      destruct (fg_root _ _ _ _ _ Hg) as [[_ E']|(k & v & _ & Ha & _)]; [rewrite E' in Hs; by apply Hs, Hg|].
      by apply (denB_not_add _ _ _ Hb).
    - destruct (denB_shape _ _ _ Hb) as (_ & Hs & _). rewrite E in Hs. by apply Hs, Hg.
    - by destruct (denB_shape _ _ _ Hb) as [Hs _]. }
  assert (mask_of ns (Some o) ∉ l) as Hnl.
  { rewrite Hl. intros [?|Hc]; [done|]. destruct (const_leaf _ Hc) as [Hlf _].
    destruct (denB_shape _ _ _ Hb) as (_ & _ & Hlf'). congruence. }
  destruct Hm as [_ Hp]. rewrite Hp, decide_False by (done || by eapply forest_reach_lt).
  apply (Hclean _ _ Hrm), marks_lookup. by eapply forest_reach_lt.
Qed.


(** ** The kernel and the stored logic *)

Variables (s : string) (e : ApexEngine) (ns1 : list Node) (pools1 : ConstPool.t) (code : list instr).
Hypothesis He : engine_ok e.
Hypothesis Hcomp : compile_expression (Some r) 64 ns0 (const_pools e) = (ns1, pools1, Kernel code).

Lemma marks_lt : (r < length ns0)%nat.
Proof using Hr Hm. destruct Hm as [Hlen _]. lia. Qed.

Lemma compiled_core (i : nat) : core (node ns1 i) = core (node ns i) /\ weight (node ns1 i) = weight (node ns i).
Proof using Hg Hwf Hr Hclean Hm Hl He Hcomp.
  destruct (compile_expression_layout r 64 ns0 (const_pools e) ns1 pools1 code marks_wf marks_lt (eo_pools _ He) Hcomp)
    as (all & ini & body & cc & _ & _ & _ & Hk & _).
  destruct (marks_kind ns ns0 l i Hm) as (H1 & H2 & _). destruct (Hk i) as [H3 _].
  split; [congruence|]. rewrite <- H2. apply (compile_weight r ns0 (const_pools e) ns1 pools1 code i marks_wf marks_lt (eo_pools _ He) Hcomp).
Qed.

(** The slot of a tree's mask, and the mask the kernel leaves there. *)
Lemma mask_slot_range op t : op ∈ operands (node ns sn) -> denT ns op t ->
  0 <= slot_id (node ns1 (mask_of ns op)) < 32768.
Proof using Hg Hwf Hr Hclean Hm Hl He Hcomp.
  intros Hin Ht. destruct (mask_unmarked op t Hin Ht) as [Hreach _].
  destruct (compile_expression_layout r 64 ns0 (const_pools e) ns1 pools1 code marks_wf marks_lt (eo_pools _ He) Hcomp)
    as (all & ini & body & cc & Hlay & Hall & _).
  assert (mask_of ns op ∈ all) as Hin' by (by apply Hall, marks_reach).
  destruct (denT_mask_of _ _ _ Ht) as (o & -> & Hb). destruct (compiled_core (mask_of ns (Some o))) as ((Ek & _)%core_eq & _).
  destruct (denB_shape _ _ _ Hb) as (_ & _ & Hlf).
  destruct (ly_slots _ _ Hlay _ Hin') as (H1 & _ & H2 & _); [by rewrite Ek|]. split; [done|]. apply H2.
  rewrite (ly_result _ _ Hlay _ Hin'), Ek. inversion Hb; subst;
    match goal with Hn : ns !! _ = Some _, Hkn : kind _ = _ |- _ => rewrite (list_lookup_total_correct _ _ _ Hn), Hkn end; try done.
  by destruct op.
Qed.

Lemma forest_kernel_masks : trees_no_sub trees = true ->
  KernelSpec BIT_SLICED code (node_reads ns1 r) (fun rows _ sc => forall op t,
    op ∈ operands (node ns sn) -> t ∈ trees -> denT ns op t ->
    sc !!! Z.to_nat (slot_id (node ns1 (mask_of ns op))) = mask64 (fun q => beval (rows q) t.1.1)).
Proof using Hg Hwf Hr Hclean Hm Hl He Hcomp.
  intros Hns planes scratch rows Hrows Hin Hsl.
  destruct (skipped_kernel_spec r ns0 (const_pools e) ns1 pools1 code marks_wf (eo_pools _ He) marks_lt Hcomp
    forest_kernel_graph forest_root_skipped planes scratch rows Hrows Hin Hsl) as (x & sc & Ec & El & Hp).
  exists x, sc. split_and!; [done|done|]. intros op t Hop Ht Hden.
  destruct (mask_unmarked op t Hop Hden) as [Hreach Hsk]. destruct (denT_mask_of _ _ _ Hden) as (o & -> & HdB).
  apply (Hp _ t.1.1); [by apply marks_reach|by apply marks_den|done|].
  unfold trees_no_sub in Hns. rewrite forallb_forall in Hns. by apply Hns, list_elem_of_In.
Qed.

Lemma forest_extracted :
  exists f, extract_forest ns1 r = Some f /\
    wrap64 (base_sum f) = wrap64 (base_of ns c + sum_false trees) /\ Forall2 delta_of trees (delta_weights f) /\
    Forall2 (fun op k => k = slot_id (node ns1 (mask_of ns op))) (operands (node ns sn)) (masks_to_popcount f).
Proof using Hg Hwf Hr Hclean Hm Hl He Hcomp. by apply extract_forest_graph; [|apply compiled_core]. Qed.

(** The stored logic yields, on every row, the constant plus the sum of the
    trees' values. *)
Lemma forest_promise table f :
  trees <> [] -> trees_no_sub trees = true -> extract_forest ns1 r = Some f ->
  (length table <= 128)%nat ->
  (forall i j d, table !! i = Some (Some d) -> table !! j = Some (Some d) -> i = j) ->
  (forall i f, node_reads ns1 r i f -> exists d, table !! i = Some (Some d) /\ get_field (registry_ e) s f = Some d) ->
  LogicSpec BIT_SLICED code table (mkAggregation false (base_sum f) (delta_weights f) (masks_to_popcount f))
    (get_field (registry_ e) s) (fun row => wrap64 (base_of ns c + trees_value trees row)).
Proof using Hg Hwf Hr Hclean Hm Hl He Hcomp.
  intros Hne Hns Hf T1 T3 T4. destruct forest_extracted as (f' & Hf' & Eb & Hds & Hks).
  rewrite Hf in Hf'. injection Hf' as <-.
  pose proof (Forall2_length _ _ _ Hds) as Hdl. pose proof (Forall2_length _ _ _ Hks) as Hkl.
  pose proof (Forall2_length _ _ _ (fg_trees _ _ _ _ _ Hg)) as Htl.
  assert (forall i k, masks_to_popcount f !! i = Some k -> exists op t, op ∈ operands (node ns sn) /\ trees !! i = Some t /\
    denT ns op t /\ k = slot_id (node ns1 (mask_of ns op))) as Hslot.
  { intros i k Hi. destruct (Forall2_lookup_r _ _ _ i k Hks Hi) as (op & Hop & Hk').
    destruct (Forall2_lookup_l _ _ _ i op (fg_trees _ _ _ _ _ Hg) Hop) as (t & Ht & Hden). exists op, t.
    split_and!; [by eapply list_elem_of_lookup_2|done..]. }
  eapply logic_spec_ext; [apply (forest_logic_spec (registry_ e) s ns1 r BIT_SLICED code table
    (mkAggregation false (base_sum f) (delta_weights f) (masks_to_popcount f)) (ltac:(done)) T1 T3 T4 ((fun t : tree => t.1.1) <$> trees))|].
  - done.
  - cbn [ag_deltas]. intros E. rewrite E in Hdl. by destruct trees.
  - split; [cbn [ag_slots ag_deltas]; lia|]. cbn [ag_slots]. apply Forall_lookup. intros i k Hi.
    destruct (Hslot i k Hi) as (op & t & Hop & _ & Hden & ->). by apply (mask_slot_range op t).
  - rewrite length_fmap. cbn [ag_deltas]. done.
  - intros planes scratch rows Hrows Hin Hsl.
    destruct (forest_kernel_masks Hns planes scratch rows Hrows Hin Hsl) as (x & sc & Ec & El & Hp).
    exists x, sc. split_and!; [done|done|]. intros i k b Hi Hb. cbn [ag_slots] in Hi.
    destruct (Hslot i k Hi) as (op & t & Hop & Ht & Hden & ->).
    rewrite list_lookup_fmap, Ht in Hb. injection Hb as <-. apply Hp; [done| |done]. by eapply list_elem_of_lookup_2.
  - intros row. cbn [ag_base ag_deltas]. rewrite <- wrap64_idemp_add_l, Eb, wrap64_idemp_add_l, <- Z.add_assoc.
    rewrite <- (wrap64_idemp_add_r _ (trees_value trees row)), <- (forest_row_value trees (delta_weights f) row Hds), wrap64_idemp_add_r. done.
Qed.

End Kernel.

(** [set_expression] on a forest. *)
Lemma set_expression_forest_logic s r sn c trees ns ns0 e ns1 pools1 code :
  engine_ok e -> wf_nodes ns -> (r < length ns)%nat -> clean ns r ->
  forest_graph ns r sn c trees -> trees <> [] -> trees_no_sub trees = true ->
  fields_registered (registry_ e) s ns r ->
  mark_skip_jit r ns = Some ns0 ->
  compile_expression (Some r) 64 ns0 (const_pools e) = (ns1, pools1, Kernel code) ->
  exists L, set_expression s (Some r) BIT_SLICED (ns, e) = Some (ns1, store_logic s L pools1 e) /\
    ec_mode L = BIT_SLICED /\ ec_active_bits L = 64 /\
    LogicSpec (ec_mode L) (ec_kernel L) (ec_fields L) (logic_aggregation L) (get_field (registry_ e) s)
      (fun row => wrap64 (base_of ns c + trees_value trees row)) /\
    (forall i d, ec_fields L !! i = Some (Some d) -> exists f, get_field (registry_ e) s f = Some d) /\
    engine_ok (store_logic s L pools1 e).
Proof.
  intros He Hwf Hr Hclean Hg Hne Hns Hreg Hmark Hcomp.
  destruct (mark_skip_forest ns r sn c trees Hg) as (ns0' & l & Hmark' & Hm & Hl).
  rewrite Hmark in Hmark'. injection Hmark' as <-.
  pose proof (marks_wf ns r sn c trees ns0 l Hg Hwf Hr Hclean Hm Hl) as Hwf0. pose proof Hm as [Hl0 _].
  destruct (forest_extracted ns r sn c trees ns0 l Hg Hwf Hr Hclean Hm Hl e ns1 pools1 code He Hcomp)
    as (f & Hf & _).
  destruct (set_expression_sliced s r ns ns0 e ns1 pools1 code f) as (table & E & T1 & T2 & T3 & T4 & T5 & T6); try done.
  { intros i Hi Hkl. destruct (marks_kind ns ns0 l i Hm) as ((E1 & -> & _)%core_eq & _).
    apply Hreg; [by apply (marks_reach ns r sn c trees ns0 l Hg Hwf Hr Hclean Hm Hl)|congruence]. }
  eexists. split; [exact E|]. cbn [ec_mode ec_active_bits ec_kernel ec_fields].
  split_and!; [done|done| |done|by apply store_logic_ok].
  unfold logic_aggregation. cbn [ec_result_kind ec_base_sum ec_delta_weights ec_masks_to_popcount].
  rewrite bool_decide_eq_false_2.
  - by apply (forest_promise ns r sn c trees ns0 l Hg Hwf Hr Hclean Hm Hl s e ns1 pools1 code He Hcomp).
  - rewrite T5. destruct (compiled_core ns r sn c trees ns0 l Hg Hwf Hr Hclean Hm Hl e ns1 pools1 code He Hcomp r)
      as ((-> & _)%core_eq & _).
    destruct (fg_root _ _ _ _ _ Hg) as [[_ ->]|(k & v & _ & -> & _)]; [|done]. by rewrite (fg_sum _ _ _ _ _ Hg).
Qed.
