(* ===== verification/NativeCorrect.v ===== *)
(** * The engine: native planes

    [execute_native] and [execute_native_parallel] are given columns that are
    sliced already: block by block, the 64 planes of every field of the
    schema.  Row [r] of such planes is [native_row]; both functions return the
    sum of the logic's value over the rows of all blocks. *)

From Stdlib Require Import SpecFloat.
From S2P Require Import Prelude Planes BitSlicer IR A64 Registry KernelCall Rows Aggregate Columns.
From S2P Require Import Runner RunnerCorrect Forest Msl Engine EngineCorrect.

(** ** Rows of planes *)

(** Plane [p] of the field at place [k] of the schema, in block [b]. *)
Definition plane_at (bit_planes : list Z) (num_fields b k p : nat) : Z := bit_planes !!! (b * num_fields * 64 + k * 64 + p)%nat.

Definition native_row (schema_fields : list FieldDescriptor) (bit_planes : list Z) (desc : string -> option FieldDescriptor)
    (r : nat) (f : string) : Z :=
  match desc f with
  | Some d => row_value (plane_at bit_planes (length schema_fields) (r / 64) (dynamic_to_schema_index schema_fields (Some d))) (r mod 64)
  | None => 0
  end.

Lemma plane_of_row_value planes b : (b < 64)%nat -> u64 (planes b) -> plane_of (row_value planes) b = planes b.
Proof.
  intros Hb Hu. apply u64_eq_nbits; [apply plane_of_u64|done|]. intros r Hr. rewrite plane_of_bit by done. by rewrite row_value_bit.
Qed.

(** The planes cover [num_blocks] blocks, and the schema has every field of the logic. *)
Record native_ok (L : ExprCompiledLogic) (schema_fields : list FieldDescriptor) (bit_planes : list Z) (num_blocks : nat) : Prop := {
  no_mode : ec_mode L = BIT_SLICED;
  no_fields : (length (ec_fields L) <= 8)%nat;
  no_words : Forall u64 bit_planes;
  no_length : (num_blocks * length schema_fields * 64 <= length bit_planes)%nat;
  no_named : forall i d, ec_fields L !! i = Some (Some d) -> exists d', d' ∈ schema_fields /\ name d' = name d
}.

Lemma schema_index_lt schema_fields d :
  (exists d', d' ∈ schema_fields /\ name d' = name d) ->
  (dynamic_to_schema_index schema_fields (Some d) < length schema_fields)%nat.
Proof.
  intros (d' & Hd & Hn). unfold dynamic_to_schema_index.
  destruct (list_find_elem_of (fun f => name f = name d) schema_fields d' Hd Hn) as [[k f] E]. rewrite E.
  apply list_find_Some in E as (Hk & _). by eapply lookup_lt_Some.
Qed.

(** ** The aggregators on a full block *)

Lemma mfold_fmap {A B C} (f : C -> A -> option A) (g : B -> C) l a : mfold f (g <$> l) a = mfold (fun b => f (g b)) l a.
Proof. revert a. induction l as [|b l IH]; intros a; [done|]. cbn. destruct (f (g b) a); cbn; [apply IH|done]. Qed.

Lemma native_sum_eq slots deltas sc sum : native_sum slots deltas sc sum = hybrid_sum slots deltas sc ones64 sum.
Proof.
  unfold native_sum, hybrid_sum. rewrite <- (mfold_blocks _ 16 (length deltas)) by done.
  assert (forall i a, native_step slots deltas sc i a = hybrid_step slots deltas sc ones64 i a) as Hs.
  { intros i a. unfold native_step, hybrid_step. destruct (slots !! i) as [k|]; [|done]. rewrite !bind_Some.
    destruct (scratch_at sc k) as [s|]; [|done]. rewrite !bind_Some. by rewrite popcount_ones. }
  rewrite (mfold_ext _ (fun i a => mfold (hybrid_step slots deltas sc ones64) (seq i 16) a)).
  - destruct (mfold _ (blocks_of 16 (length deltas)) sum); [|done]. rewrite !bind_Some. apply mfold_ext. intros. apply Hs.
  - intros i a _. replace (seq i 16) with (Nat.add i <$> seq 0 16) by (rewrite fmap_add_seq; f_equal; lia). rewrite mfold_fmap. apply mfold_ext. intros. apply Hs.
Qed.

Lemma native_plane_eq sc i total : native_plane sc i total = plane_step sc ones64 i total.
Proof. unfold native_plane, plane_step. destruct (sc !! i); [|done]. rewrite !bind_Some. by rewrite popcount_ones. Qed.

(** The total of a block, over the outcomes of its 64 rows. *)
Lemma native_total L m sc t :
  slots_in (logic_aggregation L) (Z.of_nat (length sc)) -> (64 <= length sc)%nat ->
  (match ec_result_kind L with
   | BITMASK => Some (wrap64 (wrap64 t + popcount64 m))
   | BITPLANE =>
       match ec_delta_weights L with
       | _ :: _ =>
           s ← native_sum (ec_masks_to_popcount L) (ec_delta_weights L) sc (wrap64 (ec_base_sum L * 64));
           Some (wrap64 (wrap64 t + s))
       | [] => mfold (native_plane sc) (seq 0 64) (wrap64 t)
       end
   end) = Some (wrap64 (t + zsum 64 (row_outcome (logic_aggregation L) m sc))).
Proof.
  intros Hs Hl. destruct (ec_result_kind L) eqn:Ek.
  - assert (ag_mask (logic_aggregation L) = false) as Ha by (by apply bool_decide_eq_false_2; rewrite Ek).
    destruct (ec_delta_weights L) as [|w ds] eqn:Ed.
    + rewrite (mfold_ext _ (fun i a => plane_step sc ones64 i a)) by (intros; apply native_plane_eq).
      rewrite <- rows_mask_64. by apply (row_outcome_planes (logic_aggregation L)).
    + destruct (row_outcome_hybrid (logic_aggregation L) m sc 64 t) as (s & E & Es); [done|cbn; by rewrite Ed|done|lia|].
      rewrite native_sum_eq, <- rows_mask_64. change (ec_base_sum L * 64) with (ag_base (logic_aggregation L) * Z.of_nat 64).
      rewrite <- Ed. cbn [logic_aggregation ag_slots ag_deltas] in E |- *. rewrite E, bind_Some. by rewrite wrap64_idemp_add_l, Es.
  - assert (ag_mask (logic_aggregation L) = true) as Ha by (by apply bool_decide_eq_true_2).
    rewrite wrap64_idemp_add_l, <- (row_outcome_mask _ _ sc 64 Ha), rows_mask_64, popcount_ones by done. done.
Qed.

(** ** Blocks *)

Section Blocks.
Context (L : ExprCompiledLogic) (schema_fields : list FieldDescriptor) (bit_planes : list Z) (num_blocks : nat).
Context (desc : string -> option FieldDescriptor) (rowfn : (string -> Z) -> Z).
Context {LS : LogicSpec (ec_mode L) (ec_kernel L) (ec_fields L) (logic_aggregation L) desc rowfn}.
Hypothesis Hn : native_ok L schema_fields bit_planes num_blocks.
Abbreviation row := (native_row schema_fields bit_planes desc).

Lemma plane_at_u64 b k p :
  (b < num_blocks)%nat -> (k < length schema_fields)%nat -> (p < 64)%nat -> u64 (plane_at bit_planes (length schema_fields) b k p).
Proof using Hn.
  intros Hb Hk Hp. pose proof (no_length _ _ _ _ Hn) as Hl. unfold plane_at.
  assert (b * length schema_fields * 64 + k * 64 + p < length bit_planes)%nat as Hlt.
  { assert (S b * length schema_fields <= num_blocks * length schema_fields)%nat by (apply Nat.mul_le_mono_r; lia). lia. }
  pose proof (no_words _ _ _ _ Hn) as Hw. rewrite Forall_lookup in Hw. eapply Hw. by apply list_lookup_lookup_total_lt.
Qed.

(** The pointers of a block are the planes of the fields of its rows. *)
Lemma native_inputs b reads ptrs :
  (b < num_blocks)%nat -> native_pointers L schema_fields bit_planes b = Some ptrs ->
  (forall i f, reads i f -> exists d, ec_fields L !! i = Some (Some d) /\ desc f = Some d) ->
  inputs (ec_mode L) ptrs reads (fun q => row (b * 64 + q)%nat).
Proof using Hn.
  intros Hb Hp Hr i f Hif. destruct (Hr i f Hif) as (d & Hi & Hd). unfold native_pointers in Hp.
  destruct (8 <? length (ec_fields L))%nat; [done|]. injection Hp as <-.
  pose proof (no_length _ _ _ _ Hn) as Hl. rewrite (no_mode _ _ _ _ Hn).
  pose proof (schema_index_lt schema_fields d (no_named _ _ _ _ Hn i d Hi)) as Hk.
  set (k := dynamic_to_schema_index schema_fields (Some d)) in *.
  assert (S b * length schema_fields <= num_blocks * length schema_fields)%nat as Hm by (apply Nat.mul_le_mono_r; lia).
  eexists. split_and!.
  - rewrite lookup_app_l by (rewrite length_fmap; by eapply lookup_lt_Some). rewrite list_lookup_fmap, Hi. reflexivity.
  - fold k. rewrite length_take, length_drop. lia.
  - intros p Hlt. fold k. rewrite decide_False by done.
    rewrite list_lookup_total_alt, lookup_take_lt, lookup_drop, <- list_lookup_total_alt by done.
    transitivity (plane_at bit_planes (length schema_fields) b k p); [unfold plane_at; f_equal; lia|].
    rewrite <- (plane_of_row_value (plane_at bit_planes (length schema_fields) b k)) by (done || (intros; by apply plane_at_u64)).
    apply mask64_ext. intros q Hq. unfold native_row. rewrite Hd. fold k.
    replace ((b * 64 + q) / 64)%nat with b by (rewrite Nat.div_add_l, Nat.div_small by lia; lia).
    by replace ((b * 64 + q) mod 64)%nat with q by (rewrite Nat.add_comm, Nat.Div0.mod_add, Nat.mod_small by lia; lia).
Qed.

Lemma native_row_u64 r f : u64 (row r f).
Proof using. unfold native_row. destruct (desc f) as [d|]; [apply row_value_u64|apply u64_0]. Qed.

Lemma native_block_step b sc t :
  (b < num_blocks)%nat -> length sc = native_words ->
  exists sc', native_block L schema_fields bit_planes b (wrap64 t, sc) =
    Some (wrap64 (t + zsum 64 (fun q => rowfn (row (b * 64 + q)%nat))), sc') /\ length sc' = native_words.
Proof using Hn LS.
  intros Hb Hsc. unfold native_block.
  assert (exists ptrs, native_pointers L schema_fields bit_planes b = Some ptrs) as [ptrs Ep].
  { unfold native_pointers. rewrite (proj2 (Nat.ltb_ge _ _)) by apply (no_fields _ _ _ _ Hn). by eexists. }
  rewrite Ep, bind_Some. destruct (ls_kernel (LogicSpec := LS)) as (reads & Hr & Hk).
  pose proof native_words_eq as Hw.
  destruct (Hk ptrs sc (fun q => row (b * 64 + q)%nat)) as (m & sc' & E & Hl & Hq).
  - intros. apply native_row_u64.
  - by apply (native_inputs b reads).
  - lia.
  - rewrite E, bind_Some. rewrite native_total.
    + rewrite bind_Some. exists sc'. split; [|congruence]. do 4 f_equal. apply zsum_ext. intros q Hlt. by apply Hq.
    + eapply slots_in_le; [apply (ls_slots (LogicSpec := LS))|]. lia.
    + lia.
Qed.

Lemma native_blocks_sum `{Host} lo hi :
  malloc_ok = true -> (lo <= hi <= num_blocks)%nat ->
  native_blocks L schema_fields bit_planes lo hi = Some (wrap64 (zsum ((hi - lo) * 64) (fun q => rowfn (row (lo * 64 + q)%nat)))).
Proof using Hn LS.
  intros Hok Hlo. unfold native_blocks. rewrite Hok. cbn [negb].
  destruct (mfold_seq_rule (native_block L schema_fields bit_planes)
    (fun b x => x.1 = wrap64 (zsum ((b - lo) * 64) (fun q => rowfn (row (lo * 64 + q)%nat))) /\ length x.2 = native_words)
    lo (hi - lo) (0, replicate native_words 0)) as ([t sc] & E & Et & _).
  - cbn [fst snd]. rewrite Nat.sub_diag, length_replicate. done.
  - intros b [t sc] Hb [Et Hsc]. cbn [fst snd] in *. subst t.
    destruct (native_block_step b sc (zsum ((b - lo) * 64) (fun q => rowfn (row (lo * 64 + q)%nat)))) as (sc' & E & Hl); [lia|done|].
    eexists. split; [exact E|]. split; [|done]. cbn [fst]. f_equal.
    replace ((S b - lo) * 64)%nat with ((b - lo) * 64 + 64)%nat by lia. rewrite zsum_split. f_equal.
    apply zsum_ext. intros q _. do 2 f_equal. lia.
  - rewrite E, bind_Some. f_equal. cbn [fst] in Et. rewrite Et. by replace (lo + (hi - lo) - lo)%nat with (hi - lo)%nat by lia.
Qed.

End Blocks.

(** ** The threads' shares of the blocks *)

Lemma native_share_split num_blocks n k t :
  (t + k = n)%nat -> (0 < k)%nat ->
  (native_share num_blocks n t).1 = (num_blocks / n * t)%nat /\
  ((native_share num_blocks n t).1 <= (native_share num_blocks n t).2 <= num_blocks)%nat /\
  (native_share num_blocks n t).2 = if (k =? 1)%nat then num_blocks else (num_blocks / n * S t)%nat.
Proof.
  intros Ht Hk. unfold native_share. cbn [fst snd].
  pose proof (Nat.Div0.mul_div_le num_blocks n) as Hd.
  assert (num_blocks / n * S t <= num_blocks)%nat as Hs.
  { etrans; [|exact Hd]. rewrite Nat.mul_comm. apply Nat.mul_le_mono_r. lia. }
  destruct (Nat.eqb_spec t (n - 1)) as [He|He]; destruct (Nat.eqb_spec k 1) as [Hk1|Hk1]; try lia; split_and!; lia.
Qed.

(** Adding up what consecutive shares yield. *)
Lemma native_shares_sum (f : nat -> Z) worker num_blocks n k t acc :
  (t + k = n)%nat -> (0 < n)%nat ->
  (forall lo hi, (lo <= hi <= num_blocks)%nat -> worker (lo, hi) = Some (wrap64 (zsum ((hi - lo) * 64) (fun q => f (lo * 64 + q)%nat)))) ->
  exists rs, mapM (fun t => worker (native_share num_blocks n t)) (seq t k) = Some rs /\
    foldl (fun total r => wrap64 (total + r)) (wrap64 acc) rs =
      wrap64 (acc + if (k =? 0)%nat then 0
                    else zsum ((num_blocks - num_blocks / n * t) * 64) (fun q => f (num_blocks / n * t * 64 + q)%nat)).
Proof.
  intros Hk Hn Hw. revert t acc Hk. induction k as [|k IH]; intros t acc Hk.
  - exists []. cbn. by rewrite Z.add_0_r.
  - destruct (native_share_split num_blocks n (S k) t Hk ltac:(lia)) as (H1 & H2 & H3).
    destruct (native_share num_blocks n t) as [lo hi] eqn:Es. cbn [fst snd] in *. subst lo.
    destruct (IH (S t) (acc + zsum ((hi - num_blocks / n * t) * 64) (fun q => f (num_blocks / n * t * 64 + q)%nat))) as (rs & E & Hs); [lia|].
    exists (wrap64 (zsum ((hi - num_blocks / n * t) * 64) (fun q => f (num_blocks / n * t * 64 + q)%nat)) :: rs).
    cbn [seq mapM]. rewrite Es, Hw, bind_Some, E, bind_Some by done. split; [done|]. cbn [foldl].
    rewrite wrap64_idemp_add_l, wrap64_idemp_add_r, Hs. cbn [Nat.eqb]. f_equal. rewrite <- Z.add_assoc. f_equal.
    destruct k as [|k]; cbn [Nat.eqb] in *; subst hi; [lia|].
    replace ((num_blocks - num_blocks / n * t) * 64)%nat with
      ((num_blocks / n * S t - num_blocks / n * t) * 64 + (num_blocks - num_blocks / n * S t) * 64)%nat.
    + rewrite zsum_split. f_equal. apply zsum_ext. intros q _. f_equal. lia.
    + assert (num_blocks / n * S t <= num_blocks)%nat; [|lia].
      etrans; [|apply (Nat.Div0.mul_div_le num_blocks n)]. rewrite Nat.mul_comm. apply Nat.mul_le_mono_r. lia.
Qed.
