(* ===== verification/VectorCorrect.v ===== *)
(** * The engine: per-row results and the threshold path

    [execute_vector] returns, for every row, the logic's value on it as a
    [double]; [execute] without an expression counts the rows whose field exceeds
    the threshold of [set_logic]. *)

From Stdlib Require Import SpecFloat.
From S2P Require Import Prelude Planes BitSlicer IR A64 Registry Circuits KernelCall Rows Aggregate.
From S2P Require Import Columns Runner RunnerCorrect Forest Msl Engine EngineCorrect.

(** ** One row *)

(** A row's value as the caller gets it. *)
Definition vector_value `{Host} (L : ExprCompiledLogic) (row : nat) (precision_multiplier : double) (v : Z) : double :=
  match ec_result_kind L with
  | BITMASK => double_of_int64 v
  | BITPLANE => divide row (double_of_int64 v) precision_multiplier
  end.

Lemma double_of_wrap z : double_of_int64 (wrap64 z) = double_of_int64 z.
Proof. unfold double_of_int64. by rewrite wrap64_idemp. Qed.

(** OR-ing the bits of the planes at row [r] gives the row's value. *)
Lemma vector_planes sc r :
  (64 <= length sc)%nat -> mfold (vector_plane sc r) (seq 0 64) 0 = Some (row_value (fun b => sc !!! b) r).
Proof.
  intros Hl.
  destruct (mfold_seq_rule (vector_plane sc r)
    (fun b x => u64 x /\ forall i, (i < 64)%nat -> Z.testbit x (Z.of_nat i) = (i <? b)%nat && Z.testbit (sc !!! i) (Z.of_nat r))
    0 64 0) as (x & E & Hu & Hb).
  - split; [apply u64_0|]. intros i _. by rewrite Z.testbit_0_l.
  - intros b x Hlt [Hu Hx]. unfold vector_plane. destruct (lookup_lt_is_Some_2 sc b) as [s Hs]; [lia|].
    rewrite Hs, bind_Some. apply list_lookup_total_correct in Hs as Hs'. eexists. split; [done|].
    assert (u64 (Z.shiftl 1 (Z.of_nat b))) as Hsh.
    { rewrite Z.shiftl_mul_pow2, Z.mul_1_l by lia. unfold u64. split; [lia|]. apply Z.pow_lt_mono_r; lia. }
    split.
    + destruct (Z.testbit s _); [|done]. by apply u64_lor.
    + intros i Hi. destruct (decide (i = b)) as [->|Hne].
      * rewrite (proj2 (Nat.ltb_lt b (S b))) by lia. cbn [andb]. rewrite Hs'.
        destruct (Z.testbit s (Z.of_nat r)) eqn:Et.
        -- by rewrite Z.lor_spec, Z.shiftl_spec, Z.sub_diag, orb_true_r by lia.
        -- rewrite Hx by done. by rewrite Nat.ltb_irrefl.
      * assert ((i <? S b) = (i <? b))%nat as ->
          by (destruct (Nat.ltb_spec i b), (Nat.ltb_spec i (S b)); lia || done).
        destruct (Z.testbit s (Z.of_nat r)); [|by apply Hx].
        rewrite Z.lor_spec, Hx by done. rewrite Z.shiftl_mul_pow2, Z.mul_1_l, Z.pow2_bits_false, orb_false_r by lia. done.
  - rewrite E. f_equal. apply u64_eq_nbits; [done|apply row_value_u64|]. intros i Hi.
    rewrite Hb, row_value_bit by done. cbn [Nat.add]. by rewrite (proj2 (Nat.ltb_lt i 64)).
Qed.

(** The base sum plus the weights of the masks that select the row. *)
Lemma vector_steps a sc r t :
  slots_in a (Z.of_nat (length sc)) ->
  mfold (vector_step (ag_slots a) (ag_deltas a) sc r) (seq 0 (length (ag_deltas a))) (wrap64 t) =
    Some (wrap64 (t + zsum (length (ag_deltas a)) (fun i =>
      bitz (sc !!! Z.to_nat (ag_slots a !!! i)) (Z.of_nat r) * ag_deltas a !!! i))).
Proof.
  intros [Hl Hs].
  destruct (mfold_seq_rule (vector_step (ag_slots a) (ag_deltas a) sc r)
    (fun k x => x = wrap64 (t + zsum k (fun i => bitz (sc !!! Z.to_nat (ag_slots a !!! i)) (Z.of_nat r) * ag_deltas a !!! i)))
    0 (length (ag_deltas a)) (wrap64 t)) as (x & E & ->).
  - cbn. by rewrite Z.add_0_r.
  - intros i x Hi ->. unfold vector_step.
    destruct (lookup_lt_is_Some_2 (ag_slots a) i) as [k Hk]; [lia|].
    destruct (lookup_lt_is_Some_2 (ag_deltas a) i) as [w Hw]; [lia|].
    rewrite Hk, bind_Some. rewrite Forall_lookup in Hs. rewrite scratch_at_eq by (by eapply Hs). rewrite bind_Some, Hw, bind_Some.
    eexists. split; [done|]. cbn [zsum].
    rewrite (list_lookup_total_correct _ _ _ Hk), (list_lookup_total_correct _ _ _ Hw).
    change (bitz (sc !!! Z.to_nat k) (Z.of_nat r)) with (Z.b2z (Z.testbit (sc !!! Z.to_nat k) (Z.of_nat r))).
    destruct (Z.testbit _ _); cbn [Z.b2z].
    + rewrite wrap64_idemp_add_l. f_equal. lia.
    + f_equal. lia.
  - exact E.
Qed.

Lemma vector_row_value `{Host} L row mult m sc r :
  slots_in (logic_aggregation L) (Z.of_nat (length sc)) -> (64 <= length sc)%nat ->
  vector_row L row mult m sc r = Some (vector_value L row mult (row_outcome (logic_aggregation L) m sc r)).
Proof.
  intros Hs Hl. unfold vector_row, vector_value, row_outcome. cbn [logic_aggregation ag_mask].
  change (ag_deltas (logic_aggregation L)) with (ec_delta_weights L).
  destruct (ec_result_kind L) eqn:Ek.
  - rewrite bool_decide_eq_false_2 by done.
    destruct (ec_delta_weights L) as [|w ds] eqn:Ed.
    + rewrite (vector_planes sc r Hl), bind_Some. done.
    + rewrite <- Ed in *. pose proof (vector_steps (logic_aggregation L) sc r (ec_base_sum L) Hs) as E.
      cbn [logic_aggregation ag_deltas ag_slots] in E. rewrite E, bind_Some. done.
  - rewrite bool_decide_eq_true_2 by done. unfold bitz. by destruct (Z.testbit m (Z.of_nat r)).
Qed.

(** ** All rows *)

Section Rows.
Context {T : HwyTarget} {H : Host} (L : ExprCompiledLogic) (desc : string -> option FieldDescriptor) (rowfn : (string -> Z) -> Z).
Context {LS : LogicSpec (ec_mode L) (ec_kernel L) (ec_fields L) (logic_aggregation L) desc rowfn}.
Context (data : list Z) (mult : double) (stride row_count : nat).
Hypothesis Hbits : ec_active_bits L = 64.
Hypothesis Hfit : rows_fit data 0 stride (ec_fields L) row_count.

Definition vector_at (q : nat) : double := vector_value L q mult (rowfn (row_of data 0 stride desc q)).

(** The first [k] results are there. *)
Definition results_upto (k : nat) (results : list double) : Prop :=
  length results = row_count /\ forall q, (q < k)%nat -> (q < row_count)%nat -> results !! q = Some (vector_at q).

Lemma results_store k results :
  results_upto k results -> (k < row_count)%nat -> results_upto (S k) (<[k := vector_at k]> results).
Proof using.
  clear LS Hbits Hfit. intros [Hl Hr] Hk. split; [by rewrite length_insert|]. intros q Hq Hlt. destruct (decide (q = k)) as [->|Hne].
  - apply list_lookup_insert_eq. lia.
  - rewrite list_lookup_insert_ne by done. apply Hr; lia.
Qed.

Lemma vector_chunk_step c results bufs :
  (64 * c < row_count)%nat -> results_upto (64 * c) results -> buffers_ok 128 bufs ->
  exists results' bufs', vector_chunk L data mult stride row_count c (results, bufs) = Some (results', bufs') /\
    results_upto (64 * S c) results' /\ buffers_ok 128 bufs'.
Proof using LS Hbits Hfit.
  intros Hc Hr Hb. unfold vector_chunk. replace (c * 64)%nat with (64 * c)%nat by lia.
  set (n := Nat.min 64 (row_count - 64 * c)). assert (n <= 64)%nat as Hn by (subst n; lia).
  assert (rows_fit data (64 * c * stride) stride (ec_fields L) n) as Hf.
  { rewrite <- (Nat.add_0_l (64 * c * stride)). eapply rows_fit_shift; [exact Hfit|subst n; lia]. }
  destruct (process_chunk_rows L desc rowfn data Hbits (64 * c * stride) stride n (replicate scratch_words 0) bufs Hf Hn Hb)
    as (m & sc & b' & E & Hb2 & Hl & Hq).
  { by rewrite length_replicate, scratch_words_eq. }
  rewrite length_replicate in Hl. pose proof scratch_words_eq as Hw.
  rewrite E, bind_Some.
  destruct (mfold_seq_rule (fun r results => v ← vector_row L (64 * c + r) mult m sc r; Some (<[(64 * c + r)%nat := v]> results))
    (fun r => results_upto (64 * c + r)) 0 n results) as (results' & E' & Hr').
  - by rewrite Nat.add_0_r.
  - intros r res Hlt Hres. rewrite vector_row_value, bind_Some; [|eapply slots_in_le; [apply (ls_slots (LogicSpec := LS))|lia]|lia].
    rewrite Hq by lia. eexists. split; [done|]. rewrite Nat.add_succ_r.
    assert (row_of data (64 * c * stride) stride desc r = row_of data 0 stride desc (64 * c + r)) as ->.
    { rewrite <- (Nat.add_0_l (64 * c * stride)). apply row_of_shift. }
    apply results_store; [done|subst n; lia].
  - rewrite E', bind_Some. exists results', b'. split_and!; [done| |done]. cbn [Nat.add] in Hr'. destruct Hr' as [Hl' Hv]. split; [done|].
    intros q Hq1 Hq2. apply Hv; [|done]. subst n. lia.
Qed.

Lemma vector_rows bufs :
  buffers_ok 128 bufs ->
  exists results bufs', mfold (vector_chunk L data mult stride row_count) (chunks row_count)
      (replicate row_count (S754_zero false), bufs) = Some (results, bufs') /\
    results = vector_at <$> seq 0 row_count /\ buffers_ok 128 bufs'.
Proof using LS Hbits Hfit.
  intros Hb. unfold chunks.
  destruct (mfold_seq_rule (vector_chunk L data mult stride row_count)
    (fun c x => results_upto (64 * c) x.1 /\ buffers_ok 128 x.2) 0 ((row_count + 63) / 64)
    (replicate row_count (S754_zero false), bufs)) as ([results bufs'] & E & [Hl Hr] & Hb').
  - cbn [fst snd]. split; [|done]. split; [by rewrite length_replicate|]. intros; lia.
  - intros c [res b] Hc [Hr Hb1]. cbn [fst snd] in *.
    destruct (vector_chunk_step c res b) as (res' & b' & E & H1 & H2); [apply chunk_rows; lia|done|done|].
    exists (res', b'). done.
  - exists results, bufs'. split_and!; [done| |done]. cbn [fst Nat.add] in *. apply list_eq. intros q.
    rewrite list_lookup_fmap. destruct (decide (q < row_count)%nat) as [Hq|Hq].
    + rewrite lookup_seq_lt by done. cbn. apply Hr; [|done]. pose proof (chunks_cover row_count). lia.
    + rewrite !lookup_ge_None_2 by (rewrite ?length_seq; lia). done.
Qed.

End Rows.

(** ** The threshold *)

Section Threshold.
Context {T : HwyTarget} (d : FieldDescriptor) (threshold : Z) (data : list Z) (stride row_count : nat).
Hypothesis Ht : u64 threshold.
Hypothesis Hfit : rows_fit data 0 stride [Some d] row_count.

Definition exceeds (q : nat) : bool := threshold <? default 0 (read_field data 0 stride (offset d) q).

Lemma legacy_chunk_step c t bufs :
  (64 * c < row_count)%nat -> buffers_ok 128 bufs ->
  exists bufs', legacy_chunk (mkCompiledLogic d (compile_comparison threshold)) data stride row_count c (wrap64 t, bufs) =
    Some (wrap64 (t + zsum (Nat.min 64 (row_count - 64 * c)) (fun q => Z.b2z (exceeds (64 * c + q)%nat))), bufs') /\ buffers_ok 128 bufs'.
Proof using Ht Hfit.
  intros Hc [Hl Hw]. unfold legacy_chunk. replace (c * 64)%nat with (64 * c)%nat by lia.
  set (n := Nat.min 64 (row_count - 64 * c)). assert (n <= 64)%nat as Hn by (subst n; lia).
  assert (rows_fit data (64 * c * stride) stride [Some d] n) as Hf.
  { rewrite <- (Nat.add_0_l (64 * c * stride)). eapply rows_fit_shift; [exact Hfit|subst n; lia]. }
  destruct (lookup_lt_is_Some_2 bufs 0) as [B HB]; [lia|]. rewrite HB, bind_Some. rewrite Forall_lookup in Hw.
  cbn [cl_field cl_kernel].
  rewrite (gather_field_eq data _ stride n d [Some d] B Hf), bind_Some by (by left || done || by destruct (Hw _ _ HB)).
  destruct (column_over_ok data (64 * c * stride) stride n d [Some d] (fun _ => 0) Hf) as [Hcw Hcr];
    [by left|done|intros; apply u64_0|].
  rewrite slice_in_place_eq, bind_Some by done. destruct (low_planes_words _ Hcw) as [Hpl Hpw].
  rewrite call_comparison_mask, bind_Some by done.
  eexists. split.
  - rewrite wrap64_idemp_add_l. do 4 f_equal.
    rewrite <- popcount_ones, <- rows_mask_64, popcount_rows_mask by done.
    transitivity (zsum 64 (fun q => if (q <? n)%nat then Z.b2z (exceeds (64 * c + q)%nat) else 0)).
    + apply zsum_ext. intros q Hq. unfold bitz. rewrite mask64_bit by done.
      rewrite (row_value_ext _ (plane_of (fun q => column_over data (64 * c * stride) stride n d (fun _ => 0) !!! q)))
        by (intros; by apply low_planes_plane).
      assert (forall q, (q < 64)%nat -> u64 (column_over data (64 * c * stride) stride n d (fun _ => 0) !!! q)) as Hu
        by (intros; by apply words_total).
      rewrite (row_value_plane_of (fun q => column_over data (64 * c * stride) stride n d (fun _ => 0) !!! q)) by auto.
      unfold column_over. rewrite arr_total by done. destruct (Nat.ltb_spec q n) as [Hlt|Hge].
      * rewrite decide_True by done. unfold exceeds.
        rewrite <- (Nat.add_0_l (64 * c * stride)). by rewrite read_field_shift.
      * rewrite decide_False by lia. unfold u64 in Ht. by destruct (Z.ltb_spec threshold 0); [lia|].
    + replace 64%nat with (n + (64 - n))%nat at 1 by lia. rewrite zsum_split, (zsum_ext n _ (fun q => Z.b2z (exceeds (64 * c + q)%nat))).
      * rewrite (zsum_ext (64 - n) _ (fun _ => 0)), zsum_const; [lia|]. intros q Hq. by rewrite (proj2 (Nat.ltb_ge _ _)) by lia.
      * intros q Hq. by rewrite (proj2 (Nat.ltb_lt _ _)).
  - split; [by rewrite length_insert|]. apply Forall_insert; [by rewrite Forall_lookup|by split].
Qed.

Lemma legacy_rows bufs :
  buffers_ok 128 bufs ->
  exists bufs', mfold (legacy_chunk (mkCompiledLogic d (compile_comparison threshold)) data stride row_count) (chunks row_count) (0, bufs) =
    Some (wrap64 (zsum row_count (fun q => Z.b2z (exceeds q))), bufs') /\ buffers_ok 128 bufs'.
Proof using Ht Hfit.
  intros Hb. apply (chunk_loop (legacy_chunk _ data stride row_count) (buffers_ok 128) (fun q => Z.b2z (exceeds q))); [|done].
  intros c t b Hc Hb'. by apply legacy_chunk_step.
Qed.

End Threshold.
