(* ===== verification/GpuCorrect.v ===== *)
(** * The engine: the planes handed to the GPU

    [execute_gpu] slices the caller's rows into one plane buffer per block and
    field before it calls the device: the workers' ranges of blocks cover all
    blocks once, and the buffer of a block and field holds the planes of that
    field of the block's rows. *)

From Stdlib Require Import SpecFloat.
From S2P Require Import Prelude Planes BitSlicer IR A64 Registry KernelCall Rows Aggregate Columns.
From S2P Require Import Runner RunnerCorrect Forest Msl Engine EngineCorrect.

(** ** The workers' ranges *)

Lemma gpu_range num_blocks k w : (w <= k)%nat -> (0 < k)%nat -> (num_blocks * w / k <= num_blocks)%nat.
Proof. intros Hw Hk. apply Nat.Div0.div_le_upper_bound. nia. Qed.

Lemma gpu_shares_upto num_blocks k w :
  (w <= k)%nat -> (0 < k)%nat ->
  mjoin ((fun s : nat * nat => seq s.1 (s.2 - s.1)) <$>
    ((fun w => ((num_blocks * w / k)%nat, (num_blocks * (w + 1) / k)%nat)) <$> seq 0 w)) = seq 0 (num_blocks * w / k).
Proof.
  intros Hw Hk. induction w as [|w IH].
  - by rewrite Nat.mul_0_r, Nat.Div0.div_0_l.
  - rewrite seq_S, !fmap_app, join_app, IH by lia. cbn [fmap list_fmap mjoin list_join fst snd Nat.add].
    rewrite app_nil_r, Nat.add_1_r.
    assert (num_blocks * w / k <= num_blocks * S w / k)%nat by (apply Nat.Div0.div_le_mono; lia).
    rewrite <- seq_app. f_equal. lia.
Qed.

Lemma gpu_shares_cover num_blocks :
  mjoin ((fun s => seq s.1 (s.2 - s.1)) <$> gpu_shares num_blocks) = seq 0 num_blocks.
Proof.
  unfold gpu_shares. destruct num_blocks as [|n]; [done|]. set (k := Nat.min 4 (S n)).
  assert (0 < k)%nat as Hk by (subst k; lia).
  rewrite (gpu_shares_upto (S n) k k) by lia. by rewrite Nat.div_mul by lia.
Qed.

Lemma mfold_join {A B C} (f : C -> A -> option A) (g : B -> list C) l a :
  mfold (fun b a => mfold f (g b) a) l a = mfold f (mjoin (g <$> l)) a.
Proof.
  revert a. induction l as [|b l IH]; intros a; [done|]. change (mjoin (g <$> b :: l)) with (g b ++ mjoin (g <$> l)).
  rewrite mfold_app. cbn [mfold]. destruct (mfold f (g b) a); cbn; [apply IH|done].
Qed.

(** ** The buffers *)

Section Planes.
Context {T : HwyTarget} (L : ExprCompiledLogic) (data : list Z) (stride row_count : nat).
Hypothesis Hfit : rows_fit data 0 stride (ec_fields L) row_count.
Abbreviation nf := (length (ec_fields L)).
Abbreviation blocks := ((row_count + 63) / 64)%nat.

Definition block_rows (b : nat) : nat := Nat.min 64 (row_count - b * 64).

(** What the buffer of block [b] and field [f] should hold. *)
Definition gpu_column (b f : nat) : list Z :=
  match mjoin (ec_fields L !! f) with
  | Some d => low_planes 64 (column_over data (b * 64 * stride) stride (block_rows b) d (fun _ => 0))
  | None => replicate 64 0
  end.

Lemma replicate_words : words (replicate 64 0).
Proof using. clear Hfit. split; [done|]. apply Forall_replicate, u64_0. Qed.

(** The buffers before place [k] are filled, the others untouched. *)
Definition filled (k : nat) (bps : list buffer) : Prop :=
  length bps = (blocks * nf)%nat /\
  forall b f, (f < nf)%nat -> (b < blocks)%nat ->
    bps !! (b * nf + f)%nat = Some (if (b * nf + f <? k)%nat then gpu_column b f else replicate 64 0).

Lemma gpu_field_step b f bps :
  (b < blocks)%nat -> (f < nf)%nat -> filled (b * nf + f) bps ->
  exists bps', gpu_field L data stride row_count b f bps = Some bps' /\ filled (S (b * nf + f)) bps'.
Proof using Hfit.
  intros Hb Hf [Hl Hv]. assert (forall b' f', (f' < nf)%nat -> (b' * nf + f' = b * nf + f)%nat -> b' = b /\ f' = f) as Hinj
    by (intros b' f' Hf' E; apply (Nat.div_mod_unique nf); lia).
  assert (forall x, filled (b * nf + f) bps -> x = gpu_column b f -> filled (S (b * nf + f)) (<[(b * nf + f)%nat := x]> bps)) as Hstore.
  { intros x _ ->. split; [by rewrite length_insert|]. intros b' f' Hf' Hb'.
    destruct (decide (b' * nf + f' = b * nf + f)%nat) as [E|Hne].
    - destruct (Hinj b' f' Hf' E) as [-> ->]. rewrite list_lookup_insert_eq; [by rewrite (proj2 (Nat.ltb_lt _ _)) by lia|].
      rewrite Hl. assert (S b * nf <= blocks * nf)%nat by (apply Nat.mul_le_mono_r; lia). lia.
    - rewrite list_lookup_insert_ne by done. rewrite Hv by done. f_equal.
      destruct (Nat.ltb_spec (b' * nf + f') (b * nf + f)), (Nat.ltb_spec (b' * nf + f') (S (b * nf + f))); done || lia. }
  pose proof (Hv b f Hf Hb) as Hat. rewrite Nat.ltb_irrefl in Hat.
  destruct (lookup_lt_is_Some_2 (ec_fields L) f Hf) as [o Ho]. unfold gpu_field. rewrite Ho. cbn [mjoin option_join].
  destruct o as [d|].
  - assert (block_rows b <= 64)%nat as Hn by (unfold block_rows; lia). fold (block_rows b).
    assert (rows_fit data (b * 64 * stride) stride (ec_fields L) (block_rows b)) as Hfit'.
    { rewrite <- (Nat.add_0_l (b * 64 * stride)). eapply rows_fit_shift; [exact Hfit|]. unfold block_rows.
      pose proof (chunk_rows row_count b Hb). lia. }
    rewrite (gather_field_eq data _ stride (block_rows b) d (ec_fields L)) by (done || by eapply list_elem_of_lookup_2).
    rewrite bind_Some, Hat, bind_Some.
    destruct (column_over_ok data (b * 64 * stride) stride (block_rows b) d (ec_fields L) (fun _ => 0) Hfit') as [Hw _];
      [by eapply list_elem_of_lookup_2|done|intros; apply u64_0|].
    rewrite (slice_n_eq 0 1 64 _ (column_over data (b * 64 * stride) stride (block_rows b) d (fun _ => 0)) (replicate 64 0));
      [|done|reflexivity|reflexivity|done].
    rewrite bind_Some, lookup_insert_eq, bind_Some. eexists. split; [reflexivity|]. apply Hstore; [by split|].
    unfold gpu_column. by rewrite Ho.
  - eexists. split; [reflexivity|]. rewrite <- (list_insert_id bps _ _ Hat). apply Hstore; [by split|]. unfold gpu_column. by rewrite Ho.
Qed.

Lemma gpu_block_step b bps :
  (b < blocks)%nat -> filled (b * nf) bps ->
  exists bps', gpu_block L data stride row_count b bps = Some bps' /\ filled (S b * nf) bps'.
Proof using Hfit.
  intros Hb H0. unfold gpu_block.
  destruct (mfold_seq_rule (gpu_field L data stride row_count b) (fun f => filled (b * nf + f)) 0 nf bps) as (bps' & E & H).
  - by rewrite Nat.add_0_r.
  - intros f a Hf Ha. rewrite Nat.add_succ_r. apply gpu_field_step; [done|lia|done].
  - exists bps'. split; [done|]. by replace (S b * nf)%nat with (b * nf + (0 + nf))%nat by lia.
Qed.

Lemma gpu_planes_filled : exists bps, gpu_planes L data stride row_count = Some bps /\ filled (blocks * nf) bps.
Proof using Hfit.
  unfold gpu_planes. rewrite mfold_join, gpu_shares_cover.
  destruct (mfold_seq_rule (gpu_block L data stride row_count) (fun b => filled (b * nf)) 0 blocks
    (replicate (blocks * nf) (replicate 64 0))) as (bps & E & H).
  - split; [by rewrite length_replicate|]. intros b f Hf Hb. rewrite lookup_replicate_2.
    + by rewrite (proj2 (Nat.ltb_ge _ _)) by lia.
    + assert (S b * nf <= blocks * nf)%nat by (apply Nat.mul_le_mono_r; lia). lia.
  - intros b a Hb Ha. apply gpu_block_step; [lia|done].
  - by exists bps.
Qed.

End Planes.
