(* ===== verification/ShaderGen.v ===== *)
(** * The Metal shader: the passes of its generator

    The search lists the nodes below the root once each, children first; after
    [reset_skip_jit] none of them is skipped, so the slot of a node is its place in that
    list. *)

From S2P Require Import Prelude IR A64 Registry Analyzer ExprCompiler Rows Forest ForestCorrect Msl.

(** ** The search *)

Section Search.
Variable ns : list Node.
Hypothesis Hwf : wf_nodes ns.

(** Visited and not yet listed: the nodes whose children are being visited. *)
Definition opened (st : gset nat * list nat) (j : nat) : Prop := j ∈ st.1 /\ j ∉ st.2.

Record dfs_inv (st : gset nat * list nat) (b : nat) : Prop := {
  di_topo : topo ns st.2;
  di_listed : forall j, j ∈ st.2 -> j ∈ st.1;
  di_opened : forall j, opened st j -> (b <= j)%nat
}.

(** From [st] to [st']: [p] is listed, with nodes reachable from it. *)
Record dfs_post (p : ptr) (st st' : gset nat * list nat) : Prop := {
  dp_topo : topo ns st'.2;
  dp_listed : forall j, j ∈ st'.2 -> j ∈ st'.1;
  dp_opened : forall j, opened st' j -> opened st j;
  dp_visited : forall j, j ∈ st.1 -> j ∈ st'.1;
  dp_more : forall j, j ∈ st.2 -> j ∈ st'.2;
  dp_root : forall i, p = Some i -> i ∈ st'.2;
  dp_reach : forall j, j ∈ st'.2 -> j ∈ st.2 \/ exists i, p = Some i /\ reach ns i j
}.

Definition dfs_ok (fuel : nat) (p : ptr) : Prop := forall st,
  (forall i, p = Some i -> (i < fuel /\ i < length ns)%nat /\ dfs_inv st (S i)) -> dfs_inv st 0 ->
  exists st', dfs fuel ns p st = Some st' /\ dfs_post p st st'.

Lemma dfs_list fuel b ps st :
  (forall p, p ∈ ps -> dfs_ok fuel p) ->
  (forall i, Some i ∈ ps -> i < fuel /\ i < length ns /\ i < b)%nat -> dfs_inv st b ->
  exists st', mfold (dfs fuel ns) ps st = Some st' /\ dfs_inv st' b /\
    (forall j, opened st' j -> opened st j) /\ (forall j, j ∈ st.1 -> j ∈ st'.1) /\ (forall j, j ∈ st.2 -> j ∈ st'.2) /\
    (forall i, Some i ∈ ps -> i ∈ st'.2) /\ (forall j, j ∈ st'.2 -> j ∈ st.2 \/ exists i, Some i ∈ ps /\ reach ns i j).
Proof using.
  clear Hwf. revert st. induction ps as [|p ps IH]; intros st Hok Hb Hi.
  - exists st. split_and!; [done|done|done|done|done| |by left]. intros i Hin. by apply not_elem_of_nil in Hin.
  - destruct (Hok p ltac:(by left) st) as (s1 & E1 & P1).
    + intros i ->. destruct (Hb i) as (? & ? & ?); [by left|]. split; [done|].
      split; [apply Hi|apply Hi|]. intros j Hj. pose proof (di_opened _ _ Hi j Hj). lia.
    + split; [apply Hi|apply Hi|lia].
    + destruct (IH s1) as (s2 & E2 & I2 & O2 & V2 & M2 & R2 & X2); [intros; apply Hok; by right|intros; apply Hb; by right| |].
      * split; [apply P1|apply P1|]. intros j Hj. apply (di_opened _ _ Hi), (dp_opened _ _ _ P1), Hj.
      * exists s2. cbn [mfold]. rewrite E1, bind_Some. split_and!; [done|done| | | | |].
        -- intros j Hj. by apply (dp_opened _ _ _ P1), O2.
        -- intros j Hj. by apply V2, (dp_visited _ _ _ P1).
        -- intros j Hj. by apply M2, (dp_more _ _ _ P1).
        -- intros i [<-|Hin]%elem_of_cons; [by apply M2, (dp_root _ _ _ P1)|by apply R2].
        -- intros j Hj. destruct (X2 j Hj) as [Hj'|(i & Hin & Hr)].
           ++ destruct (dp_reach _ _ _ P1 j Hj') as [?|(i & -> & Hr)]; [by left|right; exists i; split; [by left|done]].
           ++ right. exists i. split; [by right|done].
Qed.

Lemma dfs_unfold fuel i st :
  dfs (S fuel) ns (Some i) st =
  if decide (i ∈ st.1) then Some st
  else st ← mfold (dfs fuel ns) (children (node ns i)) ({[i]} ∪ st.1, st.2); Some (st.1, st.2 ++ [i]).
Proof using.
  clear Hwf. cbn [dfs]. case_decide; [done|]. cbn [children mfold].
  destruct (dfs fuel ns (left (node ns i)) _) as [s1|]; [|done]. cbn [mbind option_bind].
  destruct (dfs fuel ns (right (node ns i)) s1) as [s2|]; [|done]. cbn [mbind option_bind].
  by destruct (dfs fuel ns (cond (node ns i)) s2) as [s3|].
Qed.

Lemma dfs_all fuel p : dfs_ok fuel p.
Proof using Hwf.
  revert p. induction fuel as [|fuel IH]; intros [i|] st Hp H0.
  - destruct (Hp i) as [[? _] _]; [done|lia].
  - exists st. split; [done|]. split; [apply H0|apply H0|done|done|done|done|by left].
  - destruct (Hp i) as [[Hf Hl] Hi]; [done|]. rewrite dfs_unfold.
    destruct (decide (i ∈ st.1)) as [Hin|Hni].
    + exists st. split; [done|]. split; [apply H0|apply H0|done|done|done| |by left].
      intros k [= <-]. destruct (decide (i ∈ st.2)) as [|Hno]; [done|]. pose proof (di_opened _ _ Hi i (conj Hin Hno)). lia.
    + set (s0 := ({[i]} ∪ st.1, st.2)).
      assert (forall j, opened s0 j -> j = i \/ opened st j) as Hop.
      { intros j [Hj Hn]. cbn [s0 fst snd] in *. apply elem_of_union in Hj as [->%elem_of_singleton|Hj]; [by left|right; by split]. }
      assert (forall j, Some j ∈ children (node ns i) -> (j < i)%nat) as Hch by (intros; by eapply wf_child).
      destruct (dfs_list fuel i (children (node ns i)) s0) as (s1 & E1 & I1 & O1 & V1 & M1 & R1 & X1).
      * intros p _. apply IH.
      * intros j Hj. pose proof (Hch j Hj). lia.
      * split; [apply Hi|intros j Hj; apply elem_of_union_r; by apply (di_listed _ _ Hi)|].
        intros j [->|Hj]%Hop; [done|]. pose proof (di_opened _ _ Hi j Hj). lia.
      * rewrite E1, bind_Some. eexists. split; [reflexivity|].
        assert (i ∉ s1.2) as Hno.
        { intros Hin. destruct (X1 i Hin) as [Hs|(k & Hk & Hr)].
          - by apply Hni, (di_listed _ _ Hi).
          - pose proof (reach_le ns k i Hwf Hr). pose proof (Hch k Hk). lia. }
        split; cbn [fst snd].
        -- apply topo_snoc with (node ns i); [apply I1|by apply list_lookup_lookup_total_lt|done|].
           intros c Hc. by apply R1.
        -- intros j [Hj|Hj]%elem_of_app; [by apply (di_listed _ _ I1)|]. apply list_elem_of_singleton in Hj as ->.
           apply V1. cbn. by apply elem_of_union_l, elem_of_singleton.
        -- intros j [Hj Hn]. cbn [fst snd] in *. rewrite elem_of_app, list_elem_of_singleton in Hn.
           destruct (Hop j) as [->|Hs]; [apply O1; split; [done|tauto]|tauto|done].
        -- intros j Hj. apply V1. cbn. by apply elem_of_union_r.
        -- intros j Hj. apply elem_of_app. left. by apply M1.
        -- intros k [= <-]. apply elem_of_app. right. by apply list_elem_of_singleton.
        -- intros j [Hj|Hj]%elem_of_app.
           ++ destruct (X1 j Hj) as [?|(k & Hk & Hr)]; [by left|]. right. exists i. split; [done|].
              apply rtc_l with k; [|done]. exists (node ns i). split; [by apply list_lookup_lookup_total_lt|done].
           ++ apply list_elem_of_singleton in Hj as ->. right. exists i. split; [done|apply rtc_refl].
  - exists st. split; [done|]. split; [apply H0|apply H0|done|done|done|done|by left].
Qed.

(** From the root: every node below it once, children first. *)
Lemma dfs_root r : (r < length ns)%nat ->
  exists seen po, dfs (length ns) ns (Some r) (∅, []) = Some (seen, po) /\ topo ns po /\ forall j, j ∈ po <-> reach ns r j.
Proof using Hwf.
  intros Hr. destruct (dfs_all (length ns) (Some r) (∅, [])) as ([seen po] & E & P).
  - intros i [= <-]. split; [lia|]. split; [constructor|intros j Hj; by apply not_elem_of_nil in Hj|intros j [Hj _]; cbn in Hj; set_solver].
  - split; [constructor|intros j Hj; by apply not_elem_of_nil in Hj|intros; lia].
  - exists seen, po. split_and!; [done|apply P|]. intros j. split.
    + intros Hj. destruct (dp_reach _ _ _ P j Hj) as [Hn|(i & [= <-] & Hi)]; [by apply not_elem_of_nil in Hn|done].
    + intros Hj. assert (r ∈ po) as H0 by (by apply (dp_root _ _ _ P)). revert j Hj.
      apply (rtc_ind_r (fun j => j ∈ po) r H0). intros i j _ (n & Hn & Hc) Hi. eapply (topo_lookup ns); [apply P|done..].
Qed.

End Search.

(** ** Unskipping *)

(** Nothing changed but skip marks that were taken away. *)
Definition unskips (ns ns' : list Node) : Prop :=
  length ns' = length ns /\ forall i : nat, node ns' i = node ns i \/ node ns' i = set_skip_jit false (node ns i).

#[export] Instance unskips_preorder : PreOrder unskips.
Proof.
  split; [intros ns; split; [done|by left]|]. intros a b c [L1 H1] [L2 H2]. split; [congruence|]. intros i.
  destruct (H1 i) as [E1|E1], (H2 i) as [E2|E2]; rewrite E2, E1; auto.
Qed.

Lemma unskips_node ns ns' (i : nat) : unskips ns ns' ->
  core (node ns' i) = core (node ns i) /\ weight (node ns' i) = weight (node ns i) /\
  (skip_jit (node ns i) = false -> skip_jit (node ns' i) = false).
Proof. intros [_ H]. destruct (H i) as [->| ->]; done. Qed.

Lemma unskips_children ns ns' (i : nat) : unskips ns ns' -> children (node ns' i) = children (node ns i).
Proof. intros H. by destruct (unskips_node ns ns' i H) as ((_ & _ & _ & ->)%core_eq & _). Qed.

Lemma unskips_alter ns (i : nat) : (i < length ns)%nat ->
  unskips ns (alter (set_skip_jit false) i ns) /\ skip_jit (node (alter (set_skip_jit false) i ns) i) = false.
Proof.
  intros Hi. assert (forall j : nat, node (alter (set_skip_jit false) i ns) j = if decide (i = j) then set_skip_jit false (node ns j) else node ns j) as H.
  { intros j. rewrite !list_lookup_total_alt. case_decide as Hd.
    - subst j. rewrite list_lookup_alter_eq. destruct (lookup_lt_is_Some_2 ns i Hi) as [n ->]. done.
    - by rewrite list_lookup_alter_ne. }
  split.
  - split; [apply length_alter|]. intros j. rewrite H. case_decide; auto.
  - by rewrite H, decide_True.
Qed.

Lemma reset_unfold fuel i ns :
  reset_skip_jit (S fuel) (Some i) ns =
  let ns0 := alter (set_skip_jit false) i ns in mfold (reset_skip_jit fuel) (children (node ns0 i)) ns0.
Proof. reflexivity. Qed.

Lemma unskips_wf ns ns' : unskips ns ns' -> wf_nodes ns -> wf_nodes ns'.
Proof.
  intros H Hwf k n Hn. pose proof (lookup_lt_Some _ _ _ Hn) as Hk. destruct H as [Hl H].
  rewrite <- (list_lookup_total_correct _ _ _ Hn), (unskips_children ns ns' k (conj Hl H)).
  apply (Hwf k), list_lookup_lookup_total_lt. lia.
Qed.

Lemma unskips_reach ns ns' i j : unskips ns ns' -> reach ns i j -> reach ns' i j.
Proof.
  intros H. induction 1 as [|i k j (n & Hn & Hc) _ IH]; [apply rtc_refl|]. apply rtc_l with k; [|done].
  pose proof (lookup_lt_Some _ _ _ Hn) as Hi. exists (node ns' i).
  rewrite (unskips_children ns ns' i H), (list_lookup_total_correct _ _ _ Hn). split; [|done].
  apply list_lookup_lookup_total_lt. by destruct H as [-> _].
Qed.

(** Every node below [p] is unmarked. *)
Definition reset_ok (fuel : nat) (p : ptr) : Prop := forall ns, wf_nodes ns ->
  (forall i, p = Some i -> i < fuel /\ i < length ns)%nat ->
  exists ns', reset_skip_jit fuel p ns = Some ns' /\ unskips ns ns' /\
    forall i j, p = Some i -> reach ns i j -> skip_jit (node ns' j) = false.

Lemma reset_list fuel ps ns : (forall p, p ∈ ps -> reset_ok fuel p) -> wf_nodes ns ->
  (forall i, Some i ∈ ps -> i < fuel /\ i < length ns)%nat ->
  exists ns', mfold (reset_skip_jit fuel) ps ns = Some ns' /\ unskips ns ns' /\
    forall i j, Some i ∈ ps -> reach ns i j -> skip_jit (node ns' j) = false.
Proof.
  revert ns. induction ps as [|p ps IH]; intros ns Hok Hwf Hb.
  - exists ns. split_and!; [done|done|]. intros i j Hi. by apply not_elem_of_nil in Hi.
  - destruct (Hok p ltac:(by left) ns Hwf) as (n1 & E1 & U1 & S1); [intros i ->; apply Hb; by left|].
    destruct (IH n1) as (n2 & E2 & U2 & S2).
    + intros q Hq. apply Hok. by right.
    + by eapply unskips_wf.
    + intros i Hi. destruct U1 as [-> _]. apply Hb. by right.
    + exists n2. cbn [mfold]. rewrite E1, bind_Some. split_and!; [done|by etrans|].
      intros i j [<-|Hi]%elem_of_cons Hr.
      * destruct (unskips_node n1 n2 j U2) as (_ & _ & Hs). by apply Hs, (S1 i).
      * apply (S2 i); [done|]. by apply (unskips_reach ns).
Qed.

Lemma reset_all fuel p : reset_ok fuel p.
Proof.
  revert p. induction fuel as [|fuel IH]; intros [i|] ns Hwf Hp; [destruct (Hp i); [done|lia]|by exists ns| |by exists ns].
  destruct (Hp i) as [Hf Hl]; [done|]. rewrite reset_unfold. cbv zeta.
  destruct (unskips_alter ns i Hl) as [H0 Hi0]. set (ns0 := alter _ i ns) in *. rewrite (unskips_children ns ns0 i H0).
  destruct (reset_list fuel (children (node ns i)) ns0) as (ns' & E & U & S).
  - intros p _. apply IH.
  - by eapply unskips_wf.
  - intros j Hj. pose proof (wf_child ns i j Hwf Hj Hl). destruct H0 as [-> _]. lia.
  - exists ns'. split_and!; [done|by etrans|]. intros k j [= <-] Hr.
    destruct (unskips_node ns0 ns' j U) as (_ & _ & Hs).
    inversion Hr as [|? c ? (n & Hn & Hc) Hcj]; subst; [by apply Hs|].
    apply (S c); [by rewrite (list_lookup_total_correct _ _ _ Hn)|by apply (unskips_reach ns)].
Qed.

(** ** Slots *)

(** A node with another slot. *)
Definition slotted (n n' : Node) : Prop := exists k, n' = set_slots k (eq_slot_id n) (carry_reg n) n.

Lemma slotted_same n n' : slotted n n' ->
  core n' = core n /\ weight n' = weight n /\ field_idx n' = field_idx n /\ skip_jit n' = skip_jit n.
Proof. by intros [k ->]. Qed.

Lemma gpu_slot_live ns k i : (i < length ns)%nat -> skip_jit (node ns i) = false ->
  exists ns', gpu_slot (ns, k) i = (ns', k + 1) /\ length ns' = length ns /\
    (forall j : nat, slotted (node ns j) (node ns' j)) /\ slot_id (node ns' i) = k /\
    forall j, j <> i -> node ns' j = node ns j.
Proof.
  intros Hi Hs. unfold gpu_slot. rewrite Hs. eexists. split; [reflexivity|]. split; [apply length_alter|].
  destruct (lookup_lt_is_Some_2 ns i Hi) as [n Hn].
  assert (node (alter (fun n => set_slots k (eq_slot_id n) (carry_reg n) n) i ns) i = set_slots k (eq_slot_id n) (carry_reg n) n) as E.
  { apply list_lookup_total_correct. by rewrite list_lookup_alter_eq, Hn. }
  assert (forall j, j <> i -> node (alter (fun n => set_slots k (eq_slot_id n) (carry_reg n) n) i ns) j = node ns j) as E'.
  { intros j Hj. by rewrite !list_lookup_total_alt, list_lookup_alter_ne. }
  split_and!; [|by rewrite E|done]. intros j. destruct (decide (j = i)) as [->|Hj].
  - rewrite E, (list_lookup_total_correct _ _ _ Hn). by exists k.
  - rewrite E' by done. exists (slot_id (node ns j)). by destruct (node ns j).
Qed.

(** The place in the list is the slot. *)
Lemma gpu_slots_place po ns : NoDup po -> Forall (fun i => (i < length ns)%nat /\ skip_jit (node ns i) = false) po ->
  exists ns', gpu_slots po ns = (ns', Z.of_nat (length po)) /\ length ns' = length ns /\
    (forall j : nat, slotted (node ns j) (node ns' j)) /\
    forall k i, po !! k = Some i -> slot_id (node ns' i) = Z.of_nat k.
Proof.
  unfold gpu_slots. induction po as [|i po IH] using rev_ind; intros Hnd Hall.
  - exists ns. split_and!; [done|done| |done]. intros j. exists (slot_id (node ns j)). by destruct (node ns j).
  - apply NoDup_app in Hnd as (Hnd & Hdis & _). apply Forall_app in Hall as [Hall Hi].
    apply Forall_singleton in Hi as [Hi Hs]. destruct (IH Hnd Hall) as (n1 & E1 & L1 & K1 & P1).
    destruct (gpu_slot_live n1 (Z.of_nat (length po)) i) as (n2 & E2 & L2 & K2 & S2 & O2).
    { lia. }
    { destruct (slotted_same _ _ (K1 i)) as (_ & _ & _ & ->). done. }
    exists n2. split_and!.
    + rewrite foldl_app, E1. cbn [foldl]. rewrite E2, length_app. cbn [length]. f_equal. lia.
    + congruence.
    + intros j. destruct (K1 j) as [a Ea], (K2 j) as [b Eb]. exists b. rewrite Eb, Ea. by destruct (node ns j).
    + intros k j Hk. destruct (decide (k = length po)) as [->|Hne].
      * rewrite list_lookup_middle in Hk by done. by injection Hk as <-.
      * pose proof (lookup_lt_Some _ _ _ Hk) as Hlt. rewrite length_app in Hlt. cbn [length] in Hlt.
        rewrite lookup_app_l in Hk by lia. rewrite O2; [by apply P1|]. intros ->.
        apply (Hdis i); [by eapply list_elem_of_lookup_2|by apply list_elem_of_singleton].
Qed.
