(* ===== verification/ShaderCorrect.v ===== *)
(** * The Metal shader: the program of a graph

    Run in lockstep, the statements of the nodes leave in each node's slot the
    planes or the mask of the expression the node denotes, and the reduction
    leaves the sum of the forest over the 64 rows of the block. *)

From S2P Require Import Prelude Planes IR A64 Registry Analyzer ExprCompiler ExprBits ExprCorrect Rows Aggregate.
From S2P Require Import Forest ForestCorrect ForestLogic Msl Shader ShaderLanes ShaderGen.

(** ** Expressions *)

(** No subtraction, and no addition unless [adds]. *)
Fixpoint plainA (adds : bool) (e : aexp) : bool :=
  match e with
  | ALoad _ | AConst _ => true
  | AAdd a b => adds && plainA adds a && plainA adds b
  | ASub _ _ => false
  | ASelect c a b => plainB adds c && plainA adds a && plainA adds b
  end
with plainB (adds : bool) (e : bexp) : bool :=
  match e with
  | BCmp _ a b => plainA adds a && plainA adds b
  | BAnd a b | BOr a b => plainB adds a && plainB adds b
  | BNot a => plainB adds a
  end.

Lemma plain_no_sub adds : (forall e, plainA adds e = true -> no_subA e = true) /\ (forall e, plainB adds e = true -> no_subB e = true).
Proof.
  apply expr_mutind; cbn [plainA plainB no_subA no_subB]; intros; try done;
    repeat match goal with H : _ && _ = true |- _ => apply andb_true_iff in H as [? ?] end; rewrite ?andb_true_iff; auto.
Qed.

Definition trees_plain (adds : bool) (trees : list tree) : bool := forallb (fun t => plainB adds t.1.1) trees.

(** ** Composition *)

Section Body.
Context {G : Gpu} (columns : list Z) (block : Z) (nf : nat).
(** Without additions nothing depends on inactive lanes. *)
Variable adds : bool.
Hypothesis Hin : adds = true -> forall x, inactive_lane x = x.

Abbreviation lockstep := (lockstep columns block).

Lemma lockstep_app p q st : lockstep (p ++ q) st = lockstep p st ≫= lockstep q.
Proof using.
  clear Hin. revert st. induction p as [|[a|] p IH]; intros st; [by destruct st as [[? ?] ?]| |apply IH].
  destruct st as [[g0 g1] t]. cbn [app Shader.lockstep].
  destruct (act_step columns block 0 a g0 t) as [[g0' t']|]; [|done]. rewrite !bind_Some.
  destruct (act_step columns block 1 a g1 t') as [[g1' t'']|]; [|done]. rewrite !bind_Some. apply IH.
Qed.

(** The graph the shader was made from, [ns] as the caller built it and [ns1] with the
    slots; the rows of the block. *)
Variables (ns ns1 : list Node) (po : list nat).
Hypothesis Htopo : topo ns1 po.
Hypothesis Hcore : forall i : nat, core (node ns1 i) = core (node ns i).
Hypothesis Hskip : forall i, i ∈ po -> skip_jit (node ns1 i) = false.
Hypothesis Hplace : forall k i, po !! k = Some i -> slot_id (node ns1 i) = Z.of_nat k.

Variable rows : nat -> string -> Z.
Hypothesis Hrows : forall q f, u64 (rows q f).
Hypothesis Hcols : forall i b, i ∈ po -> kind (node ns1 i) = K_LOAD -> (b < 64)%nat ->
  columns !! Z.to_nat (column_index block nf (field_idx (node ns1 i)) b) = Some (plane_of (fun q => rows q (field_name (node ns1 i))) b).

(** The children a node's statement reads are there. *)
Definition complete (n : Node) : Prop :=
  match kind n with
  | K_NOT => is_Some (left n)
  | K_AND | K_OR | K_GT | K_GE | K_LT | K_LE | K_EQ | K_ADD | K_SUB => is_Some (left n) /\ is_Some (right n)
  | K_SELECT => is_Some (left n) /\ is_Some (right n) /\ is_Some (cond n)
  | _ => True
  end.
Hypothesis Hcomplete : forall i, i ∈ po -> complete (node ns1 i).

Definition words64 (V : nat -> Z) : Prop := forall b, (b < 64)%nat -> u64 (V b).

(** Slot [k] holds words. *)
Definition filled_slot (st : pair_state) (k : Z) : Prop := exists V, words64 V /\ holds st k V.

(** The slot of node [i] holds what the node denotes. *)
Definition node_holds (st : pair_state) (i : nat) : Prop :=
  (forall e, denA ns i e -> plainA adds e = true -> holds st (slot_id (node ns1 i)) (PA rows e)) /\
  (forall e, denB ns i e -> plainB adds e = true -> holds st (slot_id (node ns1 i)) (fun _ => MB rows e)).

Record body_inv (l : list nat) (st : pair_state) : Prop := {
  bi_slots : forall k, (k < length po)%nat -> filled_slot st (Z.of_nat k);
  bi_nodes : forall i, i ∈ l -> node_holds st i
}.

Lemma filled_has st k : filled_slot st k -> has_slot st k.
Proof using. clear. intros (V & _ & H0 & H1). split; by eexists. Qed.

Lemma PA_words e : words64 (PA rows e).
Proof using. clear. intros b _. apply PA_u64. Qed.

Lemma MB_words e : words64 (fun _ => MB rows e).
Proof using. clear. intros b _. apply MB_u64. Qed.

(** What the statement [s] of node [i] is to do. *)
Definition stmt_good (st : pair_state) (i : nat) (s : stmt) : Prop :=
  exists V, words64 V /\ computes columns block s st (slot_id (node ns1 i)) V /\
    (forall e, denA ns i e -> plainA adds e = true -> forall b, (b < 64)%nat -> V b = PA rows e b) /\
    (forall e, denB ns i e -> plainB adds e = true -> forall b, (b < 64)%nat -> V b = MB rows e).

Lemma node_kind i n : ns !! i = Some n -> kind (node ns1 i) = kind n /\ children (node ns1 i) = children n /\
  field_name (node ns1 i) = field_name n /\ const_value (node ns1 i) = const_value n.
Proof using Hcore.
  clear -Hcore. intros Hn. pose proof (core_eq _ _ (Hcore i)) as (H1 & H2 & H3 & H4).
  rewrite (list_lookup_total_correct _ _ _ Hn) in *. done.
Qed.

(** The column of an operand: some words, those it denotes if it denotes. *)
Lemma operand_column l st c : body_inv l st -> c ∈ l -> c ∈ po ->
  exists V, words64 V /\ holds st (slot_id (node ns1 c)) V /\
    (forall e, denA ns c e -> plainA adds e = true -> forall b, (b < 64)%nat -> V b = PA rows e b) /\
    (forall e, denB ns c e -> plainB adds e = true -> forall b, (b < 64)%nat -> V b = MB rows e).
Proof using Hplace.
  clear -Hplace. intros I Hl Hp. apply list_elem_of_lookup in Hp as [k Hk].
  rewrite (Hplace k c Hk). destruct (bi_slots _ _ I k) as (V & HV & Hh); [by eapply lookup_lt_Some|].
  exists V. split_and!; [done|done|..]; intros e He Hns b Hb; destruct (bi_nodes _ _ I c Hl) as [HA HB];
    rewrite (Hplace k c Hk) in HA, HB.
  - by apply (holds_agree st _ _ _ b Hh (HA e He Hns)).
  - by apply (holds_agree st _ _ _ b Hh (HB e He Hns)).
Qed.

(** ** One node

    Node [i], its children done. *)

Section Node.
Variables (l : list nat) (st : pair_state) (i : nat).
Hypothesis Hinv : body_inv l st.
Hypothesis Hi : i ∈ po.
Hypothesis Hch : forall c, Some c ∈ children (node ns1 i) -> c ∈ l /\ c ∈ po.

Abbreviation n := (node ns1 i).
Abbreviation dst := (slot_id (node ns1 i)).

Lemma node_slot : has_slot st dst.
Proof using Hplace Hinv Hi.
  apply list_elem_of_lookup in Hi as [k Hk]. rewrite (Hplace k i Hk). apply filled_has, (bi_slots _ _ Hinv). by eapply lookup_lt_Some.
Qed.

Lemma child_column c : Some c ∈ children n ->
  exists V, words64 V /\ holds st (slot_id (node ns1 c)) V /\
    (forall e, denA ns c e -> plainA adds e = true -> forall b, (b < 64)%nat -> V b = PA rows e b) /\
    (forall e, denB ns c e -> plainB adds e = true -> forall b, (b < 64)%nat -> V b = MB rows e).
Proof using Hplace Hinv Hch. intros Hc. destruct (Hch c Hc) as [H1 H2]. by eapply operand_column. Qed.

Lemma left_child a : left n = Some a -> Some a ∈ children n.
Proof using. intros <-. by left. Qed.
Lemma right_child a : right n = Some a -> Some a ∈ children n.
Proof using. intros <-. right. by left. Qed.
Lemma cond_child a : cond n = Some a -> Some a ∈ children n.
Proof using. intros <-. do 2 right. by left. Qed.

(** The denotation of node [i], by its kind. *)
Lemma denA_by_kind e : denA ns i e ->
  match e with
  | ALoad f => kind n = K_LOAD /\ field_name n = f
  | AConst c => kind n = K_CONST /\ const_value n = c
  | AAdd ea eb => exists a b, kind n = K_ADD /\ left n = Some a /\ right n = Some b /\ denA ns a ea /\ denA ns b eb
  | ASub ea eb => kind n = K_SUB
  | ASelect ec ea eb => exists a b c, kind n = K_SELECT /\ left n = Some a /\ right n = Some b /\ cond n = Some c /\
      denA ns a ea /\ denA ns b eb /\ denB ns c ec
  end.
Proof using Hcore.
  clear -Hcore. intros H. inversion H; subst;
    match goal with Hn : ns !! i = Some ?m |- _ => destruct (node_kind i m Hn) as (Ek & Ec & Ef & Ev) end;
    match goal with Hc : children _ = _ |- _ => rewrite Hc in Ec; injection Ec as El Er Eo _ end;
    rewrite Ek; naive_solver.
Qed.

Lemma denB_by_kind e : denB ns i e ->
  match e with
  | BCmp op ea eb => exists a b, kind n = cmp_kind op /\ left n = Some a /\ right n = Some b /\ denA ns a ea /\ denA ns b eb
  | BAnd ea eb => exists a b, kind n = K_AND /\ left n = Some a /\ right n = Some b /\ denB ns a ea /\ denB ns b eb
  | BOr ea eb => exists a b, kind n = K_OR /\ left n = Some a /\ right n = Some b /\ denB ns a ea /\ denB ns b eb
  | BNot ea => exists a, kind n = K_NOT /\ left n = Some a /\ denB ns a ea
  end.
Proof using Hcore.
  clear -Hcore. intros H. inversion H; subst;
    match goal with Hn : ns !! i = Some ?m |- _ => destruct (node_kind i m Hn) as (Ek & Ec & Ef & Ev) end;
    match goal with Hc : children _ = _ |- _ => rewrite Hc in Ec; injection Ec as El Er Eo _ end;
    rewrite Ek; naive_solver.
Qed.

Lemma denA_plane e : denA ns i e -> result_of (kind n) = BITPLANE.
Proof using Hcore.
  clear -Hcore. intros H. inversion H as [? m Hm Hk|? m Hm Hk|? m ? ? ? ? Hm Hk|? m ? ? ? ? Hm Hk|? m ? ? ? ? ? ? Hm Hk]; subst;
    destruct (node_kind i m Hm) as (-> & _); by rewrite Hk.
Qed.

Lemma denB_mask e : denB ns i e -> result_of (kind n) = BITMASK.
Proof using Hcore.
  clear -Hcore. intros H. inversion H as [op ? m ? ? ? ? Hm Hk|? m ? ? ? ? Hm Hk|? m ? ? ? ? Hm Hk|? m ? ? Hm Hk]; subst;
    destruct (node_kind i m Hm) as (-> & _); rewrite Hk; by try destruct op.
Qed.

(** The node is of another kind. *)
Ltac other_kind := exfalso; repeat match goal with op : cmpop |- _ => destruct op end; naive_solver congruence.

(** Statements of nodes with planes, and with masks. *)
Lemma plane_good s V : result_of (kind n) = BITPLANE -> words64 V -> computes columns block s st dst V ->
  (forall e, denA ns i e -> plainA adds e = true -> forall b, (b < 64)%nat -> V b = PA rows e b) -> stmt_good st i s.
Proof using Hcore.
  clear -Hcore. intros Hk HV Hs HA. exists V. split_and!; [done|done|done|]. intros e He%denB_mask. congruence.
Qed.

Lemma mask_good s V : result_of (kind n) = BITMASK -> words64 V -> computes columns block s st dst V ->
  (forall e, denB ns i e -> plainB adds e = true -> forall b, (b < 64)%nat -> V b = MB rows e) -> stmt_good st i s.
Proof using Hcore.
  clear -Hcore. intros Hk HV Hs HB. exists V. split_and!; [done|done| |done]. intros e He%denA_plane. congruence.
Qed.

Lemma load_good : kind n = K_LOAD -> stmt_good st i (S_load dst nf (field_idx n)).
Proof using Hcore Hplace Hcols Hinv Hi.
  clear Hch. intros Hk. apply (plane_good _ (plane_of (fun q => rows q (field_name n)))).
  - by rewrite Hk.
  - intros b _. apply plane_of_u64.
  - apply load_computes; [apply node_slot|]. intros b Hb. by apply Hcols.
  - intros e He _ b Hb. apply denA_by_kind in He. destruct e as [f| | | |]; [|other_kind..].
    by destruct He as [_ <-].
Qed.

Lemma const_good : kind n = K_CONST -> stmt_good st i (S_const dst (const_value n)).
Proof using Hcore Hplace Hinv Hi.
  clear Hch. intros Hk. eapply plane_good; [by rewrite Hk| |apply const_computes, node_slot|].
  - intros b _. destruct (Z.testbit _ _); [apply u64_ones|apply u64_0].
  - intros e He _ b Hb. apply denA_by_kind in He. destruct e as [|c| | |]; [other_kind| |other_kind..].
    destruct He as [_ ->]. by rewrite PA_const.
Qed.

Lemma not_good a : kind n = K_NOT -> left n = Some a -> stmt_good st i (S_not dst (slot_id (node ns1 a))).
Proof using Hcore Hplace Hinv Hi Hch.
  intros Hk Ha. destruct (child_column a (left_child a Ha)) as (A & WA & HA & _ & VA).
  eapply mask_good; [by rewrite Hk| |by apply not_computes, HA; apply node_slot|].
  - intros b Hb. by apply u64_lnot64, WA.
  - intros e He Hns b Hb. apply denB_by_kind in He. destruct e as [op ? ?| | |ea]; [other_kind..|].
    destruct He as (a' & _ & Ha' & He). assert (a' = a) as -> by congruence. cbn [plainB] in Hns.
    by rewrite MB_not, (VA ea He Hns).
Qed.

Lemma and_good a c : kind n = K_AND -> left n = Some a -> right n = Some c ->
  stmt_good st i (S_and dst (slot_id (node ns1 a)) (slot_id (node ns1 c))).
Proof using Hcore Hplace Hinv Hi Hch.
  intros Hk Ha Hc. destruct (child_column a (left_child a Ha)) as (A & WA & HA & _ & VA).
  destruct (child_column c (right_child c Hc)) as (B & WB & HB & _ & VB).
  eapply mask_good; [by rewrite Hk| |eapply (binary_computes _ _ Z.land); [done|done|apply node_slot|exact HA|exact HB]|].
  - intros b Hb. apply u64_land; [by apply WA|by apply WB].
  - intros e He Hns b Hb. apply denB_by_kind in He. destruct e as [op ? ?|ea ec| |]; [other_kind| |other_kind..].
    destruct He as (a' & c' & _ & Ha' & Hc' & Hea & Hec). assert (a' = a) as -> by congruence. assert (c' = c) as -> by congruence.
    cbn [plainB] in Hns. apply andb_true_iff in Hns as [N1 N2]. by rewrite MB_and, (VA ea Hea N1), (VB ec Hec N2).
Qed.

Lemma or_good a c : kind n = K_OR -> left n = Some a -> right n = Some c ->
  stmt_good st i (S_or dst (slot_id (node ns1 a)) (slot_id (node ns1 c))).
Proof using Hcore Hplace Hinv Hi Hch.
  intros Hk Ha Hc. destruct (child_column a (left_child a Ha)) as (A & WA & HA & _ & VA).
  destruct (child_column c (right_child c Hc)) as (B & WB & HB & _ & VB).
  eapply mask_good; [by rewrite Hk| |eapply (binary_computes _ _ Z.lor); [done|done|apply node_slot|exact HA|exact HB]|].
  - intros b Hb. apply u64_lor; [by apply WA|by apply WB].
  - intros e He Hns b Hb. apply denB_by_kind in He. destruct e as [op ? ?| |ea ec|]; [other_kind..| |other_kind].
    destruct He as (a' & c' & _ & Ha' & Hc' & Hea & Hec). assert (a' = a) as -> by congruence. assert (c' = c) as -> by congruence.
    cbn [plainB] in Hns. apply andb_true_iff in Hns as [N1 N2]. by rewrite MB_or, (VA ea Hea N1), (VB ec Hec N2).
Qed.

Lemma cmp_good op a c : kind n = cmp_kind op -> left n = Some a -> right n = Some c ->
  stmt_good st i (S_cmp op dst (slot_id (node ns1 a)) (slot_id (node ns1 c))).
Proof using Hcore Hplace Hinv Hi Hch Hrows.
  intros Hk Ha Hc. destruct (child_column a (left_child a Ha)) as (A & WA & HA & VA & _).
  destruct (child_column c (right_child c Hc)) as (B & WB & HB & VB & _).
  eapply mask_good; [by rewrite Hk; destruct op| |eapply cmp_computes; [apply node_slot|exact HA|exact HB|done|done]|].
  - intros b Hb. apply mask64_u64.
  - intros e He Hns b Hb. apply denB_by_kind in He. destruct e as [op' ea ec|? ?|? ?|?]; [|other_kind..].
    destruct He as (a' & c' & Hk' & Ha' & Hc' & Hea & Hec). assert (a' = a) as -> by congruence. assert (c' = c) as -> by congruence.
    assert (op' = op) as -> by (apply cmp_kind_inj; congruence).
    cbn [plainB] in Hns. apply andb_true_iff in Hns as [N1 N2]. apply mask64_ext. intros q Hq. cbn [laneB].
    rewrite <- !(row_value_PA rows Hrows) by done. f_equal; apply row_value_ext; intros k Hk0; [by apply VA|by apply VB].
Qed.

Lemma add_good a c : kind n = K_ADD -> left n = Some a -> right n = Some c ->
  stmt_good st i (S_add dst (slot_id (node ns1 a)) (slot_id (node ns1 c))).
Proof using Hin Hcore Hplace Hinv Hi Hch Hrows.
  intros Hk Ha Hc. destruct (child_column a (left_child a Ha)) as (A & WA & HA & VA & _).
  destruct (child_column c (right_child c Hc)) as (B & WB & HB & VB & _).
  eapply plane_good; [by rewrite Hk| |eapply add_lockstep; [apply node_slot|exact HA|exact HB|done|done]|].
  - intros b Hb. by apply sum_planes_u64.
  - intros e He Hns b Hb. apply denA_by_kind in He. destruct e as [| |ea ec| |]; [other_kind|other_kind| |other_kind..].
    destruct He as (a' & c' & _ & Ha' & Hc' & Hea & Hec). assert (a' = a) as -> by congruence. assert (c' = c) as -> by congruence.
    cbn [plainA] in Hns. apply andb_true_iff in Hns as [[Hadds N1]%andb_true_iff N2].
    rewrite sum_planes_add by auto. apply mask64_ext. intros q Hq. f_equal. cbn [laneA Z.b2z].
    rewrite Z.add_0_r, <- !(row_value_PA rows Hrows) by done.
    do 2 f_equal; apply row_value_ext; intros k Hk0; [by apply VA|by apply VB].
Qed.

Lemma sub_good a c : kind n = K_SUB -> left n = Some a -> right n = Some c ->
  stmt_good st i (S_sub dst (slot_id (node ns1 a)) (slot_id (node ns1 c))).
Proof using Hcore Hplace Hinv Hi Hch.
  intros Hk Ha Hc. destruct (child_column a (left_child a Ha)) as (A & WA & HA & _ & _).
  destruct (child_column c (right_child c Hc)) as (B & WB & HB & _ & _).
  eapply plane_good; [by rewrite Hk| |eapply add_lockstep; [apply node_slot|exact HA|exact HB|done|done]|].
  - intros b Hb. by apply sum_planes_u64.
  - intros e He Hns b Hb. apply denA_by_kind in He. destruct e; [other_kind..|discriminate Hns|other_kind].
Qed.

Lemma select_good a c m : kind n = K_SELECT -> left n = Some a -> right n = Some c -> cond n = Some m ->
  stmt_good st i (S_select dst (slot_id (node ns1 m)) (slot_id (node ns1 a)) (slot_id (node ns1 c))).
Proof using Hcore Hplace Hinv Hi Hch.
  intros Hk Ha Hc Hm. destruct (child_column a (left_child a Ha)) as (A & WA & HA & VA & _).
  destruct (child_column c (right_child c Hc)) as (B & WB & HB & VB & _).
  destruct (child_column m (cond_child m Hm)) as (M & WM & HM & _ & VM).
  eapply plane_good; [by rewrite Hk| |eapply select_computes; [apply node_slot|exact HM|exact HA|exact HB]|].
  - intros b Hb. apply u64_lor; apply u64_land; [by apply WM|by apply WA|by apply u64_lnot64, WM|by apply WB].
  - intros e He Hns b Hb. apply denA_by_kind in He. destruct e as [| | | |ec ea eb]; [other_kind..|].
    destruct He as (a' & c' & m' & _ & Ha' & Hc' & Hm' & Hea & Heb & Hec).
    assert (a' = a) as -> by congruence. assert (c' = c) as -> by congruence. assert (m' = m) as -> by congruence.
    cbn [plainA] in Hns. apply andb_true_iff in Hns as [[N0 N1]%andb_true_iff N2].
    rewrite PA_select, (VM ec Hec N0), (VA ea Hea N1), (VB eb Heb N2) by done. unfold mux. f_equal.
    rewrite Z.land_comm. apply land_lnot; [apply PA_u64|apply MB_u64].
Qed.

(** What a node asks of its statement; a node without one denotes nothing. *)
Definition good (os : option stmt) : Prop :=
  match os with
  | Some s => stmt_good st i s
  | None => (forall e, ~ denA ns i e) /\ (forall e, ~ denB ns i e)
  end.

Lemma silent_good : result_of (kind n) = BITPLANE -> is_leaf (kind n) = false ->
  (match kind n with K_ADD | K_SUB | K_SELECT => false | _ => true end) = true -> good None.
Proof using Hcore.
  clear -Hcore. intros Hk H1 H2. split; intros e He.
  - apply denA_by_kind in He. destruct e; destruct_and?; try (destruct He as (? & ? & He)); try (destruct He as (? & He));
      destruct_and?; match goal with E : kind _ = _ |- _ => rewrite E in H1, H2; done end.
  - apply denB_mask in He. congruence.
Qed.

(** Whatever its kind, the node's statement does its part. *)
Lemma node_good : complete n -> exists os, node_stmt ns1 nf n = Some os /\ good os.
Proof using Hin Hcore Hplace Hcols Hinv Hi Hch Hrows.
  intros Hc. unfold complete in Hc. unfold node_stmt. destruct (kind n) eqn:Hk; cbv zeta;
    try (eexists; split; [reflexivity|]; apply silent_good; rewrite Hk; done);
    try (lazymatch type of Hc with is_Some _ /\ is_Some _ => destruct Hc as [[a Ha] [c Hc']] end; rewrite Ha, Hc'; cbn [fmap option_fmap option_map]; rewrite !bind_Some;
         eexists; split; [reflexivity|]; cbn [good]).
  - eexists. split; [reflexivity|]. by apply load_good.
  - eexists. split; [reflexivity|]. by apply const_good.
  - by apply add_good.
  - by apply sub_good.
  - by apply (cmp_good C_GT).
  - by apply (cmp_good C_LT).
  - by apply (cmp_good C_GE).
  - by apply (cmp_good C_LE).
  - by apply (cmp_good C_EQ).
  - by apply and_good.
  - by apply or_good.
  - destruct Hc as [a Ha]. rewrite Ha. cbn [fmap option_fmap option_map]. rewrite bind_Some. eexists. split; [reflexivity|].
    by apply not_good.
  - destruct Hc as ([a Ha] & [c Hc] & [m Hm]). rewrite Ha, Hc, Hm. cbn [fmap option_fmap option_map]. rewrite !bind_Some.
    eexists. split; [reflexivity|]. by apply select_good.
Qed.

End Node.

(** ** All nodes *)

Lemma body_next l i st : body_inv l st -> i ∈ po -> i ∉ l ->
  (forall j, j ∈ l -> j ∈ po) -> (forall c, Some c ∈ children (node ns1 i) -> c ∈ l) ->
  exists s st', add_node ns1 nf i [] = Some s /\ lockstep (mjoin (stmt_acts <$> s)) st = Some st' /\
    body_inv (l ++ [i]) st' /\ length (shared_sums st'.2) = length (shared_sums st.2).
Proof using Hin Hcore Hplace Hcols Hrows Hcomplete Hskip.
  intros Hinv Hi Hni Hl Hch. unfold add_node. rewrite (Hskip i Hi).
  destruct (node_good l st i Hinv Hi ltac:(intros c Hc; split; [by apply Hch|by apply Hl, Hch]) (Hcomplete i Hi)) as ([s|] & -> & Hs).
  all: rewrite bind_Some; cbn [app option_list]; eexists.
  - destruct Hs as (V & WV & (st' & E & Hw & Hsum) & VA & VB). exists st'. split_and!; [done| | |done].
    { change (lockstep (stmt_acts s ++ []) st = Some st'). by rewrite app_nil_r. }
    apply list_elem_of_lookup in Hi as Hi'. destruct Hi' as [k Hk]. pose proof (Hplace k i Hk) as Ek. rewrite Ek in *.
    split.
    + intros j Hj. destruct (decide (Z.of_nat j = Z.of_nat k)) as [E'|Hne].
      * rewrite E'. exists V. split; [done|apply Hw].
      * destruct (bi_slots _ _ Hinv j Hj) as (W & HW & Hh). exists W. split; [done|]. by eapply wrote_holds.
    + intros j [Hj|Hj]%elem_of_app.
      * assert (slot_id (node ns1 j) <> Z.of_nat k) as Hne.
        { destruct (proj1 (list_elem_of_lookup _ _) (Hl j Hj)) as [k' Hk']. rewrite (Hplace k' j Hk'). intros E'%Nat2Z.inj.
          subst k'. rewrite Hk in Hk'. injection Hk' as ->. by apply Hni. }
        destruct (bi_nodes _ _ Hinv j Hj) as [HA HB].
        split; intros e He Hns; (eapply wrote_holds; [exact Hw|done|]); [by apply HA|by apply HB].
      * apply list_elem_of_singleton in Hj as ->. destruct Hw as [Hh _]. rewrite <- Ek in Hh.
        split; intros e He Hns; (eapply holds_ext; [|exact Hh]); intros b Hb; [by apply VA|by apply VB].
  - exists st. split_and!; [done|by destruct st as [[? ?] ?]| |done]. split; [apply Hinv|].
    intros j [Hj|Hj]%elem_of_app; [by apply (bi_nodes _ _ Hinv)|]. apply list_elem_of_singleton in Hj as ->.
    destruct Hs as [HA HB]. split; intros e He; exfalso; [by apply (HA e)|by apply (HB e)].
Qed.

Lemma add_node_app i body : add_node ns1 nf i body = (fun s => body ++ s) <$> add_node ns1 nf i [].
Proof using.
  clear. unfold add_node. destruct (skip_jit (node ns1 i)); [cbn; by rewrite app_nil_r|].
  by destruct (node_stmt ns1 nf (node ns1 i)) as [[s|]|].
Qed.

(** The whole body, from a scratchpad that holds words. *)
Lemma body_all st0 : body_inv [] st0 ->
  exists body st, mfold (add_node ns1 nf) po [] = Some body /\ lockstep (mjoin (stmt_acts <$> body)) st0 = Some st /\
    body_inv po st /\ length (shared_sums st.2) = length (shared_sums st0.2).
Proof using Hin Htopo Hcore Hplace Hcols Hrows Hcomplete Hskip.
  intros H0. destruct (mfold_rule (add_node ns1 nf) (fun l body => exists st, lockstep (mjoin (stmt_acts <$> body)) st0 = Some st /\
    body_inv l st /\ length (shared_sums st.2) = length (shared_sums st0.2)) po []) as (body & E & st & H).
  - exists st0. split_and!; [by destruct st0 as [[? ?] ?]|done|done].
  - intros l i rest body El (st & Ec & Hinv & Hs).
    pose proof Htopo as Ht. rewrite El in Ht. apply topo_split in Ht as [Hni Hch].
    destruct (body_next l i st Hinv) as (s & st' & Ea & Es & Hinv' & Hs').
    + rewrite El. apply elem_of_app. right. by left.
    + done.
    + intros j Hj. rewrite El. apply elem_of_app. by left.
    + intros c Hc. apply (Hch (node ns1 i)); [|done]. apply list_lookup_lookup_total_lt.
      apply (topo_lt ns1 po); [done|]. rewrite El. apply elem_of_app. right. by left.
    + exists (body ++ s). rewrite add_node_app, Ea. split; [done|]. exists st'. split_and!; [|done|congruence].
      by rewrite fmap_app, join_app, lockstep_app, Ec, bind_Some.
  - by exists body, st.
Qed.

(** ** The aggregator *)

(** What the weighted masks add on a row. *)
Definition weighted (trees : list tree) (ds : list Z) (row : string -> Z) : Z :=
  zsum (length ds) (fun i => match ((fun t : tree => t.1.1) <$> trees) !! i with
                             | Some b => Z.b2z (beval row b) * ds !!! i | None => 0 end).

Lemma weighted_cons t trees d ds row :
  weighted (t :: trees) (d :: ds) row = Z.b2z (beval row t.1.1) * d + weighted trees ds row.
Proof using. clear. unfold weighted. cbn [length]. by rewrite zsum_S_first. Qed.

(** The masks of the trees are in their slots. *)
Definition tree_mask (st : pair_state) (t : tree) (k : Z) : Prop := holds st k (fun _ => MB rows t.1.1) /\ no_subB t.1.1 = true.

Lemma row_sum_value sid sp (trees : list tree) ds ks base i : (i < 32)%nat -> (sid < 2)%nat ->
  length ds = length trees ->
  Forall2 (fun (t : tree) k => slot_at sp k = Some (vec sid (fun _ => MB rows t.1.1)) /\ no_subB t.1.1 = true) trees ks ->
  row_sum sp (zip ks ds) base sid i = Some (wrap64 (base + weighted trees ds (rows (sid * 32 + i)%nat))).
Proof using.
  clear. intros Hi Hs Hl Hk. unfold row_sum.
  assert (forall acc, mfold (fun kw sum => v ← slot_at sp kw.1;
    Some (if Z.testbit (v !!! i) (Z.of_nat (sid * 32 + i)) then wrap64 (sum + kw.2) else sum)) (zip ks ds) (wrap64 acc) =
    Some (wrap64 (acc + weighted trees ds (rows (sid * 32 + i)%nat)))) as H; [|apply H].
  revert ds Hl. induction Hk as [|t k trees ks [Hv Hn] _ IH]; intros [|d ds] Hl acc; try done.
  - unfold weighted. cbn. by rewrite Z.add_0_r.
  - cbn [zip zip_with mfold fst snd]. rewrite Hv, bind_Some, vec_total, weighted_cons by done. unfold MB. rewrite mask64_bit by lia.
    rewrite (proj2 (lane_no_sub (sid * 32 + i) (rows (sid * 32 + i)%nat)) _ Hn). injection Hl as Hl.
    destruct (beval _ _); rewrite bind_Some; cbn [Z.b2z].
    + rewrite wrap64_idemp_add_l, IH by done. do 2 f_equal. lia.
    + by rewrite IH.
Qed.

(** The reduction adds the 64 rows up. *)
Lemma reduce_run st (trees : list tree) ds ks base : length (shared_sums st.2) = 2%nat -> length ds = length trees ->
  Forall2 (fun t k => tree_mask st t k) trees ks ->
  exists st', lockstep [Some (A_reduce base (zip ks ds)); None; Some A_output] st = Some st' /\
    output_mask st'.2 = wrap64 (zsum 64 (fun q => base + weighted trees ds (rows q))).
Proof using.
  clear. intros Hs Hl Hk. destruct st as [[g0 g1] t]. cbn [fst snd] in *.
  pose (v q := base + weighted trees ds (rows q)).
  assert (forall sid g, (sid < 2)%nat ->
    Forall2 (fun (t : tree) k => slot_at (scratchpad g) k = Some (vec sid (fun _ => MB rows t.1.1)) /\ no_subB t.1.1 = true) trees ks ->
    mapM (row_sum (scratchpad g) (zip ks ds) base sid) (seq 0 32) =
    Some (lanes (fun i => wrap64 (v (sid * 32 + i)%nat)))) as Hm.
  { intros sid g Hsid Hf. apply mapM_Some_2. unfold lanes, arr. rewrite Forall2_fmap_r. apply Forall_Forall2_diag, Forall_forall.
    intros i Hi%elem_of_seq. apply (row_sum_value sid _ trees); [lia|done|done|done]. }
  set (s0 := wrap64 (zsum 32 (fun i => v (0 * 32 + i)%nat))). set (s1 := wrap64 (zsum 32 (fun i => v (1 * 32 + i)%nat))).
  exists (g0, g1, mkShared (shared_A t) (shared_B t) (<[1%nat := s1]> (<[0%nat := s0]> (shared_sums t))) (shared_carry t)
    (wrap64 (s0 + s1))). split.
  - cbn [Shader.lockstep]. unfold act_step, run_act.
    rewrite (Hm 0%nat g0), (Hm 1%nat g1).
    2,4: lia. 2,3: eapply Forall2_impl; [exact Hk|]; intros tr k [[H0 H1] Hn]; done.
    rewrite !bind_Some.
    rewrite (reduce_lanes_sum (fun i => v (0 * 32 + i)%nat)), (reduce_lanes_sum (fun i => v (1 * 32 + i)%nat)).
    cbn [apply_write shared_A shared_B shared_sums shared_carry output_mask Nat.eqb]. fold s0 s1.
    destruct (shared_sums t) as [|x [|y [|z l]]]; done.
  - cbn [snd output_mask]. subst s0 s1. rewrite wrap64_idemp_add_l, wrap64_idemp_add_r. f_equal.
    change 64%nat with (32 + 32)%nat. by rewrite zsum_split.
Qed.

End Body.
