(* ===== verification/ShaderForest.v ===== *)
(** * The Metal shader: a forest

    The shader of [SUM trees] or [SUM trees + const] computes, for its
    block, the sum of the forest over the 64 rows; and when it is race-free so does every run of it. *)

From S2P Require Import Prelude Planes IR A64 Registry Analyzer ExprCompiler ExprCorrect Rows Aggregate.
From S2P Require Import Forest ForestCorrect ForestLogic Msl Shader ShaderRun ShaderLanes ShaderGen ShaderCorrect.

Section Forest.
Context {G : Gpu}.
Variable adds : bool.
Hypothesis Hin : adds = true -> forall x, inactive_lane x = x.

Variables (ns : list Node) (r sn : nat) (c : option nat) (trees : list tree).
Hypothesis Hg : forest_graph ns r sn c trees.
Hypothesis Hwf : wf_nodes ns.
Hypothesis Hr : (r < length ns)%nat.
Hypothesis Hns : trees_plain adds trees = true.

(** The pool as the generator finds it. *)
Variables (ns1 : list Node) (nf : nat).
Hypothesis Hlen : length ns1 = length ns.
Hypothesis Hkeep : forall i : nat, core (node ns1 i) = core (node ns i) /\ weight (node ns1 i) = weight (node ns i).
Hypothesis Hskip : forall i, reach ns r i -> skip_jit (node ns1 i) = false.

Lemma keep_children (i : nat) : children (node ns1 i) = children (node ns i).
Proof using Hkeep. clear -Hkeep. by destruct (Hkeep i) as ((_ & _ & _ & ->)%core_eq & _). Qed.

Lemma keep_wf : wf_nodes ns1.
Proof using Hkeep Hlen Hwf.
  clear -Hkeep Hlen Hwf. intros k n Hn. pose proof (lookup_lt_Some _ _ _ Hn) as Hk.
  rewrite <- (list_lookup_total_correct _ _ _ Hn), keep_children. apply (Hwf k), list_lookup_lookup_total_lt. lia.
Qed.

Lemma keep_reach i j : reach ns1 i j <-> reach ns i j.
Proof using Hkeep Hlen.
  clear -Hkeep Hlen.
  split; (induction 1 as [|i k j (n & Hn & Hc) _ IH]; [apply rtc_refl|]; apply rtc_l with k; [|done];
    pose proof (lookup_lt_Some _ _ _ Hn) as Hi; rewrite <- (list_lookup_total_correct _ _ _ Hn) in Hc).
  - exists (node ns i). rewrite <- keep_children. split; [apply list_lookup_lookup_total_lt; lia|done].
  - exists (node ns1 i). rewrite keep_children. split; [apply list_lookup_lookup_total_lt; lia|done].
Qed.

Lemma reach_child (i j : nat) : (i < length ns)%nat -> reach ns r i -> Some j ∈ children (node ns i) -> reach ns r j.
Proof using. clear. intros Hi Hri Hc. eapply rtc_r; [exact Hri|]. exists (node ns i). split; [by apply list_lookup_lookup_total_lt|done]. Qed.

Lemma reach_sum : reach ns r sn.
Proof using Hg Hr.
  clear -Hg Hr. destruct (fg_root _ _ _ _ _ Hg) as [[_ ->]|(k & v & _ & _ & Hch & _)]; [apply rtc_refl|].
  apply (reach_child r); [done|apply rtc_refl|]. rewrite Hch. by left.
Qed.

Lemma reach_operand o : Some o ∈ operands (node ns sn) -> reach ns r o.
Proof using Hg Hr Hwf.
  clear -Hg Hr Hwf. intros Ho. pose proof reach_sum as Hs. apply (reach_child sn); [|done|].
  - pose proof (reach_le ns r sn Hwf Hs). lia.
  - rewrite (fg_children _ _ _ _ _ Hg). by do 3 right.
Qed.

Lemma reach_mask op t : op ∈ operands (node ns sn) -> denT ns op t -> reach ns r (mask_of ns op).
Proof using Hg Hr Hwf.
  clear -Hg Hr Hwf. intros Hop Ht. inversion Ht as [o n cc l rr b tv fv Hn Hk Hch|o b Hb]; subst; unfold mask_of.
  - pose proof (reach_operand o Hop) as Ho. rewrite (list_lookup_total_correct _ _ _ Hn), decide_True by done.
    apply (reach_child o); [by eapply lookup_lt_Some|done|]. rewrite (list_lookup_total_correct _ _ _ Hn), Hch.
    injection Hch as _ _ -> _. cbn. do 2 right. by left.
  - rewrite decide_False by (by eapply denB_shape). by apply reach_operand.
Qed.

(** Every node below the root has the children its kind needs. *)
Lemma denotes_complete (i : nat) : denotes ns i -> complete (node ns i).
Proof using.
  clear. intros [[e H]|[e H]]; inversion H; subst;
    match goal with Hn : ns !! i = Some ?m |- _ => rewrite (list_lookup_total_correct _ _ _ Hn); unfold complete end;
    match goal with Hk : kind _ = _ |- _ => rewrite Hk end; try destruct op; cbn [cmp_kind];
    try done; match goal with Hc : children _ = _ |- _ => unfold children in Hc; injection Hc as E1 E2 E3 E4 end;
    rewrite ?E1, ?E2, ?E3; repeat split; by eexists.
Qed.

Lemma reach_complete (i : nat) : reach ns r i -> complete (node ns i).
Proof using Hg.
  clear -Hg. intros Hi. destruct (forest_reach ns r sn c trees Hg i Hi) as [[->|[->|[Ho Hk]]]|Hd]; [| | |by apply denotes_complete].
  - destruct (fg_root _ _ _ _ _ Hg) as [[_ ->]|(k & v & _ & Ha & Hch & _)]; unfold complete.
    + by rewrite (fg_sum _ _ _ _ _ Hg).
    + rewrite Ha. injection Hch as -> -> _. repeat split; by try eexists.
  - unfold complete. by rewrite (fg_sum _ _ _ _ _ Hg).
  - apply list_elem_of_lookup in Ho as [k Hk'].
    destruct (Forall2_lookup_l _ _ _ k _ (fg_trees _ _ _ _ _ Hg) Hk') as (t & _ & Ht).
    inversion Ht as [o n cc l rr b tv fv Hn Hkn Hch|o b Hb]; subst.
    + rewrite (list_lookup_total_correct _ _ _ Hn). unfold complete. rewrite Hkn. injection Hch as -> -> -> _. repeat split; by try eexists.
    + destruct (denB_shape _ _ _ Hb) as [Hne _]. done.
Qed.

Lemma complete_core n n' : core n' = core n -> complete n -> complete n'.
Proof using. clear. intros (Hk & _ & _ & Hc)%core_eq. injection Hc as E1 E2 E3 E4. unfold complete. by rewrite Hk, E1, E2, E3. Qed.

Lemma complete_stmt (l : list Node) n : complete n -> is_Some (node_stmt l nf n).
Proof using.
  clear. unfold complete, node_stmt. destruct (kind n); intros Hc; cbv zeta; try (by eexists);
    try (destruct Hc as [[a ->] [b ->]]; by eexists).
  - destruct Hc as [a ->]. by eexists.
  - destruct Hc as ([a ->] & [b ->] & [d ->]). by eexists.
Qed.

(** The columns hold the rows of the block. *)
Definition columns_hold (columns : list Z) (block : Z) (rows : nat -> string -> Z) : Prop :=
  forall (i b : nat), reach ns r i -> kind (node ns i) = K_LOAD -> (b < 64)%nat ->
    columns !! Z.to_nat (column_index block nf (field_idx (node ns1 i)) b) = Some (plane_of (fun q => rows q (field_name (node ns i))) b).

(** What the shader leaves for a block in lockstep. *)
Definition shader_sums (sh : shader) : Prop :=
  forall columns block rows r0 r1 t, (forall q f, u64 (rows q f)) -> columns_hold columns block rows -> length (shared_sums t) = 2%nat ->
  exists st, lockstep columns block (program sh) (thread_init sh r0, thread_init sh r1, t) = Some st /\
    output_mask st.2 = wrap64 (zsum 64 (fun q => base_of ns c + trees_value trees (rows q))).

(** *** The steps of the proof *)

Lemma slotted_topo l1 l2 po : length l2 = length l1 -> (forall j : nat, slotted (node l1 j) (node l2 j)) -> topo l1 po -> topo l2 po.
Proof using.
  clear. intros L2 K2 Ht. induction Ht as [|l i n Ht IH Hi Hni Hc]; [constructor|].
  pose proof (lookup_lt_Some _ _ _ Hi). apply topo_snoc with (node l2 i); [done|apply list_lookup_lookup_total_lt; lia|done|].
  intros j Hj. apply Hc. destruct (slotted_same _ _ (K2 i)) as ((_ & _ & _ & E)%core_eq & _).
  by rewrite E, (list_lookup_total_correct _ _ _ Hi) in Hj.
Qed.

Lemma start_inv ns2 po rows sh r0 r1 t : sh_slots sh = (if Z.of_nat (length po) =? 0 then 1 else Z.of_nat (length po)) ->
  body_inv adds ns ns2 po rows [] (thread_init sh r0, thread_init sh r1, t).
Proof using.
  clear. intros Hn. split; [|intros i Hi; by apply not_elem_of_nil in Hi]. intros k Hk. exists (fun _ => 0). split; [intros b' _; apply u64_0|].
  assert (forall regs, slot_at (scratchpad (thread_init sh regs)) (Z.of_nat k) = Some (replicate 32 0)) as Hs.
  { intros regs. unfold slot_at. cbn [scratchpad thread_init]. rewrite (proj2 (Z.leb_le _ _)) by lia. rewrite Hn.
    apply lookup_replicate_2. destruct (Z.eqb_spec (Z.of_nat (length po)) 0); lia. }
  split; cbn [fst snd]; by rewrite Hs.
Qed.

(** The slots the aggregator reads hold the masks of the trees. *)
Lemma masks_in_slots ns2 po rows st ks : (forall i, i ∈ po <-> reach ns r i) -> body_inv adds ns ns2 po rows po st ->
  Forall2 (fun op k => k = slot_id (node ns2 (mask_of ns op))) (operands (node ns sn)) ks ->
  Forall2 (fun t k => tree_mask rows st t k) trees ks.
Proof using Hg Hr Hwf Hns.
  clear -Hg Hr Hwf Hns. intros Hpo Hinv Hks. apply Forall2_same_length_lookup_2.
  { rewrite <- (Forall2_length _ _ _ Hks). symmetry. by eapply Forall2_length, fg_trees. }
  intros j tr k Htr Hk. destruct (Forall2_lookup_r _ _ _ j k Hks Hk) as (op & Hop & ->).
  destruct (Forall2_lookup_l _ _ _ j op (fg_trees _ _ _ _ _ Hg) Hop) as (tr' & Htr' & Hden).
  rewrite Htr in Htr'. injection Htr' as <-. destruct (denT_mask_of _ _ _ Hden) as (_ & _ & Hb).
  assert (plainB adds tr.1.1 = true) as Hn.
  { unfold trees_plain in Hns. rewrite forallb_forall in Hns. apply Hns, list_elem_of_In. by eapply list_elem_of_lookup_2. }
  split; [|by apply (plain_no_sub adds)]. destruct (bi_nodes _ _ _ _ _ _ _ Hinv (mask_of ns op)) as [_ HB]; [|by apply HB].
  apply Hpo. apply (reach_mask op tr); [by eapply list_elem_of_lookup_2|done].
Qed.

(** Weights and base add up to the trees and the constant. *)
Lemma weighted_total f rows : wrap64 (base_sum f) = wrap64 (base_of ns c + sum_false trees) -> Forall2 delta_of trees (delta_weights f) ->
  wrap64 (zsum 64 (fun q => base_sum f + weighted trees (delta_weights f) (rows q))) =
  wrap64 (zsum 64 (fun q => base_of ns c + trees_value trees (rows q))).
Proof using.
  clear. intros Ebase Hds.
  rewrite <- zsum_wrap, <- (zsum_wrap 64 (fun q => base_of ns c + _)). f_equal. apply zsum_ext. intros q _.
  rewrite <- wrap64_idemp_add_l, Ebase, wrap64_idemp_add_l, <- Z.add_assoc.
  rewrite <- (wrap64_idemp_add_r _ (trees_value trees (rows q))), <- (forest_row_value trees (delta_weights f) (rows q) Hds).
  by rewrite wrap64_idemp_add_r.
Qed.

(** *** The shader *)

Lemma forest_shader :
  exists ns2 sh, generate_shader nf ns1 r = Some (ns2, sh) /\ shader_sums sh.
Proof using Hin Hg Hwf Hr Hns Hlen Hkeep Hskip.
  unfold generate_shader. destruct (analyze_bits_total ns1 (length ns1) (Some r) 0 keep_wf) as [b Eb]; [intros i [= <-]; lia|].
  rewrite Eb, bind_Some. destruct (dfs_root ns1 keep_wf r ltac:(lia)) as (seen & po & -> & Htopo & Hpo). rewrite bind_Some.
  assert (forall i, i ∈ po <-> reach ns r i) as Hpo' by (intros i; by rewrite Hpo, keep_reach).
  assert (forall i, i ∈ po -> (i < length ns1)%nat) as Hlt by (intros i; by apply topo_lt).
  destruct (gpu_slots_place po ns1) as (ns2 & -> & L2 & K2 & P2).
  { by eapply topo_NoDup. }
  { rewrite Forall_forall. intros i Hi. split; [by apply Hlt|by apply Hskip, Hpo']. }
  assert (forall i : nat, core (node ns2 i) = core (node ns i) /\ weight (node ns2 i) = weight (node ns i)) as Hc2.
  { intros i. destruct (slotted_same _ _ (K2 i)) as (-> & -> & _). apply Hkeep. }
  destruct (extract_forest_graph ns r sn c trees ns2 Hg Hc2) as (f & Eforest & Ebase & Hds & Hks).
  pose proof (slotted_topo ns1 ns2 po L2 K2 Htopo) as Ht2.
  destruct (mfold_total (add_node ns2 nf) po []) as [body Ebody].
  { intros i a Hi. unfold add_node. destruct (skip_jit _); [by eexists|].
    destruct (complete_stmt ns2 (node ns2 i)) as [os ->]; [|by eexists].
    apply (complete_core (node ns i)); [apply Hc2|by apply reach_complete, Hpo']. }
  rewrite Ebody, bind_Some, Eforest, bind_Some. eexists _, _. split; [reflexivity|].
  intros columns block rows r0 r1 t Hrows Hcols Hsums. set (sh := mkShader _ _ _ _).
  assert (body_inv adds ns ns2 po rows [] (thread_init sh r0, thread_init sh r1, t)) as H0 by (by apply start_inv).
  destruct (body_all columns block nf adds Hin ns ns2 po Ht2) with (rows := rows)
    (st0 := (thread_init sh r0, thread_init sh r1, t)) as (body' & st & Eb' & Erun & Hinv & Hsums'); try done.
  { apply Hc2. }
  { intros i Hi. destruct (slotted_same _ _ (K2 i)) as (_ & _ & _ & ->). by apply Hskip, Hpo'. }
  { intros i b' Hi Hk Hb'. destruct (slotted_same _ _ (K2 i)) as (_ & _ & -> & _).
    destruct (Hc2 i) as ((Ek1 & -> & _)%core_eq & _). apply Hcols; [by apply Hpo'|congruence|done]. }
  { intros i Hi. apply (complete_core (node ns i)); [apply Hc2|by apply reach_complete, Hpo']. }
  rewrite Ebody in Eb'. injection Eb' as <-.
  destruct (reduce_run columns block rows st trees (delta_weights f) (masks_to_popcount f) (base_sum f)) as (st' & E & Eout).
  { cbn [snd] in Hsums'. congruence. }
  { symmetry. by eapply Forall2_length. }
  { by eapply masks_in_slots. }
  exists st'. split.
  - unfold program. cbn [sh_body sh_base sh_weights sh]. rewrite lockstep_app, Erun, bind_Some.
    exact E.
  - rewrite Eout. by apply weighted_total.
Qed.

End Forest.
