(* ===== verification/EngineDemo.v ===== *)
(** * A concrete engine

    An engine with one schema of two 64-bit fields, bytes of three rows and
    small graphs over the fields: the inputs the theorems about the engine are
    applied to. *)

From Stdlib Require Import SpecFloat.
From S2P Require Import Prelude Planes IR Registry A64 Circuits Analyzer ExprCompiler ExprProps.
From S2P Require Import ScalarCompiler KernelCall Rows Columns Runner RunnerCorrect Forest Msl Engine.
From S2P Require Import EngineCorrect ForestCorrect SetExpression ForestLogic.

(** The first entry of the map's enumeration; memory is granted; no GPU. *)
#[export, refine] Instance demo_host : Host := {|
  first_key A m := fst <$> head (map_to_list m);
  malloc_ok := true;
  metal := None;
  divide _ := double_div
|}.
Proof.
  - intros A m k Hk. destruct (map_to_list m) as [|[k' v] l] eqn:E; [done|]. injection Hk as <-.
    exists v. apply elem_of_map_to_list. rewrite E. by left.
  - intros A m Hk. apply map_to_list_empty_iff. by destruct (map_to_list m).
  - intros _ z y Hy. unfold quotient. destruct (double_of_int64 z); try (by left).
    destruct y; try (unfold ordinary in Hy; by rewrite andb_false_r in Hy). by eexists.
Defined.

Definition demo_fields : list FieldDescriptor := [mkField "price" 0 64 UINT64; mkField "qty" 8 64 UINT64].

Definition demo_buffers : list buffer := replicate 128 (replicate 64 0).

Definition demo_engine : ApexEngine :=
  engine_register_schema "trade" demo_fields 16 (ApexEngine_new None None demo_buffers).

Definition demo_data : list Z := replicate 48 1.

Lemma buffers_ok_replicate n : buffers_ok n (replicate n (replicate 64 0)).
Proof.
  split; [by rewrite length_replicate|]. apply Forall_replicate. split; [by rewrite length_replicate|].
  apply Forall_replicate, u64_0.
Qed.

Lemma demo_engine_ok : engine_ok demo_engine.
Proof.
  split.
  - apply (register_schema_ok ∅). intros s f d H. unfold get_field in H. by rewrite lookup_empty in H.
  - apply pools_empty_wf.
  - apply buffers_ok_replicate.
Qed.

Lemma demo_metadata : schema_metadata_ demo_engine !! "trade" = Some (mkMetadata 16 demo_fields).
Proof. cbn. by rewrite lookup_insert_eq. Qed.

Lemma demo_field f : get_field (registry_ demo_engine) "trade" f = first_named f demo_fields.
Proof. by apply (register_schema_new ∅ "trade" demo_fields). Qed.

Lemma demo_field_cases f d : get_field (registry_ demo_engine) "trade" f = Some d -> (offset d <= 8)%nat.
Proof.
  rewrite demo_field. unfold demo_fields. cbn [first_named name]. repeat case_decide; [intros [= <-]|intros [= <-]|done]; cbn; lia.
Qed.

Definition registeredb (reg : SchemaRegistry) (s : string) : list Node -> bool :=
  all_nodesb (fun _ n => bool_decide (kind n = K_LOAD -> is_Some (get_field reg s (field_name n)))).

Lemma registeredb_spec reg s ns r : wf_nodesb ns = true -> (r < length ns)%nat -> registeredb reg s ns = true -> fields_registered reg s ns r.
Proof.
  intros Hwf Hr H j Hj Hk. apply wf_nodesb_spec in Hwf. pose proof (reach_le ns r j Hwf Hj) as Hle.
  destruct (lookup_lt_is_Some_2 ns j) as [n Hn]; [lia|].
  pose proof (all_nodesb_spec _ _ _ _ H Hn) as Hb. cbv beta in Hb. apply bool_decide_eq_true in Hb.
  rewrite (list_lookup_total_correct _ _ _ Hn) in *. by apply Hb.
Qed.

Lemma demo_registered ns r :
  wf_nodesb ns = true -> (r < length ns)%nat -> registeredb (registry_ demo_engine) "trade" ns = true ->
  fields_registered (registry_ demo_engine) "trade" ns r.
Proof. apply registeredb_spec. Qed.

(** [SUM [SELECT (price > 100) 5 3; qty <= 7 with weight 2] + 10]. *)
Definition forest_nodes : list Node := Eval vm_compute in
  let '(g, price) := Load true "price" None in
  let '(g, hundred) := Const true 100 g in
  let '(g, qty) := Load true "qty" g in
  let '(g, seven) := Const true 7 g in
  let '(g, gt) := GT true price hundred g in
  let '(g, five) := Const true 5 g in
  let '(g, three) := Const true 3 g in
  let '(g, sel) := Select true gt five three g in
  let '(g, le) := LE true qty seven g in
  let '(g, sum) := Sum true [sel; le] g in
  let '(g, ten) := Const true 10 g in
  let '(g, _) := Add true sum ten g in
  alter (set_weight 2) 8%nat (pool_of g).

Definition forest_trees : list tree :=
  [(BCmp C_GT (ALoad "price") (AConst 100), 5, 3); (BCmp C_LE (ALoad "qty") (AConst 7), 2, 0)].

Lemma forest_leaves :
  denA forest_nodes 0 (ALoad "price") /\ denA forest_nodes 1 (AConst 100) /\
  denA forest_nodes 2 (ALoad "qty") /\ denA forest_nodes 3 (AConst 7).
Proof.
  split_and!.
  - exact (denA_load forest_nodes 0 _ eq_refl eq_refl eq_refl).
  - exact (denA_const forest_nodes 1 _ eq_refl eq_refl eq_refl).
  - exact (denA_load forest_nodes 2 _ eq_refl eq_refl eq_refl).
  - exact (denA_const forest_nodes 3 _ eq_refl eq_refl eq_refl).
Qed.

Lemma forest_const i v :
  (exists n, forest_nodes !! i = Some n /\ kind n = K_CONST /\ const_value n = v /\ children n = [None; None; None]) ->
  const_node forest_nodes i v.
Proof. done. Qed.

(** A closed condition over all nodes of a graph. *)
Definition closedb (ns : list Node) (r sn : nat) : bool :=
  all_nodesb (fun i n => bool_decide (is_marked ns r sn i) ||
    forallb (fun p => match p with Some j => negb (bool_decide (is_marked ns r sn j)) | None => true end) (children n)) ns.

Lemma closedb_spec ns r sn i j :
  closedb ns r sn = true -> wf_nodesb ns = true -> (r < length ns)%nat ->
  reach ns r i -> ~ is_marked ns r sn i -> Some j ∈ children (node ns i) -> ~ is_marked ns r sn j.
Proof.
  intros H Hwf Hr Hi Hm Hj. apply wf_nodesb_spec in Hwf. pose proof (reach_le ns r i Hwf Hi) as Hle.
  destruct (lookup_lt_is_Some_2 ns i) as [n Hn]; [lia|].
  pose proof (all_nodesb_spec _ _ _ _ H Hn) as Hb. cbv beta in Hb.
  rewrite bool_decide_eq_false_2 in Hb by done. cbn [orb] in Hb. rewrite forallb_forall in Hb.
  rewrite (list_lookup_total_correct _ _ _ Hn) in Hj. specialize (Hb (Some j) (proj1 (list_elem_of_In _ _) Hj)). cbn in Hb.
  apply negb_true_iff in Hb. by apply bool_decide_eq_false in Hb.
Qed.

Lemma demo_forest : forest_graph forest_nodes 11 9 (Some 10%nat) forest_trees.
Proof.
  destruct forest_leaves as (H0 & H1 & H2 & H3). split.
  - right. exists 10%nat, 10. split_and!; try reflexivity. apply forest_const. by eexists.
  - reflexivity.
  - reflexivity.
  - change (operands (node forest_nodes 9)) with [Some 7%nat; Some 8%nat]. constructor; [|constructor; [|constructor]].
    + eapply (denT_select _ _ _ 4 5 6); [reflexivity..| | |].
      * eapply (denB_cmp _ C_GT _ _ 0 1); [reflexivity..|exact H0|exact H1].
      * apply forest_const. by eexists.
      * apply forest_const. by eexists.
    + pose proof (denT_mask forest_nodes 8 (BCmp C_LE (ALoad "qty") (AConst 7))) as Hm. apply Hm. eapply (denB_cmp _ C_LE _ _ 2 3); [reflexivity..|exact H2|exact H3].
  - intros i j. apply closedb_spec; [by vm_compute..|]. apply Nat.ltb_lt. by vm_compute.
Qed.

(** The graph after the marking, and its kernel. *)
Definition forest_marked : list Node := default [] (mark_skip_jit 11 forest_nodes).
Definition forest_out := compile_expression (Some 11%nat) 64 forest_marked ∅.

(** ** A stored logic *)

(** The engine after [set_expression] of the boolean graph. *)
Definition demo_stored : ApexEngine :=
  match set_expression "trade" (Some 7%nat) BIT_SLICED (demo_nodes, demo_engine) with Some (_, e) => e | None => demo_engine end.

Definition demo_logic : ExprCompiledLogic :=
  default (mkExprLogic [] [] SCALAR BITMASK "" 0 [] [] 0) (expr_logic_ demo_stored !! "trade").

Definition demo_row_value (row : string -> Z) : Z := Z.b2z (beval row demo_bexp).

Lemma demo_stored_spec :
  demo_stored = store_logic "trade" demo_logic demo_out.1.2 demo_engine /\
  ec_mode demo_logic = BIT_SLICED /\ ec_active_bits demo_logic = 64 /\
  LogicSpec (ec_mode demo_logic) (ec_kernel demo_logic) (ec_fields demo_logic) (logic_aggregation demo_logic)
    (get_field (registry_ demo_engine) "trade") demo_row_value /\
  (forall i d, ec_fields demo_logic !! i = Some (Some d) -> exists f, get_field (registry_ demo_engine) "trade" f = Some d) /\
  engine_ok demo_stored.
Proof.
  destruct (set_expression_mask_logic "trade" 7 demo_nodes demo_engine demo_out.1.1 demo_out.1.2 (kernel_of demo_out.2) demo_bexp)
    as (L & E & H1 & H2 & H3 & H4 & H5).
  - apply demo_engine_ok.
  - apply wf_nodesb_spec. by vm_compute.
  - apply cleanb_spec. by vm_compute.
  - exact demo_den.
  - reflexivity.
  - apply demo_registered; [by vm_compute|apply Nat.ltb_lt; by vm_compute|by vm_compute].
  - apply out_eq. by vm_compute.
  - assert (demo_stored = store_logic "trade" L demo_out.1.2 demo_engine) as Es by (unfold demo_stored; by rewrite E).
    assert (demo_logic = L) as El.
    { unfold demo_logic. rewrite Es. cbn [store_logic expr_logic_]. by rewrite lookup_insert_eq. }
    rewrite El, Es. exact (conj eq_refl (conj H1 (conj H2 (conj H3 (conj H4 H5))))).
Qed.

(** The table of the logic: both fields, in the order of their first use. *)
Lemma demo_logic_fields : ec_fields demo_logic = Some <$> demo_fields.
Proof. by vm_compute. Qed.

(** The engine after [set_expression] of [price + qty]. *)
Definition add_stored : ApexEngine :=
  match set_expression "trade" (Some 2%nat) BIT_SLICED (add_nodes, demo_engine) with Some (_, e) => e | None => demo_engine end.

Definition add_logic : ExprCompiledLogic :=
  default (mkExprLogic [] [] SCALAR BITMASK "" 0 [] [] 0) (expr_logic_ add_stored !! "trade").

Definition add_row_value (row : string -> Z) : Z := aeval row (AAdd (ALoad "price") (ALoad "qty")).

Lemma add_stored_spec :
  add_stored = store_logic "trade" add_logic add_out.1.2 demo_engine /\ ec_active_bits add_logic = 64 /\
  LogicSpec (ec_mode add_logic) (ec_kernel add_logic) (ec_fields add_logic) (logic_aggregation add_logic)
    (get_field (registry_ demo_engine) "trade") add_row_value /\
  (forall i d, ec_fields add_logic !! i = Some (Some d) -> exists f, get_field (registry_ demo_engine) "trade" f = Some d) /\
  engine_ok add_stored.
Proof.
  destruct (set_expression_planes_logic "trade" 2 add_nodes demo_engine add_out.1.1 add_out.1.2 (kernel_of add_out.2)
    (AAdd (ALoad "price") (ALoad "qty"))) as (L & E & _ & H2 & H3 & H4 & H5).
  - apply demo_engine_ok.
  - apply wf_nodesb_spec. by vm_compute.
  - apply cleanb_spec. by vm_compute.
  - apply add_den.
  - reflexivity.
  - reflexivity.
  - apply demo_registered; [by vm_compute|apply Nat.ltb_lt; by vm_compute|by vm_compute].
  - apply out_eq. by vm_compute.
  - assert (add_stored = store_logic "trade" L add_out.1.2 demo_engine) as Es by (unfold add_stored; by rewrite E).
    assert (add_logic = L) as El.
    { unfold add_logic. rewrite Es. cbn [store_logic expr_logic_]. by rewrite lookup_insert_eq. }
    rewrite El, Es. exact (conj eq_refl (conj H2 (conj H3 (conj H4 H5)))).
Qed.

Definition demo_bit_planes : list Z := replicate 256 5.
