(* ===== verification/EngineProps.v ===== *)
(** * The engine: execution

    What [execute], [execute_parallel], [execute_native] and [execute_vector]
    return, end to end: from the registered schema, through the compiled
    kernel, to the number for the caller's bytes. *)

From Stdlib Require Import SpecFloat.
From S2P Require Import Prelude Planes BitSlicer IR A64 Registry Circuits Analyzer ExprCompiler A64Mem.
From S2P Require Import ExprBits ExprCorrect ExprKernel ExprProps ExprTotal KernelCall Rows Aggregate.
From S2P Require Import Columns Runner RunnerCorrect RunnerProps Forest Msl Engine EngineCorrect.
From S2P Require Import ForestCorrect SetExpression ForestLogic EngineDemo.

(** ** Rows of a schema *)

(** The bytes hold [n] rows of schema [s]: 8 bytes at the offset of every field. *)
Definition schema_fits (reg : SchemaRegistry) (s : string) (stride : nat) (data : list Z) (n : nat) : Prop :=
  Forall byte data /\
  forall f d r, get_field reg s f = Some d -> (r < n)%nat -> (r * stride + offset d + 8 <= length data)%nat.

(** Row [q] of the caller's bytes, by field name. *)
Definition schema_row (reg : SchemaRegistry) (s : string) (stride : nat) (data : list Z) (q : nat) : string -> Z :=
  row_of data 0 stride (get_field reg s) q.

Lemma schema_rows_fit reg s stride data n fields :
  schema_fits reg s stride data n ->
  (forall i d, fields !! i = Some (Some d) -> exists f, get_field reg s f = Some d) ->
  rows_fit data 0 stride fields n.
Proof.
  intros [Hb Hf] Hd. split; [done|]. intros r d Hr Hin. apply list_elem_of_lookup in Hin as [i Hi].
  destruct (Hd i d Hi) as [f Hfd]. specialize (Hf f d r Hfd Hr). lia.
Qed.

Section WithHost.
Context {T : HwyTarget} {H : Host}.

Lemma begin_single {A} (k : string) (v : A) (m : gmap string A) : m = ∅ -> begin_ (<[k := v]> m) = Some (k, v).
Proof.
  intros ->. unfold begin_. destruct (first_key (<[k := v]> ∅)) as [k'|] eqn:E.
  - rewrite bind_Some. pose proof (first_key_some _ _ E) as [w Hw]. rewrite insert_empty in *.
    apply lookup_singleton_Some in Hw as Hw'. destruct Hw' as [-> _]. by rewrite lookup_singleton_eq.
  - apply first_key_none in E. exfalso. by apply insert_non_empty in E.
Qed.

(** [execute] adds up the logic's value on every row. *)
Lemma execute_sum e s L meta desc rowfn data n :
  begin_ (expr_logic_ e) = Some (s, L) -> schema_metadata_ e !! s = Some meta -> malloc_ok = true ->
  LogicSpec (ec_mode L) (ec_kernel L) (ec_fields L) (logic_aggregation L) desc rowfn -> ec_active_bits L = 64 ->
  rows_fit data 0 (sm_row_stride meta) (ec_fields L) n -> buffers_ok 128 (field_buffers_ e) ->
  exists bufs, execute data n e =
    Some (wrap64 (zsum n (fun q => rowfn (row_of data 0 (sm_row_stride meta) desc q))), set_field_buffers bufs e) /\
    buffers_ok 128 bufs.
Proof.
  intros Hb Hm Hok HL Hbits Hfit Hbufs. unfold execute. rewrite Hb, Hm, Hok.
  rewrite decide_False by apply (ls_mode (LogicSpec := HL)). cbn [negb].
  destruct (execute_rows_sum L desc rowfn data Hbits (sm_row_stride meta) n (field_buffers_ e) Hfit Hbufs) as (b & E & Hb').
  rewrite E, bind_Some. by exists b.
Qed.

(** [execute_parallel] adds up the same values, for any number of threads. *)
Lemma execute_parallel_sum e s L meta desc rowfn data n nt stack clock :
  begin_ (expr_logic_ e) = Some (s, L) -> schema_metadata_ e !! s = Some meta -> malloc_ok = true ->
  LogicSpec (ec_mode L) (ec_kernel L) (ec_fields L) (logic_aggregation L) desc rowfn ->
  config_ok (task_config L (sm_row_stride meta)) ->
  rows_fit data 0 (sm_row_stride meta) (ec_fields L) n -> (forall t, buffers_ok 32 (stack t)) ->
  execute_parallel stack clock data n nt e =
    Some (wrap64 (zsum n (fun q => rowfn (row_of data 0 (sm_row_stride meta) desc q))), e).
Proof.
  intros Hb Hm Hok HL Hc Hfit Hst. unfold execute_parallel. rewrite Hb, Hm, Hok.
  assert (config_aggregation (task_config L (sm_row_stride meta)) = logic_aggregation L) as Ha
    by (unfold config_aggregation, logic_aggregation; cbn; by destruct (ec_result_kind L)).
  rewrite (run_rows _ (fun q => rowfn (row_of data 0 (sm_row_stride meta) desc q))); [done|].
  intros a b Hin Hle.
  refine (worker_thread_rows (task_config L (sm_row_stride meta)) desc rowfn (L := _) data 0 Hc (stack (a, b)) (clock (a, b)) a b _ (Hst (a, b))).
  - by rewrite Ha.
  - destruct Hfit as [Hd Hr]. split; [done|]. intros r d Hr' Hi. apply Hr; [lia|done].
Qed.

(** What [execute] returns after an expression with row value [rowfn] was stored. *)
Definition returns_sum (st : option (list Node * ApexEngine)) (data : list Z) (n : nat) (total : Z) : Prop :=
  exists ns' e' bufs, st = Some (ns', e') /\
    execute data n e' = Some (wrap64 total, set_field_buffers bufs e') /\
    engine_ok e' /\ engine_ok (set_field_buffers bufs e').

Lemma stored_returns s (st : option (list Node * ApexEngine)) ns1 L pools e meta rowfn data n :
  st = Some (ns1, store_logic s L pools e) -> expr_logic_ e = ∅ -> malloc_ok = true ->
  schema_metadata_ e !! s = Some meta -> schema_fits (registry_ e) s (sm_row_stride meta) data n ->
  LogicSpec (ec_mode L) (ec_kernel L) (ec_fields L) (logic_aggregation L) (get_field (registry_ e) s) rowfn ->
  ec_active_bits L = 64 ->
  (forall i d, ec_fields L !! i = Some (Some d) -> exists f, get_field (registry_ e) s f = Some d) ->
  engine_ok (store_logic s L pools e) ->
  returns_sum st data n (zsum n (fun q => rowfn (schema_row (registry_ e) s (sm_row_stride meta) data q))).
Proof.
  intros -> He Hok Hm Hfit HL Hbits Hf Hok'.
  destruct (execute_sum (store_logic s L pools e) s L meta (get_field (registry_ e) s) rowfn data n) as (b & E & Hb); try done.
  - by apply begin_single.
  - by eapply schema_rows_fit.
  - apply Hok'.
  - exists ns1, (store_logic s L pools e), b. split_and!; [done|exact E|done|]. destruct Hok' as [H1 H2 _]. by split.
Qed.

(** A mask's sum counts rows, so it does not wrap. *)
Lemma count_bound n (P : nat -> bool) :
  Z.of_nat n < 2 ^ 64 -> wrap64 (zsum n (fun q => Z.b2z (P q))) = zsum n (fun q => Z.b2z (P q)).
Proof.
  intros Hn. apply wrap64_small. unfold u64. split.
  - apply zsum_nonneg. intros. by destruct (P i).
  - eapply Z.le_lt_trans; [|exact Hn]. transitivity (zsum n (fun _ => 1)); [|rewrite zsum_const; lia].
    apply zsum_le. intros. by destruct (P i).
Qed.

End WithHost.

(** ** Properties *)

(** C1: the number a query returns.  After [set_expression] of a graph that
    denotes a boolean expression (no subtraction) whose fields the schema
    declares, in an engine with no other expression, [execute] on bytes that hold [n] rows
    returns the number of rows on which the expression is true, for every
    [n] below 2^64, on every SIMD target and whatever the buffers held; the
    engine's invariant is preserved. *)
Theorem execute_counts_rows `{HwyTarget} `{Host} e s r ns ns1 pools1 code b meta data n :
  engine_ok e -> wf_nodes ns -> clean ns r -> denB ns r b -> no_subB b = true ->
  fields_registered (registry_ e) s ns r ->
  compile_expression (Some r) 64 ns (const_pools e) = (ns1, pools1, Kernel code) ->
  expr_logic_ e = ∅ -> malloc_ok = true -> schema_metadata_ e !! s = Some meta ->
  schema_fits (registry_ e) s (sm_row_stride meta) data n -> Z.of_nat n < 2 ^ 64 ->
  let count := zsum n (fun q => Z.b2z (beval (schema_row (registry_ e) s (sm_row_stride meta) data q) b)) in
  returns_sum (set_expression s (Some r) BIT_SLICED (ns, e)) data n count /\ wrap64 count = count.
Proof.
  intros He Hwf Hcl Hb Hns Hreg Hcomp Hno Hok Hm Hfit Hn count.
  destruct (set_expression_mask_logic s r ns e ns1 pools1 code b) as (L & E & _ & Hbits & HL & Hf & Hok'); try done.
  split; [|by apply count_bound].
  by apply (stored_returns s _ ns1 L pools1 e meta (fun row => Z.b2z (beval row b))).
Qed.

(** The engine's target in the examples. *)
#[local] Existing Instance hwy_neon.

Lemma demo_fits : schema_fits (registry_ demo_engine) "trade" 16 demo_data 3.
Proof.
  split; [by apply Forall_replicate|]. intros f d r Hd%demo_field_cases Hr. unfold demo_data. rewrite length_replicate. lia.
Qed.

Lemma execute_counts_rows_witness :
  let row q := schema_row (registry_ demo_engine) "trade" 16 demo_data q in
  let count := zsum 3 (fun q => Z.b2z (beval (row q) demo_bexp)) in
  returns_sum (set_expression "trade" (Some 7%nat) BIT_SLICED (demo_nodes, demo_engine)) demo_data 3 count /\
  wrap64 count = count.
Proof.
  apply (execute_counts_rows demo_engine "trade" 7 demo_nodes demo_out.1.1 demo_out.1.2 (kernel_of demo_out.2) demo_bexp
    (mkMetadata 16 demo_fields) demo_data 3).
  - apply demo_engine_ok.
  - apply wf_nodesb_spec. by vm_compute.
  - apply cleanb_spec. by vm_compute.
  - apply demo_den.
  - reflexivity.
  - apply demo_registered; [by vm_compute|apply Nat.ltb_lt; by vm_compute|by vm_compute].
  - apply out_eq. by vm_compute.
  - reflexivity.
  - reflexivity.
  - apply demo_metadata.
  - apply demo_fits.
  - lia.
Defined.

(** C31: an arithmetic expression.  After [set_expression] of a graph that denotes an
    arithmetic expression (no subtraction, and not a bare load or constant, whose kernel
    faults) over declared fields, in an engine with no other expression, [execute] returns
    the sum of its values over the rows modulo 2^64, the overflow of the code's
    [int64_t] total being taken as wrap-around. *)
Theorem execute_sums_rows `{HwyTarget} `{Host} e s r ns ns1 pools1 code a meta data n :
  engine_ok e -> wf_nodes ns -> clean ns r -> denA ns r a -> no_subA a = true -> is_leaf (kind (node ns r)) = false ->
  fields_registered (registry_ e) s ns r ->
  compile_expression (Some r) 64 ns (const_pools e) = (ns1, pools1, Kernel code) ->
  expr_logic_ e = ∅ -> malloc_ok = true -> schema_metadata_ e !! s = Some meta ->
  schema_fits (registry_ e) s (sm_row_stride meta) data n ->
  returns_sum (set_expression s (Some r) BIT_SLICED (ns, e)) data n
    (zsum n (fun q => aeval (schema_row (registry_ e) s (sm_row_stride meta) data q) a)).
Proof.
  intros He Hwf Hcl Ha Hns Hlf Hreg Hcomp Hno Hok Hm Hfit.
  destruct (set_expression_planes_logic s r ns e ns1 pools1 code a) as (L & E & _ & Hbits & HL & Hf & Hok'); try done.
  by apply (stored_returns s _ ns1 L pools1 e meta (fun row => aeval row a)).
Qed.

Lemma execute_sums_rows_witness :
  returns_sum (set_expression "trade" (Some 2%nat) BIT_SLICED (add_nodes, demo_engine)) demo_data 3
    (zsum 3 (fun q => aeval (schema_row (registry_ demo_engine) "trade" 16 demo_data q) (AAdd (ALoad "price") (ALoad "qty")))).
Proof.
  apply (execute_sums_rows demo_engine "trade" 2 add_nodes add_out.1.1 add_out.1.2 (kernel_of add_out.2) _
    (mkMetadata 16 demo_fields) demo_data 3).
  - apply demo_engine_ok.
  - apply wf_nodesb_spec. by vm_compute.
  - apply cleanb_spec. by vm_compute.
  - apply add_den.
  - reflexivity.
  - reflexivity.
  - apply demo_registered; [by vm_compute|apply Nat.ltb_lt; by vm_compute|by vm_compute].
  - apply out_eq. by vm_compute.
  - reflexivity.
  - reflexivity.
  - apply demo_metadata.
  - apply demo_fits.
Defined.

(** C11: a forest.  For [SUM trees] or [SUM trees + const], each tree a SELECT with
    constant arms or a weighted condition, the conditions without subtraction and at least one
    tree, in an engine with no other expression, [execute] returns the sum over
    the rows of the constant plus the trees' values, modulo 2^64 (the overflow of the
    code's [int64_t] sums being taken as wrap-around): the marking
    of the nodes, the weights relative to the false arms and the masked
    population counts amount to the expression. *)
Theorem execute_sums_forest `{HwyTarget} `{Host} e s r sn c trees ns ns0 ns1 pools1 code meta data n :
  engine_ok e -> wf_nodes ns -> (r < length ns)%nat -> clean ns r ->
  forest_graph ns r sn c trees -> trees <> [] -> trees_no_sub trees = true ->
  fields_registered (registry_ e) s ns r ->
  mark_skip_jit r ns = Some ns0 ->
  compile_expression (Some r) 64 ns0 (const_pools e) = (ns1, pools1, Kernel code) ->
  expr_logic_ e = ∅ -> malloc_ok = true -> schema_metadata_ e !! s = Some meta ->
  schema_fits (registry_ e) s (sm_row_stride meta) data n ->
  returns_sum (set_expression s (Some r) BIT_SLICED (ns, e)) data n
    (zsum n (fun q => wrap64 (base_of ns c + trees_value trees (schema_row (registry_ e) s (sm_row_stride meta) data q)))).
Proof.
  intros He Hwf Hr Hcl Hg Hne Hns Hreg Hmark Hcomp Hno Hok Hm Hfit.
  destruct (set_expression_forest_logic s r sn c trees ns ns0 e ns1 pools1 code) as (L & E & _ & Hbits & HL & Hf & Hok'); try done.
  by apply (stored_returns s _ ns1 L pools1 e meta (fun row => wrap64 (base_of ns c + trees_value trees row))).
Qed.

Lemma execute_sums_forest_witness :
  returns_sum (set_expression "trade" (Some 11%nat) BIT_SLICED (forest_nodes, demo_engine)) demo_data 3
    (zsum 3 (fun q => wrap64 (base_of forest_nodes (Some 10%nat) +
       trees_value forest_trees (schema_row (registry_ demo_engine) "trade" 16 demo_data q)))).
Proof.
  apply (execute_sums_forest demo_engine "trade" 11 9 (Some 10%nat) forest_trees forest_nodes forest_marked
    forest_out.1.1 forest_out.1.2 (kernel_of forest_out.2) (mkMetadata 16 demo_fields) demo_data 3).
  - apply demo_engine_ok.
  - apply wf_nodesb_spec. by vm_compute.
  - apply Nat.ltb_lt. by vm_compute.
  - apply cleanb_spec. by vm_compute.
  - apply demo_forest.
  - discriminate.
  - reflexivity.
  - apply demo_registered; [by vm_compute|apply Nat.ltb_lt; by vm_compute|by vm_compute].
  - by vm_compute.
  - apply out_eq. by vm_compute.
  - reflexivity.
  - reflexivity.
  - apply demo_metadata.
  - apply demo_fits.
Defined.
