(* ===== verification/EntryProps.v ===== *)
(** * The engine: the other entry points

    [execute_parallel], [execute_native], [execute_native_parallel],
    [execute_vector] and the threshold query of [set_logic]. *)

From Stdlib Require Import SpecFloat.
From S2P Require Import Prelude Planes BitSlicer IR A64 Registry Circuits Analyzer ExprCompiler.
From S2P Require Import ExprProps KernelCall Rows Aggregate Columns Runner RunnerCorrect RunnerProps.
From S2P Require Import Forest Msl Engine EngineCorrect SetExpression EngineDemo EngineProps.
From S2P Require Import NativeCorrect VectorCorrect GpuCorrect.

#[local] Existing Instance hwy_neon.

Lemma demo_stored_begin : begin_ (expr_logic_ demo_stored) = Some ("trade", demo_logic).
Proof. destruct demo_stored_spec as [-> _]. by apply begin_single. Qed.

Lemma demo_stored_metadata : schema_metadata_ demo_stored !! "trade" = Some (mkMetadata 16 demo_fields).
Proof. destruct demo_stored_spec as [-> _]. apply demo_metadata. Qed.

Lemma demo_stored_fit : rows_fit demo_data 0 16 (ec_fields demo_logic) 3.
Proof.
  destruct demo_stored_spec as (_ & _ & _ & _ & Hf & _). by apply (schema_rows_fit _ "trade" _ _ _ _ demo_fits).
Qed.

(** C2: the parallel runner agrees with the sequential engine.  For a logic that works on 64 bits, meets
    [LogicSpec] (its mode is not the GPU's, its fields are distinct, its kernel treats each row by
    itself, as those compiled from expressions without subtraction do) and has 1 to
    32 fields without null entries, on bytes that hold the rows, [execute_parallel] returns what [execute] returns, for every
    number of threads asked for (zero and negative ones included) and whatever
    the workers' uninitialised buffers held. *)
Theorem execute_parallel_agrees `{HwyTarget} `{Host} e s L meta desc rowfn data n nt stack clock :
  begin_ (expr_logic_ e) = Some (s, L) -> schema_metadata_ e !! s = Some meta -> malloc_ok = true ->
  LogicSpec (ec_mode L) (ec_kernel L) (ec_fields L) (logic_aggregation L) desc rowfn ->
  config_ok (task_config L (sm_row_stride meta)) ->
  rows_fit data 0 (sm_row_stride meta) (ec_fields L) n ->
  buffers_ok 128 (field_buffers_ e) -> (forall t, buffers_ok 32 (stack t)) ->
  exists total bufs, execute data n e = Some (total, set_field_buffers bufs e) /\
    execute_parallel stack clock data n nt e = Some (total, e).
Proof.
  intros Hb Hm Hok HL Hc Hfit Hbufs Hst.
  destruct (execute_sum e s L meta desc rowfn data n) as (bufs & E & _); try done; [by apply (co_bits _ Hc)|].
  eexists _, bufs. split; [exact E|]. by apply (execute_parallel_sum e s L meta desc rowfn).
Qed.

Lemma execute_parallel_agrees_witness :
  exists total bufs, execute demo_data 3 demo_stored = Some (total, set_field_buffers bufs demo_stored) /\
    execute_parallel (fun _ => replicate 32 (replicate 64 0)) (fun _ => (0, 100)) demo_data 3 4 demo_stored = Some (total, demo_stored).
Proof.
  destruct demo_stored_spec as (_ & _ & Hbits & HL & _ & Hok).
  apply (execute_parallel_agrees demo_stored "trade" demo_logic (mkMetadata 16 demo_fields) _ _ demo_data 3 4 _ _
    demo_stored_begin demo_stored_metadata eq_refl HL).
  - split; cbn [tc_fields task_config tc_active_bits].
    + rewrite demo_logic_fields. intros i o Ho. rewrite list_lookup_fmap in Ho.
      destruct (demo_fields !! i); [|done]. injection Ho as <-. by eexists.
    + rewrite demo_logic_fields. cbn. lia.
    + exact Hbits.
  - exact demo_stored_fit.
  - apply Hok.
  - intros t. apply buffers_ok_replicate.
Defined.

(** C33: native planes.  For a logic in the BIT_SLICED mode that meets [LogicSpec] and has at most eight
    fields, all named in the schema, on columns that are sliced already, [execute_native] returns
    the sum of the logic's value over the rows of all blocks (every
    block counts with its 64 rows), and [execute_native_parallel] the same for every positive
    number of threads, given or the default. *)
Theorem execute_native_rows `{HwyTarget} `{Host} e s L meta desc rowfn bit_planes num_blocks num_threads :
  expr_logic_ e !! s = Some L -> schema_metadata_ e !! s = Some meta -> malloc_ok = true ->
  LogicSpec (ec_mode L) (ec_kernel L) (ec_fields L) (logic_aggregation L) desc rowfn ->
  native_ok L (sm_fields meta) bit_planes num_blocks ->
  0 < (if num_threads <=? 0 then num_threads_ e else num_threads) ->
  let total := wrap64 (zsum (num_blocks * 64) (fun r => rowfn (native_row (sm_fields meta) bit_planes desc r))) in
  execute_native s bit_planes num_blocks e = Some total /\
  execute_native_parallel s bit_planes num_blocks num_threads e = Some total.
Proof.
  intros He Hm Hok HL Hn Ht total.
  assert (forall lo hi, (lo <= hi <= num_blocks)%nat -> native_blocks L (sm_fields meta) bit_planes lo hi =
    Some (wrap64 (zsum ((hi - lo) * 64) (fun q => rowfn (native_row (sm_fields meta) bit_planes desc (lo * 64 + q)%nat))))) as Hb
    by (intros; by eapply native_blocks_sum).
  split.
  - unfold execute_native. rewrite He, (no_mode _ _ _ _ Hn), decide_False, Hm by done.
    rewrite Hb by lia. subst total. by rewrite Nat.sub_0_r.
  - unfold execute_native_parallel. rewrite He, Hm. set (nt := if num_threads <=? 0 then _ else _) in *.
    rewrite (proj2 (Z.ltb_ge nt 0)) by lia.
    destruct (native_shares_sum (fun r => rowfn (native_row (sm_fields meta) bit_planes desc r))
      (fun x => native_blocks L (sm_fields meta) bit_planes x.1 x.2) num_blocks (Z.to_nat nt) (Z.to_nat nt) 0 0) as (rs & E & Hs).
    + done.
    + lia.
    + exact Hb.
    + rewrite (mapM_ext (B := Z) _ (fun t => native_blocks L (sm_fields meta) bit_planes
        (native_share num_blocks (Z.to_nat nt) t).1 (native_share num_blocks (Z.to_nat nt) t).2)) by
        (intros t; by destruct (native_share num_blocks (Z.to_nat nt) t)).
      rewrite E, bind_Some. f_equal. subst total. rewrite Nat.mul_0_r, Nat.sub_0_r in Hs. cbn [Nat.mul Nat.add] in Hs.
      rewrite Z.add_0_l in Hs. change (wrap64 0) with 0 in Hs. rewrite Hs. destruct (Nat.eqb_spec (Z.to_nat nt) 0); [lia|done].
Qed.

Lemma execute_native_rows_witness :
  let total := wrap64 (zsum (2 * 64) (fun r => demo_row_value
    (native_row demo_fields demo_bit_planes (get_field (registry_ demo_engine) "trade") r))) in
  execute_native "trade" demo_bit_planes 2 demo_stored = Some total /\
  execute_native_parallel "trade" demo_bit_planes 2 3 demo_stored = Some total.
Proof.
  destruct demo_stored_spec as (Es & Hmode & _ & HL & _ & _).
  apply (execute_native_rows demo_stored "trade" demo_logic (mkMetadata 16 demo_fields) _ _ demo_bit_planes 2 3).
  - rewrite Es. cbn [store_logic expr_logic_]. by rewrite lookup_insert_eq.
  - exact demo_stored_metadata.
  - reflexivity.
  - exact HL.
  - split.
    + exact Hmode.
    + rewrite demo_logic_fields. cbn. lia.
    + apply Forall_replicate. unfold u64. lia.
    + cbn. lia.
    + rewrite demo_logic_fields. intros i d Hd. rewrite list_lookup_fmap in Hd.
      destruct (demo_fields !! i) as [d'|] eqn:E; [|done]. injection Hd as <-. exists d'. split; [by eapply list_elem_of_lookup_2|done].
  - cbn. lia.
Defined.

Lemma add_stored_begin : begin_ (expr_logic_ add_stored) = Some ("trade", add_logic).
Proof. destruct add_stored_spec as (-> & _). by apply (begin_single "trade" add_logic). Qed.

Lemma add_stored_metadata : schema_metadata_ add_stored !! "trade" = Some (mkMetadata 16 demo_fields).
Proof. destruct add_stored_spec as (-> & _). apply demo_metadata. Qed.

Lemma add_stored_fit : rows_fit demo_data 0 16 (ec_fields add_logic) 3.
Proof. destruct add_stored_spec as (_ & _ & _ & Hf & _). by apply (schema_rows_fit _ "trade" _ _ _ _ demo_fits). Qed.

(** What a caller gets for a row whose value is [v]: 0 or 1 for a condition, and for a number the
    signed 64-bit value over the multiplier, as a division or as a
    multiplication by the reciprocal. *)
Definition vector_result (L : ExprCompiledLogic) (mult : double) (v : Z) (d : double) : Prop :=
  match ec_result_kind L with
  | BITMASK => d = double_of_int64 v
  | BITPLANE => quotient (double_of_int64 v) mult d
  end.

(** C34: per-row results.  For a logic of the expression compiler that meets [LogicSpec]
    [execute_vector] returns one [double] per row: the
    logic's value on it, 0 or 1 for a condition, and for a number the signed 64-bit
    value over the precision multiplier, a normal number far from the ends of the range.  The file is
    compiled with -ffast-math, so each quotient is the correctly rounded one or the product with
    the reciprocal, the choice being the compiler's. *)
Theorem execute_vector_rows `{HwyTarget} `{Host} e s L meta desc rowfn data n mult :
  begin_ (expr_logic_ e) = Some (s, L) -> schema_metadata_ e !! s = Some meta -> malloc_ok = true ->
  LogicSpec (ec_mode L) (ec_kernel L) (ec_fields L) (logic_aggregation L) desc rowfn -> ec_active_bits L = 64 ->
  rows_fit data 0 (sm_row_stride meta) (ec_fields L) n -> buffers_ok 128 (field_buffers_ e) ->
  ec_result_kind L = BITMASK \/ ordinary mult = true ->
  exists results bufs, execute_vector data n mult e = Some (results, set_field_buffers bufs e) /\ buffers_ok 128 bufs /\
    length results = n /\
    forall q, (q < n)%nat -> exists d, results !! q = Some d /\
      vector_result L mult (rowfn (row_of data 0 (sm_row_stride meta) desc q)) d.
Proof.
  intros Hb Hm Hok HL Hbits Hfit Hbufs Hmult. unfold execute_vector. rewrite Hb, Hm, Hok.
  destruct (vector_rows L desc rowfn data mult (sm_row_stride meta) n Hbits Hfit (field_buffers_ e) Hbufs)
    as (results & bufs & E & -> & Hb').
  cbn [negb]. rewrite E, bind_Some. eexists _, bufs. split_and!; [done|done|by rewrite length_fmap, length_seq|].
  intros q Hq. eexists. split; [rewrite list_lookup_fmap, lookup_seq_lt by done; reflexivity|].
  unfold vector_result, vector_at, vector_value. destruct (ec_result_kind L); [|done].
  apply divide_quotient. by destruct Hmult.
Qed.

Definition hundred : double := Eval vm_compute in double_of_int64 100.

(** A number over 100, and a condition. *)
Lemma execute_vector_rows_witness :
  (exists results bufs, execute_vector demo_data 3 hundred add_stored = Some (results, set_field_buffers bufs add_stored) /\
    buffers_ok 128 bufs /\ length results = 3%nat /\
    forall q, (q < 3)%nat -> exists d, results !! q = Some d /\
      vector_result add_logic hundred (add_row_value (row_of demo_data 0 16 (get_field (registry_ demo_engine) "trade") q)) d) /\
  (exists results bufs, execute_vector demo_data 3 (S754_zero false) demo_stored = Some (results, set_field_buffers bufs demo_stored) /\
    buffers_ok 128 bufs /\ length results = 3%nat /\
    forall q, (q < 3)%nat -> exists d, results !! q = Some d /\
      vector_result demo_logic (S754_zero false) (demo_row_value (row_of demo_data 0 16 (get_field (registry_ demo_engine) "trade") q)) d).
Proof.
  split.
  - destruct add_stored_spec as (_ & Hbits & HL & _ & Hok).
    apply (execute_vector_rows add_stored "trade" add_logic (mkMetadata 16 demo_fields) _ _ demo_data 3 _
      add_stored_begin add_stored_metadata eq_refl HL Hbits add_stored_fit); [apply Hok|right; reflexivity].
  - destruct demo_stored_spec as (_ & _ & Hbits & HL & _ & Hok).
    apply (execute_vector_rows demo_stored "trade" demo_logic (mkMetadata 16 demo_fields) _ _ demo_data 3 _
      demo_stored_begin demo_stored_metadata eq_refl HL Hbits demo_stored_fit); [apply Hok|left; by vm_compute].
Defined.

(** The number's results are not the mask's: they are quotients. *)
Lemma add_logic_number : ec_result_kind add_logic = BITPLANE.
Proof. by vm_compute. Qed.

(** C35: the threshold query.  After [set_logic] on a registered field, [execute] (with
    no expression and no other threshold stored) returns the number of rows whose field, as an
    unsigned 64-bit number, exceeds the threshold. *)
Theorem set_logic_counts `{HwyTarget} `{Host} e s f d threshold meta data n :
  get_field (registry_ e) s f = Some d -> u64 threshold ->
  expr_logic_ e = ∅ -> compiled_logic_ e = ∅ -> schema_metadata_ e !! s = Some meta ->
  rows_fit data 0 (sm_row_stride meta) [Some d] n -> buffers_ok 128 (field_buffers_ e) -> Z.of_nat n < 2 ^ 64 ->
  exists bufs, execute data n (set_logic s f threshold e) =
    Some (zsum n (fun q => Z.b2z (threshold <? row_of data 0 (sm_row_stride meta) (get_field (registry_ e) s) q f)),
          set_field_buffers bufs (set_logic s f threshold e)).
Proof.
  intros Hd Ht Hex Hco Hm Hfit Hbufs Hn. unfold set_logic. rewrite Hd. unfold execute. cbn [expr_logic_ compiled_logic_ schema_metadata_ field_buffers_].
  assert (begin_ (expr_logic_ e) = None) as -> by (rewrite Hex; unfold begin_;
    destruct (first_key ∅) eqn:E; [apply first_key_some in E as [? E]; by rewrite lookup_empty in E|done]).
  rewrite (begin_single s _ _ Hco), Hm.
  destruct (legacy_rows d threshold data (sm_row_stride meta) n Ht Hfit (field_buffers_ e) Hbufs) as (bufs & E & _).
  rewrite E, bind_Some. exists bufs. do 3 f_equal.
  rewrite count_bound by done. apply zsum_ext. intros q _. unfold exceeds, row_of. by rewrite Hd.
Qed.

Lemma set_logic_counts_witness :
  exists bufs, execute demo_data 3 (set_logic "trade" "qty" 7 demo_engine) =
    Some (zsum 3 (fun q => Z.b2z (7 <? row_of demo_data 0 16 (get_field (registry_ demo_engine) "trade") q "qty")),
          set_field_buffers bufs (set_logic "trade" "qty" 7 demo_engine)).
Proof.
  apply (set_logic_counts demo_engine "trade" "qty" (mkField "qty" 8 64 UINT64) 7 (mkMetadata 16 demo_fields) demo_data 3).
  - by rewrite demo_field.
  - unfold u64. lia.
  - reflexivity.
  - reflexivity.
  - exact demo_metadata.
  - split; [by apply Forall_replicate|]. intros r d Hr Hd%list_elem_of_singleton. injection Hd as ->. cbn. lia.
  - apply buffers_ok_replicate.
  - lia.
Defined.

(** The planes for the GPU.  For a logic that runs on the GPU, one buffer is
    filled per block and field of the logic, whatever the ranges of the four filling
    threads; from the buffer of its block, every row's field can be read back as it is
    in the caller's bytes. *)
Theorem gpu_planes_rows `{HwyTarget} L data stride n :
  rows_fit data 0 stride (ec_fields L) n ->
  exists bps, gpu_planes L data stride n = Some bps /\
    length bps = ((n + 63) / 64 * length (ec_fields L))%nat /\
    forall r f d, (r < n)%nat -> ec_fields L !! f = Some (Some d) ->
      read_field data 0 stride (offset d) r =
        Some (row_value (fun p => (bps !!! (r / 64 * length (ec_fields L) + f)%nat) !!! p) (r mod 64)).
Proof.
  intros Hfit. destruct (gpu_planes_filled L data stride n Hfit) as (bps & E & Hl & Hv). exists bps. split_and!; [done|done|].
  intros r f d Hr Hd. pose proof (lookup_lt_Some _ _ _ Hd) as Hf.
  pose proof (Nat.div_mod_eq r 64) as Hdm. pose proof (Nat.mod_upper_bound r 64) as Hm.
  assert (r / 64 < (n + 63) / 64)%nat as Hb by (pose proof (chunks_cover n); nia).
  specialize (Hv (r / 64)%nat f Hf Hb). rewrite (proj2 (Nat.ltb_lt _ _)) in Hv.
  2:{ assert (S (r / 64) * length (ec_fields L) <= (n + 63) / 64 * length (ec_fields L))%nat by (apply Nat.mul_le_mono_r; lia). lia. }
  rewrite (list_lookup_total_correct _ _ _ Hv). unfold gpu_column. rewrite Hd. cbn [mjoin option_join].
  set (b := (r / 64)%nat) in *. set (q := (r mod 64)%nat) in *.
  assert (q < block_rows n b)%nat as Hq by (unfold block_rows; lia).
  assert (rows_fit data (b * 64 * stride) stride (ec_fields L) (block_rows n b)) as Hfit'.
  { rewrite <- (Nat.add_0_l (b * 64 * stride)). eapply rows_fit_shift; [exact Hfit|]. unfold block_rows. lia. }
  destruct (column_over_ok data (b * 64 * stride) stride (block_rows n b) d (ec_fields L) (fun _ => 0) Hfit') as [Hw Hc];
    [by eapply list_elem_of_lookup_2|unfold block_rows; lia|intros; apply u64_0|].
  rewrite (row_value_ext _ (plane_of (fun q => column_over data (b * 64 * stride) stride (block_rows n b) d (fun _ => 0) !!! q)))
    by (intros; by apply low_planes_plane).
  rewrite (row_value_plane_of (fun q => column_over data (b * 64 * stride) stride (block_rows n b) d (fun _ => 0) !!! q));
    [|lia|by apply words_total; [|lia]].
  rewrite <- (Hc q Hq), <- (Nat.add_0_l (b * 64 * stride)), read_field_shift. f_equal. lia.
Qed.

Lemma gpu_planes_rows_witness :
  exists bps, gpu_planes demo_logic demo_data 16 3 = Some bps /\
    length bps = ((3 + 63) / 64 * length (ec_fields demo_logic))%nat /\
    forall r f d, (r < 3)%nat -> ec_fields demo_logic !! f = Some (Some d) ->
      read_field demo_data 0 16 (offset d) r =
        Some (row_value (fun p => (bps !!! (r / 64 * length (ec_fields demo_logic) + f)%nat) !!! p) (r mod 64)).
Proof. exact (gpu_planes_rows demo_logic demo_data 16 3 demo_stored_fit). Defined.
