(* ===== verification/ShaderRace.v ===== *)
(** * The Metal shader: races

    A shader is race-free exactly when a comparison separates any two of its
    additions and subtractions.  The shader of a forest whose conditions neither add
    nor subtract has at most the addition of the constant, so it is race-free. *)

From S2P Require Import Prelude Planes IR A64 Registry Analyzer ExprCompiler ExprKernel Rows Aggregate.
From S2P Require Import Forest ForestLogic Msl Shader ShaderRun ShaderGen ShaderCorrect ShaderForest.

(** ** Which programs race *)

(** Between any two additions or subtractions there is a comparison; [pending]: one has been met since
    the last comparison. *)
Fixpoint scans_apart (pending : bool) (body : list stmt) : bool :=
  match body with
  | [] => true
  | S_add _ _ _ :: body | S_sub _ _ _ :: body => negb pending && scans_apart true body
  | S_cmp _ _ _ _ :: body => scans_apart false body
  | _ :: body => scans_apart pending body
  end.

Definition is_scan (a : act) : bool := match a with A_scan _ _ _ => true | _ => false end.

(** What a segment holds before its statement's barrier. *)
Definition before_barrier (a : act) : bool :=
  match a with A_local _ | A_scan _ _ _ | A_share _ _ | A_reduce _ _ => true | _ => false end.

Definition quiet (s : list act) : bool := forallb (fun a => forallb (fun b => negb (conflict a b)) s) s.

Lemma before_barrier_apart s a b : forallb before_barrier s = true -> In a s -> In b s -> conflict a b = false.
Proof. rewrite forallb_forall. intros Hs Ha%Hs Hb%Hs. by destruct a, b. Qed.

Lemma before_barrier_quiet s : forallb before_barrier s = true -> quiet s = true.
Proof.
  intros Hs. apply forallb_forall. intros a Ha. apply forallb_forall. intros b Hb.
  by rewrite (before_barrier_apart s a b).
Qed.

(** The end of an addition in front of a segment: only the start of another one disturbs it. *)
Lemma quiet_sum sub dst l r s : forallb before_barrier s = true ->
  quiet (A_sum sub dst l r :: s) = negb (existsb is_scan s).
Proof.
  intros Hs. apply eq_true_iff_eq. rewrite negb_true_iff, <- not_true_iff_false, existsb_exists. unfold quiet.
  rewrite forallb_forall. split.
  - intros Hq (a & Ha & Hsc). specialize (Hq a (or_intror Ha)). rewrite forallb_forall in Hq.
    specialize (Hq _ (or_introl eq_refl)). by destruct a.
  - intros Hn a Ha. apply forallb_forall. intros b Hb. apply negb_true_iff.
    destruct Ha as [<-|Ha]; [by destruct b|]. destruct Hb as [<-|Hb]; [|by apply (before_barrier_apart s)].
    destruct a; try done. exfalso. apply Hn. by eexists.
Qed.

Lemma body_segments body base weights :
  exists s ss, segments (mjoin (stmt_acts <$> body) ++ [Some (A_reduce base weights); None; Some A_output]) = s :: ss /\
    forallb before_barrier s = true /\ forallb quiet ss = scans_apart false body /\
    scans_apart true body = scans_apart false body && negb (existsb is_scan s).
Proof.
  induction body as [|st body (s & ss & E & Hs & Hss & Ht)]; [by eexists _, _|].
  change (mjoin (stmt_acts <$> st :: body)) with (stmt_acts st ++ mjoin (stmt_acts <$> body)). rewrite <- app_assoc.
  destruct st; cbn [stmt_acts app segments]; rewrite E; cbn [scans_apart negb andb]; eexists _, _;
    (split; [reflexivity|]); cbn [forallb existsb is_scan before_barrier orb andb]; rewrite ?Hs, ?andb_false_r; try done.
  - split_and!; [done| |by rewrite andb_true_r]. by rewrite (before_barrier_quiet s), Hss by done.
  - by rewrite quiet_sum, Hss, Ht, andb_comm.
  - by rewrite quiet_sum, Hss, Ht, andb_comm.
Qed.

(** What races.  A shader is race-free exactly when its body has a comparison between any two
    additions or subtractions. *)
Theorem race_free_exactly sh : race_free (program sh) = scans_apart false (sh_body sh).
Proof.
  unfold race_free, program. destruct (body_segments (sh_body sh) (sh_base sh) (sh_weights sh)) as (s & ss & -> & Hs & <- & _).
  change (quiet s && forallb quiet ss = forallb quiet ss). by rewrite (before_barrier_quiet s Hs).
Qed.

(** ** At most one addition *)

Definition scans (s : stmt) : bool := match s with S_add _ _ _ | S_sub _ _ _ => true | _ => false end.

Definition scan_kind (k : NodeKind) : bool := match k with K_ADD | K_SUB => true | _ => false end.

Lemma few_scans (pending : bool) body :
  (length (List.filter scans body) + (if pending then 1 else 0) <= 1)%nat -> scans_apart pending body = true.
Proof.
  revert pending. induction body as [|s body IH]; intros pending Hn; [done|].
  destruct s; cbn [scans_apart List.filter scans length] in *; try (by apply IH); try (apply IH; lia);
    (destruct pending; [cbn in Hn; lia|]); cbn [negb andb]; apply IH; lia.
Qed.

Lemma node_stmt_scans ns nf n s : node_stmt ns nf n = Some s ->
  List.filter scans (option_list s) = if scan_kind (kind n) then option_list s else [].
Proof.
  unfold node_stmt. destruct (kind n); cbv zeta; intros H; try (by injection H as <-);
    repeat match type of H with
    | (?o ≫= _) = _ => destruct o; cbn [mbind option_bind] in H; [|discriminate H]
    end; by injection H as <-.
Qed.

Lemma body_scans ns nf po body0 body : mfold (add_node ns nf) po body0 = Some body ->
  (length (List.filter scans body) <= length (List.filter scans body0) +
    length (List.filter (fun i => scan_kind (kind (node ns i))) po))%nat.
Proof.
  revert body0. induction po as [|i po IH]; intros body0 H; cbn [mfold] in H; [injection H as <-; cbn; lia|].
  destruct (add_node ns nf i body0) as [b1|] eqn:E; [|discriminate H]. rewrite bind_Some in H. apply IH in H.
  assert (length (List.filter scans b1) <= length (List.filter scans body0) +
    if scan_kind (kind (node ns i)) then 1 else 0)%nat as Hb.
  { unfold add_node in E. destruct (skip_jit (node ns i)); [injection E as <-; lia|].
    destruct (node_stmt ns nf (node ns i)) as [s|] eqn:Es; [|discriminate E]. injection E as <-.
    rewrite List.filter_app, length_app, (node_stmt_scans _ _ _ _ Es). destruct (scan_kind _); destruct s; cbn; lia. }
  cbn [List.filter]. destruct (scan_kind (kind (node ns i))); cbn [length]; lia.
Qed.

(** Of distinct nodes at most one is [r]. *)
Lemma only_one (p : nat -> bool) r po : NoDup po -> (forall i, i ∈ po -> p i = true -> i = r) ->
  (length (List.filter p po) <= 1)%nat.
Proof.
  intros Hnd Hr. assert (NoDup (List.filter p po)) as Hf by (by apply NoDup_ListNoDup, List.NoDup_filter, NoDup_ListNoDup).
  assert (forall i, i ∈ List.filter p po -> i = r) as Hall.
  { intros i Hi%list_elem_of_In. apply List.filter_In in Hi as [Hi Hp]. by apply Hr; [apply list_elem_of_In|]. }
  destruct (List.filter p po) as [|i [|j l]]; cbn; [lia|lia|]. exfalso. apply NoDup_cons in Hf as [Hf _]. apply Hf.
  rewrite (Hall i), (Hall j) by (rewrite ?elem_of_cons; auto). by left.
Qed.

(** ** Forests *)

(** What denotes without an addition or a subtraction. *)
Definition plainly (ns : list Node) (i : nat) : Prop :=
  (exists e, denA ns i e /\ plainA false e = true) \/ (exists e, denB ns i e /\ plainB false e = true).

Lemma plainly_child ns i j : plainly ns i -> child ns i j -> plainly ns j.
Proof.
  intros Hd (n & Hn & Hc).
  destruct Hd as [(e & He & Hp)|(e & He & Hp)]; inversion He; simplify_eq;
    match goal with H : children _ = _ |- _ => rewrite H in Hc end;
    cbn [plainA plainB andb] in Hp; try discriminate Hp;
    rewrite ?andb_true_iff in Hp; rewrite !elem_of_cons, elem_of_nil in Hc; unfold plainly; naive_solver.
Qed.

Lemma plainly_kind ns i : plainly ns i -> scan_kind (kind (node ns i)) = false.
Proof.
  intros [(e & He & Hp)|(e & He & Hp)]; inversion He; subst;
    match goal with Hn : ns !! i = Some ?m |- _ => rewrite (list_lookup_total_correct _ _ _ Hn) end;
    match goal with Hk : kind _ = _ |- _ => rewrite Hk end; try done. by destruct op.
Qed.

Section Forest.
Variables (ns : list Node) (r sn : nat) (c : option nat) (trees : list tree).
Hypothesis Hg : forest_graph ns r sn c trees.
Hypothesis Hns : trees_plain false trees = true.

Lemma const_plainly i v : const_node ns i v -> plainly ns i.
Proof using. clear. intros H%const_denotes. left. by eexists. Qed.

Lemma operand_tree o : Some o ∈ operands (node ns sn) -> exists t, denT ns (Some o) t /\ plainB false t.1.1 = true.
Proof using Hg Hns.
  intros [k Hk]%list_elem_of_lookup. destruct (Forall2_lookup_l _ _ _ k _ (fg_trees _ _ _ _ _ Hg) Hk) as (t & Ht & Hd).
  exists t. split; [done|]. unfold trees_plain in Hns. rewrite forallb_forall in Hns.
  apply Hns, list_elem_of_In. by eapply list_elem_of_lookup_2.
Qed.

(** Below the root: what the engine keeps, or what neither adds nor subtracts. *)
Lemma plain_reach i : reach ns r i -> is_marked ns r sn i \/ plainly ns i.
Proof using Hg Hns.
  revert i. apply (rtc_ind_r (fun i => is_marked ns r sn i \/ plainly ns i) r); [left; by left|].
  intros i j _ Hc [Hm|Hd]; [|right; by eapply plainly_child].
  assert (child ns sn j -> is_marked ns r sn j \/ plainly ns j) as Hsn.
  { intros (n & Hn & Hch). rewrite <- (list_lookup_total_correct _ _ _ Hn), (fg_children _ _ _ _ _ Hg), !elem_of_cons in Hch.
    destruct Hch as [?|[?|[?|Hop]]]; try done. destruct (operand_tree j Hop) as (t & Ht & Hp).
    inversion Ht as [o' n' c' l' r' b tv fv Hn' Hkn|o' b Hb]; subst; [left|right; right; by eexists].
    right; right. split; [done|]. by rewrite (list_lookup_total_correct _ _ _ Hn'). }
  destruct Hm as [->|[->|[Ho Hk]]].
  - destruct (fg_root _ _ _ _ _ Hg) as [[_ Er]|(k & v & Ec & _ & Hch & Hv)]; [rewrite Er in Hc; by apply Hsn|].
    destruct Hc as (n & Hn & Hc). rewrite <- (list_lookup_total_correct _ _ _ Hn), Hch, !elem_of_cons, elem_of_nil in Hc.
    destruct Hc as [[= ->]|[[= ->]|[?|[]]]]; [left; right; by left|right; by eapply const_plainly|done].
  - by apply Hsn.
  - right. destruct (operand_tree i Ho) as (t & Ht & Hp). destruct Hc as (n & Hn & Hc).
    inversion Ht as [o' n' c' l' r' b tv fv Hn' Hkn Hch Hb Hl Hr|o' b Hb]; subst.
    + simplify_eq. rewrite Hch, !elem_of_cons, elem_of_nil in Hc.
      destruct Hc as [[= ->]|[[= ->]|[[= ->]|[]]]]; [by eapply const_plainly|by eapply const_plainly|right; by eexists].
    + by destruct (denB_shape _ _ _ Hb).
Qed.

Lemma scan_is_root i : reach ns r i -> scan_kind (kind (node ns i)) = true -> i = r.
Proof using Hg Hns.
  intros Hi Hk. destruct (plain_reach i Hi) as [[->|[->|[_ Hs]]]|Hd]; [done| | |].
  - by rewrite (fg_sum _ _ _ _ _ Hg) in Hk.
  - by rewrite Hs in Hk.
  - by rewrite (plainly_kind ns i Hd) in Hk.
Qed.

(** The generator's answer is race-free. *)
Lemma forest_race_free ns1 nf ns2 sh : wf_nodes ns -> (r < length ns)%nat -> length ns1 = length ns ->
  (forall i : nat, core (node ns1 i) = core (node ns i) /\ weight (node ns1 i) = weight (node ns i)) ->
  (forall i, reach ns r i -> skip_jit (node ns1 i) = false) ->
  generate_shader nf ns1 r = Some (ns2, sh) -> race_free (program sh) = true.
Proof using Hg Hns.
  intros Hwf Hr Hlen Hkeep Hskip. unfold generate_shader. destruct (analyze_bits _ _ _ _) as [b|]; [|done]. rewrite bind_Some.
  destruct (dfs_root ns1 (keep_wf ns Hwf ns1 Hlen Hkeep) r ltac:(lia)) as (seen & po & -> & Htopo & Hpo). rewrite bind_Some.
  assert (forall i, i ∈ po -> reach ns r i) as Hpo' by (intros i Hi%Hpo; by apply (keep_reach ns ns1)).
  pose proof (topo_NoDup _ _ Htopo) as Hnd.
  destruct (gpu_slots_place po ns1 Hnd) as (ns2' & -> & _ & K2 & _).
  { rewrite Forall_forall. intros i Hi. split; [by eapply topo_lt|by apply Hskip, Hpo']. }
  destruct (mfold (add_node ns2' nf) po []) as [body|] eqn:Ebody; [|done]. rewrite bind_Some.
  destruct (extract_forest ns2' r) as [f|]; [|done]. rewrite bind_Some. intros [= _ <-].
  rewrite race_free_exactly. cbn [sh_body]. apply few_scans. pose proof (body_scans _ _ _ _ _ Ebody) as Hn.
  assert (length (List.filter (fun i => scan_kind (kind (node ns2' i))) po) <= 1)%nat; [|cbn [List.filter length] in Hn; lia].
  apply (only_one _ r); [done|]. intros i Hi Hk. apply scan_is_root; [by apply Hpo'|].
  destruct (slotted_same _ _ (K2 i)) as ((E & _)%core_eq & _). destruct (Hkeep i) as ((E' & _)%core_eq & _). congruence.
Qed.

End Forest.
