(* ===== verification/ShaderProps.v ===== *)
(** * The GPU path, end to end

    [set_expression] in the GPU mode and [execute], on a device that runs the
    shader it is given; what interleavings of the two simdgroups can and
    cannot change. *)

From Stdlib Require Import SpecFloat.
From S2P Require Import Prelude Planes BitSlicer IR A64 Registry Analyzer ExprCompiler ExprCorrect KernelCall.
From S2P Require Import Rows Aggregate Columns Runner RunnerCorrect Forest Msl Engine EngineCorrect ForestCorrect.
From S2P Require Import SetExpression ForestLogic GpuCorrect ExprProps EngineDemo EngineProps.
From S2P Require Import Shader ShaderText ShaderRun ShaderLanes ShaderGen ShaderCorrect ShaderForest ShaderRace.

#[local] Existing Instance hwy_neon.

(** ** The device *)

(** Whatever the registers and the threadgroup's memory hold, there is a complete run. *)
Definition kernel_completes {G : Gpu} (columns : list Z) (block : Z) (sh : shader) : Prop :=
  forall r0 r1 t, length (shared_sums t) = 2%nat ->
    exists c, rtc (step columns block) (start (program sh) (thread_init sh r0) (thread_init sh r1) t) c /\ finished c.

(** The device runs the shader: where every block has complete runs, its answer is
    the sum of the outputs of such runs. *)
Definition runs_shader {G : Gpu} (dispatch : string -> list Z -> nat -> nat -> string -> list Z -> Z -> Z) (sh : shader) : Prop :=
  forall s columns blocks nf deltas base, nf <> 0%nat ->
    (forall b, (b < blocks)%nat -> kernel_completes columns (Z.of_nat b) sh) ->
    device_result sh columns blocks (dispatch s columns blocks nf (render sh) deltas base).

(** Row [q] as the device sees it: the rows that fill up the last block are zero. *)
Definition padded_row (reg : SchemaRegistry) (s : string) (stride : nat) (data : list Z) (n q : nat) : string -> Z :=
  if (q <? n)%nat then schema_row reg s stride data q else fun _ => 0.

Lemma padded_row_u64 reg s stride data n q f : Forall byte data -> u64 (padded_row reg s stride data n q f).
Proof. intros Hd. unfold padded_row. destruct (q <? n)%nat; [by apply row_of_u64|apply u64_0]. Qed.

(** ** The columns on the device *)

Lemma join_lookup {A} (k : nat) (ls : list (list A)) i j :
  Forall (fun l => length l = k) ls -> (j < k)%nat -> mjoin ls !! (i * k + j)%nat = ls !! i ≫= (.!! j).
Proof.
  intros Hl Hj. revert i. induction Hl as [|l ls Hlen _ IH]; intros i; [by destruct (i * k + j)%nat, i|].
  change (mjoin (l :: ls)) with (l ++ mjoin ls). destruct i as [|i]; cbn [Nat.mul Nat.add lookup list_lookup mbind option_bind].
  - rewrite lookup_app_l by lia. done.
  - rewrite lookup_app_r by lia. rewrite <- IH. f_equal. lia.
Qed.

Section Columns.
Context {T : HwyTarget}.
Variables (reg : SchemaRegistry) (s : string) (L : ExprCompiledLogic) (data : list Z) (stride n : nat).
Abbreviation nf := (length (ec_fields L)).
Abbreviation blocks := ((n + 63) / 64)%nat.

Lemma gpu_column_length b f : length (gpu_column L data stride n b f) = 64%nat.
Proof using.
  unfold gpu_column. destruct (mjoin (ec_fields L !! f)) as [d|]; [|by rewrite length_replicate].
  unfold low_planes. apply length_arr.
Qed.

Lemma filled_lengths bps : (0 < nf)%nat -> filled L data stride n (blocks * nf) bps -> Forall (fun l => length l = 64%nat) bps.
Proof using.
  intros Hnf [Hl Hv]. rewrite Forall_lookup. intros i l Hi. pose proof (lookup_lt_Some _ _ _ Hi) as Hlt. rewrite Hl in Hlt.
  pose proof (Nat.div_mod_eq i nf) as Hdm. pose proof (Nat.mod_upper_bound i nf ltac:(lia)) as Hm.
  assert (i / nf < blocks)%nat as Hb by (apply Nat.Div0.div_lt_upper_bound; lia).
  specialize (Hv (i / nf)%nat (i mod nf)%nat Hm Hb). replace (i / nf * nf + i mod nf)%nat with i in Hv by lia.
  rewrite (proj2 (Nat.ltb_lt _ _)), Hi in Hv by lia. injection Hv as ->. apply gpu_column_length.
Qed.

(** The word of plane [p] of field [f] in block [b]. *)
Lemma gpu_word bps b f p d name :
  filled L data stride n (blocks * nf) bps -> (b < blocks)%nat -> (p < 64)%nat ->
  ec_fields L !! f = Some (Some d) -> get_field reg s name = Some d ->
  mjoin bps !! ((b * nf + f) * 64 + p)%nat =
    Some (plane_of (fun q => padded_row reg s stride data n (b * 64 + q) name) p).
Proof using.
  intros Hfl Hb Hp Hf Hd. pose proof (lookup_lt_Some _ _ _ Hf) as Hlt.
  assert (b * nf + f < blocks * nf)%nat as Hbf.
  { assert (S b * nf <= blocks * nf)%nat by (apply Nat.mul_le_mono_r; lia). lia. }
  rewrite (join_lookup 64) by (done || (apply filled_lengths; [lia|done])).
  destruct Hfl as [Hl Hv]. rewrite (Hv b f Hlt Hb), (proj2 (Nat.ltb_lt _ _)), bind_Some by done.
  pose proof (gpu_column_length b f) as Hlen.
  rewrite (list_lookup_lookup_total_lt (gpu_column L data stride n b f) p) by lia. f_equal.
  unfold gpu_column. rewrite Hf. cbn [mjoin option_join]. rewrite low_planes_plane by done.
  apply mask64_ext. intros q Hq. f_equal. unfold column_over. rewrite arr_total by done. unfold padded_row, block_rows.
  destruct (decide (q < 64 `min` (n - b * 64))%nat) as [Hlo|Hhi].
  - rewrite (proj2 (Nat.ltb_lt (b * 64 + q) n)) by lia. unfold schema_row, row_of. rewrite Hd.
    f_equal. rewrite <- (Nat.add_0_l (b * 64 * stride)). apply read_field_shift.
  - by rewrite (proj2 (Nat.ltb_ge (b * 64 + q) n)) by lia.
Qed.
End Columns.

(** ** Compiling for the GPU *)

(** The stored logic and the shader. *)
Lemma set_expression_gpu s r ns ns0 e ns1 pools1 code f fields ns2 sh :
  (r < length ns)%nat -> wf_nodes ns ->
  reset_skip_jit (length ns) (Some r) ns = Some ns0 ->
  compile_expression (Some r) 64 ns0 (const_pools e) = (ns1, pools1, Kernel code) ->
  collect_fields (length ns1) (registry_ e) s ns1 (Some r) (replicate 128 None) = Some fields ->
  extract_forest ns1 r = Some f ->
  generate_shader (schema_num_fields e s) ns1 r = Some (ns2, sh) ->
  set_expression s (Some r) GPU_THROUGHPUT (ns, e) =
    Some (ns2, store_logic s (mkExprLogic code (take (max_idx fields) fields) GPU_THROUGHPUT (result_kind (node ns2 r)) (render sh)
                 (base_sum f) (delta_weights f) (masks_to_popcount f) 64) pools1 e).
Proof.
  intros Hr Hwf Hreset Hcomp Hfields Hf Hsh. unfold set_expression.
  destruct (analyze_bits_total ns (length ns) (Some r) 0 Hwf) as [b Eb]; [by intros i [= <-]|].
  rewrite Eb, bind_Some. cbn [prepare_nodes compile_for]. rewrite Hreset, bind_Some, Hcomp, Hfields, bind_Some, Hf, bind_Some.
  rewrite decide_True, generate_msl_renders, Hsh by done. reflexivity.
Qed.

(** ** Runs of the shader *)

(** The outputs of complete runs are the forest's sum over the block. *)
Lemma kernel_run_sum {G : Gpu} ns r c trees ns1 nf sh columns block rows out :
  race_free (program sh) = true -> shader_sums ns r c trees ns1 nf sh ->
  (forall q f, u64 (rows q f)) -> columns_hold ns r ns1 nf columns block rows ->
  kernel_run columns block sh out -> out = wrap64 (zsum 64 (fun q => base_of ns c + trees_value trees (rows q))).
Proof.
  intros Hrf Hsh Hrows Hcols (r0 & r1 & t & cf & Ht & Hrun & Hfin & <-).
  destruct (Hsh columns block rows r0 r1 t Hrows Hcols Ht) as (st & E & <-).
  pose proof (finished_lockstep columns block _ _ _ _ cf Hrf Hrun Hfin) as E'. rewrite E in E'. by injection E' as ->.
Qed.

(** There are complete runs. *)
Lemma kernel_run_some {G : Gpu} ns r c trees ns1 nf sh columns block rows :
  shader_sums ns r c trees ns1 nf sh -> (forall q f, u64 (rows q f)) -> columns_hold ns r ns1 nf columns block rows ->
  kernel_completes columns block sh.
Proof.
  intros Hsh Hrows Hcols r0 r1 t Ht. destruct (Hsh columns block rows r0 r1 t Hrows Hcols Ht) as (st & E & _).
  eexists. split; [by apply lockstep_run|by repeat split].
Qed.

Lemma foldl_wrap_sum outs g :
  (forall b o, outs !! b = Some o -> o = wrap64 (g b)) ->
  foldl (fun s x => wrap64 (s + x)) 0 outs = wrap64 (zsum (length outs) g).
Proof.
  induction outs as [|o outs IH] using rev_ind; intros H; [done|].
  rewrite foldl_app, length_app, Nat.add_1_r. cbn [foldl zsum]. rewrite IH.
  - rewrite (H (length outs) o) by (by apply list_lookup_middle). by rewrite wrap64_idemp_add_l, wrap64_idemp_add_r.
  - intros b o' Hb. apply H. by apply lookup_app_l_Some.
Qed.

Lemma zsum_blocks m f : zsum (m * 64) f = zsum m (fun b => zsum 64 (fun q => f (b * 64 + q)%nat)).
Proof.
  induction m as [|m IH]; [done|]. replace (S m * 64)%nat with (m * 64 + 64)%nat by lia. rewrite zsum_split, IH. reflexivity.
Qed.

Section End_to_end.
Context {T : HwyTarget} {H : Host} {G : Gpu}.
Variables (e : ApexEngine) (s : string) (r sn : nat) (c : option nat) (trees : list tree) (ns ns0 ns1 : list Node).
Variables (pools1 : ConstPool.t) (code : list instr) (fields : list (option FieldDescriptor)) (ns2 : list Node) (sh : shader).
Variables (meta : SchemaMetadata) (data : list Z) (n : nat).
Hypothesis He : engine_ok e.
Hypothesis Hwf : wf_nodes ns.
Hypothesis Hr : (r < length ns)%nat.
Hypothesis Hg : forest_graph ns r sn c trees.
Hypothesis Hns : trees_plain false trees = true.
Hypothesis Hreg : fields_registered (registry_ e) s ns r.
Hypothesis Hreset : reset_skip_jit (length ns) (Some r) ns = Some ns0.
Hypothesis Hcomp : compile_expression (Some r) 64 ns0 (const_pools e) = (ns1, pools1, Kernel code).
Hypothesis Hfields : collect_fields (length ns1) (registry_ e) s ns1 (Some r) (replicate 128 None) = Some fields.
Hypothesis Hm : schema_metadata_ e !! s = Some meta.
Abbreviation table := (take (max_idx fields) fields).
Hypothesis Htable : length table = length (sm_fields meta).
Hypothesis Hsh : generate_shader (length (sm_fields meta)) ns1 r = Some (ns2, sh).
Hypothesis Hfit : schema_fits (registry_ e) s (sm_row_stride meta) data n.
Abbreviation blocks := ((n + 63) / 64)%nat.
Hypothesis Hsize : Z.of_nat (blocks * length table * 64) <= 2 ^ 32.

Lemma gpu_pool : unskips ns ns0 /\ length ns1 = length ns /\
  (forall i : nat, core (node ns1 i) = core (node ns i) /\ weight (node ns1 i) = weight (node ns i)) /\
  (forall i, reach ns r i -> skip_jit (node ns1 i) = false) /\
  (forall i, reach ns r i -> kind (node ns1 i) = K_LOAD -> 0 <= field_idx (node ns1 i) < 128) /\
  (forall i j, reach ns r i -> reach ns r j -> kind (node ns1 i) = K_LOAD -> kind (node ns1 j) = K_LOAD ->
    (field_idx (node ns1 i) = field_idx (node ns1 j) <-> field_name (node ns1 i) = field_name (node ns1 j))).
Proof using Hwf Hr Hreset Hcomp He.
  clear -Hwf Hr Hreset Hcomp He.
  destruct (reset_all (length ns) (Some r) ns Hwf) as (n0 & E & U & Hs); [by intros i [= <-]|].
  rewrite Hreset in E. injection E as <-. pose proof (unskips_wf ns ns0 U Hwf) as Hwf0. pose proof U as [Hl0 _].
  destruct (compile_expression_layout r 64 ns0 (const_pools e) ns1 pools1 code Hwf0 ltac:(lia) (eo_pools _ He) Hcomp)
    as (all & ini & body & cc & Hlay & Hall & Hlen & Hk & _).
  assert (forall i, reach ns r i -> i ∈ all) as Hin by (intros i Hi; by apply Hall, (unskips_reach ns)).
  split_and!; [done|lia| | | |].
  - intros i. destruct (unskips_node ns ns0 i U) as (Hc & Hw & _). destruct (Hk i) as (Hc1 & _).
    split; [congruence|]. by rewrite (compile_weight r ns0 (const_pools e) ns1 pools1 code i Hwf0 ltac:(lia) (eo_pools _ He) Hcomp).
  - intros i Hi. destruct (Hk i) as (_ & -> & _). by apply (Hs r).
  - intros i Hi. apply (ly_idx _ _ Hlay). by apply Hin.
  - intros i j Hi Hj. apply (ly_inj _ _ Hlay); by apply Hin.
Qed.

(** The table: entries come from the registry and there is one for every LOAD. *)
Lemma gpu_table :
  (forall i d, table !! i = Some (Some d) -> exists f, get_field (registry_ e) s f = Some d) /\
  (forall i, reach ns r i -> kind (node ns1 i) = K_LOAD ->
     exists d, table !! Z.to_nat (field_idx (node ns1 i)) = Some (Some d) /\
       get_field (registry_ e) s (field_name (node ns i)) = Some d).
Proof using Hwf Hr Hreset Hcomp He Hfields Hreg.
  clear -Hwf Hr Hreset Hcomp He Hfields Hreg. pose proof gpu_pool as (_ & Hl1 & Hkeep & _ & Hrange & Hinj).
  assert (forall i, reach ns1 r i -> reach ns r i) as Hback by (intros i; by apply (keep_reach ns ns1 Hl1 Hkeep)).
  assert (forall i : nat, kind (node ns1 i) = kind (node ns i) /\ field_name (node ns1 i) = field_name (node ns i)) as Hkf.
  { intros i. destruct (Hkeep i) as ((-> & -> & _)%core_eq & _). done. }
  destruct (field_table (registry_ e) s ns1 r) as (fs & E & _ & T2 & _ & T4).
  - by eapply keep_wf.
  - apply He.
  - lia.
  - intros i j Hi Hj. apply Hinj; by apply Hback.
  - intros i Hi. apply Hrange. by apply Hback.
  - intros i Hi Hk. destruct (Hkf i) as [E1 ->]. apply Hreg; [by apply Hback|congruence].
  - rewrite Hfields in E. injection E as <-. split; [exact T2|]. intros i Hi Hk.
    destruct (Hkf i) as [_ <-]. pose proof (Hrange i Hi Hk). apply T4. exists i. split_and!; [|done|lia|done].
    by apply (keep_reach ns ns1 Hl1 Hkeep).
Qed.

(** The device's columns hold the padded rows of each block. *)
Lemma gpu_columns_hold (L : ExprCompiledLogic) bps b : ec_fields L = table ->
  filled L data (sm_row_stride meta) n (blocks * length (ec_fields L)) bps -> (b < blocks)%nat ->
  columns_hold ns r ns1 (length (sm_fields meta)) (mjoin bps) (Z.of_nat b)
    (fun q => padded_row (registry_ e) s (sm_row_stride meta) data n (b * 64 + q)).
Proof using Hwf Hr Hreset Hcomp He Hfields Hreg Htable Hsize.
  clear -Hwf Hr Hreset Hcomp He Hfields Hreg Htable Hsize.
  intros HL Hfl Hb i p Hi Hk Hp. pose proof gpu_pool as (_ & _ & Hkeep & _ & Hrange & _).
  assert (kind (node ns1 i) = K_LOAD) as Hk1 by (destruct (Hkeep i) as ((-> & _)%core_eq & _); done).
  destruct gpu_table as [_ Ht]. destruct (Ht i Hi Hk1) as (d & Hd & Hget). pose proof (Hrange i Hi Hk1) as Hidx.
  pose proof (lookup_lt_Some _ _ _ Hd) as Hlt. rewrite <- HL in Hd, Hlt, Hsize, Htable. rewrite <- Htable.
  rewrite <- (gpu_word (registry_ e) s L data (sm_row_stride meta) n bps b (Z.to_nat (field_idx (node ns1 i))) p d
    (field_name (node ns i))) by done.
  f_equal. unfold column_index.
  assert (S b * length (ec_fields L) <= blocks * length (ec_fields L))%nat by (apply Nat.mul_le_mono_r; lia).
  rewrite Z.mod_small by nia. nia.
Qed.

(** What [execute] returns on the device. *)
Lemma gpu_execute dispatch : runs_shader dispatch sh -> (0 < length (sm_fields meta))%nat ->
  expr_logic_ e = ∅ -> malloc_ok = true -> metal = Some dispatch ->
  exists ns' e', set_expression s (Some r) GPU_THROUGHPUT (ns, e) = Some (ns', e') /\
    execute data n e' = Some (wrap64 (zsum (blocks * 64) (fun q =>
      base_of ns c + trees_value trees (padded_row (registry_ e) s (sm_row_stride meta) data n q))), e').
Proof using All.
  intros Hdev Hpos Hno Hok Hmetal. pose proof gpu_pool as (_ & Hl1 & Hkeep & Hskip & _ & _).
  pose proof (forest_race_free ns r sn c trees Hg Hns ns1 _ ns2 sh Hwf Hr Hl1 Hkeep Hskip Hsh) as Hrf.
  destruct (forest_shader false ltac:(discriminate) ns r sn c trees Hg Hwf Hr Hns ns1 (length (sm_fields meta)) Hl1 Hkeep Hskip) as (ns2' & sh' & E & Hsums).
  rewrite Hsh in E. injection E as <- <-.
  destruct (extract_forest_graph ns r sn c trees ns1 Hg Hkeep) as (f' & Ef' & _).
  assert (schema_num_fields e s = length (sm_fields meta)) as Hnf by (unfold schema_num_fields; by rewrite Hm).
  rewrite <- Hnf in Hsh. pose proof (set_expression_gpu s r ns ns0 e ns1 pools1 code f' fields ns2 sh Hr Hwf Hreset Hcomp Hfields Ef' Hsh) as Hset.
  eexists _, _. split; [exact Hset|]. set (L := mkExprLogic _ _ _ _ _ _ _ _ _).
  unfold execute. cbn [store_logic expr_logic_ schema_metadata_]. rewrite (begin_single s L (expr_logic_ e) Hno).
  rewrite Hm, decide_True by done. unfold execute_gpu. rewrite Hmetal, Hok. cbn [negb].
  assert (rows_fit data 0 (sm_row_stride meta) (ec_fields L) n) as Hrows by (eapply schema_rows_fit; [exact Hfit|apply gpu_table]).
  destruct (gpu_planes_filled L data (sm_row_stride meta) n Hrows) as (bps & -> & Hfl). rewrite bind_Some, bind_Some.
  destruct Hfit as [Hbytes _].
  destruct (Hdev s (mjoin bps) blocks (length (ec_fields L)) (ec_delta_weights L) (ec_base_sum L)) as (outs & Hlen & Hout & Etot).
  - change (ec_fields L) with table. lia.
  - intros b Hb. eapply kernel_run_some; [exact Hsums| |by apply (gpu_columns_hold L)]. intros q f0. by apply padded_row_u64.
  - change (ec_msl_source L) with (render sh). rewrite Etot. do 2 f_equal.
    rewrite (foldl_wrap_sum outs (fun b => zsum 64 (fun q => base_of ns c +
      trees_value trees (padded_row (registry_ e) s (sm_row_stride meta) data n (b * 64 + q))))).
    + by rewrite Hlen, zsum_blocks.
    + intros b o Ho. pose proof (lookup_lt_Some _ _ _ Ho) as Hb. rewrite Hlen in Hb.
      eapply kernel_run_sum; [exact Hrf|exact Hsums| |by apply (gpu_columns_hold L)|by apply Hout]. intros q f0. by apply padded_row_u64.
Qed.

End End_to_end.

(** ** Properties *)

(** C12: the GPU mode computes the forest.  For [SUM trees] or [SUM trees + const]
    whose conditions neither add nor subtract, on an engine that holds no other
    expression, over a schema all of whose fields the expression uses and with
    at most 2^32 plane words, [execute], on a device that runs the shader it is given and with
    the memory granted, returns the sum of the constant plus the trees' values over
    the rows of all blocks, modulo 2^64, the rows past the end of the last block counting as
    rows of zeroes.  Nothing is assumed of shuffles that read inactive lanes, nor
    that the shader is race-free: it is. *)
Theorem gpu_sums_forest `{HwyTarget} `{Host} `{Gpu} e s r sn c trees ns ns0 ns1 pools1 code fields ns2 sh dispatch meta data n :
  engine_ok e -> wf_nodes ns -> (r < length ns)%nat ->
  forest_graph ns r sn c trees -> trees_plain false trees = true ->
  fields_registered (registry_ e) s ns r ->
  reset_skip_jit (length ns) (Some r) ns = Some ns0 ->
  compile_expression (Some r) 64 ns0 (const_pools e) = (ns1, pools1, Kernel code) ->
  collect_fields (length ns1) (registry_ e) s ns1 (Some r) (replicate 128 None) = Some fields ->
  schema_metadata_ e !! s = Some meta -> length (take (max_idx fields) fields) = length (sm_fields meta) ->
  generate_shader (length (sm_fields meta)) ns1 r = Some (ns2, sh) ->
  schema_fits (registry_ e) s (sm_row_stride meta) data n ->
  Z.of_nat ((n + 63) / 64 * length (sm_fields meta) * 64) <= 2 ^ 32 -> (0 < length (sm_fields meta))%nat ->
  expr_logic_ e = ∅ -> malloc_ok = true -> metal = Some dispatch -> runs_shader dispatch sh ->
  exists ns' e', set_expression s (Some r) GPU_THROUGHPUT (ns, e) = Some (ns', e') /\
    execute data n e' = Some (wrap64 (zsum ((n + 63) / 64 * 64) (fun q =>
      base_of ns c + trees_value trees (padded_row (registry_ e) s (sm_row_stride meta) data n q))), e').
Proof.
  intros He Hwf Hr Hg Hns Hreg Hreset Hcomp Hfields Hm Htable Hsh Hfit Hsize Hpos Hno Hok Hmetal Hdev.
  rewrite <- Htable in Hsize.
  by apply (gpu_execute e s r sn c trees ns ns0 ns1 pools1 code fields ns2 sh meta data n He Hwf Hr Hg Hns Hreg
    Hreset Hcomp Hfields Hm Htable Hsh Hfit Hsize dispatch).
Qed.

(** C13: the simdgroups may interleave.  When no two actions of a segment between
    barriers conflict and the run in lockstep succeeds, every run of the two simdgroups,
    in whatever order they take their steps, makes the same number of steps,
    is never stuck before the end, and ends with the registers, the threadgroup's
    memory and the output of the run in lockstep. *)
Theorem interleavings_agree `{Gpu} columns block p g0 g1 t r k c :
  race_free p = true -> lockstep columns block p (g0, g1, t) = Some r ->
  nsteps (step columns block) k (start p g0 g1 t) c ->
  (k <= size (start p g0 g1 t))%nat /\
  (k = size (start p g0 g1 t) -> (group0 c, group1 c, shared c) = r /\ finished c) /\
  (k <> size (start p g0 g1 t) -> exists c', step columns block c c').
Proof.
  intros Hr El Hk. pose proof (size_nsteps columns block k _ c Hk) as Hs.
  destruct (race_free_runs columns block p g0 g1 t r Hr El c) as [Hp Hf]; [by eapply rtc_nsteps_2|].
  split_and!; [lia| |].
  - intros ->. assert (finished c) as Hfin by (apply size_finished; lia). split; [|done].
    destruct (Hf Hfin) as (-> & -> & ->). by destruct r as [[? ?] ?].
  - intros Hne. destruct Hp as [(H0 & H1 & H2)|Hp]; [|done]. exfalso. apply Hne. unfold size in Hs at 2.
    rewrite H0, H1, H2 in Hs. cbn in Hs. lia.
Qed.

(** ** Concrete devices *)

(** Inactive lanes keep their registers. *)
#[local] Instance demo_gpu : Gpu := {| inactive_lane x := x; inactive_u32 x Hx := Hx |}.

Definition demo_memory : threadgroup := mkShared [] [] [0; 0] 0 0.

Definition run_block (sh : shader) (columns : list Z) (b : nat) : Z :=
  match lockstep columns (Z.of_nat b) (program sh) (thread_init sh [], thread_init sh [], demo_memory) with
  | Some st => output_mask st.2
  | None => 0
  end.

(** A device that knows one shader and runs it in lockstep. *)
Definition lockstep_device (sh : shader) (s : string) (columns : list Z) (blocks nf : nat) (msl_source : string)
    (deltas : list Z) (base : Z) : Z :=
  if decide (msl_source = render sh) then foldl (fun s x => wrap64 (s + x)) 0 (run_block sh columns <$> seq 0 blocks) else 0.

Lemma lockstep_device_runs sh : race_free (program sh) = true -> runs_shader (lockstep_device sh) sh.
Proof.
  intros Hr s columns blocks nf deltas base _ Hc. unfold lockstep_device. rewrite decide_True by done.
  exists (run_block sh columns <$> seq 0 blocks). split_and!; [by rewrite length_fmap, length_seq| |done].
  intros b o Ho. rewrite list_lookup_fmap in Ho. destruct (seq 0 blocks !! b) as [b'|] eqn:Eb; [|done].
  apply lookup_seq in Eb as [-> Hb]. cbn [Nat.add] in Ho. injection Ho as <-.
  destruct (Hc b Hb [] [] demo_memory eq_refl) as (c & Hrun & Hfin).
  pose proof (finished_lockstep columns (Z.of_nat b) _ _ _ _ c Hr Hrun Hfin) as E.
  exists [], [], demo_memory, c. split_and!; [done|done|done|]. unfold run_block. by rewrite E.
Qed.

(** The forest of EngineDemo.v on such a device. *)
Definition gpu_nodes : list Node := default [] (reset_skip_jit (length forest_nodes) (Some 11%nat) forest_nodes).
Definition gpu_out := compile_expression (Some 11%nat) 64 gpu_nodes ∅.
Definition gpu_fields : list (option FieldDescriptor) :=
  default [] (collect_fields (length gpu_out.1.1) (registry_ demo_engine) "trade" gpu_out.1.1 (Some 11%nat) (replicate 128 None)).
Definition gpu_shader : list Node * shader := default ([], mkShader 0 [] 0 []) (generate_shader 2 gpu_out.1.1 11).

#[local, refine] Instance gpu_host : Host := {|
  first_key := @first_key demo_host;
  malloc_ok := true;
  metal := Some (lockstep_device gpu_shader.2);
  divide := @divide demo_host
|}.
Proof.
  - apply (@first_key_some demo_host).
  - apply (@first_key_none demo_host).
  - apply (@divide_quotient demo_host).
Defined.

Lemma gpu_sums_forest_witness :
  exists ns' e', set_expression "trade" (Some 11%nat) GPU_THROUGHPUT (forest_nodes, demo_engine) = Some (ns', e') /\
    execute demo_data 3 e' = Some (wrap64 (zsum ((3 + 63) / 64 * 64) (fun q =>
      base_of forest_nodes (Some 10%nat) + trees_value forest_trees
        (padded_row (registry_ demo_engine) "trade" 16 demo_data 3 q))), e').
Proof.
  apply (gpu_sums_forest demo_engine "trade" 11 9 (Some 10%nat) forest_trees forest_nodes gpu_nodes gpu_out.1.1 gpu_out.1.2
    (kernel_of gpu_out.2) gpu_fields gpu_shader.1 gpu_shader.2 (lockstep_device gpu_shader.2) (mkMetadata 16 demo_fields) demo_data 3).
  - apply demo_engine_ok.
  - apply wf_nodesb_spec. by vm_compute.
  - apply Nat.ltb_lt. by vm_compute.
  - apply demo_forest.
  - reflexivity.
  - apply demo_registered; [by vm_compute|apply Nat.ltb_lt; by vm_compute|by vm_compute].
  - by vm_compute.
  - apply out_eq. by vm_compute.
  - by vm_compute.
  - apply demo_metadata.
  - by vm_compute.
  - by vm_compute.
  - apply demo_fits.
  - by vm_compute.
  - cbn. lia.
  - reflexivity.
  - reflexivity.
  - reflexivity.
  - apply lockstep_device_runs. by vm_compute.
Defined.

(** ** A race *)

(** [SUM [SELECT ((a + b) + c > 5) 1 0]]: two additions without a barrier between them. *)
Definition racy_nodes : list Node := Eval vm_compute in
  let '(g, a) := Load true "a" None in
  let '(g, b) := Load true "b" g in
  let '(g, c) := Load true "c" g in
  let '(g, ab) := Add true a b g in
  let '(g, abc) := Add true ab c g in
  let '(g, five) := Const true 5 g in
  let '(g, gt) := GT true abc five g in
  let '(g, one) := Const true 1 g in
  let '(g, zero) := Const true 0 g in
  let '(g, sel) := Select true gt one zero g in
  let '(g, sum) := Sum true [sel] g in
  pool_of g.

Definition racy_shader : shader := Eval vm_compute in
  match generate_shader 3 (compile_expression (Some 10%nat) 64 racy_nodes ∅).1.1 10 with
  | Some (_, sh) => sh
  | None => mkShader 0 [] 0 []
  end.

(** 64 rows with a = b = 2^31 and c = 0. *)
Definition racy_columns : list Z :=
  let half := replicate 31 0 ++ [ones64] ++ replicate 32 0 in half ++ half ++ replicate 64 0.

(** Simdgroup 0, then 1, in every segment; or one statement each in the second segment. *)
Definition hasty : list bool :=
  mjoin ((fun k => replicate k false ++ replicate k true ++ [false]) <$> [5; 3; 3; 1; 2]%nat) ++ [false; true].
Definition patient : list bool :=
  replicate 5 false ++ replicate 5 true ++ [false] ++ [false; true; false; true; false; true; false] ++
  mjoin ((fun k => replicate k false ++ replicate k true ++ [false]) <$> [3; 1; 2]%nat) ++ [false; true].

Definition racy_start : config :=
  start (program racy_shader) (thread_init racy_shader []) (thread_init racy_shader []) demo_memory.
Definition racy_end (l : list bool) : config := default racy_start (schedule racy_columns 0 l racy_start).

Lemma racy_run l out :
  match schedule racy_columns 0 l racy_start with
  | Some c => match todo0 c, todo1 c, ahead c with [], [], [] => output_mask (shared c) =? out | _, _, _ => false end
  | None => false
  end = true -> kernel_run racy_columns 0 racy_shader out.
Proof.
  destruct (schedule racy_columns 0 l racy_start) as [c|] eqn:E; [|discriminate]. intros Hc.
  exists [], [], demo_memory, c. split; [reflexivity|]. split; [exact (schedule_steps racy_columns 0 l _ _ E)|].
  unfold finished. destruct (todo0 c), (todo1 c), (ahead c); try discriminate Hc. apply Z.eqb_eq in Hc. by split_and!.
Qed.

(** C27: two additions in a row race.  The shader of [SUM [SELECT ((a + b) + c > 5) 1 0]] has
    complete runs that leave 64 and complete runs that leave 0 for the same 64 rows: simdgroup 0
    may overwrite [shared_carry] for the second addition before simdgroup 1 has read it
    for the first. *)
Theorem shared_carry_race :
  race_free (program racy_shader) = false /\
  kernel_run racy_columns 0 racy_shader 64 /\ kernel_run racy_columns 0 racy_shader 0.
Proof.
  split; [reflexivity|]. split; [apply (racy_run patient)|apply (racy_run hasty)]; by vm_compute.
Qed.

Definition small_shader : shader := mkShader 3 [S_load 0 1 0; S_const 1 5; S_cmp C_GT 2 0 1] 7 [(2, 1)].
Definition small_result : simdgroup * simdgroup * threadgroup :=
  default (thread_init small_shader [], thread_init small_shader [], demo_memory)
    (lockstep (replicate 64 ones64) 0 (program small_shader) (thread_init small_shader [], thread_init small_shader [], demo_memory)).
Definition small_start : config := start (program small_shader) (thread_init small_shader []) (thread_init small_shader []) demo_memory.

Lemma interleavings_agree_witness :
  (0 <= size small_start)%nat /\
  (0%nat = size small_start -> (group0 small_start, group1 small_start, shared small_start) = small_result /\ finished small_start) /\
  (0%nat <> size small_start -> exists c', step (replicate 64 ones64) 0 small_start c').
Proof.
  apply (interleavings_agree (replicate 64 ones64) 0 (program small_shader) (thread_init small_shader []) (thread_init small_shader [])
    demo_memory small_result 0 small_start).
  - reflexivity.
  - by vm_compute.
  - apply nsteps_O.
Defined.
