(* ===== verification/Invariant.v ===== *)
(** * The engine's invariant along any sequence of calls

    [engine_step] is one call on the engine (or one node built in the pool);
    [engine_inv] holds at construction and after any sequence of calls: the
    graph stays acyclic, the constant pool and the column buffers stay well
    formed, and every descriptor a stored logic points to is still the
    registry's. *)

From Stdlib Require Import SpecFloat.
From S2P Require Import Prelude Planes BitSlicer IR A64 Registry Circuits Analyzer ExprCompiler A64Mem.
From S2P Require Import ExprBits ExprCorrect ExprKernel ExprProps ScalarCompiler KernelCall Rows.
From S2P Require Import Aggregate Columns Runner RunnerCorrect Forest Msl Engine EngineCorrect.
From S2P Require Import ForestCorrect SetExpression ForestLogic EngineDemo.

(** ** Passes over the graph leave expressions alone *)

(** The same graph, up to the annotations. *)
Definition same_graph : relation (list Node) := Forall2 (fun n n' => core n' = core n).

#[export] Instance same_graph_preorder : PreOrder same_graph.
Proof.
  split.
  - intros l. induction l; constructor; [done|]. exact IHl.
  - intros a b c H1. revert c. induction H1 as [|x y a b Hxy _ IH]; intros c H2; inversion H2; subst; constructor.
    + congruence.
    + by apply IH.
Qed.

Lemma same_graph_insert (ns : list Node) i n : core n = core (node ns i) -> same_graph ns (<[i := n]> ns).
Proof.
  intros Hc. apply Forall2_same_length_lookup_2; [by rewrite length_insert|]. intros j a b Ha Hb.
  destruct (decide (i = j)) as [->|Hne].
  - pose proof (lookup_lt_Some _ _ _ Ha). rewrite list_lookup_insert_eq in Hb by done. injection Hb as <-.
    rewrite (list_lookup_total_correct _ _ _ Ha) in Hc. exact Hc.
  - rewrite list_lookup_insert_ne, Ha in Hb by done. by injection Hb as <-.
Qed.

Lemma same_graph_alter f (ns : list Node) i : (forall n, core (f n) = core n) -> same_graph ns (alter f i ns).
Proof.
  intros Hc. apply Forall2_same_length_lookup_2; [by rewrite length_alter|]. intros j a b Ha Hb.
  destruct (decide (i = j)) as [->|Hne].
  - rewrite list_lookup_alter_eq, Ha in Hb. by injection Hb as <-.
  - rewrite list_lookup_alter_ne, Ha in Hb by done. by injection Hb as <-.
Qed.

Lemma same_graph_wf ns ns' : same_graph ns ns' -> wf_nodes ns -> wf_nodes ns'.
Proof.
  intros H Hwf i n Hn. destruct (Forall2_lookup_r _ _ _ _ _ H Hn) as (m & Hm & (_ & _ & _ & ->)%core_eq). by apply (Hwf i).
Qed.

(** A loop whose steps keep the graph keeps it. *)
Lemma same_graph_foldl {A B} (g : A -> list Node) (f : A -> B -> A) l a :
  (forall a b, same_graph (g a) (g (f a b))) -> same_graph (g a) (g (foldl f a l)).
Proof. intros H. revert a. induction l as [|b l IH]; intros a; [done|]. cbn [foldl]. by etrans; [apply H|apply IH]. Qed.

Lemma mfold_keeps {A B} (P : A -> Prop) (f : B -> A -> option A) l a a' :
  (forall b a a', P a -> f b a = Some a' -> P a') -> P a -> mfold f l a = Some a' -> P a'.
Proof.
  intros H. revert a. induction l as [|b l IH]; intros a Hp E; cbn [mfold] in E; [by injection E as <-|].
  destruct (f b a) as [a1|] eqn:E1; [|done]. rewrite bind_Some in E. by eapply IH, E; eapply H.
Qed.

Lemma same_graph_mark r ns ns' : mark_skip_jit r ns = Some ns' -> same_graph ns ns'.
Proof.
  unfold mark_skip_jit. destruct (sum_root ns r) as [[er c]|]; [|done]. rewrite bind_Some.
  assert (forall i ns, same_graph ns (skip i ns)) as Hs by (intros; by apply same_graph_alter).
  assert (same_graph ns (match c with Some c => skip c (skip r ns) | None => ns end)) as H0.
  { destruct c; [|done]. etrans; [apply Hs|apply Hs]. }
  set (ns1 := match c with Some c => _ | None => _ end) in *. destruct (decide _); [|by intros [= <-]].
  intros E. etrans; [exact H0|]. etrans; [apply (Hs er)|].
  revert E. apply (mfold_keeps (same_graph (skip er ns1))); [|done].
  intros [o|] a a' Ha Ea; [|done]. injection Ea as <-. case_decide; [|done]. etrans; [exact Ha|apply Hs].
Qed.

Lemma same_graph_reset fuel p ns ns' : reset_skip_jit fuel p ns = Some ns' -> same_graph ns ns'.
Proof.
  revert p ns ns'. induction fuel as [|fuel IH]; intros [i|] ns ns' E; try done; try (by injection E as <-).
  cbn [reset_skip_jit] in E. set (ns0 := alter _ i ns) in *.
  assert (same_graph ns ns0) as H0 by (by apply same_graph_alter).
  destruct (reset_skip_jit fuel (left _) ns0) as [n1|] eqn:E1; [|done]. rewrite bind_Some in E.
  destruct (reset_skip_jit fuel (right _) n1) as [n2|] eqn:E2; [|done]. rewrite bind_Some in E.
  destruct (reset_skip_jit fuel (cond _) n2) as [n3|] eqn:E3; [|done]. rewrite bind_Some in E.
  apply IH in E1, E2, E3. do 3 (etrans; [eassumption|]). etrans; [eassumption|].
  revert E. apply (mfold_keeps (same_graph n3)); [|done]. intros b a a' Ha Ea. etrans; [exact Ha|]. by eapply IH.
Qed.

Lemma same_graph_prepare mode r ns ns' : prepare_nodes mode r ns = Some ns' -> same_graph ns ns'.
Proof. destruct mode; cbn; [apply same_graph_mark|by intros [= <-]|apply same_graph_reset]. Qed.

Lemma same_graph_analyze ns r ns' an :
  wf_nodes ns -> (r < length ns)%nat -> analyze (length ns) (Some r) (ns, analyzer_init) = Some (ns', an) -> same_graph ns ns'.
Proof.
  intros Hwf Hr E. destruct (analyze_init ns r Hwf Hr) as (st & E' & I & _). rewrite E in E'. injection E' as <-.
  eapply Forall2_impl; [apply (ai_shape _ _ I)|]. intros n n' (a & b & ->). done.
Qed.

Lemma same_graph_fields l ns : same_graph ns (fp_nodes (assign_fields l ns)).
Proof.
  apply (same_graph_foldl fp_nodes assign_field l (mkFP ns ∅ true)). intros st i. unfold assign_field.
  repeat (case_match || case_decide); try done; by apply same_graph_insert.
Qed.

Lemma same_graph_consts l ns pools : same_graph ns (assign_consts l ns pools).1.
Proof.
  apply (same_graph_foldl fst assign_const l (ns, pools)). intros st i. unfold assign_const.
  case_decide; [by apply same_graph_insert|done].
Qed.

Lemma same_graph_alloc l ns : same_graph ns (ap_nodes (alloc_nodes l ns)).
Proof.
  apply (same_graph_foldl ap_nodes alloc_node l (mkAP ns ScratchpadManager.init 0 true)). intros st i. unfold alloc_node.
  destruct (negb (ap_ok st)); [done|]. destruct (is_leaf _); [done|].
  destruct (if decide _ then _ else _) as [u1 slot]. destruct (slot <? 0); [by apply same_graph_insert|].
  destruct (if is_cmp _ then _ else _) as [u2 e]. destruct (_ && (e <? 0)); [by apply same_graph_insert|].
  destruct (_ && _); by apply same_graph_insert.
Qed.

Lemma compile_expression_keeps r ab ns pools ns' pools' k :
  wf_nodes ns -> (r < length ns)%nat -> ConstPool.wf pools ->
  compile_expression (Some r) ab ns pools = (ns', pools', k) -> k <> Undefined -> same_graph ns ns' /\ ConstPool.wf pools'.
Proof.
  intros Hwf Hr Hp E Hk. unfold compile_expression in E.
  destruct (analyze (length ns) (Some r) (ns, analyzer_init)) as [[nsa an]|] eqn:Ea; [|congruence].
  pose proof (same_graph_analyze _ _ _ _ Hwf Hr Ea) as Hg. cbv zeta in E.
  pose proof (same_graph_fields (arithmetic_nodes an) nsa) as Hf.
  destruct (fp_ok (assign_fields (arithmetic_nodes an) nsa)); cbn [negb] in E.
  2:{ injection E as <- <- <-. split; [by etrans|done]. }
  pose proof (same_graph_consts (arithmetic_nodes an) (fp_nodes (assign_fields (arithmetic_nodes an) nsa)) pools) as Hc.
  pose proof (assign_consts_spec (arithmetic_nodes an) (fp_nodes (assign_fields (arithmetic_nodes an) nsa)) pools Hp) as (_ & Hw & _).
  destruct (assign_consts _ _ pools) as [nsc pc]. cbn [fst snd] in *.
  pose proof (same_graph_alloc (all_nodes an) nsc) as Hal.
  destruct (ap_ok (alloc_nodes (all_nodes an) nsc)); cbn [negb] in E; injection E as <- <- <-;
    (split; [|done]); (etrans; [exact Hg|]; etrans; [exact Hf|]; by etrans).
Qed.

Lemma compile_scalar_keeps r ns ns' k :
  wf_nodes ns -> (r < length ns)%nat -> compile_scalar_expression (Some r) ns = (ns', k) -> same_graph ns ns'.
Proof.
  intros Hwf Hr E. unfold compile_scalar_expression in E.
  destruct (analyze (length ns) (Some r) (ns, analyzer_init)) as [[nsa an]|] eqn:Ea; [|by injection E as <- _].
  injection E as <- _. etrans; [by eapply same_graph_analyze|].
  etrans; [apply (same_graph_foldl fst scalar_assign_field (all_nodes an) (nsa, ∅))|].
  - intros st i. unfold scalar_assign_field. case_decide; [by apply same_graph_insert|done].
  - apply (same_graph_foldl fst scalar_alloc_node (all_nodes an) (_, ScratchpadManager.init)).
    intros st i. unfold scalar_alloc_node. destruct (is_leaf _); [done|].
    destruct (ScratchpadManager.alloc_slot _) as [u s]. by apply same_graph_insert.
Qed.

Lemma generate_msl_keeps nf ns r ns' t : generate_msl_source nf ns r = Some (ns', t) -> same_graph ns ns'.
Proof.
  unfold generate_msl_source. destruct (analyze_bits _ _ _ _); [|done]. rewrite bind_Some.
  destruct (dfs _ _ _ _) as [[seen po]|]; [|done]. rewrite bind_Some.
  pose proof (same_graph_foldl fst gpu_slot po (ns, 0)) as Hg. fold (gpu_slots po ns) in Hg.
  destruct (gpu_slots po ns) as [ns1 nx]. destruct (mfold _ po "") as [body|]; [|done]. rewrite bind_Some.
  destruct (extract_forest ns1 r); [|done]. rewrite bind_Some. intros [= <- _]. apply Hg.
  intros [n k] i. unfold gpu_slot. case_match; [done|]. by apply same_graph_alter.
Qed.

(** ** Descriptors come from the registry *)

Definition from_registry (reg : SchemaRegistry) (s : string) (fields : list (option FieldDescriptor)) : Prop :=
  (length fields <= 128)%nat /\ forall i d, fields !! i = Some (Some d) -> get_field reg s (name d) = Some d.

Lemma collect_fields_from reg s fuel ns p fields fields' :
  registry_ok reg -> from_registry reg s fields -> collect_fields fuel reg s ns p fields = Some fields' ->
  from_registry reg s fields'.
Proof.
  intros Hreg. revert p fields fields'. induction fuel as [|fuel IH]; intros [i|] fields fields' Hf E; try done; try (by injection E as <-).
  cbn [collect_fields] in E.
  assert (from_registry reg s (collect_field reg s (node ns i) fields)) as H0.
  { unfold collect_field. repeat case_match; try done. destruct Hf as [Hl Hd]. split; [by rewrite length_insert|].
    intros j d Hj. destruct (decide (Z.to_nat (field_idx (node ns i)) = j)) as [<-|Hne].
    - destruct (decide (Z.to_nat (field_idx (node ns i)) < length fields)%nat).
      + rewrite list_lookup_insert_eq in Hj by done. injection Hj as <-.
        match goal with Hg : get_field _ _ _ = Some _ |- _ => pose proof (Hreg _ _ _ Hg) as Hn; by rewrite Hn end.
      + rewrite list_insert_ge in Hj by lia. by eapply Hd.
    - rewrite list_lookup_insert_ne in Hj by done. by eapply Hd. }
  destruct (collect_fields fuel reg s ns (left _) _) as [f1|] eqn:E1; [|done]. rewrite bind_Some in E.
  destruct (collect_fields fuel reg s ns (right _) f1) as [f2|] eqn:E2; [|done]. rewrite bind_Some in E.
  destruct (collect_fields fuel reg s ns (cond _) f2) as [f3|] eqn:E3; [|done]. rewrite bind_Some in E.
  apply IH in E1; [|done]. apply IH in E2; [|done]. apply IH in E3; [|done].
  revert E. apply (mfold_keeps (from_registry reg s)); [|done]. intros b a a' Ha Ea. by eapply IH.
Qed.

(** Registering a schema leaves the fields that are there. *)
Lemma register_schema_keeps reg s fields s' f d :
  get_field reg s' f = Some d -> get_field (register_schema s fields reg) s' f = Some d.
Proof.
  intros H. destruct (decide (s = s')) as [<-|Hne]; [|by rewrite register_schema_other].
  unfold get_field, register_schema in *. rewrite emplace_lookup, decide_True by done. by destruct (reg !! s).
Qed.

(** ** The invariant *)

(** A stored logic: its width, its table and the registry it points into. *)
Definition logic_ok (reg : SchemaRegistry) (s : string) (L : ExprCompiledLogic) : Prop :=
  ec_active_bits L = 64 /\ from_registry reg s (ec_fields L).

Record engine_inv (st : list Node * ApexEngine) : Prop := {
  ei_graph : wf_nodes st.1;
  ei_engine : engine_ok st.2;
  ei_logic : forall s L, expr_logic_ st.2 !! s = Some L -> logic_ok (registry_ st.2) s L;
  ei_field : forall s l, compiled_logic_ st.2 !! s = Some l -> get_field (registry_ st.2) s (name (cl_field l)) = Some (cl_field l)
}.

Lemma prepare_length mode r ns ns' : prepare_nodes mode r ns = Some ns' -> length ns' = length ns.
Proof. intros H%same_graph_prepare. symmetry. by eapply Forall2_length. Qed.

Lemma compile_for_keeps mode r ns pools ns' pools' k :
  wf_nodes ns -> (r < length ns)%nat -> ConstPool.wf pools ->
  compile_for mode r ns pools = (ns', pools', k) -> k <> Undefined -> same_graph ns ns' /\ ConstPool.wf pools'.
Proof.
  intros Hwf Hr Hp E Hk. destruct mode; cbn [compile_for] in E.
  - by eapply compile_expression_keeps.
  - destruct (compile_scalar_expression (Some r) ns) as [n c] eqn:Ec. injection E as <- <- <-.
    split; [by eapply compile_scalar_keeps|done].
  - by eapply compile_expression_keeps.
Qed.

Lemma store_inv s L pools ns ns' e :
  engine_inv (ns, e) -> wf_nodes ns' -> ConstPool.wf pools -> logic_ok (registry_ e) s L -> engine_inv (ns', store_logic s L pools e).
Proof.
  intros [_ [H1 _ H3] Hl Hf] Hw Hp HL. split; cbn [fst snd store_logic registry_ expr_logic_ compiled_logic_] in *; [done|by split| |done].
  intros s' L'. destruct (decide (s = s')) as [<-|Hne].
  - rewrite lookup_insert_eq. by intros [= <-].
  - rewrite lookup_insert_ne by done. apply Hl.
Qed.

Lemma from_registry_take reg s fields k : from_registry reg s fields -> from_registry reg s (take k fields).
Proof.
  intros [Hl Hd]. split; [rewrite length_take; lia|]. intros i d Hi. apply lookup_take_Some in Hi as [Hi _]. eauto.
Qed.

Lemma set_expression_inv s r mode ns e ns' e' :
  engine_inv (ns, e) -> (r < length ns)%nat -> set_expression s (Some r) mode (ns, e) = Some (ns', e') -> engine_inv (ns', e').
Proof.
  intros [Hg He Hl Hfd] Hr E. cbn [fst snd] in *. unfold set_expression in E.
  destruct (analyze_bits _ ns _ 0); [|done]. rewrite bind_Some in E.
  destruct (prepare_nodes mode r ns) as [ns0|] eqn:Ep; [|done]. rewrite bind_Some in E.
  pose proof (prepare_length _ _ _ _ Ep) as Hl0. apply same_graph_prepare in Ep.
  destruct (compile_for mode r ns0 (const_pools e)) as [[ns1 pools] k] eqn:Ec.
  destruct He as [H1 H2 H3].
  assert (k <> Undefined -> same_graph ns0 ns1 /\ ConstPool.wf pools) as Hk.
  { intros. eapply compile_for_keeps; [by eapply same_graph_wf| |exact H2|exact Ec|done]. lia. }
  assert (forall ns2, same_graph ns1 ns2 -> k <> Undefined -> wf_nodes ns2) as Hw.
  { intros ns2 H12 Hk'. destruct (Hk Hk') as [H01 _]. do 3 (eapply same_graph_wf; [eassumption|]). done. }
  assert (engine_inv (ns, e)) as Hinv by (split; cbn [fst snd]; [done|by split|done|done]).
  destruct k as [code| |]; cbv beta iota in E; [|injection E as <- <-|done].
  2:{ split; cbn [fst snd registry_ expr_logic_ compiled_logic_]; [by apply Hw|split; [done|by apply Hk|done]|done|done]. }
  destruct (collect_fields _ _ _ _ _ _) as [fields|] eqn:Ef; [|done]. rewrite bind_Some in E.
  apply collect_fields_from in Ef; [|done|].
  2:{ split; [by rewrite length_replicate|]. intros i d Hi. apply lookup_replicate in Hi. by destruct Hi. }
  apply (from_registry_take _ _ _ (max_idx fields)) in Ef. revert Ef E. generalize (take (max_idx fields) fields). clear fields.
  intros table Ef E.
  destruct (extract_forest ns1 r) as [f|]; [|done]. rewrite bind_Some in E.
  assert (exists ns2 msl, same_graph ns1 ns2 /\ (if decide (mode = GPU_THROUGHPUT) then generate_msl_source (schema_num_fields e s) ns1 r
    else Some (ns1, "")) = Some (ns2, msl)) as (ns2 & msl & H12 & Em).
  { destruct (decide (mode = GPU_THROUGHPUT)); [|by exists ns1, ""].
    destruct (generate_msl_source _ ns1 r) as [[ns2 msl]|] eqn:Em; [|done]. exists ns2, msl. split; [by eapply generate_msl_keeps|done]. }
  rewrite Em, bind_Some in E. injection E as <- <-.
  apply (store_inv s _ pools ns ns2 e); [done|by apply Hw|by apply Hk|]. split; [done|]. exact Ef.
Qed.

Lemma register_inv s fields stride ns e : engine_inv (ns, e) -> engine_inv (ns, engine_register_schema s fields stride e).
Proof.
  intros [Hg [H1 H2 H3] Hl Hf]. split; cbn in *; [done|split; cbn; [by apply register_schema_ok|done|done]| |].
  - intros s' L HL. destruct (Hl s' L HL) as [Hb [Hn Hd]]. split; [done|]. split; [done|]. intros i d Hi.
    apply register_schema_keeps. eauto.
  - intros s' l Hs. apply register_schema_keeps. eauto.
Qed.

Lemma set_logic_inv s f t ns e : engine_inv (ns, e) -> engine_inv (ns, set_logic s f t e).
Proof.
  intros [Hg [H1 H2 H3] Hl Hf]. unfold set_logic. cbn [fst snd] in *.
  destruct (get_field (registry_ e) s f) as [d|] eqn:E; [|by split].
  generalize (compile_comparison t). intros code.
  split; cbn [fst snd registry_ expr_logic_ compiled_logic_]; [done|by split|done|]. intros s' l.
  destruct (decide (s = s')) as [<-|Hne]; [|rewrite lookup_insert_ne by done; apply Hf].
  rewrite lookup_insert_eq. intros [= <-]. cbn [cl_field]. by rewrite (H1 _ _ _ E).
Qed.

Lemma set_field_buffers_inv ns e bufs : engine_inv (ns, e) -> buffers_ok 128 bufs -> engine_inv (ns, set_field_buffers bufs e).
Proof. intros [Hg [H1 H2 H3] Hl Hf] Hb. by split. Qed.

(** ** Execution keeps the buffers *)

Section Buffers.
Context {T : HwyTarget} (data : list Z).
Hypothesis Hdata : Forall byte data.

Lemma buffers_store N i B bufs : buffers_ok N bufs -> words B -> buffers_ok N (<[i := B]> bufs).
Proof using.
  clear Hdata. intros [Hl Hw] HB. split; [by rewrite length_insert|]. by apply Forall_insert.
Qed.

Lemma buffers_lookup N i B bufs : buffers_ok N bufs -> bufs !! i = Some B -> words B.
Proof using. clear Hdata. intros [_ Hw] HB. rewrite Forall_lookup in Hw. by eapply Hw. Qed.

Lemma set_lane_ok N f r v bufs : buffers_ok N bufs -> u64 v -> buffers_ok N (set_lane f r v bufs).
Proof using.
  clear Hdata. intros [Hl Hw] Hv. unfold set_lane. split; [by rewrite length_alter|].
  rewrite Forall_lookup in *. intros i B HB. destruct (decide (f = i)) as [->|Hne].
  - rewrite list_lookup_alter_eq in HB. destruct (bufs !! i) as [A|] eqn:E; [|done]. injection HB as <-.
    apply words_insert; [by eapply Hw|done].
  - rewrite list_lookup_alter_ne in HB by done. by eapply Hw.
Qed.

Lemma read_le_u64 p v : read_le data p 8 = Some v -> u64 v.
Proof using Hdata. intros Hv. exact (read_le_bound _ _ _ _ Hdata Hv). Qed.

Lemma load_row_5_u64 p vs : load_row_5 data p = Some vs -> length vs = 5%nat /\ Forall u64 vs.
Proof using Hdata.
  unfold load_row_5. intros E.
  destruct (read_le data p 8) eqn:E0; [|done]. rewrite bind_Some in E.
  destruct (read_le data (p + 8) 8) eqn:E1; [|done]. rewrite bind_Some in E.
  destruct (read_le data (p + 16) 8) eqn:E2; [|done]. rewrite bind_Some in E.
  destruct (read_le data (p + 24) 8) eqn:E3; [|done]. rewrite bind_Some in E.
  destruct (read_le data (p + 32) 8) eqn:E4; [|done]. rewrite bind_Some in E. injection E as <-.
  split; [done|]. repeat constructor; by eapply read_le_u64.
Qed.

Lemma gather_row_5_ok N base stride r bufs bufs' :
  buffers_ok N bufs -> gather_row_5 data base stride r bufs = Some bufs' -> buffers_ok N bufs'.
Proof using Hdata.
  intros Hb E. unfold gather_row_5 in E. destruct (load_row_5 _ _) as [vs|] eqn:Ev; [|done]. rewrite bind_Some in E.
  injection E as <-. apply load_row_5_u64 in Ev as [Hl Hv]. unfold store_row_5.
  assert (forall l bufs, Forall (fun f => (f < 5)%nat) l -> buffers_ok N bufs ->
    buffers_ok N (foldl (fun bufs f => set_lane f r (vs !!! f) bufs) bufs l)) as H.
  { intros l. induction l as [|f l IH]; intros b Hf Hok; [done|]. inversion Hf; subst. cbn [foldl]. apply IH; [done|].
    apply set_lane_ok; [done|]. rewrite Forall_lookup in Hv. eapply Hv, list_lookup_lookup_total_lt. lia. }
  apply H; [|done]. repeat constructor; lia.
Qed.

Lemma gather_field_ok base d stride n B B' : words B -> gather_field data base d stride n B = Some B' -> words B'.
Proof using Hdata.
  intros HB E. rewrite gather_field_column in E. unfold gather_column in E.
  destruct (mfold _ (seq 0 _) B) as [B1|] eqn:E1; [|done]. rewrite bind_Some in E. injection E as <-.
  assert (words B1) as H1.
  { revert E1. apply (mfold_keeps words); [|done]. intros r a a' Ha Er. destruct (read_field _ _ _ _ r) as [v|] eqn:Ev; [|done].
    rewrite bind_Some in Er. injection Er as <-. apply words_insert; [done|]. by eapply read_field_u64. }
  clear E1. revert H1. generalize (seq (n `min` 64) (64 - n `min` 64)). intros l. revert B1. induction l as [|r l IH]; intros B1 H1; [done|].
  cbn [foldl]. apply IH. apply words_insert; [done|apply u64_0].
Qed.

Lemma slice_column_ok N m i st st' :
  buffers_ok N st.1 -> slice_column m 64 i st = Some st' -> buffers_ok N st'.1.
Proof using.
  clear Hdata. destruct st as [bufs planes]. cbn [fst]. intros Hb E. unfold slice_column in E.
  destruct (decide (m = BIT_SLICED)); [|rewrite bind_Some in E; by injection E as <-].
  destruct (bufs !! i) as [B|] eqn:EB; [|done]. rewrite bind_Some in E. pose proof (buffers_lookup _ _ _ _ Hb EB) as HB.
  rewrite slice_in_place_eq, !bind_Some in E by done. injection E as <-. cbn [fst].
  apply buffers_store; [done|by apply low_planes_words].
Qed.

Lemma gather_chunk_expr_ok L base stride n bufs st :
  ec_active_bits L = 64 -> buffers_ok 128 bufs -> gather_chunk_expr L data base stride n bufs = Some st -> buffers_ok 128 st.1.
Proof using Hdata.
  intros Hbits Hb E. unfold gather_chunk_expr in E.
  assert (forall i (s s' : list buffer * list (option nat)), buffers_ok 128 s.1 -> gather_slot L data base stride n i s = Some s' -> buffers_ok 128 s'.1) as Hslot.
  { intros i [b p] s' Hs Es. cbn [fst] in Hs. unfold gather_slot in Es.
    destruct (mjoin (ec_fields L !! i)) as [d|]; [|by injection Es as <-].
    destruct (b !! i) as [B|] eqn:EB; [|done]. rewrite bind_Some in Es.
    destruct (gather_field data base d stride n B) as [B'|] eqn:EG; [|done]. rewrite bind_Some, Hbits in Es.
    revert Es. apply slice_column_ok. cbn [fst]. apply buffers_store; [done|].
    eapply gather_field_ok; [|exact EG]. by eapply buffers_lookup. }
  rewrite Hbits in E. destruct (use_simd_5 (ec_fields L)).
  - destruct (mfold (gather_row_5 data base stride) (seq 0 n) bufs) as [b1|] eqn:E1; [|done]. rewrite bind_Some in E.
    destruct (mfold (slice_column _ 64) (seq 0 5) _) as [s1|] eqn:E2; [|done]. rewrite bind_Some in E.
    apply (mfold_keeps (fun s => buffers_ok 128 s.1) _ _ _ _ Hslot) in E; [done|].
    apply (mfold_keeps (fun s => buffers_ok 128 s.1) _ _ _ _ (slice_column_ok 128 _)) in E2; [done|]. cbn [fst].
    by apply (mfold_keeps (buffers_ok 128) _ _ _ _ (gather_row_5_ok 128 base stride)) in E1.
  - by apply (mfold_keeps (fun s => buffers_ok 128 s.1) _ _ _ _ Hslot) in E.
Qed.

Lemma process_chunk_ok L base stride n sc bufs r sc' bufs' :
  ec_active_bits L = 64 -> buffers_ok 128 bufs -> process_chunk_expr L data base stride n sc bufs = Some (r, sc', bufs') ->
  buffers_ok 128 bufs'.
Proof using Hdata.
  intros Hbits Hb E. unfold process_chunk_expr in E.
  destruct (gather_chunk_expr L data base stride n bufs) as [[b p]|] eqn:E1; [|done]. rewrite bind_Some in E.
  destruct (call_kernel _ _ sc) as [[x y]|]; [|done]. rewrite bind_Some in E. injection E as _ _ <-.
  by apply gather_chunk_expr_ok in E1.
Qed.

Lemma execute_rows_ok L stride n bufs t bufs' :
  ec_active_bits L = 64 -> buffers_ok 128 bufs -> execute_rows L data stride n bufs = Some (t, bufs') -> buffers_ok 128 bufs'.
Proof using Hdata.
  intros Hbits Hb E. apply (mfold_keeps (fun s : Z * list buffer => buffers_ok 128 s.2)) in E; [done| |done].
  intros c [x b] [x' b'] Hok Ec. cbn [snd] in *. unfold execute_chunk in Ec.
  destruct (process_chunk_expr _ _ _ _ _ _ _) as [[[m sc] b1]|] eqn:Ep; [|done]. rewrite bind_Some in Ec.
  destruct (aggregate_rows _ _ _ _ _); [|done]. rewrite bind_Some in Ec. injection Ec as _ <-. by apply process_chunk_ok in Ep.
Qed.

Lemma legacy_chunk_ok l stride n c st st' :
  buffers_ok 128 st.2 -> legacy_chunk l data stride n c st = Some st' -> buffers_ok 128 st'.2.
Proof using Hdata.
  destruct st as [x b]. cbn [snd]. intros Hb E. unfold legacy_chunk in E.
  destruct (b !! 0%nat) as [B|] eqn:EB; [|done]. rewrite bind_Some in E.
  destruct (gather_field _ _ _ _ _ B) as [B1|] eqn:E1; [|done]. rewrite bind_Some in E.
  pose proof (gather_field_ok _ _ _ _ _ _ (buffers_lookup _ _ _ _ Hb EB) E1) as H1.
  rewrite slice_in_place_eq, bind_Some in E by done.
  destruct (call_comparison _ _); [|done]. rewrite bind_Some in E. injection E as <-. cbn [snd].
  apply buffers_store; [done|by apply low_planes_words].
Qed.

Lemma vector_chunk_ok {H : Host} L mult stride n c st st' :
  ec_active_bits L = 64 -> buffers_ok 128 st.2 -> vector_chunk L data mult stride n c st = Some st' -> buffers_ok 128 st'.2.
Proof using Hdata.
  destruct st as [x b]. cbn [snd]. intros Hbits Hb E. unfold vector_chunk in E.
  destruct (process_chunk_expr _ _ _ _ _ _ _) as [[[m sc] b1]|] eqn:Ep; [|done]. rewrite bind_Some in E.
  destruct (mfold _ _ x); [|done]. rewrite bind_Some in E. injection E as <-. by apply process_chunk_ok in Ep.
Qed.

End Buffers.

(** ** Calls *)

(** One call of the interface; building a node and giving it a weight are the
    builders' (see IR.v).  Calls whose behaviour is undefined have no step. *)
Inductive engine_step {T : HwyTarget} {H : Host} : list Node * ApexEngine -> list Node * ApexEngine -> Prop :=
  | step_build ns e n : Forall (ptr_below (length ns)) (children n) -> engine_step (ns, e) (ns ++ [n], e)
  | step_weight ns e i w : engine_step (ns, e) (alter (set_weight w) i ns, e)
  | step_threads ns e k : engine_step (ns, e) (ns, set_thread_count k e)
  | step_register ns e s fields stride : engine_step (ns, e) (ns, engine_register_schema s fields stride e)
  | step_set_logic ns e s f t : engine_step (ns, e) (ns, set_logic s f t e)
  | step_set_expression ns e s r mode st : (r < length ns)%nat ->
      set_expression s (Some r) mode (ns, e) = Some st -> engine_step (ns, e) st
  | step_execute ns e data n total e' : Forall byte data ->
      execute data n e = Some (total, e') -> engine_step (ns, e) (ns, e')
  | step_vector ns e data n mult results e' : Forall byte data ->
      execute_vector data n mult e = Some (results, e') -> engine_step (ns, e) (ns, e')
  | step_parallel ns e stack clock data n nt total e' : Forall byte data ->
      execute_parallel stack clock data n nt e = Some (total, e') -> engine_step (ns, e) (ns, e').

Section Steps.
Context {T : HwyTarget} {H : Host}.

Lemma begin_lookup {A} (m : gmap string A) s v : begin_ m = Some (s, v) -> m !! s = Some v.
Proof.
  unfold begin_. destruct (first_key m) as [k|]; [|done]. rewrite bind_Some. destruct (m !! k) eqn:E; [|done].
  rewrite bind_Some. by intros [= <- <-].
Qed.

Lemma execute_inv ns e data n total e' :
  engine_inv (ns, e) -> Forall byte data -> execute data n e = Some (total, e') -> engine_inv (ns, e').
Proof.
  intros Hi Hd E. unfold execute in E. destruct (begin_ (expr_logic_ e)) as [[s L]|] eqn:Eb.
  - apply begin_lookup in Eb. destruct (schema_metadata_ e !! s) as [meta|]; [|by injection E as _ <-].
    case_decide.
    + destruct (execute_gpu _ _ _ _ _); [|done]. rewrite bind_Some in E. by injection E as _ <-.
    + destruct malloc_ok; cbn [negb] in E; [|by injection E as _ <-].
      destruct (execute_rows L data _ n (field_buffers_ e)) as [[t bufs]|] eqn:Er; [|done]. rewrite bind_Some in E.
      injection E as _ <-. apply set_field_buffers_inv; [done|].
      destruct (ei_logic _ Hi _ _ Eb) as [Hbits _]. eapply execute_rows_ok; [exact Hd|exact Hbits| |exact Er]. apply Hi.
  - destruct (begin_ (compiled_logic_ e)) as [[s l]|]; [|by injection E as _ <-].
    destruct (schema_metadata_ e !! s) as [meta|]; [|by injection E as _ <-].
    destruct (mfold _ (chunks n) _) as [[t bufs]|] eqn:Er; [|done]. rewrite bind_Some in E. injection E as _ <-.
    apply set_field_buffers_inv; [done|].
    apply (mfold_keeps (fun s : Z * list buffer => buffers_ok 128 s.2)) in Er; [done| |apply Hi].
    intros c st st'. by apply legacy_chunk_ok.
Qed.

Lemma execute_vector_inv ns e data n mult results e' :
  engine_inv (ns, e) -> Forall byte data -> execute_vector data n mult e = Some (results, e') -> engine_inv (ns, e').
Proof.
  intros Hi Hd E. unfold execute_vector in E. destruct (begin_ (expr_logic_ e)) as [[s L]|] eqn:Eb; [|by injection E as _ <-].
  apply begin_lookup in Eb. destruct (schema_metadata_ e !! s) as [meta|]; [|by injection E as _ <-].
  destruct malloc_ok; cbn [negb] in E; [|by injection E as _ <-].
  destruct (mfold _ (chunks n) _) as [[t bufs]|] eqn:Er; [|done]. rewrite bind_Some in E. injection E as _ <-.
  apply set_field_buffers_inv; [done|]. destruct (ei_logic _ Hi _ _ Eb) as [Hbits _].
  apply (mfold_keeps (fun s : list double * list buffer => buffers_ok 128 s.2)) in Er; [done| |apply Hi].
  intros c st st'. by apply vector_chunk_ok.
Qed.

Lemma engine_step_inv st st' : engine_inv st -> engine_step st st' -> engine_inv st'.
Proof.
  intros Hi Hs. destruct Hs as [ns e n Hn|ns e i w|ns e k|ns e s fields stride|ns e s f t|ns e s r mode [ns' e'] Hr E|
    ns e data n total e' Hd E|ns e data n mult results e' Hd E|ns e stack clock data n nt total e' Hd E].
  - destruct Hi as [Hg He Hl Hf]. split; [by apply wf_nodes_app|done..].
  - destruct Hi as [Hg He Hl Hf]. split; [|done..]. eapply same_graph_wf; [by apply same_graph_alter|done].
  - destruct Hi as [Hg [H1 H2 H3] Hl Hf]. by split.
  - by apply register_inv.
  - by apply set_logic_inv.
  - by eapply set_expression_inv.
  - by eapply execute_inv.
  - by eapply execute_vector_inv.
  - unfold execute_parallel in E. destruct (begin_ (expr_logic_ e)) as [[s L]|]; [|by eapply execute_inv].
    destruct (schema_metadata_ e !! s) as [meta|]; [|by injection E as _ <-].
    destruct (run _ _ _); [|done]. rewrite bind_Some in E. by injection E as _ <-.
Qed.

Lemma new_inv perf env buffers : buffers_ok 128 buffers -> engine_inv ([], ApexEngine_new perf env buffers).
Proof.
  intros Hb. split; cbn [fst snd].
  - intros i n Hn. by rewrite lookup_nil in Hn.
  - split; [|apply pools_empty_wf|done]. intros s f d Hd. unfold get_field in Hd. cbn in Hd. by rewrite lookup_empty in Hd.
  - intros s L HL. cbn in HL. by rewrite lookup_empty in HL.
  - intros s l HL. cbn in HL. by rewrite lookup_empty in HL.
Qed.

End Steps.

(** ** Property *)

(** C15: a type invariant of the engine.  After any sequence of calls on a fresh
    engine whose behaviour is defined, the expression graph is acyclic, registered descriptors
    carry their own names, the constant pool holds the planes of its keys, the
    column buffers are 128 arrays of 64 words, every stored expression works on
    64 bits with a table of at most 128 entries, and each descriptor the
    engine's logics point to is the one the registry holds: no pointer
    is stale. *)
Theorem engine_invariant `{HwyTarget} `{Host} perf env buffers st :
  buffers_ok 128 buffers -> rtc engine_step ([], ApexEngine_new perf env buffers) st -> engine_inv st.
Proof.
  intros Hb. pose proof (new_inv perf env buffers Hb) as Hnew. revert st. apply rtc_ind_r; [done|].
  intros st st' _ Hs Hi. by eapply engine_step_inv.
Qed.

#[local] Existing Instance hwy_neon.

Lemma engine_invariant_witness : engine_inv ([], set_logic "trade" "qty" 7 demo_engine).
Proof.
  apply (engine_invariant None None demo_buffers).
  - apply buffers_ok_replicate.
  - eapply rtc_l; [apply (step_register _ _ "trade" demo_fields 16)|].
    eapply rtc_l; [apply (step_set_logic _ _ "trade" "qty" 7)|]. apply rtc_refl.
Defined.
