(* ===== verification/Vsock.v ===== *)
(** * The telemetry stream between guest and host
      (common/vsock_protocol.h, the reader thread of src/host/vm_controller.mm)

    The guest writes one packed [SyscallEvent] after the other into a stream
    socket; the host's reader receives the bytes in pieces of any size, gathers
    them in a buffer and hands an event on whenever a whole one has arrived.
    [decode_event] is the [memcpy] into the packed structure and
    [encode_event] its bytes; the theorem says that the reader delivers the
    events that were sent, however the stream is cut.  [stop_reader], which ends the loop between two
    reads, is the end of the list of reads. *)

From S2P Require Import Prelude Registry.

(** ** The packet *)

Definition EVENT_EXEC : Z := 1.
Definition EVENT_OPEN : Z := 2.
Definition EVENT_CONNECT : Z := 3.

(** The character arrays are kept as their bytes. *)
Record SyscallEvent := mkEvent {
  ev_timestamp_ns : Z;
  ev_pid : Z;
  ev_ppid : Z;
  ev_event_type : Z;
  ev_comm : list Z;          (* char[32] *)
  ev_arg_str : list Z;       (* char[256] *)
  ev_ip_address : Z;         (* uint32_t *)
  ev_port : Z;               (* uint16_t *)
  ev_padding : list Z        (* uint8_t[2] *)
}.

(** A [char[n]] that [strcpy] filled from a literal, zeros behind it. *)
Definition chars (n : nat) (s : string) : list Z :=
  let bytes := (fun c => Z.of_nat (Ascii.nat_of_ascii c)) <$> String.list_ascii_of_string s in
  bytes ++ replicate (n - length bytes) 0.

(** [n] bytes of a number, least significant first. *)
Fixpoint le_bytes (n : nat) (x : Z) : list Z :=
  match n with
  | O => []
  | S n => x mod 256 :: le_bytes n (x / 256)
  end.

(** The number in a run of bytes. *)
Fixpoint le_value (bytes : list Z) : Z :=
  match bytes with
  | [] => 0
  | b :: bytes => b + 256 * le_value bytes
  end.

Definition encode_event (ev : SyscallEvent) : list Z :=
  le_bytes 8 (ev_timestamp_ns ev) ++ le_bytes 8 (ev_pid ev) ++ le_bytes 8 (ev_ppid ev) ++ le_bytes 8 (ev_event_type ev) ++
  ev_comm ev ++ ev_arg_str ev ++ le_bytes 4 (ev_ip_address ev) ++ le_bytes 2 (ev_port ev) ++ ev_padding ev.

(** [sizeof(SyscallEvent)] *)
Abbreviation event_size := 328%nat.

Definition slice_at (bytes : list Z) (off n : nat) : list Z := take n (drop off bytes).

(** [memcpy(&event, bytes, sizeof(SyscallEvent))] *)
Definition decode_event (bytes : list Z) : SyscallEvent :=
  mkEvent (le_value (slice_at bytes 0 8)) (le_value (slice_at bytes 8 8)) (le_value (slice_at bytes 16 8))
    (le_value (slice_at bytes 24 8)) (slice_at bytes 32 32) (slice_at bytes 64 256)
    (le_value (slice_at bytes 320 4)) (le_value (slice_at bytes 324 2)) (slice_at bytes 326 2).

(** ** The reader *)

Section Reader.
Context {A : Type}.
Variable event_cb : SyscallEvent -> A -> option A.   (* the callback, on its own state *)

(** [while (buffer.size() >= sizeof(SyscallEvent))]: every round removes bytes,
    so the length of the buffer is fuel enough. *)
Fixpoint drain (fuel : nat) (buffer : list Z) (st : A) : option (list Z * A) :=
  match fuel with
  | O => Some (buffer, st)
  | S fuel =>
      if (length buffer <? event_size)%nat then Some (buffer, st)
      else
        st ← event_cb (decode_event (take event_size buffer)) st;
        drain fuel (drop event_size buffer) st
  end.

(** One successful [read]: append, then deliver what is complete. *)
Definition on_read (temp : list Z) (st : list Z * A) : option (list Z * A) :=
  let buffer := st.1 ++ temp in drain (length buffer) buffer st.2.

(** The reader's loop over what [read] returned, until it returns nothing. *)
Fixpoint start_reader (reads : list (list Z)) (st : list Z * A) : option (list Z * A) :=
  match reads with
  | [] => Some st
  | temp :: reads => match temp with [] => Some st | _ => st ← on_read temp st; start_reader reads st end
  end.

End Reader.

(** What arrives when every event is just recorded. *)
Definition received (reads : list (list Z)) : option (list Z * list SyscallEvent) :=
  start_reader (fun ev evs => Some (evs ++ [ev])) reads ([], []).

(** ** Encoding and decoding *)

Lemma length_le_bytes n x : length (le_bytes n x) = n.
Proof. revert x. induction n as [|n IH]; intros x; cbn [le_bytes length]; [done|]. by rewrite IH. Qed.

Lemma le_bytes_byte n x : Forall byte (le_bytes n x).
Proof.
  revert x. induction n as [|n IH]; intros x; constructor; [|apply IH].
  unfold byte. apply Z.mod_pos_bound. lia.
Qed.

Lemma le_value_bytes n x : 0 <= x < 256 ^ Z.of_nat n -> le_value (le_bytes n x) = x.
Proof.
  revert x. induction n as [|n IH]; intros x Hx; [cbn in *; lia|]. cbn [le_bytes le_value].
  rewrite Nat2Z.inj_succ, Z.pow_succ_r in Hx by lia. rewrite IH.
  - pose proof (Z.div_mod x 256). lia.
  - split; [apply Z.div_pos; lia|]. apply Z.div_lt_upper_bound; lia.
Qed.

(** A well-formed event fits its fields. *)
Record event_ok (ev : SyscallEvent) : Prop := {
  eo_words : u64 (ev_timestamp_ns ev) /\ u64 (ev_pid ev) /\ u64 (ev_ppid ev) /\ u64 (ev_event_type ev);
  eo_ip : 0 <= ev_ip_address ev < 2 ^ 32;
  eo_port : 0 <= ev_port ev < 2 ^ 16;
  eo_comm : length (ev_comm ev) = 32%nat;
  eo_arg : length (ev_arg_str ev) = 256%nat;
  eo_padding : length (ev_padding ev) = 2%nat
}.

Lemma length_encode_event ev : event_ok ev -> length (encode_event ev) = event_size.
Proof.
  intros [_ _ _ Hc Ha Hp]. unfold encode_event. rewrite !length_app, !length_le_bytes, Hc, Ha, Hp. reflexivity.
Qed.

(** A slice of a concatenation that starts behind its first part. *)
Lemma slice_skip (a b : list Z) off n : (length a <= off)%nat -> slice_at (a ++ b) off n = slice_at b (off - length a) n.
Proof. intros H. unfold slice_at. by rewrite drop_app_ge by done. Qed.

Lemma slice_head (a b : list Z) n : length a = n -> slice_at (a ++ b) 0 n = a.
Proof. intros <-. unfold slice_at. rewrite drop_0. by apply take_app_length. Qed.

Lemma slice_all (a : list Z) n : length a = n -> slice_at a 0 n = a.
Proof. intros <-. unfold slice_at. rewrite drop_0. by apply take_ge. Qed.

(** Reads one part of a concatenation whose lengths the context gives. *)
Ltac slices Hc Ha :=
  repeat (rewrite slice_skip by (rewrite ?length_le_bytes, ?Hc, ?Ha; lia); rewrite ?length_le_bytes, ?Hc, ?Ha; cbn [Nat.sub]);
  first [rewrite slice_head by (rewrite ?length_le_bytes; done) | rewrite slice_all by done].

Lemma decode_encode ev : event_ok ev -> decode_event (encode_event ev) = ev.
Proof.
  intros [(H1 & H2 & H3 & H4) Hi Hpt Hc Ha Hp]. unfold decode_event, encode_event. destruct ev.
  cbn [ev_timestamp_ns ev_pid ev_ppid ev_event_type ev_comm ev_arg_str ev_ip_address ev_port ev_padding] in *.
  f_equal; slices Hc Ha; first [reflexivity|apply le_value_bytes; assumption].
Qed.

(** ** The reader *)

Section ReaderCorrect.
Context {A : Type}.
Variable event_cb : SyscallEvent -> A -> option A.

Definition encode (evs : list SyscallEvent) : list Z := mjoin (encode_event <$> evs).

Lemma encode_cons ev evs : encode (ev :: evs) = encode_event ev ++ encode evs.
Proof. reflexivity. Qed.

Lemma encode_app evs1 evs2 : encode (evs1 ++ evs2) = encode evs1 ++ encode evs2.
Proof. unfold encode. by rewrite fmap_app, join_app. Qed.

(** Draining whole events and the beginning of another. *)
Lemma drain_encode evs rest fuel st :
  Forall event_ok evs -> (length rest < event_size)%nat -> (length evs < fuel)%nat ->
  drain event_cb fuel (encode evs ++ rest) st = (st ← mfold event_cb evs st; Some (rest, st)).
Proof.
  intros Hok Hr. revert fuel st. induction Hok as [|ev evs Hev Hok IH]; intros [|fuel] st Hf; cbn [length] in Hf; try lia; cbn [drain].
  - cbn [encode fmap list_fmap mjoin list_join app mfold]. rewrite (proj2 (Nat.ltb_lt _ _)) by done. reflexivity.
  - rewrite encode_cons, <- app_assoc. pose proof (length_encode_event ev Hev) as Hl.
    rewrite (proj2 (Nat.ltb_ge _ _)) by (rewrite length_app; lia).
    rewrite take_app_length', drop_app_length', decode_encode by done.
    cbn [mfold]. destruct (event_cb ev st) as [st1|]; [|done]. rewrite !bind_Some. apply IH. lia.
Qed.

(** Fuel beyond the length of the buffer makes no difference. *)
Lemma drain_fuel f1 f2 buffer st :
  (length buffer <= f1)%nat -> (length buffer <= f2)%nat -> drain event_cb f1 buffer st = drain event_cb f2 buffer st.
Proof.
  revert f2 buffer st. induction f1 as [|f1 IH]; intros f2 buffer st H1 H2.
  - assert (length buffer = 0%nat) as Hl by lia. destruct f2; cbn [drain]; [done|]. by rewrite Hl.
  - destruct f2 as [|f2]; cbn [drain]; [by replace (length buffer) with 0%nat by lia|].
    destruct (Nat.ltb_spec (length buffer) event_size); [done|].
    destruct (event_cb _ st) as [st1|]; [|done]. rewrite !bind_Some. apply IH; rewrite length_drop; lia.
Qed.

(** What is left is less than an event. *)
Lemma drain_rest fuel buffer st buffer' st' :
  (length buffer <= fuel)%nat -> drain event_cb fuel buffer st = Some (buffer', st') -> (length buffer' < event_size)%nat.
Proof.
  revert buffer st. induction fuel as [|fuel IH]; intros buffer st Hf; cbn [drain].
  - intros [= <- _]. lia.
  - destruct (Nat.ltb_spec (length buffer) event_size); [by intros [= <- _]|].
    destruct (event_cb _ st) as [st1|]; [|done]. rewrite bind_Some. apply IH. rewrite length_drop. lia.
Qed.

(** Draining what has arrived first, then the rest. *)
Lemma drain_app f1 x y st :
  (length x <= f1)%nat ->
  drain event_cb (length (x ++ y)) (x ++ y) st =
    ('(b, st1) ← drain event_cb f1 x st; drain event_cb (length (b ++ y)) (b ++ y) st1).
Proof.
  revert x st. induction f1 as [|f1 IH]; intros x st Hf; cbn [drain]; [by rewrite bind_Some|].
  destruct (Nat.ltb_spec (length x) event_size) as [|Hx]; [by rewrite bind_Some|].
  rewrite (drain_fuel (length (x ++ y)) (S (length (x ++ y)))) by lia. cbn [drain].
  rewrite length_app. destruct (Nat.ltb_spec (length x + length y) event_size); [lia|].
  rewrite take_app_le, drop_app_le by lia. destruct (event_cb _ st) as [st1|]; [|done]. rewrite !bind_Some.
  rewrite <- IH by (rewrite length_drop; lia). apply drain_fuel; rewrite ?length_app, ?length_drop; lia.
Qed.

(** The reader sees the stream, not its pieces. *)
Lemma reader_stream reads buffer st :
  Forall (fun t => t <> []) reads -> (length buffer < event_size)%nat ->
  start_reader event_cb reads (buffer, st) =
    drain event_cb (length (buffer ++ mjoin reads)) (buffer ++ mjoin reads) st.
Proof.
  intros Hne. revert buffer st. induction Hne as [|t reads Ht Hne IH]; intros buffer st Hb; cbn [start_reader mjoin list_join].
  - rewrite app_nil_r, (drain_fuel _ (S (length buffer))) by lia. cbn [drain]. by rewrite (proj2 (Nat.ltb_lt (length buffer) event_size)) by done.
  - destruct t as [|b t]; [done|]. set (T := b :: t) in *. fold (mjoin reads). rewrite app_assoc.
    rewrite (drain_app (length (buffer ++ T))) by done. unfold on_read. cbn [fst snd].
    destruct (drain event_cb (length (buffer ++ T)) (buffer ++ T) st) as [[b1 st1]|] eqn:E; [|done].
    rewrite !bind_Some. apply IH. by eapply drain_rest; [|exact E].
Qed.

Lemma reader_encode evs rest reads st :
  Forall event_ok evs -> (length rest < event_size)%nat ->
  Forall (fun t => t <> []) reads -> mjoin reads = encode evs ++ rest ->
  start_reader event_cb reads ([], st) = (st ← mfold event_cb evs st; Some (rest, st)).
Proof.
  intros Hok Hr Hne Hs. rewrite reader_stream by (first [done|cbn; lia]). rewrite app_nil_l, Hs.
  rewrite (drain_fuel _ (S (length evs) + length (encode evs ++ rest))) by lia.
  apply drain_encode; [done|done|lia].
Qed.

End ReaderCorrect.

(** ** Properties *)

(** C19: the stream carries the events.  If the guest writes well-formed events one
    after the other and the host's reads return that stream in pieces of any size, cut
    at any place, with the beginning of a further event at the end, then the
    callback is called with exactly these events, in order, and the unfinished one stays in
    the buffer. *)
Theorem reader_delivers {A} (event_cb : SyscallEvent -> A -> option A) evs rest reads st :
  Forall event_ok evs -> (length rest < event_size)%nat ->
  Forall (fun t => t <> []) reads -> mjoin reads = encode evs ++ rest ->
  start_reader event_cb reads ([], st) = (st ← mfold event_cb evs st; Some (rest, st)).
Proof.
  apply reader_encode.
Qed.

Definition demo_event : SyscallEvent :=
  mkEvent 7 300 12 EVENT_OPEN (110 :: replicate 31 0) (47 :: replicate 255 0) 0 0 [0; 0].

Lemma reader_delivers_witness :
  let bytes := encode [demo_event; demo_event] ++ [1; 2; 3] in
  start_reader (fun ev evs => Some (evs ++ [ev])) [take 100 bytes; drop 100 bytes] ([], []) =
    Some ([1; 2; 3], [demo_event; demo_event]).
Proof.
  assert (event_ok demo_event) as Hok by (split; cbn; unfold u64, EVENT_OPEN; lia).
  intros bytes.
  rewrite (reader_delivers (fun ev evs => Some (evs ++ [ev])) [demo_event; demo_event] [1; 2; 3]
    [take 100 bytes; drop 100 bytes] []).
  - reflexivity.
  - by repeat constructor.
  - cbn. lia.
  - repeat constructor; by vm_compute.
  - cbn [mjoin list_join]. rewrite app_nil_r. apply take_drop.
Defined.
