(* ===== verification/Policy.v ===== *)
(** * The sandbox policy engine
      (src/host/policy_engine.hpp, src/host/policy_engine.cpp)

    The host classifies every telemetry event: it follows the tree of processes
    of the guest, marks the descendants of package lifecycle scripts, and turns an
    event into a fixed-size record of flags.  Batches of records are evaluated by
    an expression compiled with the engine of Engine.v.  [process_event]
    updates the tree; a character array without a terminator is undefined
    behaviour ([None]). *)

From S2P Require Import Prelude Planes BitSlicer IR Registry A64 Circuits Analyzer ExprCompiler.
From S2P Require Import KernelCall Rows Columns Forest Msl Engine Vsock.

(** ** Data *)

Record SyscallTraceRecord := mkRecord {
  rec_pid : Z;
  rec_ppid : Z;
  rec_event_type : Z;
  rec_is_preinstall : Z;
  rec_is_sensitive : Z;
  rec_is_unauthorized : Z;
  rec_padding : list Z       (* uint64_t[2] *)
}.

(** The record in memory: eight words. *)
Definition record_words (r : SyscallTraceRecord) : list Z :=
  [rec_pid r; rec_ppid r; rec_event_type r; rec_is_preinstall r; rec_is_sensitive r; rec_is_unauthorized r] ++ rec_padding r.

Definition record_bytes (r : SyscallTraceRecord) : list Z := mjoin (le_bytes 8 <$> record_words r).

Record ProcessNode := mkProcess {
  pn_pid : Z;
  pn_ppid : Z;
  pn_comm : string;
  pn_is_preinstall_descendant : bool
}.

Record PolicyEngine := mkPolicy {
  JIT_engine_ : ApexEngine;
  process_tree_ : gmap Z ProcessNode
}.

(** ** Construction *)

Definition policy_fields : list FieldDescriptor := [
  mkField "pid" 0 64 UINT64;
  mkField "ppid" 8 64 UINT64;
  mkField "event_type" 16 64 UINT64;
  mkField "is_preinstall" 24 64 UINT64;
  mkField "is_sensitive" 32 64 UINT64;
  mkField "is_unauthorized" 40 64 UINT64 ].

(** The policy as a graph of the builders: the pool and the root. *)
Definition policy_graph (alloc_ok : bool) (g : option NodePool) : option NodePool * ptr :=
  let '(g, is_preinstall) := Load alloc_ok "is_preinstall" g in
  let '(g, event_type) := Load alloc_ok "event_type" g in
  let '(g, is_sensitive) := Load alloc_ok "is_sensitive" g in
  let '(g, is_unauthorized) := Load alloc_ok "is_unauthorized" g in
  let '(g, c) := Const alloc_ok 1 g in
  let '(g, is_preinstall_mask) := EQ alloc_ok is_preinstall c g in
  let '(g, c) := Const alloc_ok 1 g in
  let '(g, is_sensitive_mask) := EQ alloc_ok is_sensitive c g in
  let '(g, c) := Const alloc_ok 1 g in
  let '(g, is_unauthorized_mask) := EQ alloc_ok is_unauthorized c g in
  let '(g, c) := Const alloc_ok EVENT_OPEN g in
  let '(g, is_open) := EQ alloc_ok event_type c g in
  let '(g, open_check) := And alloc_ok is_open is_sensitive_mask g in
  let '(g, c) := Const alloc_ok EVENT_CONNECT g in
  let '(g, is_connect) := EQ alloc_ok event_type c g in
  let '(g, connect_check) := And alloc_ok is_connect is_unauthorized_mask g in
  let '(g, violation_check) := Or alloc_ok open_check connect_check g in
  And alloc_ok is_preinstall_mask violation_check g.

(** The builders' pool is global: it is passed in and comes back. *)
Definition init_JIT_schema (alloc_ok : bool) (g : option NodePool) (e : ApexEngine) : option (option NodePool * ApexEngine) :=
  let e := engine_register_schema "SyscallTrace" policy_fields 64 e in
  let '(g, root) := policy_graph alloc_ok g in
  '(ns, e) ← set_expression "SyscallTrace" root BIT_SLICED (pool_of g, e);
  Some ((fun p => mkPool (storage_ok p) ns) <$> g, e).

(** [e]: the member's own default construction. *)
Definition PolicyEngine_new (alloc_ok : bool) (g : option NodePool) (e : ApexEngine) : option (option NodePool * PolicyEngine) :=
  '(g, e) ← init_JIT_schema alloc_ok g e;
  Some (g, mkPolicy e ∅).

(** ** Events *)

(** [std::string(bytes)]: up to the terminator. *)
Fixpoint c_string (bytes : list Z) : option string :=
  match bytes with
  | [] => None
  | b :: bytes => if b =? 0 then Some "" else s ← c_string bytes; Some (String (Ascii.ascii_of_nat (Z.to_nat b)) s)
  end.

(** [s.find(pattern) != npos] *)
Definition contains (s pattern : string) : bool :=
  match String.index 0 pattern s with Some _ => true | None => false end.

Definition sensitive_patterns : list string := [
  ".ssh/"; ".aws/"; "aws/credentials"; ".env"; ".npmrc"; ".gitconfig"; "/etc/passwd"; "/etc/shadow";
  "/proc/self/environ"; "id_rsa"; "id_ed25519"; "authorized_keys" ].

Definition has_sensitive_pattern (arg : string) : bool := existsb (contains arg) sensitive_patterns.

Definition descendant_of (process_tree : gmap Z ProcessNode) (pid : Z) : bool :=
  match process_tree !! pid with Some p => pn_is_preinstall_descendant p | None => false end.

(** The names that make an exec a lifecycle script. *)
Definition is_script_host (comm : string) : bool :=
  bool_decide (comm = "sh") || bool_decide (comm = "bash") || bool_decide (comm = "node") || bool_decide (comm = "python").

(** The tree after the event and whether its process is marked. *)
Definition track_process (comm : string) (event : SyscallEvent) (tree : gmap Z ProcessNode) : gmap Z ProcessNode * bool :=
  let parent_is_untrusted := descendant_of tree (ev_ppid event) in
  if ev_event_type event =? EVENT_EXEC then
    let is_untrusted_script := parent_is_untrusted || (is_script_host comm && (1 <? ev_ppid event)) in
    (<[ev_pid event := mkProcess (ev_pid event) (ev_ppid event) comm is_untrusted_script]> tree, is_untrusted_script)
  else
    (tree, match tree !! ev_pid event with
           | Some p => pn_is_preinstall_descendant p
           | None => parent_is_untrusted
           end).

Definition process_event (event : SyscallEvent) (pe : PolicyEngine) : option (SyscallTraceRecord * PolicyEngine) :=
  comm ← c_string (ev_comm event);
  arg ← c_string (ev_arg_str event);
  let '(tree, is_preinstall_process) := track_process comm event (process_tree_ pe) in
  let is_sensitive := (ev_event_type event =? EVENT_OPEN) && has_sensitive_pattern arg in
  let is_unauthorized := negb (ev_event_type event =? EVENT_OPEN) && (ev_event_type event =? EVENT_CONNECT) in
  Some (mkRecord (ev_pid event) (ev_ppid event) (ev_event_type event) (Z.b2z is_preinstall_process)
          (Z.b2z is_sensitive) (Z.b2z is_unauthorized) [0; 0],
        mkPolicy (JIT_engine_ pe) tree).

(** ** Batches and the tree *)

Section WithHost.
Context {T : HwyTarget} {H : Host}.

Definition evaluate_batch (records : list SyscallTraceRecord) (count : nat) (pe : PolicyEngine) : option (Z * PolicyEngine) :=
  if (count =? 0)%nat then Some (0, pe)
  else
    '(r, e) ← execute (mjoin (record_bytes <$> records)) count (JIT_engine_ pe);
    Some (r, mkPolicy e (process_tree_ pe)).

End WithHost.

Definition is_preinstall_process (pid : Z) (pe : PolicyEngine) : bool := descendant_of (process_tree_ pe) pid.

Definition register_process (pid ppid : Z) (comm : string) (force_preinstall : bool) (pe : PolicyEngine) : PolicyEngine :=
  mkPolicy (JIT_engine_ pe) (<[pid := mkProcess pid ppid comm force_preinstall]> (process_tree_ pe)).

Definition unregister_process (pid : Z) (pe : PolicyEngine) : PolicyEngine :=
  mkPolicy (JIT_engine_ pe) (delete pid (process_tree_ pe)).
