(* ===== verification/PolicyProps.v ===== *)
(** * The policy engine is correct

    The compiled policy counts the violating records of every batch; the
    marking of processes follows the tree; and an exec in place takes the
    mark off. *)

From S2P Require Import Prelude Planes BitSlicer IR Registry A64 Circuits Analyzer ExprCompiler.
From S2P Require Import ExprProps ExprTotal KernelCall Rows Columns RunnerCorrect Forest Msl Engine EngineCorrect.
From S2P Require Import SetExpression EngineDemo EngineProps Vsock Policy.

(** ** Records in memory *)

Lemma read_le_value data off n : (off + n <= length data)%nat -> read_le data off n = Some (le_value (slice_at data off n)).
Proof.
  revert off. induction n as [|n IH]; intros off Hl; [done|]. cbn [read_le].
  destruct (lookup_lt_is_Some_2 data off) as [b Hb]; [lia|]. rewrite Hb, IH by lia.
  unfold slice_at. rewrite (drop_S data b off Hb). reflexivity.
Qed.

(** A batch is an array of parts of one size. *)
Lemma slice_mjoin {A} (f : A -> list Z) size l q x off n :
  Forall (fun a => length (f a) = size) l -> l !! q = Some x -> (off + n <= size)%nat ->
  slice_at (mjoin (f <$> l)) (q * size + off) n = slice_at (f x) off n.
Proof.
  intros Hf. revert q. induction Hf as [|a l Ha Hf IH]; intros [|q] Hq Hn; try done; cbn [fmap list_fmap mjoin list_join].
  - injection Hq as ->. unfold slice_at. rewrite Nat.mul_0_l, Nat.add_0_l, drop_app_le by lia.
    by rewrite take_app_le by (rewrite length_drop; lia).
  - rewrite slice_skip by lia. replace (S q * size + off - length (f a))%nat with (q * size + off)%nat by lia. by apply IH.
Qed.

Lemma length_mjoin {A} (f : A -> list Z) size l :
  Forall (fun a => length (f a) = size) l -> length (mjoin (f <$> l)) = (length l * size)%nat.
Proof.
  induction 1 as [|a l Ha Hf IH]; [done|]. cbn [fmap list_fmap mjoin list_join length]. rewrite length_app, Ha.
  change (size + length (mjoin (f <$> l)) = size + length l * size)%nat. by rewrite IH.
Qed.

(** A record of eight words. *)
Record record_ok (r : SyscallTraceRecord) : Prop := {
  ro_words : Forall u64 (record_words r);
  ro_padding : length (rec_padding r) = 2%nat
}.

Lemma length_record_words r : record_ok r -> length (record_words r) = 8%nat.
Proof. intros [_ Hp]. unfold record_words. by rewrite length_app, Hp. Qed.

Lemma words_8 (l : list Z) : Forall (fun a => length (le_bytes 8 a) = 8%nat) l.
Proof. apply Forall_forall. intros. apply length_le_bytes. Qed.

Lemma length_record_bytes r : record_ok r -> length (record_bytes r) = 64%nat.
Proof. intros Hr. unfold record_bytes. by rewrite (length_mjoin _ 8 _ (words_8 _)), length_record_words. Qed.

Lemma records_64 records : Forall record_ok records -> Forall (fun r => length (record_bytes r) = 64%nat) records.
Proof. intros H. eapply Forall_impl; [exact H|]. apply length_record_bytes. Qed.

(** Word [k] of record [q] of a batch. *)
Lemma batch_word records q r k w :
  Forall record_ok records -> records !! q = Some r -> record_words r !! k = Some w -> (k < 8)%nat ->
  read_le (mjoin (record_bytes <$> records)) (q * 64 + 8 * k) 8 = Some w.
Proof.
  intros Hr Hq Hk Hlt. pose proof (records_64 records Hr) as H64. pose proof (lookup_lt_Some _ _ _ Hq).
  rewrite read_le_value by (rewrite (length_mjoin _ 64 _ H64); lia).
  rewrite (slice_mjoin record_bytes 64 records q r) by (first [done|lia]).
  unfold record_bytes. replace (8 * k)%nat with (k * 8 + 0)%nat by lia.
  rewrite (slice_mjoin (le_bytes 8) 8 (record_words r) k w) by (first [done|lia|apply words_8]).
  rewrite slice_all by apply length_le_bytes. f_equal. apply le_value_bytes.
  rewrite Forall_lookup in Hr. destruct (Hr q r Hq) as [Hw _]. rewrite Forall_lookup in Hw. apply (Hw k w Hk).
Qed.

Lemma batch_bytes records : Forall byte (mjoin (record_bytes <$> records)).
Proof.
  apply Forall_join, Forall_fmap, Forall_forall. intros r _. unfold compose, record_bytes.
  apply Forall_join, Forall_fmap, Forall_forall. intros w _. apply le_bytes_byte.
Qed.

(** ** The policy's expression *)

Definition field_is (f : string) (v : Z) : bexp := BCmp C_EQ (ALoad f) (AConst v).

Definition policy_bexp : bexp :=
  BAnd (field_is "is_preinstall" 1)
       (BOr (BAnd (field_is "event_type" EVENT_OPEN) (field_is "is_sensitive" 1))
            (BAnd (field_is "event_type" EVENT_CONNECT) (field_is "is_unauthorized" 1))).

(** A violation, as one reads it off a record. *)
Definition violates (r : SyscallTraceRecord) : bool :=
  (rec_is_preinstall r =? 1) &&
  ((rec_event_type r =? EVENT_OPEN) && (rec_is_sensitive r =? 1) ||
   (rec_event_type r =? EVENT_CONNECT) && (rec_is_unauthorized r =? 1)).

Definition policy_nodes : list Node := Eval vm_compute in pool_of (policy_graph true None).1.

Lemma policy_graph_eq : policy_graph true None = (Some (mkPool true policy_nodes), Some 17%nat).
Proof. by vm_compute. Qed.

Lemma policy_load i f : (exists n, policy_nodes !! i = Some n /\ kind n = K_LOAD /\ field_name n = f /\ children n = [None; None; None]) ->
  denA policy_nodes i (ALoad f).
Proof. intros (n & Hn & Hk & <- & Hc). by apply (denA_load _ i n). Qed.

Lemma policy_const i v : (exists n, policy_nodes !! i = Some n /\ kind n = K_CONST /\ const_value n = v /\ children n = [None; None; None]) ->
  denA policy_nodes i (AConst v).
Proof. intros (n & Hn & Hk & <- & Hc). by apply (denA_const _ i n). Qed.

Ltac policy_leaf := first [apply policy_load | apply policy_const]; eexists; split_and!; reflexivity.

Lemma policy_den : denB policy_nodes 17 policy_bexp.
Proof.
  eapply (denB_and _ _ _ 5 16); [reflexivity..| |].
  - eapply (denB_cmp _ C_EQ _ _ 0 4); [reflexivity..| |]; policy_leaf.
  - eapply (denB_or _ _ _ 12 15); [reflexivity..| |].
    + eapply (denB_and _ _ _ 11 7); [reflexivity..| |];
        [eapply (denB_cmp _ C_EQ _ _ 1 10)|eapply (denB_cmp _ C_EQ _ _ 2 6)]; first [reflexivity|policy_leaf].
    + eapply (denB_and _ _ _ 14 9); [reflexivity..| |];
        [eapply (denB_cmp _ C_EQ _ _ 1 13)|eapply (denB_cmp _ C_EQ _ _ 3 8)]; first [reflexivity|policy_leaf].
Qed.

Definition policy_out : list Node * ConstPool.t * compiled := compile_expression (Some 17%nat) 64 policy_nodes ∅.

(** ** The engine behind the policy *)

Definition count_violations (records : list SyscallTraceRecord) : Z := Z.of_nat (length (List.filter violates records)).

Lemma zsum_count (P : nat -> bool) (records : list SyscallTraceRecord) :
  (forall q r, records !! q = Some r -> P q = violates r) ->
  zsum (length records) (fun q => Z.b2z (P q)) = count_violations records.
Proof.
  unfold count_violations. revert P. induction records as [|r l IH] using rev_ind; intros P Hp; [done|].
  rewrite length_app, Nat.add_1_r. cbn [zsum]. rewrite (IH P) by (intros q x Hq; apply Hp; by apply lookup_app_l_Some).
  rewrite List.filter_app, length_app, (Hp (length l) r) by apply list_lookup_middle, eq_refl.
  cbn [List.filter]. destruct (violates r); cbn [length Z.b2z]; lia.
Qed.

Section WithHost.
Context {T : HwyTarget} {H : Host}.
Variables (perf : option Z) (env : option string) (buffers : list buffer).
Hypothesis Hbuf : buffers_ok 128 buffers.

Definition policy_engine : ApexEngine := engine_register_schema "SyscallTrace" policy_fields 64 (ApexEngine_new perf env buffers).

Lemma policy_engine_ok : engine_ok policy_engine.
Proof using Hbuf.
  split; [|apply pools_empty_wf|done].
  apply (register_schema_ok ∅). intros s f d Hd. unfold get_field in Hd. by rewrite lookup_empty in Hd.
Qed.

Lemma policy_field f : get_field (registry_ policy_engine) "SyscallTrace" f = first_named f policy_fields.
Proof. by apply (register_schema_new ∅ "SyscallTrace" policy_fields). Qed.

Lemma policy_field_offset f d : get_field (registry_ policy_engine) "SyscallTrace" f = Some d -> (offset d <= 40)%nat.
Proof.
  rewrite policy_field. unfold policy_fields. cbn [first_named name].
  repeat case_decide; intros [= <-] || done; cbn [offset]; lia.
Qed.

(** The engine as the policy's calls find it: the policy stored, nothing else. *)
Definition policy_ready (pe : PolicyEngine) : Prop :=
  exists L pools bufs,
    JIT_engine_ pe = set_field_buffers bufs (store_logic "SyscallTrace" L pools policy_engine) /\
    buffers_ok 128 bufs /\
    LogicSpec (ec_mode L) (ec_kernel L) (ec_fields L) (logic_aggregation L)
      (get_field (registry_ policy_engine) "SyscallTrace") (fun row => Z.b2z (beval row policy_bexp)) /\
    ec_active_bits L = 64 /\
    (forall i d, ec_fields L !! i = Some (Some d) -> exists f, get_field (registry_ policy_engine) "SyscallTrace" f = Some d).

Lemma policy_registered : fields_registered (registry_ policy_engine) "SyscallTrace" policy_nodes 17.
Proof.
  assert (forall f, get_field (registry_ policy_engine) "SyscallTrace" f =
    get_field (register_schema "SyscallTrace" policy_fields ∅) "SyscallTrace" f) as E by done.
  intros j Hj Hk. rewrite E. revert j Hj Hk.
  apply (registeredb_spec (register_schema "SyscallTrace" policy_fields ∅)); [by vm_compute| |by vm_compute].
  apply Nat.ltb_lt. by vm_compute.
Qed.

(** The constructor succeeds and stores the policy. *)
Lemma policy_new :
  exists g pe, PolicyEngine_new true None (ApexEngine_new perf env buffers) = Some (g, pe) /\
    policy_ready pe /\ process_tree_ pe = ∅.
Proof using Hbuf.
  destruct (set_expression_mask_logic "SyscallTrace" 17 policy_nodes policy_engine policy_out.1.1 policy_out.1.2
    (kernel_of policy_out.2) policy_bexp) as (L & E & _ & Hbits & HL & Hf & Hok).
  - apply policy_engine_ok.
  - apply wf_nodesb_spec. by vm_compute.
  - apply cleanb_spec. by vm_compute.
  - apply policy_den.
  - reflexivity.
  - apply policy_registered.
  - apply out_eq. by vm_compute.
  - unfold PolicyEngine_new, init_JIT_schema. fold policy_engine. rewrite policy_graph_eq. cbn [pool_of nodes].
    rewrite E, !bind_Some. do 2 eexists. split; [exact eq_refl|]. split; [|exact eq_refl].
    exact (ex_intro _ L (ex_intro _ policy_out.1.2 (ex_intro _ buffers (conj eq_refl (conj Hbuf (conj HL (conj Hbits Hf))))))).
Qed.

(** A row of a batch is a record. *)
Lemma policy_row records q r :
  Forall record_ok records -> records !! q = Some r ->
  beval (row_of (mjoin (record_bytes <$> records)) 0 64 (get_field (registry_ policy_engine) "SyscallTrace") q) policy_bexp =
  violates r.
Proof.
  intros Hr Hq.
  assert (forall k f w, first_named f policy_fields = Some (mkField f (8 * k) 64 UINT64) -> record_words r !! k = Some w -> (k < 8)%nat ->
    row_of (mjoin (record_bytes <$> records)) 0 64 (get_field (registry_ policy_engine) "SyscallTrace") q f = w) as Hw.
  { intros k f w Hf Hk Hlt. unfold row_of, read_field. rewrite policy_field, Hf. cbn [offset Nat.add].
    by rewrite (batch_word records q r k w). }
  unfold policy_bexp, field_is. cbn [beval aeval cmp_eval].
  rewrite (Hw 3%nat "is_preinstall" (rec_is_preinstall r)), (Hw 2%nat "event_type" (rec_event_type r)),
    (Hw 4%nat "is_sensitive" (rec_is_sensitive r)), (Hw 5%nat "is_unauthorized" (rec_is_unauthorized r)) by (first [reflexivity|lia]).
  unfold violates. rewrite !wrap64_small by (unfold u64, EVENT_OPEN, EVENT_CONNECT; lia). done.
Qed.

Lemma policy_fits records :
  Forall record_ok records ->
  schema_fits (registry_ policy_engine) "SyscallTrace" 64 (mjoin (record_bytes <$> records)) (length records).
Proof.
  intros Hr. split; [apply batch_bytes|]. intros f d q Hd%policy_field_offset Hq.
  rewrite (length_mjoin _ 64 _ (records_64 records Hr)). lia.
Qed.

(** A batch is evaluated to its number of violations, and the engine stays ready. *)
Lemma evaluate_ready pe records :
  policy_ready pe -> malloc_ok = true -> Forall record_ok records -> Z.of_nat (length records) < 2 ^ 64 ->
  exists pe', evaluate_batch records (length records) pe = Some (count_violations records, pe') /\
    policy_ready pe' /\ process_tree_ pe' = process_tree_ pe.
Proof.
  intros (L & pools & bufs & E & Hb & HL & Hbits & Hf) Hok Hr Hn. unfold evaluate_batch.
  destruct (Nat.eqb_spec (length records) 0) as [H0|_].
  - destruct records; [|done]. exists pe. split_and!; [done| |done]. by exists L, pools, bufs.
  - destruct (execute_sum (JIT_engine_ pe) "SyscallTrace" L (mkMetadata 64 policy_fields)
      (get_field (registry_ policy_engine) "SyscallTrace") (fun row => Z.b2z (beval row policy_bexp))
      (mjoin (record_bytes <$> records)) (length records)) as (bufs' & Ee & Hb'); rewrite ?E; try done.
    + by apply begin_single.
    + by apply (schema_rows_fit (registry_ policy_engine) "SyscallTrace"); [apply policy_fits|].
    + rewrite E in Ee. rewrite Ee, bind_Some. eexists. split.
      * rewrite count_bound by done. cbn [sm_row_stride]. rewrite (zsum_count _ records); [reflexivity|].
        intros q r. by apply policy_row.
      * split; [|done]. exists L, pools, bufs'. by split_and!.
Qed.

End WithHost.

(** ** Following the processes *)

(** The marks as the policy means them: a process is tainted from its exec on
    when it is a script host started by an ordinary process, when its parent is
    tainted, or when it was tainted before. *)
Definition taint (tainted : gset Z) (comm : string) (ev : SyscallEvent) : gset Z :=
  if (ev_event_type ev =? EVENT_EXEC) &&
     (bool_decide (ev_ppid ev ∈ tainted) || (is_script_host comm && (1 <? ev_ppid ev)))
  then {[ev_pid ev]} ∪ tainted else tainted.

(** The command name of an event; the empty one stands for an undefined one. *)
Definition comm_of (ev : SyscallEvent) : string := default "" (c_string (ev_comm ev)).

Definition tainted_by (trace : list SyscallEvent) : gset Z := foldl (fun s ev => taint s (comm_of ev) ev) ∅ trace.

(** The processes that exec in a trace. *)
Definition execs (trace : list SyscallEvent) : list Z :=
  ev_pid <$> List.filter (fun ev => ev_event_type ev =? EVENT_EXEC) trace.

(** The records of a trace, and the engine behind it. *)
Definition process_trace (trace : list SyscallEvent) (pe : PolicyEngine) : option (list SyscallTraceRecord * PolicyEngine) :=
  mfold (fun ev st => '(r, pe) ← process_event ev st.2; Some (st.1 ++ [r], pe)) trace ([], pe).

Lemma process_event_tree ev pe r pe' :
  process_event ev pe = Some (r, pe') ->
  process_tree_ pe' = (track_process (comm_of ev) ev (process_tree_ pe)).1 /\
  rec_is_preinstall r = Z.b2z (track_process (comm_of ev) ev (process_tree_ pe)).2 /\ JIT_engine_ pe' = JIT_engine_ pe.
Proof.
  unfold process_event, comm_of. destruct (c_string (ev_comm ev)) as [comm|]; [|done].
  destruct (c_string (ev_arg_str ev)) as [arg|]; [|done]. rewrite !bind_Some.
  destruct (track_process comm ev (process_tree_ pe)) as [tree b] eqn:E. intros [= <- <-]. change (default "" (Some comm)) with comm. by rewrite E.
Qed.

(** The tree's marks against the intended ones. *)
Record marks_ok (seen : list Z) (tree : gmap Z ProcessNode) (tainted : gset Z) : Prop := {
  mo_sound : forall p, descendant_of tree p = true -> p ∈ tainted;
  mo_seen : forall p, p ∈ tainted -> p ∈ seen;
  mo_known : forall p, p ∈ seen -> is_Some (tree !! p);
  mo_complete : NoDup seen -> forall p, p ∈ tainted -> descendant_of tree p = true
}.

Lemma descendant_insert tree p q n :
  descendant_of (<[p := n]> tree) q = if decide (p = q) then pn_is_preinstall_descendant n else descendant_of tree q.
Proof.
  unfold descendant_of. destruct (decide (p = q)) as [->|Hne]; [by rewrite lookup_insert_eq|by rewrite lookup_insert_ne].
Qed.

Lemma marks_step seen tree tainted ev :
  marks_ok seen tree tainted ->
  marks_ok (seen ++ execs [ev]) (track_process (comm_of ev) ev tree).1 (taint tainted (comm_of ev) ev).
Proof.
  intros [Hs Hn Hk Hc]. unfold track_process, taint, execs. cbn [List.filter].
  destruct (ev_event_type ev =? EVENT_EXEC) eqn:E; cbn [andb fst fmap list_fmap]; [|by rewrite app_nil_r].
  set (script := is_script_host (comm_of ev) && (1 <? ev_ppid ev)).
  assert (forall p, p ∈ (if bool_decide (ev_ppid ev ∈ tainted) || script then {[ev_pid ev]} ∪ tainted else tainted) ->
    p = ev_pid ev /\ (ev_ppid ev ∈ tainted \/ script = true) \/ p ∈ tainted) as Ht.
  { intros p. destruct (bool_decide_reflect (ev_ppid ev ∈ tainted)), script; cbn [orb]; set_solver. }
  split.
  - intros p. rewrite descendant_insert. cbn [pn_is_preinstall_descendant]. destruct (decide (ev_pid ev = p)) as [<-|Hp].
    + intros Hm. rewrite (proj2 (orb_true_iff _ _)); [set_solver|].
      apply orb_true_iff in Hm as [Hm| ->]; [left; apply bool_decide_eq_true_2, Hs, Hm|by right].
    + intros Hm%Hs. destruct (bool_decide _ || script); set_solver.
  - intros p Hp. apply elem_of_app. destruct (Ht p Hp) as [[-> _]|Hin]; [right; by left|left; by apply Hn].
  - intros p [Hp| ->%list_elem_of_singleton]%elem_of_app; [|by rewrite lookup_insert_eq].
    destruct (decide (ev_pid ev = p)) as [<-|Hne]; [by rewrite lookup_insert_eq|]. rewrite lookup_insert_ne by done. by apply Hk.
  - intros [Hnd [Hni _]]%NoDup_app p Hp. rewrite descendant_insert. cbn [pn_is_preinstall_descendant].
    destruct (Ht p Hp) as [[-> Hor]|Hin].
    + rewrite decide_True by done. apply orb_true_iff. destruct Hor as [Hpp| ->]; [left; by apply Hc|by right].
    + rewrite decide_False; [by apply Hc|]. intros <-. apply (Hni (ev_pid ev)); [by apply Hn|by left].
Qed.

Lemma execs_app t1 t2 : execs (t1 ++ t2) = execs t1 ++ execs t2.
Proof. unfold execs. by rewrite List.filter_app, fmap_app. Qed.

Lemma marks_trace trace pe rs pe' :
  process_tree_ pe = ∅ -> process_trace trace pe = Some (rs, pe') ->
  marks_ok (execs trace) (process_tree_ pe') (tainted_by trace).
Proof.
  intros He. unfold process_trace, tainted_by. revert rs pe'. induction trace as [|ev trace IH] using rev_ind; intros rs pe'.
  - intros [= <- <-]. rewrite He. split; [|set_solver..]. intros p. unfold descendant_of. by rewrite lookup_empty.
  - rewrite mfold_app, foldl_app, execs_app. cbn [foldl].
    destruct (mfold _ trace ([], pe)) as [[rs1 pe1]|]; [|done]. rewrite bind_Some. cbn [mfold snd fst].
    destruct (process_event ev pe1) as [[r pe2]|] eqn:E; [|done]. rewrite !bind_Some. intros [= <- <-].
    destruct (process_event_tree _ _ _ _ E) as (-> & _). apply marks_step. by eapply IH.
Qed.

(** The mark of a process that is known. *)
Lemma mark_known trace pe rs pe1 ev comm :
  process_tree_ pe = ∅ -> process_trace trace pe = Some (rs, pe1) -> NoDup (execs trace) -> ev_pid ev ∈ execs trace ->
  ev_event_type ev <> EVENT_EXEC ->
  (track_process comm ev (process_tree_ pe1)).2 = bool_decide (ev_pid ev ∈ tainted_by trace).
Proof.
  intros He Ht Hnd Hin Hne. destruct (marks_trace trace pe rs pe1 He Ht) as [Hs _ Hk Hc].
  unfold track_process. rewrite (proj2 (Z.eqb_neq _ _) Hne). destruct (Hk _ Hin) as [p Hp]. cbn [snd]. rewrite Hp.
  apply eq_true_iff_eq. rewrite bool_decide_eq_true. pose proof (Hs (ev_pid ev)) as H1. pose proof (Hc Hnd (ev_pid ev)) as H2.
  unfold descendant_of in H1, H2. rewrite Hp in H1, H2. by split.
Qed.

(** When a record is a violation. *)
Lemma violates_known ev pe r pe' comm arg :
  ev_event_type ev <> EVENT_EXEC -> c_string (ev_comm ev) = Some comm -> c_string (ev_arg_str ev) = Some arg ->
  process_event ev pe = Some (r, pe') ->
  violates r = (track_process comm ev (process_tree_ pe)).2 &&
    ((ev_event_type ev =? EVENT_OPEN) && has_sensitive_pattern arg || (ev_event_type ev =? EVENT_CONNECT)).
Proof.
  intros Hne Hcomm Harg. unfold process_event. rewrite Hcomm, Harg, !bind_Some.
  destruct (track_process comm ev (process_tree_ pe)) as [tree m]. intros [= <- _].
  unfold violates. cbn [rec_is_preinstall rec_event_type rec_is_sensitive rec_is_unauthorized snd]. rewrite <- !(Z.eqb_sym 1).
  destruct m, (Z.eqb_spec (ev_event_type ev) EVENT_OPEN) as [->|], (has_sensitive_pattern arg),
    (ev_event_type ev =? EVENT_CONNECT); reflexivity.
Qed.

Lemma process_trace_length trace pe rs pe' : process_trace trace pe = Some (rs, pe') -> length rs = length trace.
Proof.
  unfold process_trace. revert rs pe'. induction trace as [|ev trace IH] using rev_ind; intros rs pe'; [by intros [= <- _]|].
  rewrite mfold_app. destruct (mfold _ trace _) as [[rs1 pe1]|]; [|done]. rewrite bind_Some. cbn [mfold snd fst].
  destruct (process_event ev pe1) as [[r pe2]|]; [|done]. rewrite !bind_Some. intros [= <- _].
  by rewrite !length_app, (IH rs1 pe1).
Qed.

(** A trace with defined strings is processed. *)
Lemma process_trace_defined trace pe :
  Forall (fun ev => is_Some (c_string (ev_comm ev)) /\ is_Some (c_string (ev_arg_str ev))) trace ->
  exists rs pe', process_trace trace pe = Some (rs, pe').
Proof.
  unfold process_trace. induction trace as [|ev trace IH] using rev_ind; intros Hd; [by exists [], pe|].
  apply Forall_app in Hd as [Hd [[[comm Hc] [arg Ha]] _]%Forall_cons]. destruct (IH Hd) as (rs & pe1 & E).
  rewrite mfold_app, E, bind_Some. cbn [mfold fst snd]. unfold process_event. rewrite Hc, Ha, !bind_Some.
  destruct (track_process _ _ _) as [tree m]. rewrite !bind_Some. by do 2 eexists.
Qed.

(** The record at a place is the one made behind the events before. *)
Lemma process_trace_at t1 ev t2 pe rs pe' :
  process_trace (t1 ++ ev :: t2) pe = Some (rs, pe') ->
  exists rs1 pe1 r pe2, process_trace t1 pe = Some (rs1, pe1) /\ process_event ev pe1 = Some (r, pe2) /\
    rs !! length t1 = Some r.
Proof.
  unfold process_trace. rewrite mfold_app. intros E. destruct (mfold _ t1 _) as [[rs1 pe1]|] eqn:E1; [|done].
  rewrite bind_Some in E. cbn [mfold snd fst] in E. destruct (process_event ev pe1) as [[r pe2]|] eqn:Er; [|done].
  rewrite !bind_Some in E. exists rs1, pe1, r, pe2. split_and!; [done|done|].
  assert (forall t st, mfold (fun ev st => '(r, pe) ← process_event ev st.2; Some (st.1 ++ [r], pe)) t st = Some (rs, pe') ->
    exists l, rs = st.1 ++ l) as Hpre.
  { clear E. induction t as [|e t IH]; intros st; [intros [= ->]; exists []; by rewrite app_nil_r|]. cbn [mfold].
    destruct (process_event e st.2) as [[r' pe3]|]; [|done]. rewrite !bind_Some. intros [l ->]%IH. exists (r' :: l). cbn [fst].
    by rewrite <- app_assoc. }
  apply Hpre in E as [l ->]. cbn [fst]. rewrite <- app_assoc. rewrite <- (process_trace_length _ _ _ _ E1). by apply list_lookup_middle.
Qed.

(** ** Properties *)

Definition evaluate_batches `{HwyTarget} `{Host} (batches : list (list SyscallTraceRecord)) (pe : PolicyEngine) :
    option (list Z * PolicyEngine) :=
  mfold (fun b st => '(c, pe) ← evaluate_batch b (length b) st.2; Some (st.1 ++ [c], pe)) batches ([], pe).

(** C16: the compiled policy.  A newly constructed policy engine evaluates every batch
    of records, one after the other, to the number of records in it that
    violate the policy: the schema, the graph of builders, the compiled kernel and the
    layout of the records fit together. *)
Theorem policy_counts_batches `{HwyTarget} `{Host} perf env buffers batches :
  buffers_ok 128 buffers -> malloc_ok = true ->
  Forall (fun b => Forall record_ok b /\ Z.of_nat (length b) < 2 ^ 64) batches ->
  exists g pe pe', PolicyEngine_new true None (ApexEngine_new perf env buffers) = Some (g, pe) /\
    evaluate_batches batches pe = Some (count_violations <$> batches, pe').
Proof.
  intros Hb Hok Hbs. destruct (policy_new perf env buffers Hb) as (g & pe & E & Hpe & _). exists g, pe.
  assert (exists pe', evaluate_batches batches pe = Some (count_violations <$> batches, pe') /\ policy_ready perf env buffers pe')
    as (pe' & E' & _); [|exact (ex_intro _ pe' (conj E E'))].
  clear E. unfold evaluate_batches. induction batches as [|b bs IH] using rev_ind; [exact (ex_intro _ pe (conj eq_refl Hpe))|].
  apply Forall_app in Hbs as [Hbs [[Hr Hn] _]%Forall_cons]. destruct (IH Hbs) as (pe1 & E1 & Hpe1).
  rewrite mfold_app, E1, bind_Some, fmap_app. cbn [mfold fst snd].
  destruct (evaluate_ready perf env buffers pe1 b Hpe1 Hok Hr Hn) as (pe2 & -> & Hpe2 & _). rewrite !bind_Some.
  exact (ex_intro _ pe2 (conj eq_refl Hpe2)).
Qed.

#[local] Existing Instance hwy_neon.

(** An open of a sensitive file by a script, and by an ordinary process. *)
Definition demo_records : list SyscallTraceRecord :=
  [mkRecord 10 5 EVENT_OPEN 1 1 0 [0; 0]; mkRecord 11 5 EVENT_OPEN 0 1 0 [0; 0]].

Lemma demo_records_ok : Forall (fun b => Forall record_ok b /\ Z.of_nat (length b) < 2 ^ 64) [demo_records; []].
Proof.
  assert (forall r, length (rec_padding r) = 2%nat -> forallb (fun w => (0 <=? w) && (w <? 2 ^ 64)) (record_words r) = true ->
    record_ok r) as Hok.
  { intros r Hp Hw. split; [|done]. apply Forall_forall. intros w Hin. rewrite forallb_forall in Hw.
    apply list_elem_of_In, Hw in Hin. unfold u64. lia. }
  apply Forall_cons; split; [|by apply Forall_singleton].
  split; [|done]. unfold demo_records. apply Forall_cons; split; [|apply Forall_singleton]; apply Hok; by vm_compute.
Qed.

Lemma policy_counts_batches_witness :
  exists g pe pe', PolicyEngine_new true None (ApexEngine_new None None demo_buffers) = Some (g, pe) /\
    evaluate_batches [demo_records; []] pe = Some ([1; 0], pe').
Proof.
  assert (count_violations <$> [demo_records; []] = [1; 0]) as <- by reflexivity.
  apply (policy_counts_batches None None demo_buffers [demo_records; []]);
    [apply buffers_ok_replicate|reflexivity|apply demo_records_ok].
Defined.

(** C20: which events are flagged.  When every process execs once and the process of
    the event is known, its record is a violation exactly when the process is a
    lifecycle script or the descendant of one, and the event opens a path with a
    sensitive pattern or connects to the network. *)
Theorem policy_flags trace pe rs pe1 ev r pe2 comm arg :
  process_tree_ pe = ∅ -> process_trace trace pe = Some (rs, pe1) -> NoDup (execs trace) -> ev_pid ev ∈ execs trace ->
  ev_event_type ev <> EVENT_EXEC -> c_string (ev_comm ev) = Some comm -> c_string (ev_arg_str ev) = Some arg ->
  process_event ev pe1 = Some (r, pe2) ->
  violates r = bool_decide (ev_pid ev ∈ tainted_by trace) &&
    ((ev_event_type ev =? EVENT_OPEN) && has_sensitive_pattern arg || (ev_event_type ev =? EVENT_CONNECT)).
Proof.
  intros He Ht Hnd Hin Hne Hcomm Harg E. rewrite (violates_known ev pe1 r pe2 comm arg Hne Hcomm Harg E).
  by rewrite (mark_known trace pe rs pe1).
Qed.

Definition demo_ev (kind pid ppid : Z) (comm arg : string) : SyscallEvent :=
  mkEvent 0 pid ppid kind (chars 32 comm) (chars 256 arg) 0 0 [0; 0].

Definition demo_policy : PolicyEngine := mkPolicy (ApexEngine_new None None []) ∅.

Definition demo_exec : SyscallEvent := demo_ev EVENT_EXEC 10 5 "sh" "install.sh".
Definition demo_open : SyscallEvent := demo_ev EVENT_OPEN 10 5 "sh" "/root/.ssh/id_rsa".

(** What follows from a successful run. *)
Definition after (trace : list SyscallEvent) (pe : PolicyEngine) : list SyscallTraceRecord * PolicyEngine :=
  default ([], pe) (process_trace trace pe).

Lemma policy_flags_witness :
  exists r pe2, process_event demo_open (after [demo_exec] demo_policy).2 = Some (r, pe2) /\
    violates r = bool_decide (10 ∈ tainted_by [demo_exec]) &&
      ((EVENT_OPEN =? EVENT_OPEN) && has_sensitive_pattern "/root/.ssh/id_rsa" || (EVENT_OPEN =? EVENT_CONNECT)).
Proof.
  assert (process_trace [demo_exec] demo_policy = Some (after [demo_exec] demo_policy)) as Et by (by vm_compute).
  destruct (process_event demo_open (after [demo_exec] demo_policy).2) as [[r pe2]|] eqn:E;
    [|exfalso; revert E; by vm_compute].
  exists r, pe2. split; [done|].
  apply (policy_flags [demo_exec] demo_policy (after [demo_exec] demo_policy).1 (after [demo_exec] demo_policy).2 demo_open r pe2
    "sh" "/root/.ssh/id_rsa").
  - reflexivity.
  - rewrite Et. by destruct (after [demo_exec] demo_policy).
  - apply NoDup_singleton.
  - by left.
  - done.
  - by vm_compute.
  - by vm_compute.
  - done.
Defined.

(** C37: an exec in place takes the mark off.  A lifecycle script that execs a
    program which is no script host keeps its process, is tainted by
    descent, and opens a private key without being flagged. *)
Theorem exec_clears_mark e :
  let trace := [demo_exec; demo_ev EVENT_EXEC 10 5 "curl" "curl"; demo_open] in
  10 ∈ tainted_by trace /\
  exists rs r pe, process_trace trace (mkPolicy e ∅) = Some (rs ++ [r], pe) /\
    rec_pid r = 10 /\ rec_event_type r = EVENT_OPEN /\ rec_is_sensitive r = 1 /\ violates r = false.
Proof.
  intros trace. split; [by apply (bool_decide_eq_true (10 ∈ tainted_by trace)); vm_compute|].
  exists [mkRecord 10 5 EVENT_EXEC 1 0 0 [0; 0]; mkRecord 10 5 EVENT_EXEC 0 0 0 [0; 0]], (mkRecord 10 5 EVENT_OPEN 0 1 0 [0; 0]).
  eexists. split; [|done]. vm_compute. reflexivity.
Qed.
