(* ===== verification/Monitor.v ===== *)
(** * The telemetry monitor
      (common/monitor_protocol.h, src/host/monitor.cpp)

    The monitor receives one [MonitorEvent] per classified system call and keeps
    counters, a log of the last twelve events and the tree of processes, which
    it draws on a terminal.  A character array without a terminator and a
    recursion without end are [None].  The text a terminal shows is a string
    with its escape sequences; what the source sends through [std::cout] is
    produced here in the same order.  The subscription to the shared-memory
    transport and the timing of the refreshes are left out. *)

From stdpp Require Import pretty.
From S2P Require Import Prelude Vsock Policy.

Definition EVENT_MTE_TRAP : Z := 4.
Definition EVENT_VM_STATE_CHANGE : Z := 5.

Record MonitorEvent := mkMon {
  mon_timestamp_ns : Z;
  mon_pid : Z;
  mon_ppid : Z;
  mon_event_type : Z;
  mon_comm : list Z;          (* char[32] *)
  mon_arg_str : list Z;       (* char[256] *)
  mon_ip_address : Z;
  mon_port : Z;
  mon_is_preinstall : Z;
  mon_is_sensitive : Z;
  mon_is_unauthorized : Z;
  mon_vm_running : Z
}.

(** ** The model *)

Record ProcessNode := mkNode {
  tn_pid : Z;
  tn_ppid : Z;
  tn_comm : string;
  tn_arg : string;
  tn_is_preinstall : bool;
  tn_children : list Z
}.

Record TelemetryModel := mkModel {
  vm_running : bool;
  vm_status_desc : string;
  total_execs : Z;
  total_opens : Z;
  total_connects : Z;
  total_mte_traps : Z;
  total_violations : Z;
  processes : gmap Z ProcessNode;
  root_pids : list Z;
  logs : list MonitorEvent
}.

Definition TelemetryModel_new : TelemetryModel := mkModel false "Offline" 0 0 0 0 0 ∅ [] [].

Definition add_child (c : Z) (n : ProcessNode) : ProcessNode :=
  mkNode (tn_pid n) (tn_ppid n) (tn_comm n) (tn_arg n) (tn_is_preinstall n) (tn_children n ++ [c]).

(** At most twelve log entries. *)
Definition push_log (ev : MonitorEvent) (logs : list MonitorEvent) : list MonitorEvent :=
  let logs := logs ++ [ev] in if (12 <? length logs)%nat then drop 1 logs else logs.

Definition blocked_open (ev : MonitorEvent) : bool :=
  negb (mon_is_sensitive ev =? 0) && negb (mon_is_preinstall ev =? 0) && (mon_event_type ev =? EVENT_OPEN).

Definition blocked_connect (ev : MonitorEvent) : bool :=
  negb (mon_is_unauthorized ev =? 0) && negb (mon_is_preinstall ev =? 0) && (mon_event_type ev =? EVENT_CONNECT).

(** The tree after an exec: a process that is known stays as it is; a new one is
    linked to its parent, or is a root. *)
Definition add_process (ev : MonitorEvent) (comm arg : string) (tree : gmap Z ProcessNode * list Z) : gmap Z ProcessNode * list Z :=
  let '(processes, root_pids) := tree in
  match processes !! mon_pid ev with
  | Some _ => tree
  | None =>
      let node := mkNode (mon_pid ev) (mon_ppid ev) comm arg (mon_is_preinstall ev =? 1) [] in
      let processes := <[mon_pid ev := node]> processes in
      if negb (mon_ppid ev =? 0) && bool_decide (is_Some (processes !! mon_ppid ev))
      then (alter (add_child (mon_pid ev)) (mon_ppid ev) processes, root_pids)
      else (processes, root_pids ++ [mon_pid ev])
  end.

Definition add_event (ev : MonitorEvent) (m : TelemetryModel) : option TelemetryModel :=
  if mon_event_type ev =? EVENT_VM_STATE_CHANGE then
    desc ← c_string (mon_arg_str ev);
    Some (mkModel (mon_vm_running ev =? 1) desc (total_execs m) (total_opens m) (total_connects m) (total_mte_traps m)
            (total_violations m) (processes m) (root_pids m) (logs m))
  else
    let t := mon_event_type ev in
    let one (b : bool) (n : Z) := if b then wrap64 (n + 1) else n in
    let total_violations := one (blocked_connect ev) (one (blocked_open ev) (total_violations m)) in
    '(processes, root_pids) ←
      (if t =? EVENT_EXEC then
         comm ← c_string (mon_comm ev);
         arg ← c_string (mon_arg_str ev);
         Some (add_process ev comm arg (processes m, root_pids m))
       else Some (processes m, root_pids m));
    Some (mkModel (vm_running m) (vm_status_desc m) (one (t =? EVENT_EXEC) (total_execs m)) (one (t =? EVENT_OPEN) (total_opens m))
            (one (t =? EVENT_CONNECT) (total_connects m)) (one (t =? EVENT_MTE_TRAP) (total_mte_traps m))
            total_violations processes root_pids (push_log ev (logs m))).

(** ** Drawing the tree *)

Definition ESC : string := String (Ascii.ascii_of_nat 27) EmptyString.
Definition RESET : string := ESC +:+ "[0m".
Definition BOLD : string := ESC +:+ "[1m".
Definition RED : string := ESC +:+ "[31m".
Definition GREEN : string := ESC +:+ "[32m".
Definition YELLOW : string := ESC +:+ "[33m".
Definition MAGENTA : string := ESC +:+ "[35m".
Definition CYAN : string := ESC +:+ "[36m".
Definition WHITE : string := ESC +:+ "[37m".
Definition BG_RED : string := ESC +:+ "[41m".
Definition CLEAR_SCR : string := ESC +:+ "[2J" +:+ ESC +:+ "[H".
Definition newline : string := String (Ascii.ascii_of_nat 10) EmptyString.

(** One line of the drawing. *)
Record tree_line := mkLine { tl_prefix : string; tl_is_last : bool; tl_node : ProcessNode }.

Definition line_text (l : tree_line) : string :=
  let node := tl_node l in
  tl_prefix l +:+ (if tl_is_last l then "└── " else "├── ") +:+
  (if tn_is_preinstall node
   then YELLOW +:+ BOLD +:+ tn_comm node +:+ RESET +:+ " (PID: " +:+ pretty (tn_pid node) +:+ ")"
   else GREEN +:+ tn_comm node +:+ RESET +:+ " (PID: " +:+ pretty (tn_pid node) +:+ ")") +:+
  (if bool_decide (tn_arg node = "") then "" else " " +:+ WHITE +:+ "[" +:+ tn_arg node +:+ "]" +:+ RESET) +:+
  newline.

(** Whether [x] is followed by nothing: [i == size - 1] of the loops. *)
Fixpoint with_last {A} (l : list A) : list (A * bool) :=
  match l with
  | [] => []
  | x :: l => (x, match l with [] => true | _ => false end) :: with_last l
  end.

(** The lines for a process and its descendants, in the order printed. *)
Fixpoint draw_process_node (fuel : nat) (model : TelemetryModel) (pid : Z) (prefix : string) (is_last : bool) :
    option (list tree_line) :=
  match fuel with
  | O => None
  | S fuel =>
      match processes model !! pid with
      | None => Some []
      | Some node =>
          let new_prefix := prefix +:+ (if is_last then "    " else "│   ") in
          mfold (fun c out => sub ← draw_process_node fuel model c.1 new_prefix c.2; Some (out ++ sub))
            (with_last (tn_children node)) [mkLine prefix is_last node]
      end
  end.

(** The loop over the roots; one call per process on a path is enough fuel. *)
Definition draw_roots (model : TelemetryModel) : option (list tree_line) :=
  mfold (fun c out => sub ← draw_process_node (S (size (processes model))) model c.1 "  " c.2; Some (out ++ sub))
    (with_last (root_pids model)) [].

(** ** The dashboard *)

Definition spaces (n : nat) : string := foldr (fun _ s => " " +:+ s) "" (seq 0 n).

(** [std::setw(n) << s]; [adjust] is whether the stream adjusts to the left, which
    [std::left] sets for good. *)
Definition setw (adjust : bool) (n : nat) (s : string) : string :=
  let pad := spaces (n - String.length s) in if adjust then s +:+ pad else pad +:+ s.

Definition dotted (ip : Z) : string :=
  pretty (Z.land (Z.shiftr ip 24) 255) +:+ "." +:+ pretty (Z.land (Z.shiftr ip 16) 255) +:+ "." +:+
  pretty (Z.land (Z.shiftr ip 8) 255) +:+ "." +:+ pretty (Z.land ip 255).

(** [adjust]: the state of [std::cout] before and after. *)
Definition render_log (adjust : bool) (log : MonitorEvent) : option (string * bool) :=
  comm ← c_string (mon_comm log);
  arg ← c_string (mon_arg_str log);
  let comm := String.substring 0 15 comm in
  let t := mon_event_type log in
  let pid := " PID " +:+ setw adjust 5 (pretty (mon_pid log)) +:+ " " in
  let '(text, adjust) :=
    if t =? EVENT_MTE_TRAP then
      (BG_RED +:+ BOLD +:+ "[MTE TRAP]   " +:+ RESET +:+ " " +:+ RED +:+ comm +:+ RESET +:+
       " violated hardware tags at " +:+ RED +:+ arg +:+ RESET +:+ newline, adjust)
    else if blocked_open log then
      (RED +:+ BOLD +:+ "[BLOCKED OPEN]  " +:+ RESET +:+ " preinstall " +:+ RED +:+ comm +:+ RESET +:+
       " tried to read: " +:+ RED +:+ arg +:+ RESET +:+ newline, adjust)
    else if blocked_connect log then
      (RED +:+ BOLD +:+ "[BLOCKED CONN]  " +:+ RESET +:+ " preinstall " +:+ RED +:+ comm +:+ RESET +:+
       " exfil attempt: " +:+ RED +:+ arg +:+ ":" +:+ pretty (mon_port log) +:+ RESET +:+ newline, adjust)
    else if t =? EVENT_EXEC then
      (GREEN +:+ BOLD +:+ "[EXEC]   " +:+ RESET +:+ pid +:+ BOLD +:+ setw true 15 comm +:+ RESET +:+
       " -> " +:+ arg +:+ newline, true)
    else if t =? EVENT_OPEN then
      (CYAN +:+ "[OPEN]   " +:+ RESET +:+ pid +:+ setw true 15 comm +:+ " path: " +:+ arg +:+ newline, true)
    else if t =? EVENT_CONNECT then
      let dest := if bool_decide (arg = "") || bool_decide (arg = "other_connect") then dotted (mon_ip_address log) else arg in
      (MAGENTA +:+ "[CONNECT]" +:+ RESET +:+ pid +:+ setw true 15 comm +:+ " -> " +:+ dest +:+ ":" +:+
       pretty (mon_port log) +:+ newline, true)
    else ("", adjust) in
  Some ("  " +:+ text, adjust).

Definition title : string :=
  CLEAR_SCR +:+ BOLD +:+ CYAN +:+
  "================================================================================" +:+ newline +:+
  "                 AarchGate Zero-Trust Sandbox Monitor v1.0                      " +:+ newline +:+
  "================================================================================" +:+ newline +:+ RESET.

Definition status_panel (m : TelemetryModel) : string :=
  BOLD +:+ "VM Lifecycle: " +:+ RESET +:+
  (if vm_running m then GREEN +:+ BOLD +:+ "[RUNNING] " +:+ RESET +:+ "(" +:+ vm_status_desc m +:+ ")" +:+ newline
   else
     let killed_by_policy := (0 <? total_violations m) || contains (vm_status_desc m) "Kill Switch" in
     if killed_by_policy then RED +:+ BOLD +:+ "[KILLED]  " +:+ RESET +:+ "(" +:+ vm_status_desc m +:+ ")" +:+ newline
     else if (length (logs m) =? 0)%nat && (total_execs m =? 0) then
       YELLOW +:+ BOLD +:+ "[WAITING] " +:+ RESET +:+ "(Waiting for aarchgate_daemon to connect...)" +:+ newline
     else WHITE +:+ BOLD +:+ "[OFFLINE] " +:+ RESET +:+ "(" +:+ vm_status_desc m +:+ ")" +:+ newline).

Definition statistics (m : TelemetryModel) : string :=
  let colour (n : Z) := if 0 <? n then RED else GREEN in
  BOLD +:+ newline +:+ "[Telemetry Statistics]" +:+ newline +:+ RESET +:+
  "  Spawns (EXEC): " +:+ BOLD +:+ pretty (total_execs m) +:+ RESET +:+
  "   |   File Opens: " +:+ BOLD +:+ pretty (total_opens m) +:+ RESET +:+
  "   |   Connections: " +:+ BOLD +:+ pretty (total_connects m) +:+ RESET +:+ newline +:+
  "  MTE Traps:     " +:+ BOLD +:+ colour (total_mte_traps m) +:+ pretty (total_mte_traps m) +:+ RESET +:+
  "   |   Violations: " +:+ BOLD +:+ colour (total_violations m) +:+ pretty (total_violations m) +:+ RESET +:+ newline +:+
  "--------------------------------------------------------------------------------" +:+ newline.

Definition concat_strings (l : list string) : string := foldr (fun a b => a +:+ b) "" l.

Definition render_dashboard (adjust : bool) (m : TelemetryModel) : option (string * bool) :=
  tree ← (if bool_decide (root_pids m = []) then Some ("  No processes spawned in sandbox yet." +:+ newline)
          else ls ← draw_roots m; Some (concat_strings (line_text <$> ls)));
  '(log_text, adjust) ←
    (if bool_decide (length (logs m) = 0%nat) then Some ("  Awaiting syscall telemetry stream..." +:+ newline, adjust)
     else mfold (fun log st => '(text, adjust) ← render_log st.2 log; Some (st.1 +:+ text, adjust)) (logs m) ("", adjust));
  Some (title +:+ status_panel m +:+ statistics m +:+
        BOLD +:+ newline +:+ "[Sandbox Process Tree Hierarchy]" +:+ newline +:+ RESET +:+ tree +:+
        newline +:+ "--------------------------------------------------------------------------------" +:+ newline +:+
        BOLD +:+ newline +:+ "[Real-Time Intercepted Syscall Logs]" +:+ newline +:+ RESET +:+ log_text +:+ newline, adjust).

(** ** The polling loop

    One round of [main]'s loop: the queued events, then the dashboard if there
    was one or half a second has passed ([elapsed]); the text written, if any. *)
Definition monitor_poll (samples : list MonitorEvent) (elapsed adjust : bool) (model : TelemetryModel) :
    option (TelemetryModel * bool * string) :=
  model ← mfold add_event samples model;
  if bool_decide (samples <> []) || elapsed then
    '(text, adjust) ← render_dashboard adjust model;
    Some (model, adjust, text)
  else Some (model, adjust, "").
