(* ===== verification/MonitorProps.v ===== *)
(** * The monitor draws every process once

    The processes form a forest: every process is a root or the child of
    exactly one process that was there before it.  Hence drawing ends, and
    the drawing has one line per process. *)

From S2P Require Import Prelude Vsock Policy Monitor.

(** ** The forest *)

Definition children_of (ps : gmap Z ProcessNode) (p : Z) : list Z :=
  match ps !! p with Some n => tn_children n | None => [] end.

Definition all_children (ps : gmap Z ProcessNode) (l : list Z) : list Z := mjoin (children_of ps <$> l).

(** [ord]: the processes in the order they were added. *)
Record tree_ok (ps : gmap Z ProcessNode) (roots ord : list Z) : Prop := {
  to_nodup : NoDup ord;
  to_keys : forall p, p ∈ ord <-> is_Some (ps !! p);
  to_pid : forall p n, ps !! p = Some n -> tn_pid n = p;
  to_edges : roots ++ all_children ps ord ≡ₚ ord;
  to_later : forall i j p c, ord !! i = Some p -> ord !! j = Some c -> c ∈ children_of ps p -> (i < j)%nat
}.

Lemma all_children_app ps l k : all_children ps (l ++ k) = all_children ps l ++ all_children ps k.
Proof. unfold all_children. by rewrite fmap_app, join_app. Qed.

Lemma all_children_ext ps ps' l : (forall p, p ∈ l -> children_of ps' p = children_of ps p) -> all_children ps' l = all_children ps l.
Proof. intros H. unfold all_children. f_equal. apply list_fmap_ext. intros i p Hp. apply H. by eapply list_elem_of_lookup_2. Qed.

Lemma elem_of_all_children ps l c : c ∈ all_children ps l <-> exists p, p ∈ l /\ c ∈ children_of ps p.
Proof. unfold all_children. rewrite list_elem_of_join. setoid_rewrite list_elem_of_fmap. naive_solver. Qed.

Lemma all_children_perm ps l k : l ≡ₚ k -> all_children ps l ≡ₚ all_children ps k.
Proof. intros H. unfold all_children. by rewrite H. Qed.

Section Tree.
Context (ps : gmap Z ProcessNode) (roots ord : list Z) (Hok : tree_ok ps roots ord).

(** Every process but a root has a parent. *)
Lemma root_or_child x : x ∈ ord -> x ∈ roots \/ exists p, p ∈ ord /\ x ∈ children_of ps p.
Proof using Hok. intros Hx. rewrite <- (to_edges _ _ _ Hok), elem_of_app, elem_of_all_children in Hx. exact Hx. Qed.

Lemma child_known p c : p ∈ ord -> c ∈ children_of ps p -> c ∈ ord.
Proof using Hok. intros Hp Hc. rewrite <- (to_edges _ _ _ Hok). apply elem_of_app. right. apply elem_of_all_children. eauto. Qed.

Lemma root_known r : r ∈ roots -> r ∈ ord.
Proof using Hok. intros Hr. rewrite <- (to_edges _ _ _ Hok). apply elem_of_app. by left. Qed.

(** A set of processes each of which is a child of another is empty. *)
Lemma no_cycle (E : list Z) : E ≡ₚ all_children ps E -> (forall x, x ∈ E -> x ∈ ord) -> E = [].
Proof using Hok.
  intros HE Hin. assert (forall i x, ord !! i = Some x -> x ∈ E -> False) as Hno.
  { intros i. induction i as [i IH] using lt_wf_ind. intros x Hx HxE. rewrite HE in HxE.
    apply elem_of_all_children in HxE as (p & Hp & Hc). destruct (proj1 (list_elem_of_lookup _ _) (Hin p Hp)) as [j Hj].
    exact (IH j (to_later _ _ _ Hok j i p x Hj Hx Hc) p Hj Hp). }
  destruct E as [|x E]; [done|]. exfalso. destruct (proj1 (list_elem_of_lookup _ _) (Hin x ltac:(by left))) as [i Hi].
  apply (Hno i x Hi). by left.
Qed.

(** What is closed under children and holds the roots is everything, once. *)
Lemma closed_all (D : list Z) : D ≡ₚ roots ++ all_children ps D -> (forall x, x ∈ D -> x ∈ ord) -> D ≡ₚ ord.
Proof using Hok.
  intros HD Hin. assert (forall x, x ∈ ord -> x ∈ D) as Hall.
  { assert (forall i x, ord !! i = Some x -> x ∈ D) as H.
    { intros i. induction i as [i IH] using lt_wf_ind. intros x Hx. rewrite HD. apply elem_of_app.
      destruct (root_or_child x) as [Hr|(p & Hp & Hc)]; [by eapply list_elem_of_lookup_2|by left|]. right.
      apply elem_of_all_children. exists p. split; [|done]. apply list_elem_of_lookup in Hp as [j Hj].
      apply (IH j); [by apply (to_later _ _ _ Hok j i p x)|done]. }
    intros x Hx. apply list_elem_of_lookup in Hx as [i Hi]. by eapply H. }
  destruct (submseteq_Permutation ord D) as [E HE]; [apply NoDup_submseteq; [apply Hok|done]|].
  enough (E = []) as -> by (by rewrite HE, app_nil_r).
  apply no_cycle; [|intros x Hx; apply Hin; rewrite HE; apply elem_of_app; by right].
  apply (Permutation_app_inv_l ord). rewrite <- HE at 1. rewrite HD at 1.
  rewrite (all_children_perm ps D (ord ++ E) HE), all_children_app, app_assoc. by rewrite (to_edges _ _ _ Hok).
Qed.

End Tree.

(** ** Adding a process *)

Lemma children_insert ps x n p : children_of (<[x := n]> ps) p = if decide (x = p) then tn_children n else children_of ps p.
Proof.
  unfold children_of. destruct (decide (x = p)) as [->|Hne]; [by rewrite lookup_insert_eq|by rewrite lookup_insert_ne].
Qed.

Lemma children_alter ps q x p : is_Some (ps !! q) ->
  children_of (alter (add_child x) q ps) p = if decide (q = p) then children_of ps p ++ [x] else children_of ps p.
Proof.
  intros [n Hn]. unfold children_of. destruct (decide (q = p)) as [->|Hne]; [by rewrite lookup_alter_eq, Hn|by rewrite lookup_alter_ne].
Qed.

Lemma all_children_alter ps q x l : NoDup l -> q ∈ l -> is_Some (ps !! q) ->
  all_children (alter (add_child x) q ps) l ≡ₚ all_children ps l ++ [x].
Proof.
  intros Hnd Hq Hs. apply list_elem_of_split in Hq as (l1 & l2 & ->).
  apply NoDup_app in Hnd as (_ & Hn1 & [Hn2 _]%NoDup_cons).
  assert (forall l, q ∉ l -> all_children (alter (add_child x) q ps) l = all_children ps l) as Hext.
  { intros l Hl. apply all_children_ext. intros p Hp. rewrite children_alter, decide_False by (first [done|by intros <-]). done. }
  change (q :: l2) with ([q] ++ l2). rewrite !all_children_app, (Hext l1), (Hext l2) by (first [done|intros Hi; apply (Hn1 q Hi); by left]).
  unfold all_children at 2 5. cbn [fmap list_fmap mjoin list_join]. rewrite !app_nil_r, children_alter, decide_True by done.
  rewrite <- !app_assoc. do 2 f_equiv. apply Permutation_app_comm.
Qed.

Section Add.
Context (ps : gmap Z ProcessNode) (roots ord : list Z) (Hok : tree_ok ps roots ord).
Context (x : Z) (node : ProcessNode) (Hx : ps !! x = None) (Hpid : tn_pid node = x) (Hleaf : tn_children node = []).

Lemma fresh_pid : x ∉ ord.
Proof using Hok Hx. intros Hin%(to_keys _ _ _ Hok). rewrite Hx in Hin. by destruct Hin. Qed.

Lemma all_children_insert l : x ∉ l -> all_children (<[x := node]> ps) l = all_children ps l.
Proof. intros Hl. apply all_children_ext. intros p Hp. rewrite children_insert, decide_False; [done|by intros ->]. Qed.

Lemma ord_snoc i p : (ord ++ [x]) !! i = Some p -> ord !! i = Some p \/ i = length ord /\ p = x.
Proof. intros [H|[H1 H2]]%lookup_app_Some; [by left|right]. apply list_lookup_singleton_Some in H2 as [H3 ->]. split; [lia|done]. Qed.

(** As a root. *)
Lemma add_root : tree_ok (<[x := node]> ps) (roots ++ [x]) (ord ++ [x]).
Proof using All.
  destruct Hok as [Hnd Hk Hp He Hl]. pose proof fresh_pid as Hf. split.
  - apply NoDup_app. split_and!; [done|set_solver|apply NoDup_singleton].
  - intros p. rewrite elem_of_app, list_elem_of_singleton, Hk, lookup_insert_is_Some. destruct (decide (x = p)); naive_solver.
  - intros p n. rewrite lookup_insert_Some. intros [[<- <-]|[_ Hn]]; [done|by apply Hp].
  - rewrite all_children_app, (all_children_insert ord Hf). unfold all_children at 2. cbn [fmap list_fmap mjoin list_join].
    rewrite children_insert, decide_True, Hleaf, !app_nil_r, <- app_assoc, (Permutation_app_comm [x]), app_assoc by done. by rewrite He.
  - intros i j p c Hi Hj. rewrite children_insert. case_decide as Hd; [by rewrite Hleaf; intros ?%elem_of_nil|].
    intros Hc. apply ord_snoc in Hi as [Hi|[_ ->]]; [|done]. apply ord_snoc in Hj as [Hj|[-> ->]].
    + by apply (Hl i j p c).
    + by eapply lookup_lt_Some.
Qed.

(** Under a process that is there. *)
Lemma add_under q : q ∈ ord -> tree_ok (alter (add_child x) q (<[x := node]> ps)) roots (ord ++ [x]).
Proof using All.
  intros Hq. destruct Hok as [Hnd Hk Hp He Hl]. pose proof fresh_pid as Hf.
  assert (x <> q) as Hne by (by intros ->).
  assert (is_Some (<[x := node]> ps !! q)) as Hs by (rewrite lookup_insert_ne by done; by apply Hk). split.
  - apply NoDup_app. split_and!; [done|set_solver|apply NoDup_singleton].
  - intros p. rewrite lookup_alter_is_Some, elem_of_app, list_elem_of_singleton, Hk, lookup_insert_is_Some. destruct (decide (x = p)); naive_solver.
  - intros p n. rewrite lookup_alter_Some. intros [(<- & m & Hm & ->)|[_ Hn]].
    + cbn [add_child tn_pid]. rewrite lookup_insert_ne in Hm by done. by apply Hp.
    + revert Hn. rewrite lookup_insert_Some. intros [[<- <-]|[_ Hn]]; [done|by apply Hp].
  - rewrite (all_children_alter _ q x) by (first [done|apply elem_of_app; by left|apply NoDup_app; split_and!; [done|set_solver|apply NoDup_singleton]]).
    rewrite all_children_app, (all_children_insert ord Hf). unfold all_children at 2. cbn [fmap list_fmap mjoin list_join].
    rewrite children_insert, decide_True, Hleaf, !app_nil_r, app_assoc by done. by rewrite He.
  - intros i j p c Hi Hj. rewrite children_alter by done. intros Hc.
    assert (c ∈ children_of (<[x := node]> ps) p \/ c = x /\ p = q) as [Hc'|[-> ->]].
    { case_decide as Hd; [subst p|by left]. apply elem_of_app in Hc as [Hc|Hc]; [by left|right]. by apply list_elem_of_singleton in Hc. }
    + rewrite children_insert in Hc'. case_decide as Hd; [by rewrite Hleaf in Hc'; apply elem_of_nil in Hc'|].
      apply ord_snoc in Hi as [Hi|[_ ->]]; [|done]. apply ord_snoc in Hj as [Hj|[-> ->]]; [by apply (Hl i j p c)|by eapply lookup_lt_Some].
    + apply ord_snoc in Hi as [Hi|[_ ->]]; [|done]. apply lookup_lt_Some in Hi.
      apply ord_snoc in Hj as [Hj|[-> _]]; [|done]. by apply list_elem_of_lookup_2 in Hj.
Qed.

End Add.

(** ** Drawing *)

(** The processes of the lines drawn. *)
Definition pids (ls : list tree_line) : list Z := (fun l => tn_pid (tl_node l)) <$> ls.

Lemma pids_app l k : pids (l ++ k) = pids l ++ pids k.
Proof. apply fmap_app. Qed.

Section Draw.
Context (model : TelemetryModel) (ord : list Z) (Hok : tree_ok (processes model) (root_pids model) ord).
#[local] Abbreviation ps := (processes model).

(** A drawing of the processes [cs] and all their descendants. *)
Definition draws (cs : list Z) (ls : list tree_line) : Prop :=
  pids ls ≡ₚ cs ++ all_children ps (pids ls) /\ forall x, x ∈ pids ls -> x ∈ ord.

Lemma draws_app cs ls cs' ls' : draws cs ls -> draws cs' ls' -> draws (cs ++ cs') (ls ++ ls').
Proof.
  intros [H1 H2] [H1' H2']. split.
  - rewrite pids_app, all_children_app. rewrite H1 at 1. rewrite H1' at 1. rewrite <- !app_assoc. f_equiv.
    rewrite !app_assoc. f_equiv. apply Permutation_app_comm.
  - intros x. rewrite pids_app, elem_of_app. naive_solver.
Qed.

(** The loop over a list of processes. *)
Lemma draw_list fuel prefix cs out :
  (forall c prefix last, c ∈ cs -> exists ls, draw_process_node fuel model c prefix last = Some ls /\ draws [c] ls) ->
  exists ls, mfold (fun c out => sub ← draw_process_node fuel model c.1 prefix c.2; Some (out ++ sub)) (with_last cs) out =
    Some (out ++ ls) /\ draws cs ls.
Proof.
  revert out. induction cs as [|c cs IH]; intros out Hc; cbn [with_last mfold].
  - exists []. rewrite app_nil_r. split; [done|]. split; [done|]. intros x Hx. by apply elem_of_nil in Hx.
  - destruct (Hc c prefix (match cs with [] => true | _ => false end)) as (ls & E & Hd); [by left|].
    cbn [fst snd]. rewrite E, !bind_Some. destruct (IH (out ++ ls)) as (ls' & E' & Hd'); [intros; apply Hc; by right|].
    rewrite E'. exists (ls ++ ls'). rewrite <- app_assoc. split; [done|]. change (c :: cs) with ([c] ++ cs). by apply draws_app.
Qed.

Lemma draw_known fuel i pid prefix last :
  ord !! i = Some pid -> (length ord - i <= fuel)%nat ->
  exists ls, draw_process_node fuel model pid prefix last = Some ls /\ draws [pid] ls.
Proof using Hok.
  revert i pid prefix last. induction fuel as [|fuel IH]; intros i pid prefix last Hi Hf.
  { apply lookup_lt_Some in Hi. lia. }
  cbn [draw_process_node]. pose proof (list_elem_of_lookup_2 _ _ _ Hi) as Hin.
  destruct (proj1 (to_keys _ _ _ Hok pid) Hin) as [node Hn]. rewrite Hn.
  destruct (draw_list fuel (prefix +:+ (if last then "    " else "│   ")) (tn_children node) [mkLine prefix last node])
    as (ls & E & Hd & Hin').
  - intros c prefix' last' Hc. assert (c ∈ children_of ps pid) as Hc' by (unfold children_of; by rewrite Hn).
    pose proof (child_known _ _ _ Hok pid c Hin Hc') as Hco. apply list_elem_of_lookup in Hco as [j Hj].
    pose proof (to_later _ _ _ Hok i j pid c Hi Hj Hc'). apply (IH j); [done|lia].
  - exists ([mkLine prefix last node] ++ ls). split; [exact E|]. split.
    + rewrite pids_app, all_children_app. unfold pids at 1 3. cbn [fmap list_fmap tl_node].
      rewrite (to_pid _ _ _ Hok pid node Hn). unfold all_children at 1. cbn [fmap list_fmap mjoin list_join]. rewrite app_nil_r.
      unfold children_of at 1. rewrite Hn. cbn [app]. f_equiv. exact Hd.
    + intros x. rewrite pids_app. intros [Hx|Hx]%elem_of_app; [|by apply Hin']. unfold pids in Hx. cbn [fmap list_fmap tl_node] in Hx.
      apply list_elem_of_singleton in Hx as ->. by rewrite (to_pid _ _ _ Hok pid node Hn).
Qed.

Lemma ord_size : ord ≡ₚ (map_to_list ps).*1.
Proof using Hok.
  apply NoDup_Permutation; [apply Hok|apply NoDup_fst_map_to_list|]. intros p. rewrite (to_keys _ _ _ Hok), list_elem_of_fmap.
  split.
  - intros [n Hn]. exists (p, n). split; [done|]. by apply elem_of_map_to_list.
  - intros ([q n] & -> & Hq). apply elem_of_map_to_list in Hq. by exists n.
Qed.

Lemma draw_roots_all : exists ls, draw_roots model = Some ls /\ pids ls ≡ₚ (map_to_list ps).*1.
Proof using Hok.
  assert (length ord = size ps) as Hs by (rewrite ord_size, length_fmap; apply length_map_to_list).
  destruct (draw_list (S (size ps)) "  " (root_pids model) []) as (ls & E & Hd & Hin).
  - intros c prefix last Hc. pose proof (root_known _ _ _ Hok c Hc) as Hco. apply list_elem_of_lookup in Hco as [j Hj].
    apply (draw_known _ j); [done|lia].
  - exists ls. split; [exact E|]. rewrite <- ord_size. by apply (closed_all _ _ _ Hok).
Qed.

End Draw.

(** ** Events *)

Definition mon_execs (events : list MonitorEvent) : list Z :=
  mon_pid <$> List.filter (fun ev => mon_event_type ev =? EVENT_EXEC) events.

(** An exec event whose process is not its own parent. *)
Definition parent_apart (ev : MonitorEvent) : Prop :=
  mon_event_type ev = EVENT_EXEC -> mon_ppid ev <> 0 -> mon_pid ev <> mon_ppid ev.

Record model_ok (seen : list Z) (m : TelemetryModel) : Prop := {
  mo_tree : exists ord, tree_ok (processes m) (root_pids m) ord /\ forall p, p ∈ ord <-> p ∈ seen;
  mo_logs : (length (logs m) <= 12)%nat
}.

Lemma push_log_bound ev l : (length l <= 12)%nat -> (length (push_log ev l) <= 12)%nat.
Proof.
  intros Hl. unfold push_log. destruct (Nat.ltb_spec 12 (length (l ++ [ev]))); [rewrite length_drop|]; rewrite length_app in *; cbn in *; lia.
Qed.

Lemma add_process_ok ev comm arg ps roots ord seen :
  (mon_ppid ev <> 0 -> mon_pid ev <> mon_ppid ev) -> tree_ok ps roots ord -> (forall p, p ∈ ord <-> p ∈ seen) ->
  exists ord', tree_ok (add_process ev comm arg (ps, roots)).1 (add_process ev comm arg (ps, roots)).2 ord' /\
    forall p, p ∈ ord' <-> p ∈ seen ++ [mon_pid ev].
Proof.
  intros Hne Hok Hs. unfold add_process. destruct (ps !! mon_pid ev) as [n|] eqn:Hx.
  - exists ord. split; [done|]. intros p. rewrite elem_of_app, list_elem_of_singleton, Hs. split; [by left|intros [| ->]; [done|]].
    apply Hs, (to_keys _ _ _ Hok). by exists n.
  - exists (ord ++ [mon_pid ev]). split; [|intros p; by rewrite !elem_of_app, Hs].
    destruct (negb (mon_ppid ev =? 0) && _) eqn:E; cbn [fst snd].
    + apply andb_prop in E as [H0%negb_true_iff%Z.eqb_neq Hq%bool_decide_eq_true].
      rewrite lookup_insert_ne in Hq by (by apply Hne). apply add_under; try done. by apply (to_keys _ _ _ Hok).
    + by apply add_root.
Qed.

Lemma add_event_ok ev m m' seen :
  parent_apart ev -> model_ok seen m -> add_event ev m = Some m' -> model_ok (seen ++ mon_execs [ev]) m'.
Proof.
  intros Hne [(ord & Hok & Hs) Hl]. unfold add_event, mon_execs. cbn [List.filter].
  destruct (Z.eqb_spec (mon_event_type ev) EVENT_VM_STATE_CHANGE) as [E|_].
  - destruct (c_string (mon_arg_str ev)) as [desc|]; [|done]. rewrite bind_Some, E. intros [= <-].
    cbn [Z.eqb fmap list_fmap]. rewrite app_nil_r. split; [by exists ord|done].
  - destruct (mon_event_type ev =? EVENT_EXEC) eqn:E; cbn [fmap list_fmap].
    + destruct (c_string (mon_comm ev)) as [comm|]; [|done]. destruct (c_string (mon_arg_str ev)) as [arg|]; [|done].
      rewrite !bind_Some. destruct (add_process_ok ev comm arg _ _ ord seen (Hne (proj1 (Z.eqb_eq _ _) E)) Hok Hs) as (ord' & Hok' & Hs').
      destruct (add_process ev comm arg (processes m, root_pids m)) as [ps roots]. intros [= <-].
      split; [by exists ord'|]. by apply push_log_bound.
    + rewrite bind_Some, app_nil_r. intros [= <-]. split; [by exists ord|]. by apply push_log_bound.
Qed.

(** ** Properties *)

(** C21: the monitor's tree.  Whatever events the monitor has received, announcements of the
    virtual machine's state included (no exec whose
    process is its own parent; strings terminated), drawing the tree ends, and draws exactly the processes
    that exec'd, each of them once; the log has at most twelve entries. *)
Theorem monitor_draws_all events m :
  Forall parent_apart events -> mfold add_event events TelemetryModel_new = Some m ->
  (exists ls, draw_roots m = Some ls /\ NoDup (pids ls) /\ forall p, p ∈ pids ls <-> p ∈ mon_execs events) /\
  (length (logs m) <= 12)%nat.
Proof.
  intros Hne Hm. assert (model_ok (mon_execs events) m) as [(ord & Hok & Hs) Hl].
  { revert m Hm. induction events as [|ev events IH] using rev_ind; intros m Hm.
    - injection Hm as <-. split; [|cbn; lia]. exists []. split; [|done].
      split; [constructor| |done|done|done]. intros p. cbn [processes TelemetryModel_new]. rewrite lookup_empty.
      split; [by intros ?%elem_of_nil|by intros []].
    - apply Forall_app in Hne as [Hne1 [Hne2 _]%Forall_cons]. rewrite mfold_app in Hm.
      destruct (mfold add_event events TelemetryModel_new) as [m1|] eqn:E; [|done]. rewrite bind_Some in Hm. cbn [mfold] in Hm.
      destruct (add_event ev m1) as [m2|] eqn:E2; [|done]. rewrite bind_Some in Hm. injection Hm as <-.
      unfold mon_execs. rewrite List.filter_app, fmap_app. apply (add_event_ok ev m1 m2); [done|by apply IH|done]. }
  split; [|done]. destruct (draw_roots_all m ord Hok) as (ls & E & Hp). exists ls. split_and!; [done| |].
  - rewrite Hp, <- (ord_size m ord Hok). apply Hok.
  - intros p. rewrite Hp, <- (ord_size m ord Hok). apply Hs.
Qed.

Definition demo_mon (kind pid ppid : Z) : MonitorEvent :=
  mkMon 0 pid ppid kind (replicate 32 0) (replicate 256 0) 0 0 0 0 0 1.

Definition demo_events : list MonitorEvent :=
  [demo_mon EVENT_VM_STATE_CHANGE 0 0; demo_mon EVENT_EXEC 10 5; demo_mon EVENT_EXEC 11 10; demo_mon EVENT_OPEN 11 10; demo_mon EVENT_EXEC 12 10;
   demo_mon EVENT_EXEC 11 5; demo_mon EVENT_EXEC 7 0; demo_mon EVENT_VM_STATE_CHANGE 0 0].

Lemma monitor_draws_all_witness :
  exists m, mfold add_event demo_events TelemetryModel_new = Some m /\
    (exists ls, draw_roots m = Some ls /\ NoDup (pids ls) /\ forall p, p ∈ pids ls <-> p ∈ [10; 11; 12; 11; 7]) /\
    (length (logs m) <= 12)%nat.
Proof.
  destruct (mfold add_event demo_events TelemetryModel_new) as [m|] eqn:E; [|exfalso; revert E; by vm_compute].
  exists m. split; [done|]. change [10; 11; 12; 11; 7] with (mon_execs demo_events).
  apply monitor_draws_all; [|done]. by repeat constructor.
Defined.

(** A process that is its own parent is not drawn. *)
Lemma self_parent_hidden :
  exists m, mfold add_event [demo_mon EVENT_EXEC 10 10] TelemetryModel_new = Some m /\
    draw_roots m = Some [] /\ is_Some (processes m !! 10).
Proof. eexists. split; [by vm_compute|]. split; [by vm_compute|]. vm_compute. by eexists. Qed.
