(* ===== verification/Collector.v ===== *)
(** * The host daemon
      (src/host/main.cpp, the controller of src/host/vm_controller.mm)

    The reader thread hands every event to [SyscallBatchCollector::add_event];
    a worker thread evaluates batches of 64 records; a violation stops the
    virtual machine, either at once, on a detached thread, or from the worker.
    A state [daemon] holds what the threads share, and where each of them
    is; [daemon_step] is one step of one of them, between two points where
    another can interfere.  The worker's [cv_.wait] is split where the destructor, which
    does not take the mutex, can come in between.

    [VMController::stop] takes no lock: the detached threads, the worker and the main
    thread can all be in it, each where its [stop_state] says, and [stop_step] is one step of one
    of them.  Joining a thread that another caller joins or has joined, and
    starting a reader while the last one has not been joined, ends the program
    ([std::terminate], or worse): [T_undefined], after which there is no step.
    The virtualization framework's part of [start] is the step
    [vm_booted], taken at most once, its part of [stop] belongs to the last step of
    [stop_step].  The reader may stop at the end of its stream, whether or not [stop_reader] is
    set.  Spurious wakeups of the worker and console output are left out, and so
    is what a detached thread does with the objects the main thread has destroyed. *)

From S2P Require Import Prelude Planes BitSlicer IR Registry A64 KernelCall Rows Columns Engine Vsock Policy Monitor.

(** ** What the monitor is told *)

(** The characters before the terminator. *)
Fixpoint until_zero (bytes : list Z) : list Z :=
  match bytes with
  | [] => []
  | b :: bytes => if b =? 0 then [] else b :: until_zero bytes
  end.

(** [std::strncpy(dst, src, n)] *)
Definition strncpy_array (n : nat) (src : list Z) : list Z :=
  let s := take n (until_zero src) in s ++ replicate (n - length s) 0.

Definition uint8 (x : Z) : Z := x mod 256.

Definition monitor_event (event : SyscallEvent) (is_preinstall is_sensitive is_unauthorized : Z) (vm_running : bool) : MonitorEvent :=
  mkMon (ev_timestamp_ns event) (ev_pid event) (ev_ppid event) (ev_event_type event)
    (strncpy_array 32 (ev_comm event)) (strncpy_array 256 (ev_arg_str event)) (ev_ip_address event) (ev_port event)
    (uint8 is_preinstall) (uint8 is_sensitive) (uint8 is_unauthorized) (Z.b2z vm_running).

Definition stop_event (why : string) : MonitorEvent :=
  mkMon 0 0 0 EVENT_VM_STATE_CHANGE (chars 32 "system") (chars 256 why) 0 0 0 0 0 0.

Definition kill_switch_event : MonitorEvent := stop_event "Virtual Machine Terminated (Security Kill Switch)".

(** ** State *)

Inductive reader_state :=
  | R_idle                                                    (* in [read], or between two events *)
  | R_classified (event : SyscallEvent) (record : SyscallTraceRecord)
  | R_report (event : SyscallEvent) (record : SyscallTraceRecord)   (* kill: publish the violation *)
  | R_announce                                                (* kill: publish the stop *)
  | R_spawn                                                   (* kill: start the detached thread *)
  | R_publish (event : SyscallEvent) (record : SyscallTraceRecord)
  | R_push (record : SyscallTraceRecord)
  | R_exited.

(** A caller of [VMController::stop]. *)
Inductive stop_state :=
  | S_check                                (* about to test [running] *)
  | S_joinable                             (* about to ask whether the reader is joinable *)
  | S_join                                 (* it is: about to join it *)
  | S_joining                              (* in [join] *)
  | S_halt.                                (* about to have the framework stop the machine *)

(** [reader_thread] *)
Inductive thread_handle := T_none | T_joinable | T_joining | T_joined | T_undefined.

Inductive worker_state :=
  | W_check                                (* about to lock and test the predicate *)
  | W_block                                (* predicate false, lock held, about to block *)
  | W_blocked                              (* in [cv_.wait] *)
  | W_batch (records : list SyscallTraceRecord)
  | W_announce
  | W_stop (s : stop_state)
  | W_shutdown
  | W_killed                               (* left the loop after a violation *)
  | W_exited.

(** A detached thread. *)
Inductive killer_state := K_stop (s : stop_state) | K_shutdown | K_done.

(** The main thread from its wait to the end: [vm_controller.stop()], the collector's
    destructor, the controller's destructor, which stops the machine again. *)
Inductive destructor_state :=
  | D_none                                 (* [main] waits for the shutdown *)
  | D_stop (s : stop_state)
  | D_stopped
  | D_notify
  | D_join
  | D_close (s : stop_state)
  | D_done.

Record daemon := mkDaemon {
  pe_ : PolicyEngine;
  booting : bool;                          (* the completion handler of [start] has not run *)
  running : bool;
  thread_ : thread_handle;
  monitor_ : list MonitorEvent;            (* what [monitor_cb_] was called with *)
  pending_records_ : list SyscallTraceRecord;
  stop_ : bool;
  g_shutdown : bool;
  reader : reader_state;
  worker : worker_state;
  killers : list killer_state;
  destructor : destructor_state;
  classified : list SyscallTraceRecord     (* every record made so far *)
}.

Definition set_reader (r : reader_state) (d : daemon) : daemon :=
  mkDaemon (pe_ d) (booting d) (running d) (thread_ d) (monitor_ d) (pending_records_ d) (stop_ d) (g_shutdown d) r (worker d)
    (killers d) (destructor d) (classified d).

Definition set_worker (w : worker_state) (d : daemon) : daemon :=
  mkDaemon (pe_ d) (booting d) (running d) (thread_ d) (monitor_ d) (pending_records_ d) (stop_ d) (g_shutdown d) (reader d) w
    (killers d) (destructor d) (classified d).

Definition set_killers (k : list killer_state) (d : daemon) : daemon :=
  mkDaemon (pe_ d) (booting d) (running d) (thread_ d) (monitor_ d) (pending_records_ d) (stop_ d) (g_shutdown d) (reader d) (worker d)
    k (destructor d) (classified d).

Definition set_pe (pe : PolicyEngine) (d : daemon) : daemon :=
  mkDaemon pe (booting d) (running d) (thread_ d) (monitor_ d) (pending_records_ d) (stop_ d) (g_shutdown d) (reader d) (worker d)
    (killers d) (destructor d) (classified d).

Definition set_pending (l : list SyscallTraceRecord) (d : daemon) : daemon :=
  mkDaemon (pe_ d) (booting d) (running d) (thread_ d) (monitor_ d) l (stop_ d) (g_shutdown d) (reader d) (worker d)
    (killers d) (destructor d) (classified d).

Definition set_destructor (stop : bool) (x : destructor_state) (d : daemon) : daemon :=
  mkDaemon (pe_ d) (booting d) (running d) (thread_ d) (monitor_ d) (pending_records_ d) stop (g_shutdown d) (reader d) (worker d)
    (killers d) x (classified d).

(** [monitor_cb_(ev)] *)
Definition publish (ev : MonitorEvent) (d : daemon) : daemon :=
  mkDaemon (pe_ d) (booting d) (running d) (thread_ d) (monitor_ d ++ [ev]) (pending_records_ d) (stop_ d) (g_shutdown d) (reader d) (worker d)
    (killers d) (destructor d) (classified d).

(** [g_shutdown = true] *)
Definition request_shutdown (d : daemon) : daemon :=
  mkDaemon (pe_ d) (booting d) (running d) (thread_ d) (monitor_ d) (pending_records_ d) (stop_ d) true (reader d) (worker d)
    (killers d) (destructor d) (classified d).

(** ** The virtual machine *)

(** The completion handler of [startWithCompletionHandler] (without an error), or mock mode. *)
Definition vm_booted (d : daemon) : option daemon :=
  if booting d then
    Some (mkDaemon (pe_ d) false true (thread_ d) (monitor_ d) (pending_records_ d) (stop_ d) (g_shutdown d) (reader d) (worker d)
            (killers d) (destructor d) (classified d))
  else None.

Definition set_running (b : bool) (d : daemon) : daemon :=
  mkDaemon (pe_ d) (booting d) b (thread_ d) (monitor_ d) (pending_records_ d) (stop_ d) (g_shutdown d) (reader d) (worker d)
    (killers d) (destructor d) (classified d).

Definition set_thread (t : thread_handle) (d : daemon) : daemon :=
  mkDaemon (pe_ d) (booting d) (running d) t (monitor_ d) (pending_records_ d) (stop_ d) (g_shutdown d) (reader d) (worker d)
    (killers d) (destructor d) (classified d).

(** [start_reader], on a connection from the guest: the listener is there until the machine
    has stopped. *)
Definition connect (d : daemon) : option daemon :=
  if booting d || running d then
    match thread_ d with
    | T_none | T_joined =>
        match reader d with R_exited => Some (set_reader R_idle (set_thread T_joinable d)) | _ => None end
    | T_joinable | T_joining => Some (set_thread T_undefined d)
    | T_undefined => None
    end
  else None.

(** One step of a caller of [VMController::stop]: where it is afterwards ([None]: it has
    returned); [None] while the reader has to be waited for. *)
Definition stop_step (s : stop_state) (d : daemon) : option (option stop_state * daemon) :=
  match s with
  | S_check => Some (if running d then Some S_joinable else None, d)
  | S_joinable => Some (Some (match thread_ d with T_none | T_joined => S_halt | _ => S_join end), d)
  | S_join => Some (Some S_joining, set_thread (match thread_ d with T_joinable => T_joining | _ => T_undefined end) d)
  | S_joining => match reader d with R_exited => Some (Some S_halt, set_thread T_joined d) | _ => None end
  | S_halt => Some (None, set_running false d)
  end.

(** ** The reader: [add_event] *)

Definition is_violation (record : SyscallTraceRecord) : bool :=
  (rec_is_preinstall record =? 1) &&
  ((rec_is_sensitive record =? 1) && (rec_event_type record =? EVENT_OPEN) ||
   (rec_is_unauthorized record =? 1) && (rec_event_type record =? EVENT_CONNECT)).

Definition classify (event : SyscallEvent) (d : daemon) : option daemon :=
  match reader d with
  | R_idle =>
      '(record, pe) ← process_event event (pe_ d);
      Some (mkDaemon pe (booting d) (running d) (thread_ d) (monitor_ d) (pending_records_ d) (stop_ d) (g_shutdown d)
              (R_classified event record) (worker d) (killers d) (destructor d) (classified d ++ [record]))
  | _ => None
  end.

Definition reader_lock_free (d : daemon) : bool := match worker d with W_block => false | _ => true end.

(** [notify_one], [notify_all]: the worker is the only one to wait. *)
Definition notify (d : daemon) : daemon :=
  match worker d with W_blocked => set_worker W_check d | _ => d end.

(** The next step of [add_event] once the event is classified. *)
Definition reader_step (d : daemon) : option daemon :=
  match reader d with
  | R_classified event record =>
      Some (set_reader (if is_violation record && running d then R_report event record else R_publish event record) d)
  | R_report event record =>
      Some (set_reader R_announce (publish (monitor_event event 1 (rec_is_sensitive record) (rec_is_unauthorized record) true) d))
  | R_announce => Some (set_reader R_spawn (publish kill_switch_event d))
  | R_spawn => Some (set_reader R_idle (set_killers (killers d ++ [K_stop S_check]) d))
  | R_publish event record =>
      Some (set_reader (R_push record)
        (publish (monitor_event event (rec_is_preinstall record) (rec_is_sensitive record) (rec_is_unauthorized record) (running d)) d))
  | R_push record =>
      if reader_lock_free d then
        let d := set_reader R_idle (set_pending (pending_records_ d ++ [record]) d) in
        Some (if (64 <=? length (pending_records_ d))%nat then notify d else d)
      else None
  | _ => None
  end.

(** The detached thread. *)
Definition killer_step (i : nat) (d : daemon) : option daemon :=
  match killers d !! i with
  | Some (K_stop s) =>
      '(s, d) ← stop_step s d;
      Some (set_killers (<[i := match s with Some s => K_stop s | None => K_shutdown end]> (killers d)) d)
  | Some K_shutdown => Some (set_killers (<[i := K_done]> (killers d)) (request_shutdown d))
  | _ => None
  end.

(** ** The worker: [process_queue] *)

Section Worker.
Context {T : HwyTarget} {H : Host}.

Definition worker_step (d : daemon) : option daemon :=
  match worker d with
  | W_check =>
      if stop_ d then Some (set_worker W_exited d)
      else if (64 <=? length (pending_records_ d))%nat then
        Some (set_worker (W_batch (take 64 (pending_records_ d))) (set_pending (drop 64 (pending_records_ d)) d))
      else Some (set_worker W_block d)
  | W_block => Some (set_worker W_blocked d)
  | W_batch records =>
      '(violations, pe) ← evaluate_batch records 64 (pe_ d);
      Some (set_worker (if 0 <? violations then W_announce else W_check) (set_pe pe d))
  | W_announce => Some (set_worker (W_stop S_check) (publish kill_switch_event d))
  | W_stop s => '(s, d) ← stop_step s d; Some (set_worker (match s with Some s => W_stop s | None => W_shutdown end) d)
  | W_shutdown => Some (set_worker W_killed (request_shutdown d))
  | _ => None
  end.

(** ** The main thread *)

(** The collector's destructor. *)
Definition destroy (d : daemon) : option daemon :=
  match destructor d with
  | D_stopped => Some (set_destructor true D_notify d)
  | D_notify => Some (set_destructor (stop_ d) D_join (notify d))
  | D_join =>
      match worker d with
      | W_exited | W_killed => Some (set_destructor (stop_ d) (D_close S_check) d)
      | _ => None
      end
  | _ => None
  end.

(** The rest of [main] behind its wait, and the controller's destructor. *)
Definition main_step (d : daemon) : option daemon :=
  match destructor d with
  | D_none => Some (set_destructor (stop_ d) (D_stop S_check) d)
  | D_stop s => '(s, d) ← stop_step s d; Some (set_destructor (stop_ d) (match s with Some s => D_stop s | None => D_stopped end) d)
  | D_close s => '(s, d) ← stop_step s d; Some (set_destructor (stop_ d) (match s with Some s => D_close s | None => D_done end) d)
  | _ => None
  end.

(** ** Steps *)

Inductive thread_step : daemon -> daemon -> Prop :=
  | step_boot d d' : vm_booted d = Some d' -> thread_step d d'
  | step_connect d d' : connect d = Some d' -> thread_step d d'
  | step_classify event d d' : event_ok event -> classify event d = Some d' -> thread_step d d'   (* an event off the wire *)
  | step_reader d d' : reader_step d = Some d' -> thread_step d d'
  | step_closed d : reader d = R_idle -> thread_step d (set_reader R_exited d)        (* end of the stream *)
  | step_killer i d d' : killer_step i d = Some d' -> thread_step d d'
  | step_worker d d' : worker_step d = Some d' -> thread_step d d'
  | step_main d d' : main_step d = Some d' -> thread_step d d'
  | step_destroy d d' : destroy d = Some d' -> thread_step d d'.

(** The program has neither ended nor come to grief. *)
Definition alive (d : daemon) : bool :=
  match thread_ d, destructor d with T_undefined, _ | _, D_done => false | _, _ => true end.

Definition daemon_step (d d' : daemon) : Prop := alive d = true /\ thread_step d d'.

End Worker.

Definition daemon_new (pe : PolicyEngine) : daemon :=
  mkDaemon pe true false T_none [] [] false false R_exited W_check [] D_none [].

(** ** The command line *)

Record daemon_options := mkOptions { kernel_path : string; initrd_path : string; share_path : string }.

Definition default_options : daemon_options := mkOptions "mock" "" ".".

(** The arguments behind the program's name; [None]: the help was asked for, and
    the program ends.  Unknown arguments are skipped, and an option without its value is unknown. *)
Fixpoint parse_args (args : list string) (o : daemon_options) : option daemon_options :=
  match args with
  | [] => Some o
  | arg :: rest =>
      let other := if bool_decide (arg = "--help") || bool_decide (arg = "-h") then None else parse_args rest o in
      match rest with
      | [] => other
      | value :: rest' =>
          if bool_decide (arg = "--kernel") then parse_args rest' (mkOptions value (initrd_path o) (share_path o))
          else if bool_decide (arg = "--initrd") then parse_args rest' (mkOptions (kernel_path o) value (share_path o))
          else if bool_decide (arg = "--share") then parse_args rest' (mkOptions (kernel_path o) (initrd_path o) value)
          else other
      end
  end.

Definition boot_event : MonitorEvent :=
  mkMon 0 0 0 EVENT_VM_STATE_CHANGE (chars 32 "system") (chars 256 "Virtual Machine Started") 0 0 0 0 0 1.

Definition graceful_stop_event : MonitorEvent := stop_event "Virtual Machine Terminated (Graceful Shutdown)".

(** One round of the simulated guest of mock mode: the events for the next process. *)
Definition mock_round (mock_pid : Z) : Z * list SyscallEvent :=
  let mock_pid := wrap64 (mock_pid + 1) in
  (mock_pid,
   [mkEvent 123456789 mock_pid 1000 EVENT_EXEC (chars 32 "node") (chars 256 "benign_script.js") 0 0 [0; 0];
    mkEvent 0 mock_pid 1000 EVENT_OPEN (chars 32 "node") (chars 256 "/workspace/node_modules/benign/index.js") 0 0 [0; 0]]).
