(* ===== verification/CollectorProps.v ===== *)
(** * The kill switch

    However the daemon's threads are interleaved, no violating record is
    lost, nothing but a violation stops the machine, and the machine has
    stopped when the detached thread is done.  The destructor, however, can
    miss the worker. *)

From S2P Require Import Prelude Planes BitSlicer IR Registry A64 KernelCall Rows Columns RunnerCorrect Engine EngineDemo.
From S2P Require Import Vsock Policy PolicyProps Monitor Collector.

(** ** Where a violation can be *)

Lemma is_violation_violates r : is_violation r = violates r.
Proof.
  unfold is_violation, violates.
  by rewrite (andb_comm (rec_is_sensitive r =? 1)), (andb_comm (rec_is_unauthorized r =? 1)).
Qed.

Definition held (r : reader_state) : list SyscallTraceRecord :=
  match r with R_classified _ record | R_publish _ record | R_push record => [record] | _ => [] end.

Definition batch (w : worker_state) : list SyscallTraceRecord := match w with W_batch records => records | _ => [] end.

(** Records not evaluated yet. *)
Definition unevaluated (d : daemon) : list SyscallTraceRecord := held (reader d) ++ pending_records_ d ++ batch (worker d).

(** The fast path has been taken. *)
Definition killing (d : daemon) : Prop :=
  killers d <> [] \/ match reader d with R_report _ _ | R_announce | R_spawn => True | _ => False end.

(** The worker has found a violation. *)
Definition alerted (w : worker_state) : Prop :=
  match w with W_announce | W_stop _ | W_shutdown | W_killed => True | _ => False end.

Lemma process_event_record ev pe r pe' : event_ok ev -> process_event ev pe = Some (r, pe') -> record_ok r.
Proof.
  intros Hok. unfold process_event. destruct (c_string (ev_comm ev)); [|done]. destruct (c_string (ev_arg_str ev)); [|done].
  rewrite !bind_Some. destruct (track_process _ ev (process_tree_ pe)) as [tree b]. intros [= <- _].
  destruct (eo_words _ Hok) as (_ & Hp & Hpp & Ht). split; [|done].
  unfold record_words. cbn [rec_pid rec_ppid rec_event_type rec_is_preinstall rec_is_sensitive rec_is_unauthorized rec_padding app].
  repeat (constructor; [first [assumption|apply u64_b2z|apply u64_0]|]). constructor.
Qed.

Lemma count_positive records : 0 < count_violations records <-> exists r, r ∈ records /\ violates r = true.
Proof.
  unfold count_violations. split.
  - intros Hp. destruct (List.filter violates records) as [|r l] eqn:E; [cbn in Hp; lia|].
    exists r. rewrite list_elem_of_In. apply filter_In. rewrite E. by left.
  - intros (r & Hr & Hv). rewrite list_elem_of_In in Hr. pose proof (proj2 (filter_In violates r records) (conj Hr Hv)) as Hin.
    destruct (List.filter violates records); [done|]. cbn. lia.
Qed.

Lemma elem_of_insert_inv {A} (l : list A) i x y : x ∈ <[i := y]> l -> x = y \/ x ∈ l.
Proof.
  intros (j & Hj)%list_elem_of_lookup. apply list_lookup_insert_Some in Hj as [(_ & -> & _)|[_ Hj]]; [by left|].
  right. by eapply list_elem_of_lookup_2.
Qed.

(** ** The invariant

    All that matters of the policy engine: events keep it ready, and a ready
    engine counts the violations of a batch. *)
Section Daemon.
Context {T : HwyTarget} {H : Host}.
Context (ready : PolicyEngine -> Prop).
Context (Hevent : forall ev pe r pe', ready pe -> process_event ev pe = Some (r, pe') -> ready pe').
Context (Heval : forall pe l, ready pe -> Forall record_ok l -> length l = 64%nat ->
  exists pe', evaluate_batch l 64 pe = Some (count_violations l, pe') /\ ready pe').

Record dinv (d : daemon) : Prop := {
  di_pe : ready (pe_ d);
  di_ok : Forall record_ok (unevaluated d);
  di_batch : match worker d with W_batch l => length l = 64%nat | _ => True end;
  di_from : forall r, r ∈ unevaluated d -> r ∈ classified d;
  di_lost : forall r, r ∈ classified d -> violates r = true -> killing d \/ alerted (worker d) \/ r ∈ unevaluated d;
  di_cause : killing d \/ alerted (worker d) -> exists r, r ∈ classified d /\ violates r = true;
  di_booted : running d = true \/ killing d -> booting d = false;
  di_stopped : K_shutdown ∈ killers d \/ K_done ∈ killers d -> running d = false;
  di_down : K_done ∈ killers d \/ worker d = W_killed -> g_shutdown d = true
}.

(** A step that keeps the records, the threads' progress and the machine. *)
Lemma dinv_keep d d' :
  dinv d -> ready (pe_ d') -> (forall r, r ∈ unevaluated d' <-> r ∈ unevaluated d) ->
  match worker d' with W_batch l => length l = 64%nat | _ => True end ->
  classified d' = classified d -> (killing d' <-> killing d) -> (alerted (worker d') <-> alerted (worker d)) ->
  (running d' = true -> running d = true) -> booting d' = booting d ->
  (forall k, k ∈ killers d' <-> k ∈ killers d) -> (worker d' = W_killed -> worker d = W_killed) ->
  (g_shutdown d = true -> g_shutdown d' = true) ->
  dinv d'.
Proof.
  intros [_ Hok _ Hf Hl Hc Hb Hs Hd] Hr Hu Hw Ec Ek Ea Er Eb Eki Ewk Eg. split.
  - done.
  - rewrite Forall_forall in *. intros r Hin. apply Hok, Hu, Hin.
  - done.
  - intros r Hin. rewrite Ec. apply Hf, Hu, Hin.
  - intros r Hin Hv. rewrite Ec in Hin. rewrite Ek, Ea, Hu. by apply Hl.
  - rewrite Ec, Ek, Ea. done.
  - rewrite Ek, Eb. intros [Hx|Hx]; apply Hb; [left; by apply Er|by right].
  - rewrite !Eki. intros Hx. apply Hs in Hx. destruct (running d'); [|done]. by rewrite Er in Hx.
  - rewrite !Eki. intros [Hx|Hx]; apply Eg, Hd; [by left|right; by apply Ewk].
Qed.

(** The fields of a state in the goal and in the hypotheses. *)
Ltac fields := cbn [pe_ booting running monitor_ pending_records_ stop_ g_shutdown reader worker killers destructor classified
  thread_ set_thread set_running set_reader set_worker set_killers set_pe set_pending set_destructor publish request_shutdown held batch alerted] in *.

Lemma booted_inv d d' : dinv d -> vm_booted d = Some d' -> dinv d'.
Proof.
  intros [Hr Hok Hw Hf Hl Hc Hb Hs Hd]. unfold vm_booted. destruct (booting d) eqn:E; [|done]. intros [= <-].
  assert (forall k, k ∈ killers d -> False) as Hno.
  { intros k Hk. cut (true = false); [done|]. apply Hb. right. left. intros Hn. rewrite Hn in Hk. by apply elem_of_nil in Hk. }
  split; fields; try done. intros [Hk|Hk]; by apply Hno in Hk.
Qed.

Lemma classify_inv ev d d' : event_ok ev -> dinv d -> classify ev d = Some d' -> dinv d'.
Proof.
  intros Hev [Hr Hok Hw Hf Hl Hc Hb Hs Hd]. unfold classify. destruct (reader d) eqn:Er; try done.
  destruct (process_event ev (pe_ d)) as [[r pe]|] eqn:E; [|done]. rewrite bind_Some. intros [= <-].
  unfold unevaluated, killing in *. rewrite Er in *. fields. cbn [app] in *. split; fields; unfold unevaluated, killing; fields.
  - by eapply Hevent.
  - cbn [app]. constructor; [by eapply process_event_record|done].
  - done.
  - intros x [->|Hx]%elem_of_cons; apply elem_of_app; [right; by left|left; by apply Hf].
  - intros x [Hx|Hx%list_elem_of_singleton]%elem_of_app Hv; [|right; right; subst x; by left].
    destruct (Hl x Hx Hv) as [?|[?|?]]; [by left|by right; left|right; right; by right].
  - intros Hx. destruct (Hc Hx) as (x & Hin & Hv). exists x. split; [|done]. apply elem_of_app. by left.
  - done.
  - done.
  - done.
Qed.

(** A new connection. *)
Lemma connect_inv d d' : dinv d -> connect d = Some d' -> dinv d'.
Proof.
  intros I. unfold connect. destruct (booting d || running d); [|done].
  assert (dinv (set_thread T_undefined d)) as Hu by (apply (dinv_keep d); fields; try done; apply I).
  assert (reader d = R_exited -> dinv (set_reader R_idle (set_thread T_joinable d))) as Hi.
  { intros E. apply (dinv_keep d); fields; try done; try apply I; unfold unevaluated, killing; fields; by rewrite E. }
  destruct (thread_ d); try (intros [= <-]; exact Hu); try done;
    destruct (reader d); try done; intros [= <-]; by apply Hi.
Qed.

(** Stopping the machine. *)
Lemma stop_step_inv s d s' d' : dinv d -> stop_step s d = Some (s', d') ->
  dinv d' /\ (s' = None -> running d' = false) /\ worker d' = worker d /\ killers d' = killers d.
Proof.
  intros I. destruct s; cbn [stop_step].
  - intros [= <- <-]. split_and!; try done. by destruct (running d).
  - intros [= <- <-]. by split_and!.
  - intros [= <- <-]. split_and!; try done. apply (dinv_keep d); fields; try done; apply I.
  - destruct (reader d) eqn:Er; try done. intros [= <- <-]. split_and!; try done.
    apply (dinv_keep d); fields; try done; apply I.
  - intros [= <- <-]. split_and!; try done. apply (dinv_keep d); fields; try done; apply I.
Qed.

Lemma closed_inv d : dinv d -> reader d = R_idle -> dinv (set_reader R_exited d).
Proof.
  intros I Er. apply (dinv_keep d); fields; try done; try apply I.
  - intros r. unfold unevaluated. fields. by rewrite Er.
  - unfold killing. fields. by rewrite Er.
Qed.

(** A detached thread that is in or behind [stop]. *)
Lemma killers_inv i k k' d : dinv d -> killers d !! i = Some k ->
  (k' = K_shutdown -> running d = false) -> (k' = K_done -> running d = false /\ g_shutdown d = true) ->
  dinv (set_killers (<[i := k']> (killers d)) d).
Proof.
  intros [Hr Hok Hw Hf Hl Hc Hb Hs Hd] Ei Hsh Hdn.
  assert (killing (set_killers (<[i := k']> (killers d)) d) <-> killing d) as Hki.
  { unfold killing. fields. f_equiv. by destruct (killers d), i. }
  split; fields; try done.
  - intros x Hx Hv. rewrite Hki. by apply Hl.
  - by rewrite Hki.
  - by rewrite Hki.
  - intros [Hx|Hx]; apply elem_of_insert_inv in Hx as [Hx|Hx]; [by apply Hsh|by apply Hs; left|by apply Hdn|by apply Hs; right].
  - intros [Hx|Hx]; [|by apply Hd; right]. apply elem_of_insert_inv in Hx as [Hx|Hx]; [by apply Hdn|by apply Hd; left].
Qed.

Lemma killer_inv i d d' : dinv d -> killer_step i d = Some d' -> dinv d'.
Proof.
  intros I. unfold killer_step. destruct (killers d !! i) as [[s| |]|] eqn:Ei; try done.
  - destruct (stop_step s d) as [[s' d1]|] eqn:E; [|done]. rewrite bind_Some. intros [= <-].
    destruct (stop_step_inv s d s' d1 I E) as (I1 & Hrun & _ & Hk). rewrite <- Hk in Ei.
    apply (killers_inv i _ _ d1 I1 Ei); destruct s'; try done. intros _. by apply Hrun.
  - intros [= <-]. assert (running d = false) as Hr by (apply (di_stopped _ I); left; by eapply list_elem_of_lookup_2).
    apply (killers_inv i _ _ (request_shutdown d)) with (2 := Ei); try done.
    apply (dinv_keep d); fields; try done; apply I.
Qed.

Lemma daemon_notify_inv d : dinv d -> dinv (notify d).
Proof.
  intros I. unfold notify. destruct (worker d) eqn:Ew; try done.
  apply (dinv_keep d); fields; try done; try apply I; unfold unevaluated, killing; fields; by rewrite Ew.
Qed.

(** [add_event] after the classification. *)
Lemma reader_inv d d' : dinv d -> reader_step d = Some d' -> dinv d'.
Proof.
  intros I. pose proof I as [Hr Hok Hw Hf Hl Hc Hb Hs Hd]. unfold reader_step.
  destruct (reader d) eqn:Er; try done; fields.
  - destruct (is_violation record && running d) eqn:E; intros [= <-].
    + apply andb_prop in E as [Ev Erun]. rewrite is_violation_violates in Ev.
      assert (record ∈ classified d) as Hrec by (apply Hf; unfold unevaluated; rewrite Er; by left).
      unfold unevaluated, killing in *. rewrite Er in *. fields. cbn [app] in *. apply Forall_cons in Hok as [_ Hok].
      split; fields; unfold unevaluated, killing; fields; try done.
      * intros x Hx. apply Hf. by right.
      * intros x _ _. left. by right.
      * intros _. by exists record.
      * intros _. apply Hb. by left.
    + apply (dinv_keep d); fields; try done; unfold unevaluated, killing; fields; by rewrite Er.
  - intros [= <-]. apply (dinv_keep d); fields; try done; unfold unevaluated, killing; fields; by rewrite Er.
  - intros [= <-]. apply (dinv_keep d); fields; try done; unfold unevaluated, killing; fields; by rewrite Er.
  - intros [= <-]. assert (killing d) as Hk by (right; by rewrite Er).
    split; fields; unfold unevaluated, killing in *; fields; rewrite Er in *; fields; try done.
    + intros x _ _. left. left. by destruct (killers d).
    + intros _. apply Hc. by left; right.
    + intros _. apply Hb. by right; right.
    + intros [Hx|Hx]; apply elem_of_app in Hx as [Hx|Hx]; first [by apply Hs; auto|by apply list_elem_of_singleton in Hx].
    + intros [Hx|Hx]; [|by apply Hd; right]. apply elem_of_app in Hx as [Hx|Hx]; [by apply Hd; left|by apply list_elem_of_singleton in Hx].
  - intros [= <-]. apply (dinv_keep d); fields; try done; unfold unevaluated, killing; fields; by rewrite Er.
  - destruct (reader_lock_free d); [|done].
    set (d1 := set_reader R_idle (set_pending (pending_records_ d ++ [record]) d)).
    assert (dinv d1) as I1.
    { apply (dinv_keep d); subst d1; fields; try done; unfold unevaluated, killing; fields; rewrite Er; [|done].
      intros x. cbn [held]. rewrite !elem_of_app, list_elem_of_singleton. assert (x ∉ []) by apply not_elem_of_nil. tauto. }
    match goal with |- Some (if ?b then _ else _) = _ -> _ => destruct b end; intros [= <-]; [by apply daemon_notify_inv|done].
Qed.

(** The worker. *)
Lemma worker_inv d d' : dinv d -> worker_step d = Some d' -> dinv d'.
Proof using Heval.
  intros I. pose proof I as [Hr Hok Hw Hf Hl Hc Hb Hs Hd]. unfold worker_step.
  destruct (worker d) eqn:Ew; try done; fields.
  - destruct (stop_ d); [|destruct (Nat.leb_spec 64 (length (pending_records_ d)))]; intros [= <-].
    + apply (dinv_keep d); fields; try done; unfold unevaluated, killing; fields; by rewrite Ew.
    + apply (dinv_keep d); fields; try done; unfold unevaluated, killing; fields; rewrite ?Ew; try done.
      * intros x. cbn [batch]. rewrite app_nil_r, !elem_of_app. rewrite <- (take_drop 64 (pending_records_ d)) at 3.
        rewrite elem_of_app. tauto.
      * rewrite length_take. lia.
    + apply (dinv_keep d); fields; try done; unfold unevaluated, killing; fields; by rewrite Ew.
  - intros [= <-]. apply (dinv_keep d); fields; try done; unfold unevaluated, killing; fields; by rewrite Ew.
  - assert (Forall record_ok records) as Hrec.
    { unfold unevaluated in Hok. rewrite Ew in Hok. by apply Forall_app in Hok as [_ [_ ?]%Forall_app]. }
    assert (forall r, r ∈ records -> r ∈ classified d) as Hfr.
    { intros r Hin. apply Hf. unfold unevaluated. rewrite Ew, !elem_of_app. by right; right. }
    destruct (Heval (pe_ d) records Hr Hrec Hw) as (pe & -> & Hpe). rewrite bind_Some. intros [= <-].
    unfold unevaluated, killing in *. rewrite Ew in *. fields. rewrite !app_assoc in *. apply Forall_app in Hok as [Hok _].
    assert (forall r, r ∈ held (reader d) ++ pending_records_ d -> r ∈ classified d) as Hf'.
    { intros r Hin. apply Hf. apply elem_of_app. by left. }
    destruct (Z.ltb_spec 0 (count_violations records)) as [Hp|Hp].
    + apply count_positive in Hp as (r & Hin & Hv).
      split; fields; unfold unevaluated, killing; fields; rewrite ?app_nil_r; try done.
      * intros x _ _. by right; left.
      * intros _. exists r. split; [by apply Hfr|done].
      * intros [Hx|Hx]; [by apply Hd; left|done].
    + split; fields; unfold unevaluated, killing; fields; rewrite ?app_nil_r; try done.
      * intros x Hx Hv. destruct (Hl x Hx Hv) as [?|[?|Hin]]; [by left|done|].
        apply elem_of_app in Hin as [Hin|Hin]; [by right; right|]. exfalso. cut (0 < count_violations records); [lia|].
        apply count_positive. by exists x.
      * intros [Hx|Hx]; [by apply Hd; left|done].
  - intros [= <-]. apply (dinv_keep d); fields; try done; unfold unevaluated, killing; fields; by rewrite Ew.
  - destruct (stop_step s d) as [[s' d1]|] eqn:E; [|done]. rewrite bind_Some. intros [= <-].
    destruct (stop_step_inv s d s' d1 I E) as (I1 & _ & Ew1 & _). rewrite Ew in Ew1.
    apply (dinv_keep d1); fields; try done; try apply I1; unfold unevaluated, killing; fields; rewrite ?Ew1; by destruct s'.
  - intros [= <-]. split; fields; unfold unevaluated, killing in *; rewrite Ew in *; fields; try done.
Qed.

Lemma set_destructor_inv stop x d : dinv d -> dinv (set_destructor stop x d).
Proof. intros I. apply (dinv_keep d); fields; try done; apply I. Qed.

Lemma destroy_inv d d' : dinv d -> destroy d = Some d' -> dinv d'.
Proof.
  intros I. unfold destroy. destruct (destructor d); try done.
  - intros [= <-]. by apply set_destructor_inv.
  - intros [= <-]. by apply (set_destructor_inv _ _ (notify d)), daemon_notify_inv.
  - destruct (worker d) eqn:Ew; try done; intros [= <-]; by apply set_destructor_inv.
Qed.

Lemma main_inv d d' : dinv d -> main_step d = Some d' -> dinv d'.
Proof.
  intros I. unfold main_step. destruct (destructor d); try done; [intros [= <-]; by apply set_destructor_inv|..];
    (destruct (stop_step s d) as [[s' d1]|] eqn:E; [|done]; rewrite bind_Some; intros [= <-];
     destruct (stop_step_inv s d s' d1 I E) as (I1 & _); by apply set_destructor_inv).
Qed.

Lemma daemon_step_inv d d' : dinv d -> daemon_step d d' -> dinv d'.
Proof using Hevent Heval.
  intros I [_ Hs]. destruct Hs.
  - by eapply booted_inv.
  - by eapply connect_inv.
  - by eapply classify_inv.
  - by eapply reader_inv.
  - by apply closed_inv.
  - by eapply killer_inv.
  - by eapply worker_inv.
  - by eapply main_inv.
  - by eapply destroy_inv.
Qed.

Lemma daemon_new_inv pe : ready pe -> dinv (daemon_new pe).
Proof.
  intros Hr. assert (~ killing (daemon_new pe)) as Hk by (by intros [[]|[]]).
  assert (forall k, k ∉ killers (daemon_new pe)) as Hn by (intros k; apply not_elem_of_nil).
  split; try done.
  - intros x Hx. by apply elem_of_nil in Hx.
  - by intros [Hx|Hx].
  - by intros [Hx|Hx].
  - intros [Hx|Hx]; [by apply Hn in Hx|done].
Qed.

Lemma daemon_reachable_inv pe d : ready pe -> rtc daemon_step (daemon_new pe) d -> dinv d.
Proof using Hevent Heval.
  intros Hr. revert d. apply rtc_ind_r; [by apply daemon_new_inv|]. intros d d' _ Hs I. by eapply daemon_step_inv.
Qed.

End Daemon.

(** The policy engine of PolicyProps.v discharges the assumptions. *)
Lemma policy_event_ready `{HwyTarget} `{Host} perf env buffers ev pe r pe' :
  policy_ready perf env buffers pe -> process_event ev pe = Some (r, pe') -> policy_ready perf env buffers pe'.
Proof.
  intros (L & pools & bufs & E & Hr) Hp. destruct (process_event_tree _ _ _ _ Hp) as (_ & _ & Ej).
  exists L, pools, bufs. rewrite Ej. exact (conj E Hr).
Qed.

Lemma policy_eval_ready `{HwyTarget} `{Host} perf env buffers pe l :
  malloc_ok = true -> policy_ready perf env buffers pe -> Forall record_ok l -> length l = 64%nat ->
  exists pe', evaluate_batch l 64 pe = Some (count_violations l, pe') /\ policy_ready perf env buffers pe'.
Proof.
  intros Hm Hr Hl Hn. destruct (evaluate_ready perf env buffers pe l Hr Hm Hl) as (pe' & E & Hr' & _); [lia|].
  rewrite Hn in E. exists pe'. exact (conj E Hr').
Qed.

Lemma policy_daemon_inv `{HwyTarget} `{Host} perf env buffers g pe d :
  buffers_ok 128 buffers -> malloc_ok = true ->
  PolicyEngine_new true None (ApexEngine_new perf env buffers) = Some (g, pe) ->
  rtc daemon_step (daemon_new pe) d -> dinv (policy_ready perf env buffers) d.
Proof.
  intros Hb Hm Hnew. destruct (policy_new perf env buffers Hb) as (g' & pe' & E & Hr & _).
  rewrite E in Hnew. injection Hnew as _ ->.
  apply (daemon_reachable_inv (policy_ready perf env buffers)
    (policy_event_ready perf env buffers) (fun pe l => policy_eval_ready perf env buffers pe l Hm) pe d Hr).
Qed.

(** ** Properties *)

(** C6: the kill switch.  In every state the daemon can reach from a newly
    constructed policy engine, however its threads are interleaved: a violating
    record has triggered the fast path, or has raised the worker's alarm, or is still to be evaluated;
    neither happens without a violating record; when a detached thread is done
    the machine is not running and the shutdown is requested; and the same shutdown is
    requested when the worker has left its loop after an alarm. *)
Theorem kill_switch `{HwyTarget} `{Host} perf env buffers g pe d :
  buffers_ok 128 buffers -> malloc_ok = true ->
  PolicyEngine_new true None (ApexEngine_new perf env buffers) = Some (g, pe) ->
  rtc daemon_step (daemon_new pe) d ->
  (forall r, r ∈ classified d -> violates r = true -> killing d \/ alerted (worker d) \/ r ∈ unevaluated d) /\
  (killing d \/ alerted (worker d) -> exists r, r ∈ classified d /\ violates r = true) /\
  (K_done ∈ killers d -> running d = false /\ g_shutdown d = true) /\
  (worker d = W_killed -> g_shutdown d = true).
Proof.
  intros Hb Hm Hnew Hs. destruct (policy_daemon_inv perf env buffers g pe d Hb Hm Hnew Hs)
    as [_ _ _ _ Hl Hc _ Hst Hd].
  exact (conj Hl (conj Hc (conj (fun Hk => conj (Hst (or_intror Hk)) (Hd (or_introl Hk))) (fun Hw => Hd (or_intror Hw))))).
Qed.

#[local] Existing Instance hwy_neon.

(** A step of a concrete run. *)
Definition go (step : daemon -> option daemon) (d : daemon) : option daemon := if alive d then step d else None.

Definition close_reader (d : daemon) : option daemon := match reader d with R_idle => Some (set_reader R_exited d) | _ => None end.

(** The machine boots, the guest connects, a script execs and opens a key: the fast path is taken. *)
Definition demo_alarm (d : daemon) : option daemon :=
  d ← go vm_booted d; d ← go connect d;
  d ← go (classify demo_exec) d; d ← go reader_step d; d ← go reader_step d; d ← go reader_step d;
  d ← go (classify demo_open) d; go reader_step d.

(** It runs to its end. *)
Definition demo_kill (d : daemon) : option daemon :=
  d ← go reader_step d; d ← go reader_step d; d ← go reader_step d; d ← go close_reader d;
  d ← go (killer_step 0) d; d ← go (killer_step 0) d; d ← go (killer_step 0) d; d ← go (killer_step 0) d; d ← go (killer_step 0) d;
  go (killer_step 0) d.

Definition demo_run (d : daemon) : option daemon := d ← demo_alarm d; demo_kill d.

Lemma go_step f d d' : (f d = Some d' -> thread_step d d') -> go f d = Some d' -> daemon_step d d'.
Proof. unfold go. destruct (alive d) eqn:E; [|done]. intros Hf Hd. split; [exact E|by apply Hf]. Qed.

(** One step of a run that has succeeded. *)
Ltac run_step Hd rule :=
  match type of Hd with
  | (?x ≫= _) = _ =>
      let E := fresh "E" in
      destruct x eqn:E; [rewrite bind_Some in Hd; eapply rtc_l; [eapply go_step, E; apply rule|]|discriminate Hd]
  end.

Lemma close_step d d' : close_reader d = Some d' -> thread_step d d'.
Proof. unfold close_reader. destruct (reader d) eqn:E; try discriminate. intros Hd. injection Hd as <-. by apply step_closed. Qed.

Lemma demo_events_ok : event_ok demo_exec /\ event_ok demo_open.
Proof. split; split; cbn; unfold u64, EVENT_EXEC, EVENT_OPEN; lia. Qed.

Lemma demo_alarm_reachable d d' : demo_alarm d = Some d' -> rtc daemon_step d d'.
Proof.
  destruct demo_events_ok as [H1 H2]. unfold demo_alarm. intros Hd.
  run_step Hd step_boot. run_step Hd step_connect. run_step Hd (step_classify demo_exec); [exact H1|]. do 3 run_step Hd step_reader.
  run_step Hd (step_classify demo_open); [exact H2|]. apply rtc_once. eapply go_step, Hd. apply step_reader.
Qed.

Lemma demo_kill_reachable d d' : demo_kill d = Some d' -> rtc daemon_step d d'.
Proof.
  unfold demo_kill. intros Hd. do 3 run_step Hd step_reader. run_step Hd close_step. do 5 run_step Hd (step_killer 0).
  apply rtc_once. eapply go_step, Hd. apply step_killer.
Qed.

Lemma demo_run_reachable d d' : demo_run d = Some d' -> rtc daemon_step d d'.
Proof.
  unfold demo_run. intros Hd. destruct (demo_alarm d) as [d1|] eqn:E; [|discriminate Hd]. rewrite bind_Some in Hd.
  etrans; [by apply demo_alarm_reachable|by apply demo_kill_reachable].
Qed.

Lemma kill_switch_witness :
  exists g pe d, PolicyEngine_new true None (ApexEngine_new None None demo_buffers) = Some (g, pe) /\
    demo_run (daemon_new pe) = Some d /\
    (forall r, r ∈ classified d -> violates r = true -> killing d \/ alerted (worker d) \/ r ∈ unevaluated d) /\
    (killing d \/ alerted (worker d) -> exists r, r ∈ classified d /\ violates r = true) /\
    (K_done ∈ killers d -> running d = false /\ g_shutdown d = true) /\
    (worker d = W_killed -> g_shutdown d = true).
Proof.
  destruct (policy_new None None demo_buffers (buffers_ok_replicate 128)) as (g & pe & E & _ & Ht).
  assert (match demo_run (daemon_new pe) with Some _ => true | None => false end = true) as Hd.
  { destruct pe as [e tree]. cbn [process_tree_] in Ht. subst tree. generalize e. intros e'. by vm_compute. }
  destruct (demo_run (daemon_new pe)) as [d|] eqn:Er; [|discriminate Hd].
  exists g, pe, d. split; [exact E|]. split; [exact Er|].
  exact (kill_switch None None demo_buffers g pe d (buffers_ok_replicate 128) eq_refl E (demo_run_reachable _ _ Er)).
Defined.

(** C38: a lost wakeup.  The destructor sets [stop_] and notifies without the mutex: when
    it does so between the worker's test of the predicate and its going to
    sleep, the worker sleeps for ever and the destructor waits for it for
    ever, and no thread can change anything any more. *)
Theorem destructor_can_hang `{HwyTarget} `{Host} pe :
  exists d, rtc daemon_step (daemon_new pe) d /\ destructor d = D_join /\ stop_ d = true /\ worker d = W_blocked /\
    forall d', daemon_step d d' -> d' = d.
Proof.
  exists (mkDaemon pe false false T_none [] [] true false R_exited W_blocked [] D_join []). split; [|split_and!; try done].
  - eapply rtc_l; [split; [done|by apply step_boot]|]. eapply rtc_l; [split; [done|by apply step_worker]|].
    do 4 (eapply rtc_l; [split; [done|by apply step_main]|]).
    do 2 (eapply rtc_l; [split; [done|by apply step_destroy]|]).
    apply rtc_once. split; [done|by apply step_worker].
  - intros d' [_ Hs]. inversion Hs as [? ? E|? ? E|? ? ? _ E|? ? E|? E|i ? ? E|? ? E|? ? E|? ? E]; subst; discriminate E.
Qed.
