(* ===== verification/KillProps.v ===== *)
(** * A kill that has begun can be completed

    Once the fast path is taken, and as long as no two callers of
    [VMController::stop] have joined the same reader, the detached threads, the worker and the reader
    can stop the machine and request the shutdown in a bounded number of steps, and nothing
    undoes it.  Two callers can join the same reader: that ends the program. *)

From S2P Require Import Prelude Planes BitSlicer IR Registry A64 KernelCall Rows Columns RunnerCorrect Engine EngineDemo.
From S2P Require Import Vsock Policy PolicyProps Monitor Collector CollectorProps.

Section Kill.
Context {T : HwyTarget} {H : Host}.

(** The machine is down for good and the daemon is told to end. *)
Definition ended (d : daemon) : Prop := running d = false /\ booting d = false /\ g_shutdown d = true.

Lemma stop_step_ended s d s' d' : ended d -> stop_step s d = Some (s', d') -> ended d'.
Proof.
  intros (Hr & Hb & Hg). destruct s; cbn [stop_step]; try (intros [= _ <-]; by split_and!).
  destruct (reader d); try done. intros [= _ <-]. by split_and!.
Qed.

Lemma ended_step d d' : ended d -> daemon_step d d' -> ended d'.
Proof.
  intros He [_ Hs]. pose proof He as (Hr & Hb & Hg).
  destruct Hs as [d d' E|d d' E|ev d d' _ E|d d' E|d E|i d d' E|d d' E|d d' E|d d' E].
  - unfold vm_booted in E. by rewrite Hb in E.
  - unfold connect in E. by rewrite Hb, Hr in E.
  - unfold classify in E. destruct (reader d); try done. destruct (process_event ev (pe_ d)) as [[r pe]|]; [|done].
    rewrite bind_Some in E. by injection E as <-.
  - unfold reader_step in E. destruct (reader d); try done; try by injection E as <-.
    destruct (reader_lock_free d); [|done]. injection E as <-. unfold notify.
    repeat case_match; done.
  - done.
  - unfold killer_step in E. destruct (killers d !! i) as [[s| |]|]; try done.
    + destruct (stop_step s d) as [[s' d1]|] eqn:E1; [|done]. rewrite bind_Some in E. injection E as <-.
      exact (stop_step_ended s d s' d1 He E1).
    + by injection E as <-.
  - unfold worker_step in E. destruct (worker d); try done.
    + repeat case_match; by injection E as <-.
    + by injection E as <-.
    + destruct (evaluate_batch records 64 (pe_ d)) as [[v pe]|]; [|done]. rewrite bind_Some in E. by injection E as <-.
    + by injection E as <-.
    + destruct (stop_step s d) as [[s' d1]|] eqn:E1; [|done]. rewrite bind_Some in E. injection E as <-.
      exact (stop_step_ended s d s' d1 He E1).
    + by injection E as <-.
  - unfold main_step in E. destruct (destructor d); try done; [by injection E as <-|..];
      (destruct (stop_step s d) as [[s' d1]|] eqn:E1; [|done]; rewrite bind_Some in E; injection E as <-;
       exact (stop_step_ended s d s' d1 He E1)).
  - unfold destroy in E. destruct (destructor d); try done; try by injection E as <-.
    + injection E as <-. unfold notify. by destruct (worker d).
    + destruct (worker d); try done; by injection E as <-.
Qed.

Lemma ended_steps d d' : ended d -> rtc daemon_step d d' -> ended d'.
Proof. intros He. induction 1 as [|d d1 d' H1 _ IH]; [done|]. by apply IH, (ended_step d). Qed.

(** ** The callers of [stop] *)

(** Past the join, or past [stop] altogether. *)
Definition past_join (k : killer_state) : Prop := match k with K_stop S_halt | K_shutdown | K_done => True | _ => False end.

Definition worker_past (d : daemon) : Prop :=
  match worker d with W_stop S_halt => True | W_shutdown | W_killed => running d = false | _ => False end.

Definition stopping (w : worker_state) : bool := match w with W_stop S_check => false | W_stop _ => true | _ => false end.

Definition live (d : daemon) : Prop := reader d <> R_exited \/ killers d <> [].

(** While [main] waits, whoever joins or has joined the reader is a detached thread or the worker. *)
Record joins (d : daemon) : Prop := {
  jn_joining : thread_ d = T_joining -> destructor d = D_none ->
    (exists i, killers d !! i = Some (K_stop S_joining)) \/ worker d = W_stop S_joining;
  jn_joined : thread_ d = T_joined -> destructor d = D_none ->
    booting d = false /\ ((exists i k, killers d !! i = Some k /\ past_join k) \/ worker_past d);
  jn_worker : stopping (worker d) = true -> booting d = false;
  jn_live : live d -> thread_ d <> T_none
}.

(** A step that leaves the callers of [stop] and the handle alone. *)
Lemma joins_keep d d' : joins d -> thread_ d' = thread_ d -> (destructor d' = D_none -> destructor d = D_none) ->
  (forall i k, killers d !! i = Some k -> killers d' !! i = Some k) ->
  (worker d' = worker d \/ match worker d, worker d' with
     | (W_check | W_block | W_blocked | W_batch _ | W_announce), (W_check | W_block | W_blocked | W_batch _ | W_announce | W_exited | W_stop S_check) => True
     | _, _ => False end) ->
  (running d = false -> booting d = false -> running d' = false) -> (booting d = false -> booting d' = false) -> (live d' -> live d) -> joins d'.
Proof.
  intros [J1 J2 J3 J4] Et Ed Ek Ew Er Eb El. split; [..|rewrite Et; auto].
  - rewrite Et. intros Ht Hd. destruct (J1 Ht (Ed Hd)) as [[i Hi]|Hw]; [left; exists i; by apply Ek|].
    right. destruct Ew as [-> | Ew]; [done|]. by rewrite Hw in Ew.
  - rewrite Et. intros Ht Hd. destruct (J2 Ht (Ed Hd)) as [Hb Hp]. split; [by apply Eb|].
    destruct Hp as [(i & k & Hi & Hk)|Hw]; [left; exists i, k; split; [by apply Ek|done]|]. right.
    unfold worker_past in *. destruct Ew as [-> | Ew].
    + destruct (worker d); try done; by apply Er.
    + by destruct (worker d).
  - destruct Ew as [-> | Ew]; [auto|]. intros Hs. by destruct (worker d), (worker d') as [| | | | |[]| | |].
Qed.

(** A killer in [stop] takes a step. *)
Lemma joins_killer i s s' d d1 : joins d -> booting d = false -> killers d !! i = Some (K_stop s) ->
  stop_step s d = Some (s', d1) ->
  joins (set_killers (<[i := match s' with Some s => K_stop s | None => K_shutdown end]> (killers d1)) d1).
Proof.
  intros [J1 J2 J3 J4] Hb Hi E. pose proof (lookup_lt_Some _ _ _ Hi) as Hlt.
  assert (forall j k k' (l : list killer_state), l !! i = Some (K_stop s) -> l !! j = Some k -> k <> K_stop s -> <[i := k']> l !! j = Some k) as Hne.
  { intros j k k' l Hl Hj Hn. rewrite list_lookup_insert_ne; [done|]. intros ->. congruence. }
  assert (forall k' (l : list killer_state), length l = length (killers d) -> <[i := k']> l !! i = Some k') as Heq.
  { intros k' l Hl. apply list_lookup_insert_eq. lia. }
  assert (thread_ d <> T_none) as Hnn by (apply J4; right; intros Hn; by rewrite Hn in Hi).
  destruct s; cbn [stop_step] in E.
  - injection E as <- <-. split; cbn [thread_ destructor killers worker booting running set_killers]; [|..|done|done].
    + intros Ht Hd. destruct (J1 Ht Hd) as [[j Hj]|Hw]; [left; exists j; by apply Hne|by right].
    + intros Ht Hd. destruct (J2 Ht Hd) as [_ [(j & k & Hj & Hp)|Hw]]; (split; [done|]); [left; exists j, k|by right].
      split; [|done]. apply Hne; [done..|]. by intros ->.
  - injection E as <- <-. split; cbn [thread_ destructor killers worker booting running set_killers]; [|..|done|done].
    + intros Ht Hd. destruct (J1 Ht Hd) as [[j Hj]|Hw]; [left; exists j; by apply Hne|by right].
    + intros Ht Hd. destruct (J2 Ht Hd) as [_ [(j & k & Hj & Hp)|Hw]]; (split; [done|]); [left; exists j, k|by right].
      split; [|done]. apply Hne; [done..|]. by intros ->.
  - injection E as <- <-. split; cbn [thread_ destructor killers worker booting running set_killers set_thread]; [|..|done|by destruct (thread_ d)].
    + intros _ _. left. exists i. by apply Heq.
    + intros Ht. by destruct (thread_ d).
  - destruct (reader d); try done. injection E as <- <-.
    split; cbn [thread_ destructor killers worker booting running set_killers set_thread]; [done|..|done|done].
    intros _ _. split; [done|]. left. exists i, (K_stop S_halt). by rewrite Heq.
  - injection E as <- <-. split; cbn [thread_ destructor killers worker booting running set_killers set_running]; [|..|done|done].
    + intros Ht Hd. destruct (J1 Ht Hd) as [[j Hj]|Hw]; [left; exists j; by apply Hne|by right].
    + intros _ _. split; [done|]. left. exists i, K_shutdown. by rewrite Heq.
Qed.

(** The worker in [stop] takes a step. *)
Lemma joins_worker s s' d d1 : joins d -> (running d = true -> booting d = false) -> worker d = W_stop s ->
  stop_step s d = Some (s', d1) ->
  joins (set_worker (match s' with Some s => W_stop s | None => W_shutdown end) d1).
Proof.
  intros [J1 J2 J3 J4] Hb Hw E. rewrite Hw in *.
  destruct s; cbn [stop_step] in E.
  - injection E as <- <-. split; cbn [thread_ destructor killers worker booting running set_worker]; [| | |exact J4].
    + intros Ht Hd. destruct (J1 Ht Hd) as [?|?]; [by left|done].
    + intros Ht Hd. destruct (J2 Ht Hd) as [Hbt [?|Hp]]; [split; [done|by left]|]. unfold worker_past in Hp. by rewrite Hw in Hp.
    + destruct (running d) eqn:Er; [|done]. intros _. by apply Hb.
  - injection E as <- <-. specialize (J3 eq_refl). split; cbn [thread_ destructor killers worker booting running set_worker]; [| |done|exact J4].
    + intros Ht Hd. destruct (J1 Ht Hd) as [?|?]; [by left|done].
    + intros Ht Hd. destruct (J2 Ht Hd) as [Hbt [?|Hp]]; [split; [done|by left]|]. unfold worker_past in Hp. by rewrite Hw in Hp.
  - injection E as <- <-. specialize (J3 eq_refl). split; cbn [thread_ destructor killers worker booting running set_worker set_thread]; [| |done|by destruct (thread_ d)].
    + intros _ _. by right.
    + intros Ht. by destruct (thread_ d).
  - specialize (J3 eq_refl). destruct (reader d); try done. injection E as <- <-.
    split; cbn [thread_ destructor killers worker booting running set_worker set_thread]; [done| |done|done].
    intros _ _. split; [done|]. by right.
  - injection E as <- <-. specialize (J3 eq_refl). split; cbn [thread_ destructor killers worker booting running set_worker set_running]; [| |done|exact J4].
    + intros Ht Hd. destruct (J1 Ht Hd) as [?|?]; [by left|done].
    + intros _ _. split; [done|]. by right.
Qed.

(** The main thread takes a step. *)
Lemma joins_main d d' : joins d -> (stopping (worker d') = true -> stopping (worker d) = true) -> booting d' = booting d ->
  destructor d' <> D_none -> (live d' -> thread_ d' <> T_none) -> joins d'.
Proof.
  intros [_ _ J3 _] Hs Eb Hd Hl. split; [by intros _ ?|by intros _ ?| |exact Hl]. intros Hw. rewrite Eb. by apply J3, Hs.
Qed.

Lemma stop_step_keeps s d s' d' : stop_step s d = Some (s', d') ->
  worker d' = worker d /\ booting d' = booting d /\ killers d' = killers d /\ destructor d' = destructor d /\ reader d' = reader d.
Proof. destruct s; cbn [stop_step]; [..|destruct (reader d) eqn:Er; try done|]; intros [= _ <-]; by split_and!. Qed.

(** A step that [joins_keep] covers; [Er] and [Ew] are equations of the reader and the worker. *)
Ltac joins_same d :=
  apply (joins_keep d); try done;
  first [by left | by right; repeat match goal with Ew : worker d = _ |- _ => rewrite Ew end
        | intros _; left; match goal with Er : reader d = _ |- _ => by rewrite Er end | idtac].

Lemma joins_notify d : joins d -> joins (notify d).
Proof. intros J. unfold notify. destruct (worker d) eqn:Ew; try done. joins_same d. Qed.

Lemma joins_connect d d' : joins d -> connect d = Some d' -> joins d'.
Proof.
  intros [J1 J2 J3 J4]. unfold connect. destruct (booting d || running d); [|done].
  destruct (thread_ d); try done; try (destruct (reader d); try done); intros [= <-]; by split.
Qed.

Lemma joins_reader d d' : joins d -> reader_step d = Some d' -> joins d'.
Proof.
  intros J. unfold reader_step. destruct (reader d) eqn:Er; try done; try (intros [= <-]; joins_same d).
  - intros i k Hi. cbn [killers set_reader set_killers]. by apply lookup_app_l_Some.
  - destruct (reader_lock_free d); [|done]. set (d1 := set_reader R_idle (set_pending (pending_records_ d ++ [record]) d)).
    assert (joins d1) as J1 by joins_same d.
    match goal with |- Some (if ?b then _ else _) = _ -> _ => destruct b end; intros [= <-]; [by apply joins_notify|done].
Qed.

Lemma joins_killer_step ready i d d' : dinv ready d -> joins d -> killer_step i d = Some d' -> joins d'.
Proof.
  intros I J. unfold killer_step. destruct (killers d !! i) as [[s| |]|] eqn:Ei; try done.
  - destruct (stop_step s d) as [[s' d1]|] eqn:E1; [|done]. rewrite bind_Some. intros [= <-].
    apply (joins_killer i s s' d d1 J); try done. apply (di_booted _ _ I). right. left. intros Hn. by rewrite Hn in Ei.
  - intros [= <-]. destruct J as [J1 J2 J3 J4]. split; cbn [thread_ destructor killers worker booting running set_killers request_shutdown].
    + intros Ht Hd. destruct (J1 Ht Hd) as [[j Hj]|Hw]; [|by right]. left. exists j. rewrite list_lookup_insert_ne; [done|]. intros ->. congruence.
    + intros Ht Hd. destruct (J2 Ht Hd) as [Hb [(j & k & Hj & Hp)|Hw]]; (split; [done|]); [left|by right].
      exists i, K_done. split; [|done]. apply list_lookup_insert_eq. by eapply lookup_lt_Some.
    + done.
    + intros _. apply J4. right. intros Hn. by rewrite Hn in Ei.
Qed.

Lemma joins_worker_step ready d d' : dinv ready d -> joins d -> worker_step d = Some d' -> joins d'.
Proof.
  intros I J. unfold worker_step. destruct (worker d) eqn:Ew; try done.
  - repeat case_match; intros [= <-]; joins_same d.
  - intros [= <-]. joins_same d.
  - destruct (evaluate_batch records 64 (pe_ d)) as [[v pe]|]; [|done]. rewrite bind_Some. intros [= <-].
    destruct (0 <? v); joins_same d.
  - intros [= <-]. joins_same d.
  - destruct (stop_step s d) as [[s' d1]|] eqn:E1; [|done]. rewrite bind_Some. intros [= <-].
    apply (joins_worker s s' d d1 J); try done. intros Hr. apply (di_booted _ _ I). by left.
  - intros [= <-]. destruct J as [J1 J2 J3 J4]. rewrite Ew in *.
    split; cbn [thread_ destructor killers worker booting running set_worker request_shutdown]; [| |done|exact J4].
    + intros Ht Hd. destruct (J1 Ht Hd) as [?|?]; [by left|done].
    + intros Ht Hd. destruct (J2 Ht Hd) as [Hb [?|Hp]]; (split; [done|]); [by left|]. right. unfold worker_past in *. by rewrite Ew in Hp.
Qed.

Lemma joins_main_step d d' : joins d -> main_step d = Some d' -> joins d'.
Proof.
  intros J. assert (forall s s' d1 x, stop_step s d = Some (s', d1) -> x <> D_none -> joins (set_destructor (stop_ d1) x d1)) as Hs.
  { intros s s' d1 x E Hx. destruct (stop_step_keeps s d s' d1 E) as (Hw & Hb & Hk & _ & Hr).
    apply (joins_main d); cbn; rewrite ?Hw; try done. unfold live. cbn. rewrite Hk, Hr. intros Hl%(jn_live _ J).
    clear -E Hl. destruct s; cbn [stop_step] in E; [..|destruct (reader d); try done|]; injection E as _ <-; try done. cbn. by destruct (thread_ d). }
  unfold main_step. destruct (destructor d); try done; [intros [= <-]; by apply (joins_main d); [..|apply J]|..];
    (destruct (stop_step s d) as [[s' d1]|] eqn:E; [|done]; rewrite bind_Some; intros [= <-]; eapply Hs; [done|by destruct s']).
Qed.

Lemma joins_destroy d d' : joins d -> destroy d = Some d' -> joins d'.
Proof.
  intros J. pose proof (jn_live _ J) as Hl. unfold destroy. destruct (destructor d); try done.
  - intros [= <-]. by apply (joins_main d).
  - intros [= <-]. unfold notify. destruct (worker d) eqn:Ew; apply (joins_main d); cbn; rewrite ?Ew; done.
  - destruct (worker d) eqn:Ew; try done; intros [= <-]; by apply (joins_main d).
Qed.

Lemma joins_step ready d d' : dinv ready d -> joins d -> daemon_step d d' -> joins d'.
Proof.
  intros I J [_ Hs]. destruct Hs as [d d' E|d d' E|ev d d' _ E|d d' E|d E|i d d' E|d d' E|d d' E|d d' E].
  - unfold vm_booted in E. destruct (booting d) eqn:Eb; [|done]. injection E as <-. joins_same d. by rewrite Eb.
  - by eapply joins_connect.
  - unfold classify in E. destruct (reader d) eqn:Er; try done. destruct (process_event ev (pe_ d)) as [[r pe]|]; [|done].
    rewrite bind_Some in E. injection E as <-. joins_same d.
  - by eapply joins_reader.
  - joins_same d.
  - by eapply joins_killer_step.
  - by eapply joins_worker_step.
  - by eapply joins_main_step.
  - by eapply joins_destroy.
Qed.

Lemma joins_new pe : joins (daemon_new pe).
Proof. split; try done. by intros [?|?]. Qed.

(** ** The reader gets out of [add_event], and its thread ends *)

Definition gets_out (n : nat) (d : daemon) : Prop :=
  exists d', bsteps daemon_step n d d' /\ reader d' = R_exited /\ killers d' <> [] /\ alive d' = alive d /\ destructor d' = destructor d.

Lemma gets_out_weaken n m d : (n <= m)%nat -> gets_out n d -> gets_out m d.
Proof. intros Hn (d' & Hs & Ho). exists d'. split; [by eapply bsteps_weaken|done]. Qed.

Lemma gets_out_step n d d' : alive d = true -> thread_step d d' -> alive d' = alive d -> destructor d' = destructor d ->
  gets_out n d' -> gets_out (S n) d.
Proof.
  intros Ha Hs E1 E2 (d2 & Hs2 & Hr & Hk & E1' & E2'). exists d2. split_and!; try done; [|congruence..].
  eapply bsteps_l; [by split|done].
Qed.

Lemma gets_out_reader n d d' : alive d = true -> reader_step d = Some d' -> alive d' = alive d -> destructor d' = destructor d ->
  gets_out n d' -> gets_out (S n) d.
Proof. intros Ha E. apply gets_out_step; [done|by apply step_reader]. Qed.

Lemma idle_gets_out d : alive d = true -> reader d = R_idle -> killers d <> [] -> gets_out 1 d.
Proof.
  intros Ha Er Hk. eapply gets_out_step; [done|by apply step_closed|done|done|].
  eexists. by split; [apply bsteps_refl|].
Qed.

Lemma push_gets_out record d : alive d = true -> reader d = R_push record -> killers d <> [] -> gets_out 3 d.
Proof.
  intros Ha Er Hk.
  assert (forall d, alive d = true -> reader_lock_free d = true -> reader d = R_push record -> killers d <> [] -> gets_out 2 d) as Hfree.
  { clear -T. intros d Ha Hl Er Hk. eapply gets_out_reader; [done|unfold reader_step; by rewrite Er, Hl|..].
    - unfold notify. by repeat case_match.
    - unfold notify. by repeat case_match.
    - apply idle_gets_out; unfold notify; by repeat case_match. }
  destruct (reader_lock_free d) eqn:El; [by eapply gets_out_weaken, Hfree; [lia|..]|].
  unfold reader_lock_free in El. destruct (worker d) eqn:Ew; try done.
  apply (gets_out_step 2 d (set_worker W_blocked d)); [done|apply step_worker; unfold worker_step; by rewrite Ew|done|done|].
  by apply Hfree.
Qed.

Lemma killing_gets_out d : alive d = true -> killing d -> gets_out 5 d.
Proof.
  assert (forall d, alive d = true -> reader d = R_spawn -> gets_out 2 d) as Hspawn.
  { intros d0 Ha Er. eapply gets_out_reader; [done|unfold reader_step; by rewrite Er|done|done|].
    apply idle_gets_out; [done|done|]. cbn. by destruct (killers d0). }
  assert (forall d, alive d = true -> reader d = R_announce -> gets_out 3 d) as Hann.
  { intros d0 Ha Er. eapply gets_out_reader; [done|unfold reader_step; by rewrite Er|done|done|]. by apply Hspawn. }
  assert (forall ev r d, alive d = true -> reader d = R_report ev r -> gets_out 4 d) as Hrep.
  { intros ev r d0 Ha Er. eapply gets_out_reader; [done|unfold reader_step; by rewrite Er|done|done|]. by apply Hann. }
  assert (forall ev r d, alive d = true -> reader d = R_publish ev r -> killers d <> [] -> gets_out 4 d) as Hpub.
  { intros ev r d0 Ha Er Hk. eapply gets_out_reader; [done|unfold reader_step; by rewrite Er|done|done|]. by eapply push_gets_out. }
  unfold killing. intros Ha [Hk|Hr].
  - destruct (reader d) eqn:Er.
    + eapply gets_out_weaken, idle_gets_out; [lia|done..].
    + eapply gets_out_reader; [done|unfold reader_step; by rewrite Er|done|done|].
      destruct (is_violation record && running d); [by eapply Hrep|by eapply Hpub].
    + eapply gets_out_weaken, Hrep; [lia|done..].
    + eapply gets_out_weaken, Hann; [lia|done..].
    + eapply gets_out_weaken, Hspawn; [lia|done..].
    + eapply gets_out_weaken, Hpub; [lia|done..].
    + eapply gets_out_weaken, push_gets_out; [lia|done..].
    + exists d. split; [apply bsteps_refl|done].
  - destruct (reader d) eqn:Er; try done.
    + eapply gets_out_weaken, Hrep; [lia|done..].
    + eapply gets_out_weaken, Hann; [lia|done..].
    + eapply gets_out_weaken, Hspawn; [lia|done..].
Qed.

(** ** One caller of [stop] runs to its end *)

Definition ends (n : nat) (d : daemon) : Prop := exists d', bsteps daemon_step n d d' /\ ended d'.

(** The reader's thread has ended, the main thread waits. *)
Definition calm (d : daemon) : Prop := alive d = true /\ booting d = false /\ destructor d = D_none /\ reader d = R_exited.

Lemma ends_step n d d' : alive d = true -> thread_step d d' -> ends n d' -> ends (S n) d.
Proof. intros Ha Hs (d2 & Hs2 & He). exists d2. split; [eapply bsteps_l; [by split|done]|done]. Qed.

Lemma ends_weaken n m d : (n <= m)%nat -> ends n d -> ends m d.
Proof. intros Hn (d' & Hs & He). exists d'. split; [by eapply bsteps_weaken|done]. Qed.

Lemma shutdown_ends i d : calm d -> running d = false -> killers d !! i = Some K_shutdown -> ends 1 d.
Proof.
  intros (Ha & Hb & _) Hr Ei. eapply ends_step; [done|apply (step_killer i); unfold killer_step; by rewrite Ei|].
  eexists. split; [apply bsteps_refl|by split_and!].
Qed.

(** A step of killer [i] in [stop], after which [n] more are enough. *)
Lemma killer_ends n i s s' d d1 : calm d -> killers d !! i = Some (K_stop s) -> stop_step s d = Some (s', d1) -> alive d1 = true ->
  (forall d2, calm d2 -> running d2 = running d1 -> thread_ d2 = thread_ d1 ->
     killers d2 !! i = Some (match s' with Some s => K_stop s | None => K_shutdown end) -> ends n d2) ->
  ends (S n) d.
Proof.
  intros (Ha & Hb & Hd & Hr) Ei E Ha1 Hn. destruct (stop_step_keeps s d s' d1 E) as (_ & Eb & Ek & Ed & Er).
  eapply ends_step; [done|apply (step_killer i); unfold killer_step; by rewrite Ei, E|].
  apply Hn; [|done|done|].
  - split_and!; cbn; [exact Ha1|by rewrite Eb|by rewrite Ed|by rewrite Er].
  - cbn. rewrite Ek. apply list_lookup_insert_eq. by eapply lookup_lt_Some.
Qed.

Lemma alive_thread d t : calm d -> t <> T_undefined -> alive (set_thread t d) = true.
Proof. intros (_ & _ & Hd & _) Ht. unfold alive. cbn. rewrite Hd. by destruct t. Qed.

Lemma halt_ends i d : calm d -> killers d !! i = Some (K_stop S_halt) -> ends 2 d.
Proof.
  intros Hc Ei. eapply (killer_ends 1 i); [done|done|reflexivity|apply Hc|]. intros d2 Hc2 Hr _ Ei2.
  by apply (shutdown_ends i).
Qed.

Lemma joining_ends i d : calm d -> killers d !! i = Some (K_stop S_joining) -> ends 3 d.
Proof.
  intros Hc Ei. eapply (killer_ends 2 i); [done|done|cbn; by rewrite (proj2 (proj2 (proj2 Hc)))|by apply alive_thread|].
  intros d2 Hc2 _ _ Ei2. by apply (halt_ends i).
Qed.

Lemma join_ends i d : calm d -> thread_ d = T_joinable -> killers d !! i = Some (K_stop S_join) -> ends 4 d.
Proof.
  intros Hc Ht Ei. eapply (killer_ends 3 i); [done|done|reflexivity|rewrite Ht; by apply alive_thread|].
  intros d2 Hc2 _ _ Ei2. by apply (joining_ends i).
Qed.

Lemma calm_defined d : calm d -> thread_ d <> T_undefined.
Proof. intros (Ha & _). unfold alive in Ha. by destruct (thread_ d). Qed.

Lemma joinable_ends i d : calm d -> thread_ d <> T_joining -> killers d !! i = Some (K_stop S_joinable) -> ends 5 d.
Proof.
  intros Hc Ht Ei. eapply (killer_ends 4 i); [done|done|reflexivity|apply Hc|]. intros d2 Hc2 _ Et Ei2.
  pose proof (calm_defined d Hc) as Hu.
  destruct (thread_ d) eqn:E; try done; [eapply ends_weaken, (halt_ends i); [lia|done..]|by apply (join_ends i)|eapply ends_weaken, (halt_ends i); [lia|done..]].
Qed.

Lemma check_ends i d : calm d -> thread_ d <> T_joining -> killers d !! i = Some (K_stop S_check) -> ends 6 d.
Proof.
  intros Hc Ht Ei. eapply (killer_ends 5 i); [done|done|reflexivity|apply Hc|]. intros d2 Hc2 Hr Et Ei2.
  destruct (running d) eqn:E; [apply (joinable_ends i); [done|by rewrite Et|done]|].
  eapply ends_weaken, (shutdown_ends i); [lia|done..].
Qed.

(** The worker, past the join. *)
Lemma worker_ends d : calm d -> (worker d = W_shutdown -> running d = false) ->
  worker d = W_stop S_joining \/ worker d = W_stop S_halt \/ worker d = W_shutdown -> ends 3 d.
Proof.
  assert (forall d, calm d -> worker d = W_shutdown -> running d = false -> ends 1 d) as H1.
  { intros d0 (Ha & Hb & _) Hw Hr. eapply ends_step; [done|apply step_worker; unfold worker_step; by rewrite Hw|].
    eexists. split; [apply bsteps_refl|by split_and!]. }
  assert (forall d, calm d -> worker d = W_stop S_halt -> ends 2 d) as H2.
  { intros d0 Hc Hw. eapply ends_step; [apply Hc|apply step_worker; unfold worker_step; by rewrite Hw|].
    apply H1; [|done|done]. exact Hc. }
  intros Hc Hr [Hw|[Hw|Hw]].
  - eapply ends_step; [apply Hc|apply step_worker; unfold worker_step; rewrite Hw; cbn [stop_step]; by rewrite (proj2 (proj2 (proj2 Hc)))|].
    apply H2; [|done]. destruct Hc as (Ha & Hb & Hd & Hrd). split_and!; try done. unfold alive. cbn. by rewrite Hd.
  - eapply ends_weaken, H2; [lia|done..].
  - eapply ends_weaken, H1; [lia|done|done|by apply Hr].
Qed.

(** Whoever the reader's handle leaves in charge. *)
Lemma calm_ends ready d : dinv ready d -> joins d -> calm d -> killers d <> [] -> ends 6 d.
Proof.
  intros I [J1 J2 _ J4] Hc Hk. pose proof (J4 (or_intror Hk)) as Hnn. pose proof Hc as (Ha & Hb & Hd & Hr).
  assert (forall i k, killers d !! i = Some k -> past_join k -> ends 6 d) as Hpast.
  { intros i [[]| |] Ei Hp; try done.
    - eapply ends_weaken, (halt_ends i); [lia|done..].
    - eapply ends_weaken, (shutdown_ends i); [lia|done| |done].
      apply (di_stopped _ _ I). left. by eapply list_elem_of_lookup_2.
    - assert (K_done ∈ killers d) as Hin by (by eapply list_elem_of_lookup_2).
      exists d. split; [apply bsteps_refl|]. split_and!; [apply (di_stopped _ _ I); by right|done|apply (di_down _ _ I); by left]. }
  destruct (killers d) as [|k ks] eqn:Eks; [done|]. assert (killers d !! 0%nat = Some k) as E0 by (by rewrite Eks).
  rewrite <- Eks in *. clear Eks Hk.
  destruct (thread_ d) eqn:Et.
  - done.
  - destruct k as [[]| |]; try (by eapply (Hpast 0%nat)).
    + apply (check_ends 0); [done|by rewrite Et|done].
    + eapply ends_weaken, (joinable_ends 0); [lia|done|by rewrite Et|done].
    + eapply ends_weaken, (join_ends 0); [lia|done..].
    + eapply ends_weaken, (joining_ends 0); [lia|done..].
  - destruct (J1 eq_refl Hd) as [[i Ei]|Hw].
    + eapply ends_weaken, (joining_ends i); [lia|done..].
    + eapply ends_weaken, worker_ends; [lia|done|by rewrite Hw|by left].
  - destruct (J2 eq_refl Hd) as [_ [(i & k' & Ei & Hp)|Hw]]; [by eapply Hpast|].
    unfold worker_past in Hw. destruct (worker d) as [| | | | |[]| | |] eqn:Ew; try done.
    + eapply ends_weaken, worker_ends; [lia|done|by rewrite Ew|right; by left].
    + eapply ends_weaken, worker_ends; [lia|done|done|by right; right].
    + exists d. split; [apply bsteps_refl|]. split_and!; [done|done|apply (di_down _ _ I); by right].
  - by destruct (calm_defined d Hc).
Qed.

End Kill.

(** ** Properties *)

(** C7: a kill can be completed.  In every state the daemon can reach in which the fast path has
    been taken, the main thread still waits and no two callers of [stop] have
    joined the same reader ([alive]), eleven steps of the reader, the worker and a detached
    thread can lead to a state in which the machine is not running and the
    shutdown is requested; and from there on both stay so whatever the threads do.  (The steps include the
    end of the guest's stream and the framework's stopping of the machine.) *)
Theorem kill_completes `{HwyTarget} `{Host} perf env buffers g pe d :
  buffers_ok 128 buffers -> malloc_ok = true ->
  PolicyEngine_new true None (ApexEngine_new perf env buffers) = Some (g, pe) ->
  rtc daemon_step (daemon_new pe) d -> killing d -> alive d = true -> destructor d = D_none ->
  exists d', bsteps daemon_step 11 d d' /\
    forall d'', rtc daemon_step d' d'' -> running d'' = false /\ booting d'' = false /\ g_shutdown d'' = true.
Proof.
  intros Hb Hm Hnew Hs Hk Ha Hd. pose proof (policy_daemon_inv perf env buffers g pe d Hb Hm Hnew Hs) as I.
  destruct (killing_gets_out d Ha Hk) as (d1 & H1 & Hr & Hk1 & Ha1 & Hd1).
  assert (rtc daemon_step (daemon_new pe) d1) as Hs1 by (etrans; [exact Hs|apply rtc_bsteps; by exists 5%nat]).
  pose proof (policy_daemon_inv perf env buffers g pe d1 Hb Hm Hnew Hs1) as I1.
  assert (joins d1) as J1.
  { clear -Hb Hm Hnew Hs1. revert d1 Hs1. apply rtc_ind_r; [apply joins_new|]. intros d1 d2 Hs1 H12 J.
    eapply joins_step; [by eapply policy_daemon_inv|exact J|exact H12]. }
  destruct (calm_ends _ d1 I1 J1) as (d' & H2 & He); [|done|].
  { split_and!; [congruence| |congruence|done]. apply (di_booted _ _ I1). right. by left. }
  exists d'. split; [exact (bsteps_trans 5 6 _ _ _ H1 H2)|]. intros d'' Hs''. by apply (ended_steps d').
Qed.

#[local] Existing Instance hwy_neon.

Lemma kill_completes_witness :
  exists g pe d, PolicyEngine_new true None (ApexEngine_new None None demo_buffers) = Some (g, pe) /\
    demo_alarm (daemon_new pe) = Some d /\
    exists d', bsteps daemon_step 11 d d' /\
      forall d'', rtc daemon_step d' d'' -> running d'' = false /\ booting d'' = false /\ g_shutdown d'' = true.
Proof.
  destruct (policy_new None None demo_buffers (buffers_ok_replicate 128)) as (g & pe & E & _ & Ht).
  assert (match demo_alarm (daemon_new pe) with
          | Some d => match reader d, destructor d with R_report _ _, D_none => alive d | _, _ => false end
          | None => false
          end = true) as Hd.
  { destruct pe as [e tree]. cbn [process_tree_] in Ht. subst tree. generalize e. intros e'. by vm_compute. }
  destruct (demo_alarm (daemon_new pe)) as [d|] eqn:Er; [|discriminate Hd].
  assert (killing d /\ alive d = true /\ destructor d = D_none) as (Hk & Ha & Hn).
  { destruct (reader d) eqn:E1, (destructor d) eqn:E2; try discriminate Hd. split; [right; rewrite E1; exact I|by split]. }
  exists g, pe, d. split; [exact E|]. split; [exact Er|].
  exact (kill_completes None None demo_buffers g pe d (buffers_ok_replicate 128) eq_refl E (demo_alarm_reachable _ _ Er) Hk Ha Hn).
Defined.

(** ** Two callers of [stop]

    A second violation before the machine has stopped starts a second
    detached thread, and both join the reader. *)

Definition demo_double (d : daemon) : option daemon :=
  d ← demo_alarm d; d ← go reader_step d; d ← go reader_step d; d ← go reader_step d;
  d ← go (classify demo_open) d; d ← go reader_step d; d ← go reader_step d; d ← go reader_step d; d ← go reader_step d;
  d ← go (killer_step 0) d; d ← go (killer_step 0) d; d ← go (killer_step 1) d; d ← go (killer_step 1) d;
  d ← go (killer_step 0) d; go (killer_step 1) d.

Lemma demo_double_reachable d d' : demo_double d = Some d' -> rtc daemon_step d d'.
Proof.
  destruct demo_events_ok as [_ H2]. unfold demo_double. intros Hd.
  destruct (demo_alarm d) as [d1|] eqn:E; [|discriminate Hd]. rewrite bind_Some in Hd. etrans; [by apply demo_alarm_reachable|].
  do 3 run_step Hd step_reader. run_step Hd (step_classify demo_open); [exact H2|]. do 4 run_step Hd step_reader.
  do 2 run_step Hd (step_killer 0). do 2 run_step Hd (step_killer 1). run_step Hd (step_killer 0).
  apply rtc_once. eapply go_step, Hd. apply step_killer.
Qed.

Lemma double_join : exists g pe d, PolicyEngine_new true None (ApexEngine_new None None demo_buffers) = Some (g, pe) /\
  rtc daemon_step (daemon_new pe) d /\ thread_ d = T_undefined.
Proof.
  destruct (policy_new None None demo_buffers (buffers_ok_replicate 128)) as (g & pe & E & _ & Ht).
  assert (match demo_double (daemon_new pe) with
          | Some d => match thread_ d with T_undefined => true | _ => false end
          | None => false
          end = true) as Hd.
  { destruct pe as [e tree]. cbn [process_tree_] in Ht. subst tree. generalize e. intros e'. by vm_compute. }
  destruct (demo_double (daemon_new pe)) as [d|] eqn:Er; [|discriminate Hd].
  exists g, pe, d. split; [exact E|]. split; [by apply demo_double_reachable|]. by destruct (thread_ d).
Qed.
