(* ===== verification/CApi.v ===== *)
(** * The C interface
      (include/apex/apex_c_api.h, src/api/aarchgate_c_api.cpp)

    Handles to engines, a global pool of expression nodes, and functions that
    check their pointers before they call the engine.  A [world] is the
    program's state: the pool and the live engines.  The result [None] is
    undefined behaviour (a handle that is not live, a null name); a null
    argument the function checks for gives the error code.  [char*] and data
    pointers are options. *)

From S2P Require Import Prelude Planes BitSlicer IR Registry A64 KernelCall Rows Columns Runner Engine.

Record world := mkWorld {
  g_pool : option NodePool;
  engines : gmap nat ApexEngine
}.

Abbreviation handle := (option nat).

(** [(uint64_t)-1] *)
Definition error_count : Z := 2 ^ 64 - 1.

Record apex_field_descriptor_t := mkCField {
  cf_name : option string;
  cf_offset : Z;           (* size_t *)
  cf_bit_width : Z;        (* size_t *)
  cf_data_type : Z         (* int *)
}.

Section CApi.
Context {T : HwyTarget} {H : Host}.
(** Whether the pool's storage and a new engine can be had. *)
Variables (pool_ok new_ok : bool).
(** What the engine's constructor finds: the number of performance cores, APEX_THREADS. *)
Variables (perf_cores : option Z) (env_threads : option string) (buffers : list buffer).
(** A [DataType] without a name. *)
Variable unnamed : Z -> DataType.

Definition apex_create (w : world) : world * handle :=
  let pool := ensure_pool pool_ok (g_pool w) in
  if new_ok then
    let h := fresh (dom (engines w)) in
    (mkWorld (Some pool) (<[h := ApexEngine_new perf_cores env_threads buffers]> (engines w)), Some h)
  else (mkWorld (Some pool) (engines w), None).

Definition apex_destroy (h : handle) (w : world) : option world :=
  match h with
  | None => Some w
  | Some h => _ ← engines w !! h; Some (mkWorld (g_pool w) (delete h (engines w)))
  end.

Definition data_type (n : Z) : DataType :=
  match n mod 256 with
  | 0 => UINT64 | 1 => INT64 | 2 => UINT32 | 3 => INT32 | 4 => FLOAT64
  | n => unnamed n
  end.

Definition uint32 (x : Z) : nat := Z.to_nat (x mod 2 ^ 32).

(** [std::string(nullptr)] is undefined. *)
Definition cpp_field (f : apex_field_descriptor_t) : option FieldDescriptor :=
  name ← cf_name f;
  Some (mkField name (uint32 (cf_offset f)) (uint32 (cf_bit_width f)) (data_type (cf_data_type f))).

Definition apex_register_schema (h : handle) (schema_name : option string) (fields : option (list apex_field_descriptor_t))
    (num_fields stride : nat) (w : world) : option (world * Z) :=
  match h, schema_name, fields with
  | Some h, Some schema_name, Some fields =>
      e ← engines w !! h;
      cpp_fields ← mfold (fun i l => f ← fields !! i; f ← cpp_field f; Some (l ++ [f])) (seq 0 num_fields) [];
      Some (mkWorld (g_pool w) (<[h := engine_register_schema schema_name cpp_fields stride e]> (engines w)), 0)
  | _, _, _ => Some (w, -1)
  end.

Definition exec_mode (mode : Z) : ExecutionMode :=
  if mode =? 1 then SCALAR else if mode =? 2 then GPU_THROUGHPUT else BIT_SLICED.

Definition apex_set_logic (h : handle) (schema_name : option string) (ir_root_ptr : ptr) (mode : Z) (w : world) : option (world * Z) :=
  match h, schema_name, ir_root_ptr with
  | Some h, Some schema_name, Some root =>
      e ← engines w !! h;
      '(ns, e) ← set_expression schema_name (Some root) (exec_mode mode) (pool_of (g_pool w), e);
      Some (mkWorld ((fun p => mkPool (storage_ok p) ns) <$> g_pool w) (<[h := e]> (engines w)), 0)
  | _, _, _ => Some (w, -1)
  end.

Definition apex_execute (h : handle) (data_ptr : option (list Z)) (count : nat) (w : world) : option (world * Z) :=
  match h, data_ptr with
  | Some h, Some data =>
      e ← engines w !! h;
      '(r, e) ← execute data count e;
      Some (mkWorld (g_pool w) (<[h := e]> (engines w)), r)
  | _, _ => Some (w, error_count)
  end.

Definition apex_execute_parallel (stack : nat * nat -> list buffer) (clock : nat * nat -> Z * Z) (h : handle)
    (data_ptr : option (list Z)) (count : nat) (num_threads : Z) (w : world) : option (world * Z) :=
  match h, data_ptr with
  | Some h, Some data =>
      e ← engines w !! h;
      '(r, e) ← execute_parallel stack clock data count num_threads e;
      Some (mkWorld (g_pool w) (<[h := e]> (engines w)), r)
  | _, _ => Some (w, error_count)
  end.

(** ** Builders *)

(** A builder on the global pool. *)
Definition with_pool (b : option NodePool -> option NodePool * ptr) (w : world) : world * ptr :=
  let '(g, p) := b (g_pool w) in (mkWorld g (engines w), p).

Definition apex_create_universal_test_logic : world -> world * ptr := with_pool (fun g =>
  let '(g, f0) := Load pool_ok "Field0" g in
  let '(g, f1) := Load pool_ok "Field1" g in
  let '(g, sum) := Add pool_ok f0 f1 g in
  let '(g, f2) := Load pool_ok "Field2" g in
  GT pool_ok sum f2 g).

Definition apex_create_simple_logic : world -> world * ptr := with_pool (fun g =>
  let '(g, f0) := Load pool_ok "Field0" g in
  let '(g, c10) := Const pool_ok 10 g in
  GT pool_ok f0 c10 g).

Definition apex_builder_load (name : option string) (w : world) : option (world * ptr) :=
  name ← name; Some (with_pool (Load pool_ok name) w).
Definition apex_builder_const (value : Z) : world -> world * ptr := with_pool (Const pool_ok value).
Definition apex_builder_add (a b : ptr) : world -> world * ptr := with_pool (Add pool_ok a b).
Definition apex_builder_gt (a b : ptr) : world -> world * ptr := with_pool (GT pool_ok a b).
Definition apex_builder_ge (a b : ptr) : world -> world * ptr := with_pool (GE pool_ok a b).
Definition apex_builder_lt (a b : ptr) : world -> world * ptr := with_pool (LT pool_ok a b).
Definition apex_builder_and (a b : ptr) : world -> world * ptr := with_pool (And pool_ok a b).
Definition apex_builder_select (c a b : ptr) : world -> world * ptr := with_pool (Select pool_ok c a b).
Definition apex_builder_not (a : ptr) : world -> world * ptr := with_pool (Not pool_ok a).

(** The first [count] pointers of the array. *)
Definition apex_builder_sum (operands : list ptr) (count : nat) (w : world) : option (world * ptr) :=
  nodes ← mfold (fun i l => p ← operands !! i; Some (l ++ [p])) (seq 0 count) [];
  Some (with_pool (Sum pool_ok nodes) w).

Definition apex_builder_set_weight (node : ptr) (weight : Z) (w : world) : world :=
  match node with
  | None => w
  | Some i => mkWorld ((fun p => mkPool (storage_ok p) (alter (set_weight weight) i (nodes p))) <$> g_pool w) (engines w)
  end.

End CApi.
