(* ===== verification/CApiProps.v ===== *)
(** * The C interface is the engine

    A query through the C interface counts the rows of the expression and
    leaves the other engines alone. *)

From S2P Require Import Prelude Planes BitSlicer IR Registry A64 Circuits Analyzer ExprCompiler ExprCorrect.
From S2P Require Import ExprKernel ExprProps ExprTotal KernelCall Rows Columns Runner RunnerCorrect.
From S2P Require Import Engine EngineCorrect SetExpression EngineDemo EngineProps CApi.

(** C36: a query through the C interface.  For a live handle whose engine has no
    expression yet, [apex_set_logic] with the root of a boolean expression without subtraction
    over declared fields, in a mode other than 1 (scalar) and 2 (GPU), whose compilation succeeds, returns 0, and
    [apex_execute] on fewer rows than the error code then returns the number of
    rows on which it is true, never the error code; no other handle's engine changes. *)
Theorem c_api_counts `{HwyTarget} `{Host} w h e s r mode ns1 pools1 code b meta data n :
  engines w !! h = Some e -> mode <> 1 -> mode <> 2 -> engine_ok e ->
  wf_nodes (pool_of (g_pool w)) -> clean (pool_of (g_pool w)) r -> denB (pool_of (g_pool w)) r b -> no_subB b = true ->
  fields_registered (registry_ e) s (pool_of (g_pool w)) r ->
  compile_expression (Some r) 64 (pool_of (g_pool w)) (const_pools e) = (ns1, pools1, Kernel code) ->
  expr_logic_ e = ∅ -> malloc_ok = true -> schema_metadata_ e !! s = Some meta ->
  schema_fits (registry_ e) s (sm_row_stride meta) data n -> Z.of_nat n < error_count ->
  exists w1 w2 count,
    apex_set_logic (Some h) (Some s) (Some r) mode w = Some (w1, 0) /\
    apex_execute (Some h) (Some data) n w1 = Some (w2, count) /\
    count = zsum n (fun q => Z.b2z (beval (schema_row (registry_ e) s (sm_row_stride meta) data q) b)) /\ count <> error_count /\
    forall h', h' <> h -> engines w2 !! h' = engines w !! h'.
Proof.
  intros Hh Hm1 Hm2 He Hwf Hcl Hb Hns Hreg Hcomp Hno Hok Hm Hfit Hn.
  destruct (set_expression_mask_logic s r (pool_of (g_pool w)) e ns1 pools1 code b) as (L & E & _ & Hbits & HL & Hf & Hok'); try done.
  set (row := schema_row (registry_ e) s (sm_row_stride meta) data).
  assert (Z.of_nat n < 2 ^ 64) as Hn' by (unfold error_count in Hn; lia).
  destruct (stored_returns s _ ns1 L pools1 e meta (fun row => Z.b2z (beval row b)) data n E Hno Hok Hm Hfit HL Hbits Hf Hok')
    as (ns' & e' & bufs & E' & Ex & _ & _).
  rewrite E in E'. injection E' as <- <-. fold row in Ex. cbv beta in Ex. rewrite (count_bound n (fun q => beval (row q) b) Hn') in Ex.
  eexists _, _, _. split; [|split; [|split; [|split]]].
  - unfold apex_set_logic, exec_mode. rewrite Hh, bind_Some. apply Z.eqb_neq in Hm1, Hm2. rewrite Hm1, Hm2, E, bind_Some. exact eq_refl.
  - unfold apex_execute. cbn [engines g_pool]. rewrite lookup_insert_eq, bind_Some, Ex, bind_Some. exact eq_refl.
  - exact eq_refl.
  - cut (zsum n (fun q => Z.b2z (beval (row q) b)) <= Z.of_nat n); [unfold row; lia|].
    transitivity (zsum n (fun _ => 1)); [|rewrite zsum_const; lia]. apply zsum_le. intros q. by destruct (beval (row q) b).
  - intros h' Hne. cbn [engines]. by rewrite !lookup_insert_ne.
Qed.

#[local] Existing Instance hwy_neon.

(** The query of the interface's own test: [(Field0 + Field1) > Field2]. *)
Definition test_fields : list apex_field_descriptor_t :=
  [mkCField (Some "Field0") 0 64 0; mkCField (Some "Field1") 8 64 0; mkCField (Some "Field2") 16 64 0].

Definition test_engine : ApexEngine :=
  engine_register_schema "test" [mkField "Field0" 0 64 UINT64; mkField "Field1" 8 64 UINT64; mkField "Field2" 16 64 UINT64] 24
    (ApexEngine_new None None demo_buffers).

Definition test_nodes : list Node := Eval vm_compute in
  pool_of (g_pool (apex_create_universal_test_logic true (mkWorld (Some (IR.mkPool true [])) ∅)).1).

Definition test_world : world := mkWorld (Some (IR.mkPool true test_nodes)) {[0%nat := test_engine]}.

(** The calls that lead to it. *)
Lemma test_world_eq :
  let w := mkWorld None ∅ in
  exists w1 w2, apex_create true true None None demo_buffers w = (w1, Some 0%nat) /\
    apex_register_schema (fun _ => UINT64) (Some 0%nat) (Some "test") (Some test_fields) 3 24 w1 = Some (w2, 0) /\
    apex_create_universal_test_logic true w2 = (test_world, Some 4%nat).
Proof.
  assert (fresh (dom (∅ : gmap nat ApexEngine)) = 0%nat) as Hf by (by vm_compute).
  do 2 eexists. unfold apex_create. cbn [g_pool engines ensure_pool]. rewrite Hf. split; [reflexivity|]. split.
  - unfold apex_register_schema. cbn [engines g_pool]. rewrite lookup_insert_eq, bind_Some. cbn. reflexivity.
  - unfold apex_create_universal_test_logic, with_pool, test_world. cbn [g_pool engines].
    rewrite insert_insert_eq, insert_empty. reflexivity.
Qed.

Definition test_out : list Node * ConstPool.t * compiled := compile_expression (Some 4%nat) 64 test_nodes ∅.

Definition test_bexp : bexp := BCmp C_GT (AAdd (ALoad "Field0") (ALoad "Field1")) (ALoad "Field2").

Lemma test_engine_ok : engine_ok test_engine.
Proof.
  split; [|apply pools_empty_wf|apply buffers_ok_replicate].
  apply (register_schema_ok ∅). intros s f d Hd. unfold get_field in Hd. by rewrite lookup_empty in Hd.
Qed.

Lemma test_den : denB test_nodes 4 test_bexp.
Proof.
  eapply (denB_cmp _ C_GT _ _ 2 3); [reflexivity..| |].
  - eapply (denA_add _ _ _ 0 1); [reflexivity..| |].
    + exact (denA_load test_nodes 0 _ eq_refl eq_refl eq_refl).
    + exact (denA_load test_nodes 1 _ eq_refl eq_refl eq_refl).
  - exact (denA_load test_nodes 3 _ eq_refl eq_refl eq_refl).
Qed.

Lemma test_field_offset f d : get_field (registry_ test_engine) "test" f = Some d -> (offset d <= 16)%nat.
Proof.
  intros Hd. assert (get_field (registry_ test_engine) "test" f =
    first_named f [mkField "Field0" 0 64 UINT64; mkField "Field1" 8 64 UINT64; mkField "Field2" 16 64 UINT64]) as E
    by (by apply (register_schema_new ∅ "test")).
  rewrite E in Hd. cbn [first_named name] in Hd. repeat case_decide; try done; injection Hd as <-; cbn [offset]; lia.
Qed.

Definition test_data : list Z := replicate 48 1.

Lemma test_fits : schema_fits (registry_ test_engine) "test" 24 test_data 2.
Proof.
  split; [by apply Forall_replicate|]. intros f d r Hd%test_field_offset Hr. unfold test_data. rewrite length_replicate. lia.
Qed.

Lemma c_api_counts_witness :
  exists w1 w2 count,
    apex_set_logic (Some 0%nat) (Some "test") (Some 4%nat) 0 test_world = Some (w1, 0) /\
    apex_execute (Some 0%nat) (Some test_data) 2 w1 = Some (w2, count) /\
    count = zsum 2 (fun q => Z.b2z (beval (schema_row (registry_ test_engine) "test" 24 test_data q) test_bexp)) /\
    count <> error_count /\ forall h', h' <> 0%nat -> engines w2 !! h' = engines test_world !! h'.
Proof.
  apply (c_api_counts test_world 0 test_engine "test" 4 0 test_out.1.1 test_out.1.2 (kernel_of test_out.2) test_bexp
    (mkMetadata 24 [mkField "Field0" 0 64 UINT64; mkField "Field1" 8 64 UINT64; mkField "Field2" 16 64 UINT64]) test_data 2).
  - cbn [test_world engines]. apply lookup_singleton_eq.
  - done.
  - done.
  - apply test_engine_ok.
  - apply wf_nodesb_spec. by vm_compute.
  - apply cleanb_spec. by vm_compute.
  - apply test_den.
  - reflexivity.
  - apply registeredb_spec; [by vm_compute|apply Nat.ltb_lt; by vm_compute|by vm_compute].
  - apply out_eq. by vm_compute.
  - reflexivity.
  - reflexivity.
  - cbn [test_engine engine_register_schema schema_metadata_]. apply lookup_insert_eq.
  - apply test_fits.
  - unfold error_count. lia.
Defined.
