(* ===== verification/Bindings.v ===== *)
(** * The Python and Java bindings
      (bindings/python/aarchgate_pybind.cpp, bindings/java/aarchgate_jni.cpp)

    Both convert their arguments and call the C interface of CApi.v, or for
    the functions it lacks the engine.  Python objects and their casts are
    pybind11's ([Pybind]); a failing cast raises.  The values that come from the
    Java virtual machine are arguments.  [None] is undefined behaviour, an
    exception is a value. *)

From S2P Require Import Prelude Planes BitSlicer IR Registry A64 KernelCall Rows Columns Runner Engine CApi.

(** ** Python *)

Class Pybind := {
  object : Type;
  cast_tuple : object -> option (list object);
  cast_string : object -> option string;
  cast_size_t : object -> option Z;
  cast_int : object -> option Z;
  cast_capsule : object -> option nat;     (* its pointer, never null *)
  make_capsule : nat -> object
}.

Inductive py_error := Cast_error | Index_error | Null_capsule | Runtime_error (what : string).

Inductive outcome (A : Type) := Returns (a : A) | Raises (e : py_error).
Arguments Returns {A} _.
Arguments Raises {A} _.

#[global] Instance outcome_ret : MRet outcome := fun A a => Returns a.
#[global] Instance outcome_fmap : FMap outcome := fun A B f m => match m with Returns a => Returns (f a) | Raises e => Raises e end.
#[global] Instance outcome_bind : MBind outcome := fun A B f m => match m with Returns a => f a | Raises e => Raises e end.

Definition or_raise {A} (e : py_error) (x : option A) : outcome A := match x with Some a => Returns a | None => Raises e end.

Section Python.
Context {T : HwyTarget} {H : Host} {P : Pybind}.
Variable unnamed : Z -> DataType.
(** Whether [data()] of an empty vector is a pointer. *)
Variable empty_data : bool.

Definition vector_data {A} (l : list A) : option (list A) :=
  match l with [] => if empty_data then Some [] else None | _ => Some l end.

(** [PyApexEngine()] and its destructor. *)
Definition PyApexEngine (pool_ok new_ok : bool) (perf_cores : option Z) (env_threads : option string) (buffers : list buffer) :
  world -> world * handle := apex_create pool_ok new_ok perf_cores env_threads buffers.
Definition PyApexEngine_delete (h : handle) (w : world) : option world := apex_destroy h w.

(** One element of the list of fields: a tuple of four. *)
Definition py_field (item : object) : outcome apex_field_descriptor_t :=
  tuple ← or_raise Cast_error (cast_tuple item);
  x ← or_raise Index_error (tuple !! 0%nat); name ← or_raise Cast_error (cast_string x);
  x ← or_raise Index_error (tuple !! 1%nat); offset ← or_raise Cast_error (cast_size_t x);
  x ← or_raise Index_error (tuple !! 2%nat); width ← or_raise Cast_error (cast_size_t x);
  x ← or_raise Index_error (tuple !! 3%nat); type ← or_raise Cast_error (cast_int x);
  Returns (mkCField (Some name) offset width type).

Definition py_register_schema (h : handle) (name : string) (fields_list : list object) (stride : nat) (w : world) :
    option (world * outcome unit) :=
  match mapM py_field fields_list with
  | Raises e => Some (w, Raises e)
  | Returns fields =>
      '(w, r) ← apex_register_schema unnamed h (Some name) (vector_data fields) (length fields) stride w;
      Some (w, if r =? 0 then Returns tt else Raises (Runtime_error "Failed to register schema"))
  end.

Definition py_set_logic (h : handle) (schema_name : string) (ir_root : object) (mode : Z) (w : world) : option (world * outcome unit) :=
  match cast_capsule ir_root with
  | None => Some (w, Raises Cast_error)
  | Some root =>
      '(w, r) ← apex_set_logic h (Some schema_name) (Some root) mode w;
      Some (w, if r =? 0 then Returns tt else Raises (Runtime_error "Failed to set logic"))
  end.

(** The buffer's pointer; its size is not looked at. *)
Definition py_execute (h : handle) (b : option (list Z)) (count : nat) (w : world) : option (world * Z) := apex_execute h b count w.

Definition py_execute_parallel (stack : nat * nat -> list buffer) (clock : nat * nat -> Z * Z) (h : handle) (b : option (list Z))
    (count : nat) (num_threads : Z) (w : world) : option (world * Z) :=
  apex_execute_parallel stack clock h b count num_threads w.

(** The engine behind the handle, which is not tested, and a copy of [count] doubles. *)
Definition py_execute_batch (h : handle) (b : list Z) (count : nat) (precision_multiplier : double) (w : world) :
    option (world * list double) :=
  h ← h; e ← engines w !! h;
  '(preds, e) ← execute_vector b count precision_multiplier e;
  if (length preds <? count)%nat then None
  else Some (mkWorld (g_pool w) (<[h := e]> (engines w)), take count preds).

Definition py_execute_native (h : handle) (schema_name : string) (b : list Z) (num_blocks : nat) (w : world) : option Z :=
  h ← h; e ← engines w !! h; execute_native schema_name b num_blocks e.

Definition py_execute_native_parallel (h : handle) (schema_name : string) (b : list Z) (num_blocks : nat) (num_threads : Z)
    (w : world) : option Z :=
  h ← h; e ← engines w !! h; execute_native_parallel schema_name b num_blocks num_threads e.

(** ** Python: builders *)

(** [py::capsule(p)] raises for a null pointer. *)
Definition py_capsule (x : world * ptr) : world * outcome object := (x.1, make_capsule <$> or_raise Null_capsule x.2).

Definition unary (f : ptr -> world -> world * ptr) (a : object) (w : world) : world * outcome object :=
  match cast_capsule a with
  | Some a => py_capsule (f (Some a) w)
  | None => (w, Raises Cast_error)
  end.

Definition binary (f : ptr -> ptr -> world -> world * ptr) (a b : object) (w : world) : world * outcome object :=
  match cast_capsule a with
  | Some a => unary (f (Some a)) b w
  | None => (w, Raises Cast_error)
  end.

Variable pool_ok : bool.

Definition py_builder_load (name : string) (w : world) : option (world * outcome object) :=
  x ← apex_builder_load pool_ok (Some name) w; Some (py_capsule x).
Definition py_builder_const (value : Z) (w : world) : world * outcome object := py_capsule (apex_builder_const pool_ok value w).
Definition py_builder_add : object -> object -> world -> world * outcome object := binary (apex_builder_add pool_ok).
Definition py_builder_gt : object -> object -> world -> world * outcome object := binary (apex_builder_gt pool_ok).
Definition py_builder_ge : object -> object -> world -> world * outcome object := binary (apex_builder_ge pool_ok).
Definition py_builder_lt : object -> object -> world -> world * outcome object := binary (apex_builder_lt pool_ok).
Definition py_builder_and : object -> object -> world -> world * outcome object := binary (apex_builder_and pool_ok).
Definition py_builder_not : object -> world -> world * outcome object := unary (apex_builder_not pool_ok).

Definition py_builder_select (cond a b : object) (w : world) : world * outcome object :=
  match cast_capsule cond with
  | Some cond => binary (apex_builder_select pool_ok (Some cond)) a b w
  | None => (w, Raises Cast_error)
  end.

Definition py_builder_set_weight (node : object) (weight : Z) (w : world) : world * outcome unit :=
  match cast_capsule node with
  | Some node => (apex_builder_set_weight (Some node) weight w, Returns tt)
  | None => (w, Raises Cast_error)
  end.

(** Operands that are no capsules are skipped. *)
Definition py_builder_sum (operands : list object) (w : world) : option (world * outcome object) :=
  let nodes := Some <$> omap cast_capsule operands in
  x ← apex_builder_sum pool_ok nodes (length nodes) w; Some (py_capsule x).

End Python.

(** ** Java *)

(** A field descriptor object; a string's characters may be unavailable. *)
Record jni_field := mkJniField { jf_name : option string; jf_offset : Z; jf_bitWidth : Z; jf_dataType : Z }.

Section Java.
Context {T : HwyTarget} {H : Host}.
Variable unnamed : Z -> DataType.
Variable empty_data : bool.

Definition nativeCreate (pool_ok new_ok : bool) (perf_cores : option Z) (env_threads : option string) (buffers : list buffer) :
  world -> world * handle := apex_create pool_ok new_ok perf_cores env_threads buffers.
Definition nativeCreateUniversalTestLogic (pool_ok : bool) : world -> world * ptr := apex_create_universal_test_logic pool_ok.
Definition nativeDestroy (h : handle) (w : world) : option world := apex_destroy h w.

(** A [jlong] becomes a [size_t]. *)
Definition nativeRegisterSchema (h : handle) (name : option string) (fields : list jni_field) (stride : Z) (w : world) :
    option (world * Z) :=
  c_fields ← mapM (fun f => n ← jf_name f; Some (mkCField (Some n) (wrap64 (jf_offset f)) (wrap64 (jf_bitWidth f)) (jf_dataType f))) fields;
  apex_register_schema unnamed h name (vector_data empty_data c_fields) (length c_fields) (Z.to_nat (wrap64 stride)) w.

Definition nativeSetLogic (h : handle) (schemaName : option string) (irRootPtr : ptr) (mode : Z) (w : world) : option (world * Z) :=
  apex_set_logic h schemaName irRootPtr mode w.

(** The count comes back as a [jlong]; a buffer without an address is -1. *)
Definition nativeExecute (h : handle) (data : option (list Z)) (count : Z) (w : world) : option (world * Z) :=
  match data with
  | None => Some (w, -1)
  | Some buffer => '(w, r) ← apex_execute h (Some buffer) (Z.to_nat (wrap64 count)) w; Some (w, sint64 r)
  end.

End Java.

(** ** The bindings are the interface *)

Section Laws.
Context {T : HwyTarget} {H : Host} {P : Pybind}.

(** Every loop of [execute_vector] only updates the results in place. *)
Lemma vector_chunks_length L data mult stride n l st results bufs :
  mfold (vector_chunk L data mult stride n) l st = Some (results, bufs) -> length results = length st.1.
Proof.
  revert st. induction l as [|c l IH]; intros [rs bs]; [by intros [= <- _]|]. cbn [mfold].
  destruct (vector_chunk L data mult stride n c (rs, bs)) as [[rs1 bs1]|] eqn:E; [|done]. rewrite bind_Some.
  intros ->%IH. cbn [fst]. unfold vector_chunk in E.
  destruct (process_chunk_expr _ _ _ _ _ _ _) as [[[mask pad] bs2]|]; [|done]. rewrite bind_Some in E.
  destruct (mfold _ _ rs) as [rs2|] eqn:Er; [|done]. rewrite bind_Some in E. injection E as <- _.
  clear -Er. revert rs Er. induction (seq 0 _) as [|r rest IH]; intros rs; [by intros [= ->]|]. cbn [mfold].
  destruct (vector_row L (c * 64 + r) mult mask pad r) as [v|]; [|done]. rewrite !bind_Some. intros ->%IH. by rewrite length_insert.
Qed.

Lemma execute_vector_length data n mult e results e' :
  execute_vector data n mult e = Some (results, e') -> length results = n.
Proof.
  unfold execute_vector. destruct (begin_ (expr_logic_ e)) as [[s L]|]; [|by intros [= <- _]; rewrite length_replicate].
  destruct (schema_metadata_ e !! s) as [meta|]; [|by intros [= <- _]; rewrite length_replicate].
  destruct malloc_ok; [|by intros [= <- _]; rewrite length_replicate]. cbn [negb].
  destruct (mfold _ _ _) as [[rs bufs]|] eqn:E; [|done]. rewrite bind_Some. intros [= <- _].
  apply vector_chunks_length in E. rewrite E. apply length_replicate.
Qed.

(** The copy of [py_execute_batch] stays inside the vector, and is all of it. *)
Lemma py_execute_batch_copies h b count mult w e :
  engines w !! h = Some e ->
  py_execute_batch (Some h) b count mult w =
    ('(preds, e) ← execute_vector b count mult e; Some (mkWorld (g_pool w) (<[h := e]> (engines w)), preds)).
Proof.
  intros Hh. unfold py_execute_batch. rewrite !bind_Some, Hh, bind_Some.
  destruct (execute_vector b count mult e) as [[preds e']|] eqn:E; [|done]. rewrite !bind_Some.
  apply execute_vector_length in E. rewrite (proj2 (Nat.ltb_ge _ _)) by lia. by rewrite take_ge by lia.
Qed.

Lemma cpp_fields_all unnamed cs fields :
  Forall2 (fun c f => cpp_field unnamed c = Some f) cs fields ->
  mfold (fun i l => f ← cs !! i; f ← cpp_field unnamed f; Some (l ++ [f])) (seq 0 (length cs)) [] = Some fields.
Proof.
  intros Hf. destruct (mfold_seq_rule (fun i l => f ← cs !! i; f ← cpp_field unnamed f; Some (l ++ [f]))
    (fun i l => l = take i fields) 0 (length cs) []) as (l & E & ->); [done| |].
  - intros i l Hi ->. destruct (lookup_lt_is_Some_2 cs i ltac:(lia)) as [c Hc].
    destruct (Forall2_lookup_l _ _ _ _ _ Hf Hc) as (f & Hfi & Ecf). exists (take (S i) fields).
    by rewrite Hc, bind_Some, Ecf, bind_Some, (take_S_r _ _ _ Hfi).
  - rewrite E. f_equal. apply take_ge. by rewrite (Forall2_length _ _ _ Hf).
Qed.

(** Tuples that cast to in-range descriptors register as the engine's fields. *)
Lemma py_register_fields unnamed empty_data h s items fields stride w e :
  engines w !! h = Some e -> items <> [] ->
  Forall2 (fun x f => exists a b c d, cast_tuple x = Some [a; b; c; d] /\ cast_string a = Some (name f) /\
    cast_size_t b = Some (Z.of_nat (offset f)) /\ cast_size_t c = Some (Z.of_nat (bit_width f)) /\
    exists t, cast_int d = Some t /\ data_type unnamed t = type f) items fields ->
  Forall (fun f => Z.of_nat (offset f) < 2 ^ 32 /\ Z.of_nat (bit_width f) < 2 ^ 32) fields ->
  py_register_schema unnamed empty_data (Some h) s items stride w =
    Some (mkWorld (g_pool w) (<[h := engine_register_schema s fields stride e]> (engines w)), Returns tt).
Proof.
  intros Hh Hne Hc Hr.
  assert (exists cs, mapM py_field items = Returns cs /\ Forall2 (fun c f => cpp_field unnamed c = Some f) cs fields) as (cs & Em & Hcs).
  { clear Hne. induction Hc as [|x f items fields Hx Hc IH]; [by exists []|]. apply Forall_cons in Hr as [[Ho Hw] Hr].
    destruct (IH Hr) as (cs & Em & Hcs). destruct Hx as (a & b & c & d & Et & Ea & Eb & Ec & t & Ed & Edt).
    exists (mkCField (Some (name f)) (Z.of_nat (offset f)) (Z.of_nat (bit_width f)) t :: cs). split.
    - change (mapM py_field (x :: items)) with (y ← py_field x; k ← mapM py_field items; mret (y :: k)).
      rewrite Em. unfold py_field. by rewrite Et; cbn; rewrite Ea; cbn; rewrite Eb; cbn; rewrite Ec; cbn; rewrite Ed.
    - constructor; [|done]. unfold cpp_field, uint32. cbn [cf_name cf_offset cf_bit_width cf_data_type]. rewrite bind_Some, Edt.
      rewrite !Z.mod_small by lia. rewrite !Nat2Z.id. by destruct f. }
  unfold py_register_schema. rewrite Em. unfold apex_register_schema.
  assert (vector_data empty_data cs = Some cs) as ->.
  { destruct cs; [|done]. apply Forall2_length in Hc, Hcs. destruct items; [done|]. cbn in *. lia. }
  rewrite Hh, !bind_Some, (cpp_fields_all unnamed cs fields Hcs), !bind_Some. done.
Qed.

End Laws.
