(* ===== verification/Guest.v ===== *)
(** * The guest: tracer and agent (src/guest/tracer.bpf.c, src/guest/agent.cpp)

    Three kernel hooks fill an event in the ring buffer, on the entry of
    [execve], [openat] and [connect]; the agent's polling loop takes the events out of the
    ring buffer and writes them to the socket whose other end is the reader of
    Vsock.v.

    The BPF helpers are code of the Linux kernel.  [Kernel] is their interface
    and [KernelLaws] what bpf-helpers(7) says of them; the ring buffer's
    memory is whatever it held before, so a hook works on a given old event.  The
    system calls of the agent (connect, write, poll) are given by their results. *)

From S2P Require Import Prelude IR Registry A64 Rows Vsock.

(** ** The kernel's helpers *)

(** The task that entered the system call. *)
Record hook_context := mkHook {
  hk_ktime : Z;                  (* bpf_ktime_get_ns() *)
  hk_pid_tgid : Z;               (* bpf_get_current_pid_tgid() *)
  hk_comm : list Z;              (* what bpf_get_current_comm writes into 32 bytes *)
  hk_parent : option Z;          (* real_parent and its tgid *)
  hk_args : nat -> Z             (* ctx->args *)
}.

Record sockaddr_in := mkSockaddr { sin_port : Z; s_addr : Z }.

Class Kernel := {
  user_string : hook_context -> Z -> option (list Z);     (* the string at a user address *)
  probe_read_user_str : hook_context -> Z -> list Z -> list Z;  (* the destination after the call *)
  probe_read_kernel : hook_context -> Z -> Z;             (* a short *)
  probe_read_user : hook_context -> Z -> sockaddr_in
}.

Class KernelLaws `{Kernel} : Prop := {
  kl_length : forall c a dst, length (probe_read_user_str c a dst) = length dst;
  kl_string : forall c a s dst, user_string c a = Some s -> (0 < length dst)%nat ->
    let s' := take (length dst - 1) s in probe_read_user_str c a dst = s' ++ 0 :: drop (S (length s')) dst;
  kl_chars : forall c a s, user_string c a = Some s -> Forall (fun x => x <> 0) s;
  kl_port : forall c a, 0 <= sin_port (probe_read_user c a) < 2 ^ 16;
  kl_addr : forall c a, 0 <= s_addr (probe_read_user c a) < 2 ^ 32
}.

(** ** The hooks *)

Definition AF_INET : Z := 2.
Definition AF_INET6 : Z := 10.

Definition fill_common (type : Z) (c : hook_context) (ev : SyscallEvent) : SyscallEvent :=
  mkEvent (hk_ktime c) (Z.shiftr (hk_pid_tgid c) 32) (match hk_parent c with Some tgid => wrap64 tgid | None => 0 end) type
    (hk_comm c) (ev_arg_str ev) (ev_ip_address ev) (ev_port ev) (ev_padding ev).

Definition set_arg_str (arg : list Z) (ev : SyscallEvent) : SyscallEvent :=
  mkEvent (ev_timestamp_ns ev) (ev_pid ev) (ev_ppid ev) (ev_event_type ev) (ev_comm ev) arg (ev_ip_address ev) (ev_port ev)
    (ev_padding ev).

(** [__builtin_memcpy] of a literal with its terminator over the beginning. *)
Definition memcpy_literal (s : string) (dst : list Z) : list Z :=
  chars (S (String.length s)) s ++ drop (S (String.length s)) dst.

(** The port from network to host byte order. *)
Definition host_port (raw_port : Z) : Z :=
  Z.land (Z.lor (Z.shiftl (Z.land raw_port 0xff) 8) (Z.shiftr (Z.land raw_port 0xff00) 8)) 0xffff.

Section Hooks.
Context {K : Kernel}.

(** The memory [bpf_ringbuf_reserve] returned, [None] when the buffer is full,
    and the event submitted. *)
Definition trace_execve (c : hook_context) (reserved : option SyscallEvent) : option SyscallEvent :=
  ev ← reserved;
  let ev := fill_common EVENT_EXEC c ev in
  Some (set_arg_str (probe_read_user_str c (hk_args c 0) (ev_arg_str ev)) ev).

Definition trace_openat (c : hook_context) (reserved : option SyscallEvent) : option SyscallEvent :=
  ev ← reserved;
  let ev := fill_common EVENT_OPEN c ev in
  Some (set_arg_str (probe_read_user_str c (hk_args c 1) (ev_arg_str ev)) ev).

Definition trace_connect (c : hook_context) (reserved : option SyscallEvent) : option SyscallEvent :=
  ev ← reserved;
  let ev := fill_common EVENT_CONNECT c ev in
  let addr := hk_args c 1 in
  Some (
    if addr =? 0 then ev
    else
      let family := probe_read_kernel c addr in
      if family =? AF_INET then
        let addr_in := probe_read_user c addr in
        mkEvent (ev_timestamp_ns ev) (ev_pid ev) (ev_ppid ev) (ev_event_type ev) (ev_comm ev)
          (memcpy_literal "ipv4_connect" (ev_arg_str ev)) (s_addr addr_in) (host_port (sin_port addr_in)) (ev_padding ev)
      else if family =? AF_INET6 then set_arg_str (memcpy_literal "ipv6_connect" (ev_arg_str ev)) ev
      else set_arg_str (memcpy_literal "other_connect" (ev_arg_str ev)) ev).

Inductive syscall := Sys_execve | Sys_openat | Sys_connect.

Definition hook (s : syscall) : hook_context -> option SyscallEvent -> option SyscallEvent :=
  match s with Sys_execve => trace_execve | Sys_openat => trace_openat | Sys_connect => trace_connect end.

(** The events submitted by a sequence of system calls. *)
Definition tracer (calls : list (syscall * hook_context * option SyscallEvent)) : list SyscallEvent :=
  omap (fun x => hook x.1.1 x.1.2 x.2) calls.

End Hooks.

(** ** The agent *)

Record agent := mkAgent {
  g_stop : bool;
  g_vsock_fd : Z;
  sent : list Z                  (* the bytes the socket has taken *)
}.

Definition SIGINT : Z := 2.
Definition SIGTERM : Z := 15.
Definition EINTR : Z := 4.

Definition signal_handler (sig : Z) (a : agent) : agent :=
  if (sig =? SIGINT) || (sig =? SIGTERM) then mkAgent true (g_vsock_fd a) (sent a) else a.

(** The control word that switches the tag checks on. *)
Definition mte_mask : Z := Z.lor (Z.lor (Z.shiftl 1 0) (Z.shiftl 1 1)) (Z.shiftl 0xfffe 3).

(** [socket] and up to five [connect]s, by their results. *)
Fixpoint connect_loop (retries : nat) (fd : Z) (connects : list Z) : Z :=
  match retries with
  | O => -1
  | S retries =>
      match connects with
      | [] => -1
      | r :: connects => if r =? 0 then fd else connect_loop retries fd connects
      end
  end.

Definition connect_to_host (fd : Z) (connects : list Z) : Z :=
  if fd <? 0 then -1 else connect_loop 5 fd connects.

(** [bytes_written]: the result of [write]. *)
Definition handle_bpf_event (data : list Z) (bytes_written : Z) (a : agent) : agent :=
  if g_vsock_fd a =? -1 then a
  else if bytes_written <? 0 then mkAgent true (g_vsock_fd a) (sent a)
  else mkAgent (g_stop a) (g_vsock_fd a) (sent a ++ take (Z.to_nat bytes_written) data).

(** One [ring_buffer__poll]: the records it hands to the callback, each with
    the result of its [write], a signal that arrives meanwhile, and its own result. *)
Record poll := mkPoll { p_records : list (list Z * Z); p_signal : option Z; p_err : Z }.

Definition handle_records (records : list (list Z * Z)) (a : agent) : agent :=
  foldl (fun a x => handle_bpf_event x.1 x.2 a) a records.

Fixpoint poll_loop (polls : list poll) (a : agent) : agent :=
  match polls with
  | [] => a
  | p :: polls =>
      if g_stop a then a
      else
        let a := handle_records (p_records p) a in
        let a := match p_signal p with Some sig => signal_handler sig a | None => a end in
        if (p_err p <? 0) && negb (p_err p =? - EINTR) then a else poll_loop polls a
  end.

(** [main]: the exit code, and the agent when the loop has ended.  [loaded],
    [attached], [created]: the skeleton, its hooks and the ring buffer reader. *)
Definition agent_main (fd : Z) (connects : list Z) (loaded attached created : bool) (polls : list poll) : Z * agent :=
  let a := mkAgent false (connect_to_host fd connects) [] in
  if g_vsock_fd a <? 0 then (1, a)
  else if negb loaded then (1, a)
  else if negb attached then (1, a)
  else if negb created then (1, a)
  else (0, poll_loop polls a).
