(* ===== verification/GuestProps.v ===== *)
(** * From a system call in the guest to the host's callback

    What the hooks report, and the composition with the agent's loop and with the
    reader of Vsock.v: the host sees one event for every system call the ring
    buffer had room for, in order. *)

From S2P Require Import Prelude IR Registry A64 Rows Vsock Policy Guest.

(** ** What an event has to say *)

Definition number (s : syscall) : Z :=
  match s with Sys_execve => EVENT_EXEC | Sys_openat => EVENT_OPEN | Sys_connect => EVENT_CONNECT end.

(** Where the path argument is. *)
Definition path_arg (s : syscall) : option nat :=
  match s with Sys_execve => Some 0%nat | Sys_openat => Some 1%nat | Sys_connect => None end.

(** The path, cut to what fits with its terminator. *)
Definition path_string (s : list Z) : string :=
  foldr (fun b s => String (Ascii.ascii_of_nat (Z.to_nat b)) s) "" (take 255 s).

Section Specification.
Context {K : Kernel}.

Record reports (s : syscall) (c : hook_context) (ev : SyscallEvent) : Prop := {
  rp_type : ev_event_type ev = number s;
  rp_pid : ev_pid ev = hk_pid_tgid c / 2 ^ 32;
  rp_ppid : ev_ppid ev = match hk_parent c with Some tgid => wrap64 tgid | None => 0 end;
  rp_comm : ev_comm ev = hk_comm c;
  rp_path : forall i p, path_arg s = Some i -> user_string c (hk_args c i) = Some p ->
    c_string (ev_arg_str ev) = Some (path_string p);
  rp_text : s = Sys_connect -> hk_args c 1%nat <> 0 -> is_Some (c_string (ev_arg_str ev));
  rp_addr : s = Sys_connect -> hk_args c 1%nat <> 0 -> probe_read_kernel c (hk_args c 1%nat) = AF_INET ->
    ev_ip_address ev = s_addr (probe_read_user c (hk_args c 1%nat)) /\
    ev_port ev = sin_port (probe_read_user c (hk_args c 1%nat)) mod 256 * 256 + sin_port (probe_read_user c (hk_args c 1%nat)) / 256
}.

(** A task as the kernel describes it. *)
Record hook_ok (c : hook_context) : Prop := {
  hk_time : u64 (hk_ktime c);
  hk_pids : u64 (hk_pid_tgid c);
  hk_name : length (hk_comm c) = 32%nat
}.

Lemma c_string_prefix p l : Forall (fun x => x <> 0) p ->
  c_string (p ++ 0 :: l) = Some (foldr (fun b s => String (Ascii.ascii_of_nat (Z.to_nat b)) s) "" p).
Proof.
  induction 1 as [|b p Hb Hp IH]; [done|]. cbn [app c_string foldr].
  rewrite (proj2 (Z.eqb_neq b 0)), IH by done. done.
Qed.

Lemma host_port_swap p : 0 <= p < 2 ^ 16 -> host_port p = p mod 256 * 256 + p / 256 /\ 0 <= host_port p < 2 ^ 16.
Proof.
  intros Hp. unfold host_port. assert (0 <= p / 256 < 256) as Hd.
  { split; [apply Z.div_pos; lia|apply Z.div_lt_upper_bound; lia]. }
  assert (Z.shiftl (Z.land p 0xff) 8 = p mod 256 * 256) as ->.
  { change 0xff with (Z.ones 8). by rewrite Z.land_ones, Z.shiftl_mul_pow2 by lia. }
  assert (Z.shiftr (Z.land p 0xff00) 8 = p / 256) as ->.
  { change 0xff00 with (Z.shiftl (Z.ones 8) 8). rewrite Z.shiftr_land, Z.shiftr_shiftl_l, Z.shiftl_0_r by lia.
    rewrite Z.shiftr_div_pow2, Z.land_ones by lia. by apply Z.mod_small. }
  pose proof (Z.mod_pos_bound p 256).
  assert (Z.land (p mod 256 * 256) (p / 256) = 0) as Hz.
  { apply Z.bits_inj'. intros n Hn. rewrite Z.land_spec, Z.bits_0. change 256 with (2 ^ 8) at 2.
    rewrite Z.mul_pow2_bits by lia. destruct (Z_lt_le_dec n 8); [by rewrite Z.testbit_neg_r by lia|].
    rewrite <- (Z.mod_small (p / 256) (2 ^ 8)), (Z.mod_pow2_bits_high (p / 256)), andb_false_r by lia. done. }
  rewrite <- Z.lxor_lor, <- Z.add_nocarry_lxor by done.
  change 0xffff with (Z.ones 16). rewrite Z.land_ones by lia. split; [apply Z.mod_small; lia|apply Z.mod_pos_bound; lia].
Qed.

(** ** The hooks *)

Context {L : KernelLaws}.

Lemma length_memcpy s dst : (S (String.length s) <= length dst)%nat -> length (memcpy_literal s dst) = length dst.
Proof.
  intros Hs. unfold memcpy_literal, chars. rewrite !length_app, length_replicate, length_drop, length_fmap.
  assert (length (String.list_ascii_of_string s) = String.length s) as ->; [|lia].
  clear Hs. induction s as [|a s IH]; [done|]. cbn [String.list_ascii_of_string String.length length]. by rewrite IH.
Qed.

Lemma path_reported c a p dst : user_string c a = Some p -> length dst = 256%nat ->
  c_string (probe_read_user_str c a dst) = Some (path_string p).
Proof.
  intros Hp Hd. rewrite (kl_string c a p dst Hp) by lia. rewrite Hd.
  apply c_string_prefix, Forall_take. by eapply kl_chars.
Qed.

(** A literal's characters end somewhere. *)
Lemma c_string_chars s dst : is_Some (c_string (chars (S (String.length s)) s ++ dst)).
Proof.
  unfold chars. rewrite length_fmap. induction s as [|a s IH]; [by eexists|].
  cbn [String.list_ascii_of_string fmap list_fmap length String.length app c_string]. destruct (_ =? 0); [by eexists|].
  rewrite Nat.sub_succ. destruct IH as [x Hx]. fold (fmap (M := list) (fun c => Z.of_nat (Ascii.nat_of_ascii c))) in *. rewrite Hx. by eexists.
Qed.

(** A hook reports its call, in a well-formed event. *)
Lemma hook_reports s c old ev :
  hook_ok c -> event_ok old -> hook s c (Some old) = Some ev -> event_ok ev /\ reports s c ev.
Proof.
  intros [Ht Hp Hc] [_ Hi Hpt _ Ha Hpad] E.
  assert (u64 (Z.shiftr (hk_pid_tgid c) 32)) as Hpid by (by apply u64_shiftr).
  assert (u64 (match hk_parent c with Some tgid => wrap64 tgid | None => 0 end)) as Hpp.
  { destruct (hk_parent c); [apply wrap64_u64|apply u64_0]. }
  assert (u64 EVENT_EXEC /\ u64 EVENT_OPEN /\ u64 EVENT_CONNECT) as (He & Ho & Hcn) by (unfold u64, EVENT_EXEC, EVENT_OPEN, EVENT_CONNECT; lia).
  assert (Z.shiftr (hk_pid_tgid c) 32 = hk_pid_tgid c / 2 ^ 32) as Hsh by (by rewrite Z.shiftr_div_pow2).
  destruct s; cbn [hook] in E.
  - unfold trace_execve in E. rewrite bind_Some in E. injection E as <-.
    split; [by split; cbn; rewrite ?kl_length|]. split; try done.
    intros i s' [= <-] Hs. by apply path_reported.
  - unfold trace_openat in E. rewrite bind_Some in E. injection E as <-.
    split; [by split; cbn; rewrite ?kl_length|]. split; try done.
    intros i s' [= <-] Hs. by apply path_reported.
  - assert (forall s dst, is_Some (c_string (chars (S (String.length s)) s ++ dst))) as Htext.
    { clear. intros s dst. apply c_string_chars. }
    unfold trace_connect in E. rewrite bind_Some in E.
    destruct (Z.eqb_spec (hk_args c 1) 0) as [H0|H0]; [injection E as <-; split; [done|by split]|].
    destruct (Z.eqb_spec (probe_read_kernel c (hk_args c 1)) AF_INET) as [Hf|Hf].
    + injection E as <-. destruct (host_port_swap _ (kl_port c (hk_args c 1))) as [Hs Hb].
      split; [split; cbn -[memcpy_literal]; try done; [apply kl_addr|by rewrite length_memcpy by (cbn; lia)]|]. by split.
    + destruct (_ =? AF_INET6); injection E as <-; (split; [split; cbn -[memcpy_literal]; try done; by rewrite length_memcpy by (cbn; lia)|]; by split).
Qed.
(** ** The agent *)

(** A round in which every record is written whole and nothing else happens. *)
Definition quiet (p : poll) : Prop :=
  Forall (fun x => x.2 = Z.of_nat (length x.1)) (p_records p) /\ p_signal p = None /\ (0 <= p_err p \/ p_err p = - EINTR).

Lemma handle_whole data a : g_vsock_fd a <> -1 ->
  handle_bpf_event data (Z.of_nat (length data)) a = mkAgent (g_stop a) (g_vsock_fd a) (sent a ++ data).
Proof.
  intros Hfd. unfold handle_bpf_event. rewrite (proj2 (Z.eqb_neq _ _)) by done.
  by rewrite (proj2 (Z.ltb_ge _ _)), Nat2Z.id, firstn_all by lia.
Qed.

Lemma handle_records_sent records a :
  Forall (fun x => x.2 = Z.of_nat (length x.1)) records -> g_vsock_fd a <> -1 ->
  handle_records records a = mkAgent (g_stop a) (g_vsock_fd a) (sent a ++ mjoin records.*1).
Proof.
  intros Hw. revert a. induction Hw as [|[data w] records Hx Hw IH]; intros a Hfd; cbn [handle_records foldl].
  - rewrite app_nil_r. by destruct a.
  - cbn [fst snd] in *. subst w. rewrite handle_whole by done.
    unfold handle_records in *. rewrite IH by done. cbn [g_stop g_vsock_fd sent fmap list_fmap fst mjoin list_join].
    by rewrite <- app_assoc.
Qed.

Lemma poll_loop_sent polls a :
  Forall quiet polls -> g_stop a = false -> g_vsock_fd a <> -1 ->
  poll_loop polls a = mkAgent false (g_vsock_fd a) (sent a ++ mjoin (mjoin (p_records <$> polls)).*1).
Proof.
  intros Hq. revert a. induction Hq as [|p polls (Hr & Hs & He) Hq IH]; intros a Hst Hfd; cbn [poll_loop].
  - rewrite app_nil_r. destruct a. cbn in *. by subst.
  - rewrite Hst, Hs, handle_records_sent by done.
    assert ((p_err p <? 0) && negb (p_err p =? - EINTR) = false) as ->.
    { destruct He as [He| ->]; [by rewrite (proj2 (Z.ltb_ge _ _))|done]. }
    rewrite IH by done. cbn [g_stop g_vsock_fd sent fmap list_fmap mjoin list_join].
    by rewrite fmap_app, join_app, app_assoc.
Qed.

Lemma connect_loop_connects n fd connects : 0 ∈ take n connects -> connect_loop n fd connects = fd.
Proof.
  revert connects. induction n as [|n IH]; intros [|r connects]; cbn [take connect_loop]; try by intros ?%elem_of_nil.
  destruct (Z.eqb_spec r 0) as [|Hr]; [done|]. intros [H0|Hin]%elem_of_cons; [by destruct Hr|by apply IH].
Qed.

(** The calls the ring buffer had room for. *)
Definition reserved (x : syscall * hook_context * option SyscallEvent) : bool := match x.2 with Some _ => true | None => false end.

Lemma hook_none s c : hook s c None = None.
Proof. by destruct s. Qed.

Lemma hook_some s c old : is_Some (hook s c (Some old)).
Proof. destruct s; by eexists. Qed.

Lemma tracer_reports calls :
  Forall (fun x => hook_ok x.1.2 /\ forall old, x.2 = Some old -> event_ok old) calls ->
  Forall event_ok (tracer calls) /\
  Forall2 (fun x ev => reports x.1.1 x.1.2 ev) (List.filter reserved calls) (tracer calls).
Proof.
  unfold tracer. induction 1 as [|[[s c] [old|]] calls [Hc Ho] H [IH1 IH2]]; [by split| |];
    cbn [List.filter reserved fst snd omap list_omap] in *.
  - destruct (hook_some s c old) as [ev E]. rewrite E.
    destruct (hook_reports s c old ev Hc (Ho old eq_refl) E). by split; constructor.
  - by rewrite hook_none.
Qed.

(** ** Composition *)

(** From the guest's system calls to the host's callback.  If the agent has reached the host within
    five attempts and its writes are complete, and the ring buffer hands it
    what the hooks submitted, then however the polls group the records and
    the stream is cut into reads, the host's callback gets one event for
    every call the ring buffer had room for, in order, and each
    says which call it was, by which process, with which path (up to 255
    characters) or address. *)
Theorem guest_to_host {A} (event_cb : SyscallEvent -> A -> option A) fd connects polls calls reads st :
  0 <= fd -> 0 ∈ take 5 connects -> Forall quiet polls ->
  Forall (fun x => hook_ok x.1.2 /\ forall old, x.2 = Some old -> event_ok old) calls ->
  (mjoin (p_records <$> polls)).*1 = encode_event <$> tracer calls ->
  Forall (fun t => t <> []) reads -> mjoin reads = sent (agent_main fd connects true true true polls).2 ->
  start_reader event_cb reads ([], st) = (st ← mfold event_cb (tracer calls) st; Some ([], st)) /\
  Forall2 (fun x ev => reports x.1.1 x.1.2 ev) (List.filter reserved calls) (tracer calls).
Proof.
  intros Hfd Hc Hq Hcalls Hrb Hne Hs. destruct (tracer_reports calls Hcalls) as [Hok Hrep]. split; [|done].
  unfold agent_main in Hs. assert (connect_to_host fd connects = fd) as Hconn.
  { unfold connect_to_host. rewrite (proj2 (Z.ltb_ge _ _)) by done. by apply connect_loop_connects. }
  rewrite Hconn in Hs. cbn [g_vsock_fd negb] in Hs. rewrite (proj2 (Z.ltb_ge _ _)) in Hs by done.
  rewrite (poll_loop_sent polls) in Hs by (first [done|cbn; lia]). cbn [snd sent app] in Hs. rewrite Hrb in Hs.
  apply reader_encode; [done|cbn; lia|done|]. by rewrite app_nil_r.
Qed.

End Specification.

(** The result of [write] is only tested for an error: when the socket takes a
    byte less than the first of two events, everything behind it is read out of place. *)
Lemma short_write_desync :
  let evs := [demo_event; demo_event] in
  let a := handle_records [(encode_event demo_event, 327); (encode_event demo_event, 328)] (mkAgent false 3 []) in
  exists ev rest, received [sent a] = Some (rest, [ev]) /\ g_stop a = false /\ length rest = 327%nat /\
    ev <> demo_event /\ ev_pid (decode_event (rest ++ [0])) <> ev_pid demo_event.
Proof. do 2 eexists. split; [vm_compute; reflexivity|]. split_and!; by vm_compute. Qed.
