(* ===== verification/Sandbox.v ===== *)
(** * The sandbox from end to end

    Guest.v, Vsock.v and Policy.v together: the system calls of the guest's
    processes, the hooks, the agent, the stream, the host's reader and the
    policy's classification. *)

From S2P Require Import Prelude IR Registry A64 Rows Engine Vsock Policy PolicyProps Guest GuestProps.

Section Sandbox.
Context {K : Kernel} {L : KernelLaws}.

(** The host's callback: a record for every event. *)
Definition classify_all (ev : SyscallEvent) (st : list SyscallTraceRecord * PolicyEngine) :
    option (list SyscallTraceRecord * PolicyEngine) :=
  '(r, pe) ← process_event ev st.2; Some (st.1 ++ [r], pe).

(** A call the policy can judge: the task's name is a string, and its path or address is there. *)
Definition judgeable (x : syscall * hook_context * option SyscallEvent) : Prop :=
  is_Some (c_string (hk_comm x.1.2)) /\
  match path_arg x.1.1 with
  | Some i => is_Some (user_string x.1.2 (hk_args x.1.2 i))
  | None => hk_args x.1.2 1%nat <> 0
  end.

(** What the policy forbids a tainted process. *)
Definition forbidden (s : syscall) (c : hook_context) : Prop :=
  match s with
  | Sys_execve => False
  | Sys_openat => exists p, user_string c (hk_args c 1) = Some p /\ has_sensitive_pattern (path_string p) = true
  | Sys_connect => True
  end.

(** An event that reports a judgeable call has its strings. *)
Lemma reported_strings s c old ev :
  reports s c ev -> judgeable (s, c, old) ->
  is_Some (c_string (ev_comm ev)) /\ is_Some (c_string (ev_arg_str ev)).
Proof.
  intros [Ht _ _ Hc Hp Htext _] [Hn Ha]. cbn [fst snd] in *. rewrite Hc. split; [done|].
  destruct s; cbn [path_arg] in Ha; [| |by apply Htext]; destruct Ha as [p E]; exists (path_string p); by eapply Hp.
Qed.

(** What the policy makes of an event that reports a call. *)
Lemma reported_verdict s c ev arg :
  reports s c ev -> s <> Sys_execve -> (s = Sys_openat -> is_Some (user_string c (hk_args c 1))) ->
  c_string (ev_arg_str ev) = Some arg ->
  (ev_event_type ev =? EVENT_OPEN) && has_sensitive_pattern arg || (ev_event_type ev =? EVENT_CONNECT) = true <-> forbidden s c.
Proof.
  intros [Ht _ _ _ Hp _ _] Hs Hstr Harg. rewrite Ht. destruct s; cbn [number forbidden]; [done| |by split].
  destruct (Hstr eq_refl) as [p E]. rewrite (Hp 1%nat p eq_refl E) in Harg. injection Harg as <-. cbn [Z.eqb]. rewrite orb_false_r.
  rewrite E. split; [by exists p|by intros (q & [= <-] & Hq)].
Qed.

(** ** Properties *)

(** C4: the sandbox.  For calls that are well formed and that the policy
    can judge ([judgeable]: names are terminated, paths and addresses are there), an agent whose connection succeeds
    within five attempts and whose polls and writes succeed and are whole, and a policy with
    an empty process tree, the host makes one record for every call the ring buffer had
    room for; and the record of an [openat] or [connect] by a process that was
    seen to exec, when no process execs twice before it, is a violation exactly when the process is
    tainted (a lifecycle script by the name its caller had at the exec, or descended from one) and the call is
    forbidden: a connection, or a path with a sensitive pattern. *)
Theorem sandbox_flags fd connects polls calls reads pe :
  0 <= fd -> 0 ∈ take 5 connects -> Forall quiet polls ->
  Forall (fun x => hook_ok x.1.2 /\ forall old, x.2 = Some old -> event_ok old) calls ->
  (mjoin (p_records <$> polls)).*1 = encode_event <$> tracer calls ->
  Forall (fun t => t <> []) reads -> mjoin reads = sent (agent_main fd connects true true true polls).2 ->
  Forall judgeable calls -> process_tree_ pe = ∅ ->
  exists rs pe', start_reader classify_all reads ([], ([], pe)) = Some ([], (rs, pe')) /\
    length rs = length (List.filter reserved calls) /\
    forall k s c old, List.filter reserved calls !! k = Some (s, c, old) -> s <> Sys_execve ->
      let before := take k (tracer calls) in
      NoDup (execs before) -> hk_pid_tgid c / 2 ^ 32 ∈ execs before ->
      exists r, rs !! k = Some r /\ (violates r = true <-> hk_pid_tgid c / 2 ^ 32 ∈ tainted_by before /\ forbidden s c).
Proof.
  intros Hfd Hc Hq Hok Hrb Hne Hs Hj Ht.
  destruct (guest_to_host classify_all fd connects polls calls reads ([], pe)) as [-> Hrep]; try done.
  assert (forall k x ev, List.filter reserved calls !! k = Some x -> tracer calls !! k = Some ev ->
    judgeable x /\ reports x.1.1 x.1.2 ev) as Hat.
  { intros k x ev Hx Hev. split; [|exact (Forall2_lookup_lr _ _ _ _ _ _ Hrep Hx Hev)].
    apply list_elem_of_lookup_2, list_elem_of_In, List.filter_In in Hx as [Hx _].
    rewrite Forall_forall in Hj. by apply Hj, list_elem_of_In. }
  destruct (process_trace_defined (tracer calls) pe) as (rs & pe' & E).
  { apply Forall_lookup. intros k ev Hev. destruct (Forall2_lookup_r _ _ _ _ _ Hrep Hev) as ([[s c] old] & Hx & Hr).
    apply (reported_strings s c old); [done|by apply (Hat k _ ev)]. }
  change (mfold classify_all (tracer calls) ([], pe)) with (process_trace (tracer calls) pe). rewrite E, bind_Some.
  exists rs, pe'. split_and!; [done|by rewrite (process_trace_length _ _ _ _ E), (Forall2_length _ _ _ Hrep)|].
  intros k s c old Hx Hs' before Hnd Hin. destruct (Forall2_lookup_l _ _ _ _ _ Hrep Hx) as (ev & Hev & _).
  destruct (Hat k _ ev Hx Hev) as [Hjx Hr]. cbn [fst snd] in Hr. rewrite <- (take_drop_middle _ _ _ Hev) in E.
  destruct (process_trace_at _ _ _ _ _ _ E) as (rs1 & pe1 & r & pe2 & E1 & Er & Hk).
  rewrite length_take_le in Hk by (apply Nat.lt_le_incl, lookup_lt_is_Some_1; by exists ev).
  exists r. split; [done|]. destruct (reported_strings s c old ev Hr Hjx) as [[comm Hcm] [arg Harg]].
  assert (ev_event_type ev <> EVENT_EXEC) as Hne' by (rewrite (rp_type _ _ _ Hr); by destruct s).
  rewrite (violates_known ev pe1 r pe2 comm arg Hne' Hcm Harg Er).
  rewrite <- (rp_pid _ _ _ Hr) in Hin |- *. rewrite (mark_known before pe rs1 pe1 ev comm Ht E1 Hnd Hin Hne').
  rewrite andb_true_iff, bool_decide_eq_true.
  rewrite (reported_verdict s c ev arg Hr Hs'); [done| |done].
  intros ->. by destruct Hjx as [_ Hp].
Qed.

End Sandbox.

(** A kernel whose tasks have one string, at address 100. *)
Definition demo_path : list Z := take 17 (chars 18 "/root/.ssh/id_rsa").

Definition demo_strings (a : Z) : option (list Z) := if a =? 100 then Some demo_path else None.

Definition demo_read_str (a : Z) (dst : list Z) : list Z :=
  match demo_strings a, dst with
  | Some s, _ :: _ => let s' := take (length dst - 1) s in s' ++ 0 :: drop (S (length s')) dst
  | _, _ => replicate (length dst) 0
  end.

#[local] Instance demo_kernel : Kernel := {|
  user_string := fun _ => demo_strings;
  probe_read_user_str := fun _ => demo_read_str;
  probe_read_kernel := fun _ _ => 0;
  probe_read_user := fun _ _ => mkSockaddr 0 0
|}.

#[local] Instance demo_kernel_laws : KernelLaws.
Proof.
  split; cbn.
  - intros _ a dst. unfold demo_read_str. destruct (demo_strings a) as [s|], dst as [|x dst];
      rewrite ?length_replicate; try done.
    rewrite length_app. cbn [length]. rewrite length_drop, length_take. cbn [length]. lia.
  - intros _ a s dst Hs Hd. unfold demo_read_str. rewrite Hs. by destruct dst; [cbn in Hd; lia|].
  - intros _ a s. unfold demo_strings. destruct (a =? 100); [|done]. intros [= <-]. by repeat constructor.
  - lia.
  - lia.
Qed.

Definition demo_context : hook_context :=
  mkHook 1 (300 * 2 ^ 32 + 301) (chars 32 "node") (Some 12) (fun _ => 100).

Definition stale_event : SyscallEvent := mkEvent 9 9 9 9 (replicate 32 65) (replicate 256 66) 9 9 [9; 9].

Definition demo_calls : list (syscall * hook_context * option SyscallEvent) :=
  [(Sys_execve, demo_context, Some stale_event); (Sys_openat, demo_context, None); (Sys_openat, demo_context, Some stale_event)].

Definition demo_polls : list poll :=
  (fun ev => mkPoll [(encode_event ev, 328)] None (- EINTR)) <$> tracer demo_calls.

Lemma sandbox_flags_witness :
  let bytes := sent (agent_main 3 [111; 0] true true true demo_polls).2 in
  exists rs pe', start_reader classify_all [take 400 bytes; drop 400 bytes] ([], ([], demo_policy)) = Some ([], (rs, pe')) /\
    length rs = 2%nat /\
    exists r, rs !! 1%nat = Some r /\ (violates r = true <-> 300 ∈ tainted_by (take 1 (tracer demo_calls)) /\ forbidden Sys_openat demo_context).
Proof.
  intros bytes.
  destruct (sandbox_flags 3 [111; 0] demo_polls demo_calls [take 400 bytes; drop 400 bytes] demo_policy)
    as (rs & pe' & E & Hl & Hv).
  - lia.
  - right. by left.
  - repeat constructor; cbn; try lia; by right.
  - assert (hook_ok demo_context) as Hc by (split; cbn; unfold u64; lia).
    assert (event_ok stale_event) as He by (split; cbn; unfold u64; lia).
    do 3 (apply Forall_cons_2; [split; [exact Hc|by intros old [= <-]]|]). apply Forall_nil_2.
  - reflexivity.
  - repeat constructor; by vm_compute.
  - cbn [mjoin list_join]. rewrite app_nil_r. apply take_drop.
  - repeat (apply Forall_cons_2; [split; by eexists|]). apply Forall_nil_2.
  - reflexivity.
  - exists rs, pe'. split; [exact E|]. split; [exact Hl|].
    apply (Hv 1%nat Sys_openat demo_context (Some stale_event)); [reflexivity|discriminate|by apply NoDup_singleton|by left].
Defined.
