(* ===== verification/Metal.v ===== *)
(** * The Metal device (src/gpu/metal_device.mm)

    The device's state, its buffers over shared memory and [dispatch] with the
    cache of compiled pipelines.  The Metal framework is a parameter,
    [Framework]: it compiles a source and runs a pipeline on columns.  A buffer
    is kept by its pointer and whether it owns the memory behind it, which is
    enough to see what is allocated and released; its contents are the
    caller's columns, shared or copied.  The output buffer's allocation is taken to succeed.

    [dispatch_once] is the specification: a device without a cache.  The theorem
    says that the cache does not show as long as a schema has one source;
    [stale_pipeline] what happens when it has two. *)

From S2P Require Import Prelude.

(** ** The framework *)

Class Framework := {
  library : Type;
  function_ : Type;
  pipeline : Type;
  newLibraryWithSource : string -> option library;
  newFunctionWithName : library -> string -> option function_;
  newComputePipelineStateWithFunction : function_ -> option pipeline;
  run_pipeline : pipeline -> list Z -> nat -> list Z     (* the columns, the blocks, the output buffer *)
}.

Record mtl_buffer := mkBuffer { mb_pointer : Z; mb_owned : bool }.

Section Metal.
Context {F : Framework}.

Record MetalDevice := mkDevice {
  initialized_ : bool;
  pipeline_cache_ : gmap string pipeline;
  buffers_ : list mtl_buffer;              (* retained *)
  heap_ : list Z                           (* what posix_memalign gave out *)
}.

Definition MetalDevice_null : MetalDevice := mkDevice false ∅ [] [].

Definition set_memory (bufs : list mtl_buffer) (heap : list Z) (d : MetalDevice) : MetalDevice :=
  mkDevice (initialized_ d) (pipeline_cache_ d) bufs heap.

(** [device], [queue]: whether the framework gave one. *)
Definition initialize (device queue : bool) (d : MetalDevice) : MetalDevice * bool :=
  if initialized_ d then (d, true)
  else if negb device then (d, false)
  else if negb queue then (d, false)
  else (mkDevice true (pipeline_cache_ d) (buffers_ d) (heap_ d), true).

(** ** Buffers *)

(** [aligned]: the result of posix_memalign; [no_copy]: whether
    newBufferWithBytesNoCopy succeeds. *)
Definition create_buffer_from_shm (ptr size : Z) (aligned : option Z) (no_copy : bool) (d : MetalDevice) :
    MetalDevice * option mtl_buffer :=
  if negb (initialized_ d) || (ptr =? 0) || (size =? 0) then (d, None)
  else if Z.land ptr 4095 =? 0 then
    if no_copy then let b := mkBuffer ptr false in (set_memory (b :: buffers_ d) (heap_ d) d, Some b) else (d, None)
  else
    match aligned with
    | None => (d, None)
    | Some aligned_ptr =>
        let d := set_memory (buffers_ d) (aligned_ptr :: heap_ d) d in
        if no_copy then let b := mkBuffer aligned_ptr true in (set_memory (b :: buffers_ d) (heap_ d) d, Some b)
        else (set_memory (buffers_ d) (List.remove Z.eq_dec aligned_ptr (heap_ d)) d, None)
    end.

Definition buffer_eqb (a b : mtl_buffer) : bool := (mb_pointer a =? mb_pointer b) && Bool.eqb (mb_owned a) (mb_owned b).

Fixpoint release (b : mtl_buffer) (l : list mtl_buffer) : list mtl_buffer :=
  match l with
  | [] => []
  | x :: l => if buffer_eqb b x then l else x :: release b l
  end.

(** The last reference goes, and the deallocator frees a copy. *)
Definition free_buffer (b : option mtl_buffer) (d : MetalDevice) : MetalDevice :=
  match b with
  | None => d
  | Some b => set_memory (release b (buffers_ d)) (if mb_owned b then List.remove Z.eq_dec (mb_pointer b) (heap_ d) else heap_ d) d
  end.

(** ** Dispatch *)

Definition compile_msl (msl_source : string) : option pipeline :=
  library ← newLibraryWithSource msl_source;
  function ← newFunctionWithName library "bit_sliced_evaluate";
  newComputePipelineStateWithFunction function.

(** The pipeline for the schema, and the cache afterwards. *)
Definition cached_pipeline (schema_name msl_source : string) (cache : gmap string pipeline) : option (pipeline * gmap string pipeline) :=
  match cache !! schema_name with
  | Some p => Some (p, cache)
  | None => p ← compile_msl msl_source; Some (p, <[schema_name := p]> cache)
  end.

Record dispatch_call := mkDispatch {
  dc_schema_name : string;
  dc_bit_planes : Z;                       (* the pointer, 0 for null *)
  dc_columns : list Z;                     (* what is behind it *)
  dc_num_blocks : nat;
  dc_num_fields : nat;
  dc_msl_source : string;
  dc_aligned : option Z;
  dc_no_copy : bool
}.

Definition nothing_to_do (c : dispatch_call) : bool :=
  (dc_bit_planes c =? 0) || (dc_num_blocks c =? 0)%nat || (dc_num_fields c =? 0)%nat.

Definition raw_columns_size (c : dispatch_call) : Z := wrap64 (Z.of_nat (dc_num_blocks c) * Z.of_nat (dc_num_fields c) * 64 * 8).

(** The sum over the blocks of the output buffer. *)
Definition final_sum (c : dispatch_call) (p : pipeline) : Z :=
  foldl (fun s x => wrap64 (s + x)) 0 (take (dc_num_blocks c) (run_pipeline p (dc_columns c) (dc_num_blocks c))).

Definition dispatch (c : dispatch_call) (d : MetalDevice) : MetalDevice * Z :=
  if negb (initialized_ d) || nothing_to_do c then (d, 0)
  else
    match cached_pipeline (dc_schema_name c) (dc_msl_source c) (pipeline_cache_ d) with
    | None => (d, 0)
    | Some (pipeline_state, cache) =>
        let d := mkDevice (initialized_ d) cache (buffers_ d) (heap_ d) in
        let '(d, columns_buf) := create_buffer_from_shm (dc_bit_planes c) (raw_columns_size c) (dc_aligned c) (dc_no_copy c) d in
        match columns_buf with
        | None => (d, 0)
        | Some _ => (free_buffer columns_buf d, final_sum c pipeline_state)
        end
    end.

Fixpoint dispatches (calls : list dispatch_call) (d : MetalDevice) : MetalDevice * list Z :=
  match calls with
  | [] => (d, [])
  | c :: calls =>
      let '(d, x) := dispatch c d in
      let '(d, xs) := dispatches calls d in (d, x :: xs)
  end.

(** The destructor lets the pipelines go. *)
Definition MetalDevice_delete (d : MetalDevice) : MetalDevice := mkDevice (initialized_ d) ∅ (buffers_ d) (heap_ d).

(** ** Specification *)

(** Whether the columns can be mapped. *)
Definition mapped (c : dispatch_call) : bool :=
  negb (raw_columns_size c =? 0) && dc_no_copy c &&
  ((Z.land (dc_bit_planes c) 4095 =? 0) || match dc_aligned c with Some _ => true | None => false end).

Definition dispatch_once (c : dispatch_call) : Z :=
  if nothing_to_do c || negb (mapped c) then 0
  else match compile_msl (dc_msl_source c) with None => 0 | Some p => final_sum c p end.

(** The cache holds what the sources compile to. *)
Definition cache_ok (source : string -> string) (cache : gmap string pipeline) : Prop :=
  forall s p, cache !! s = Some p -> compile_msl (source s) = Some p.

Lemma cached_pipeline_spec source s cache :
  cache_ok source cache ->
  match cached_pipeline s (source s) cache with
  | None => compile_msl (source s) = None
  | Some (p, cache') => compile_msl (source s) = Some p /\ cache_ok source cache'
  end.
Proof.
  intros Hc. unfold cached_pipeline. destruct (cache !! s) as [p|] eqn:E; [split; [by apply Hc|done]|].
  destruct (compile_msl (source s)) as [p|] eqn:Ep; [|done]. rewrite bind_Some. split; [done|].
  intros s' p'. destruct (decide (s = s')) as [<-|Hne]; [|rewrite lookup_insert_ne by done; apply Hc].
  rewrite lookup_insert_eq. by intros [= <-].
Qed.

Lemma remove_fresh x l : x ∉ l -> List.remove Z.eq_dec x (x :: l) = l.
Proof.
  intros Hx. cbn [List.remove]. destruct (Z.eq_dec x x); [|done]. apply List.notin_remove.
  intros Hin. by apply Hx, list_elem_of_In.
Qed.

Lemma release_head b l : release b (b :: l) = l.
Proof. cbn [release]. unfold buffer_eqb. by rewrite Z.eqb_refl, Bool.eqb_reflx. Qed.

(** Mapping the columns and letting them go leaves the memory as it was. *)
Lemma map_unmap c d :
  initialized_ d = true -> dc_bit_planes c <> 0 -> (forall a, dc_aligned c = Some a -> a ∉ heap_ d) ->
  match create_buffer_from_shm (dc_bit_planes c) (raw_columns_size c) (dc_aligned c) (dc_no_copy c) d with
  | (d', None) => mapped c = false /\ d' = d
  | (d', Some b) => mapped c = true /\ free_buffer (Some b) d' = d
  end.
Proof.
  intros Hi Hp Ha. unfold create_buffer_from_shm, mapped. rewrite Hi, (proj2 (Z.eqb_neq _ _) Hp). cbn [negb orb].
  destruct (raw_columns_size c =? 0); [done|]. cbn [negb andb].
  destruct d as [i cache bufs heap]. cbn in Ha.
  destruct (Z.land (dc_bit_planes c) 4095 =? 0); [|destruct (dc_aligned c) as [a|]]; destruct (dc_no_copy c); try done; cbn [fst snd mb_owned mb_pointer free_buffer].
  - split; [done|]. unfold set_memory. cbn [buffers_ heap_ initialized_ pipeline_cache_]. by rewrite ?release_head.
  - split; [done|]. unfold set_memory. cbn [buffers_ heap_ initialized_ pipeline_cache_].
    by rewrite release_head, remove_fresh by (by apply Ha).
  - split; [done|]. unfold set_memory. cbn [buffers_ heap_ initialized_ pipeline_cache_].
    by rewrite remove_fresh by (by apply Ha).
Qed.

(** One dispatch on a device whose cache is right. *)
Lemma dispatch_step source c d :
  initialized_ d = true -> cache_ok source (pipeline_cache_ d) -> dc_msl_source c = source (dc_schema_name c) ->
  (forall a, dc_aligned c = Some a -> a ∉ heap_ d) ->
  exists cache, dispatch c d = (mkDevice true cache (buffers_ d) (heap_ d), dispatch_once c) /\ cache_ok source cache.
Proof.
  intros Hi Hc Hs Ha. unfold dispatch, dispatch_once. rewrite Hi, Hs. destruct d as [i cache bufs heap]. cbn in Hi, Hc, Ha. subst i.
  cbn [negb orb]. destruct (nothing_to_do c) eqn:En; [by exists cache|]. cbn [orb].
  assert (dc_bit_planes c <> 0) as Hp.
  { intros E. unfold nothing_to_do in En. by rewrite E in En. }
  cbn [pipeline_cache_ initialized_ buffers_ heap_].
  pose proof (cached_pipeline_spec source (dc_schema_name c) cache Hc) as Hcp.
  destruct (cached_pipeline _ _ cache) as [[p cache']|].
  - destruct Hcp as [Ep Hc']. rewrite Ep. pose proof (map_unmap c (mkDevice true cache' bufs heap) eq_refl Hp Ha) as Hm.
    destruct (create_buffer_from_shm _ _ _ _ _) as [d' [b|]]; destruct Hm as [-> Hd]; exists cache'; cbn [negb].
    + by rewrite Hd.
    + by rewrite Hd.
  - rewrite Hcp. exists cache. by destruct (negb (mapped c)).
Qed.

(** ** Properties *)

(** C39: the cache of pipelines does not show.  When every call for a schema comes with the
    source of that schema, a device that starts without pipelines answers every
    call as one that compiles anew each time, and at the end it holds no
    buffer and no copy. *)
Theorem dispatches_uncached source calls :
  Forall (fun c => dc_msl_source c = source (dc_schema_name c)) calls ->
  exists cache, dispatches calls (initialize true true MetalDevice_null).1 = (mkDevice true cache [] [], dispatch_once <$> calls).
Proof.
  intros Hs. assert (cache_ok source ∅) as Hc by (by intros s p).
  change (initialize true true MetalDevice_null).1 with (mkDevice true ∅ [] []).
  revert Hc. generalize (∅ : gmap string pipeline) as cache. induction Hs as [|c calls Hc Hs IH]; intros cache Hok; [by exists cache|].
  cbn [dispatches]. destruct (dispatch_step source c (mkDevice true cache [] []) eq_refl Hok Hc) as (cache' & -> & Hok').
  - by intros a _ ?%elem_of_nil.
  - destruct (IH cache' Hok') as (cache'' & E). cbn [buffers_ heap_]. rewrite E. by exists cache''.
Qed.

(** A schema's second source is not compiled: the first one's pipeline answers. *)
Lemma stale_pipeline c source' d p :
  initialized_ d = true -> nothing_to_do c = false -> mapped c = true -> heap_ d = [] ->
  pipeline_cache_ d = ∅ -> compile_msl (dc_msl_source c) = Some p ->
  let c' := mkDispatch (dc_schema_name c) (dc_bit_planes c) (dc_columns c) (dc_num_blocks c) (dc_num_fields c) source'
    (dc_aligned c) (dc_no_copy c) in
  (dispatches [c; c'] d).2 = [final_sum c p; final_sum c p].
Proof.
  intros Hi Hn Hm Hh Hc Ep c'. destruct d as [i cache bufs heap]. cbn in Hi, Hh, Hc. subst.
  assert (dc_bit_planes c <> 0) as Hp by (intros E; unfold nothing_to_do in Hn; by rewrite E in Hn).
  cbn [dispatches]. unfold dispatch at 1. cbn [initialized_ negb orb pipeline_cache_]. rewrite Hn.
  unfold cached_pipeline. rewrite lookup_empty, Ep, bind_Some.
  pose proof (map_unmap c (mkDevice true (<[dc_schema_name c := p]> ∅) bufs []) eq_refl Hp) as Hmu.
  cbn [buffers_ heap_] in *. destruct (create_buffer_from_shm _ _ _ _ _) as [d' [b|]] eqn:Eb;
    [|destruct Hmu as [Hmu _]; [by intros a _ ?%elem_of_nil|congruence]].
  destruct Hmu as [_ ->]; [by intros a _ ?%elem_of_nil|].
  unfold dispatch. cbn [initialized_ negb orb pipeline_cache_].
  change (nothing_to_do c') with (nothing_to_do c). rewrite Hn. unfold cached_pipeline.
  change (dc_schema_name c') with (dc_schema_name c). rewrite lookup_insert_eq.
  change (raw_columns_size c') with (raw_columns_size c). cbn [buffers_ heap_ dc_bit_planes dc_aligned dc_no_copy c']. rewrite Eb.
  reflexivity.
Qed.

End Metal.

(** A framework that knows two sources; a pipeline counts the columns' words
    equal to its own. *)
#[local] Instance demo_framework : Framework := {|
  library := Z;
  function_ := Z;
  pipeline := Z;
  newLibraryWithSource s := if bool_decide (s = "A") then Some 1 else if bool_decide (s = "B") then Some 2 else None;
  newFunctionWithName l f := if bool_decide (f = "bit_sliced_evaluate") then Some l else None;
  newComputePipelineStateWithFunction f := Some f;
  run_pipeline p columns n := replicate n (Z.of_nat (length (List.filter (Z.eqb p) columns)))
|}.

Definition demo_dispatch (schema source : string) (ptr : Z) : dispatch_call :=
  mkDispatch schema ptr [1; 2; 2; 7] 2 1 source (Some 8192) true.

Lemma dispatches_uncached_witness :
  let calls := [demo_dispatch "ticks" "A" 4096; demo_dispatch "orders" "B" 4100; demo_dispatch "ticks" "A" 4096] in
  (exists cache, dispatches calls (initialize true true MetalDevice_null).1 = (mkDevice true cache [] [], dispatch_once <$> calls)) /\
  dispatch_once <$> calls = [2; 4; 2].
Proof.
  intros calls. split; [|by vm_compute].
  apply (dispatches_uncached (fun s => if bool_decide (s = "ticks") then "A" else "B") calls).
  repeat (apply Forall_cons_2; [reflexivity|]). apply Forall_nil_2.
Defined.
