(* ===== verification/Esf.v ===== *)
(** * The endpoint security manager (src/host/esf_manager.cpp)

    The manager's state and its calls into the framework, kept as a log in the
    order made; what the framework answers are arguments.  Off macOS ([apple]
    false) [start] always fails.  Of the callback set with
    [set_intercept_callback] only whether there is one is kept: no code calls it. *)

From S2P Require Import Prelude IR Registry A64 Rows Vsock Policy.

(** ** The message handler *)

Inductive es_event_type := ES_EVENT_TYPE_AUTH_EXEC | ES_OTHER.

Record es_message := mkMessage {
  event_type : es_event_type;
  target_path : option (option string);    (* no target or executable; no path data *)
  exec_args : list string                  (* the empty ones included *)
}.

Inductive es_auth_result := ES_AUTH_RESULT_ALLOW | ES_AUTH_RESULT_DENY.

Definition is_pkg_manager (path : string) : bool :=
  contains path "/npm" || contains path "/yarn" || contains path "/pnpm".

(** The arguments are collected for the redirected command, which is never run. *)
Definition collect_args (args : list string) : list string := List.filter (fun s => negb (bool_decide (s = ""))) args.

Definition handle_es_message_internal (msg : es_message) : es_auth_result * list string :=
  match event_type msg, target_path msg with
  | ES_EVENT_TYPE_AUTH_EXEC, Some path =>
      let path_str := default "" path in
      if is_pkg_manager path_str && negb (contains path_str "aarchgate")
      then (ES_AUTH_RESULT_DENY, collect_args (exec_args msg))
      else (ES_AUTH_RESULT_ALLOW, [])
  | _, _ => (ES_AUTH_RESULT_ALLOW, [])
  end.

(** ** The manager *)

(** The calls into the framework that make and unmake a client. *)
Inductive es_call :=
  | es_new_client (client : nat)
  | es_subscribe (client : nat)
  | es_unsubscribe_all (client : nat)
  | es_delete_client (client : nat).

Record ESFManager := mkManager {
  active_ : bool;
  es_client_ : option nat;
  intercept_cb_ : bool;                    (* set *)
  es_calls : list es_call
}.

Definition ESFManager_new : ESFManager := mkManager false None false [].

(** [client]: the new client, [None] when there is none; [subscribed]: whether
    the subscription is accepted. *)
Definition start (apple : bool) (client : option nat) (subscribed : bool) (m : ESFManager) : ESFManager * bool :=
  if active_ m then (m, true)
  else if negb apple then (m, false)
  else
    match client with
    | None => (m, false)
    | Some c =>
        if subscribed then
          (mkManager true (Some c) (intercept_cb_ m) (es_calls m ++ [es_new_client c; es_subscribe c]), true)
        else
          (mkManager false None (intercept_cb_ m)
             (es_calls m ++ [es_new_client c; es_subscribe c; es_unsubscribe_all c; es_delete_client c]), false)
    end.

Definition stop (m : ESFManager) : ESFManager :=
  if negb (active_ m) then m
  else
    match es_client_ m with
    | Some c => mkManager false None (intercept_cb_ m) (es_calls m ++ [es_unsubscribe_all c; es_delete_client c])
    | None => mkManager false None (intercept_cb_ m) (es_calls m)
    end.

Definition is_active (m : ESFManager) : bool := active_ m.

Definition set_intercept_callback (cb : bool) (m : ESFManager) : ESFManager :=
  mkManager (active_ m) (es_client_ m) cb (es_calls m).

(** The destructor stops. *)
Definition ESFManager_delete (m : ESFManager) : ESFManager := stop m.

(** ** The life of the clients *)

Inductive operation := Op_start (apple : bool) (client : option nat) (subscribed : bool) | Op_stop | Op_callback (cb : bool).

Definition perform (m : ESFManager) (o : operation) : ESFManager :=
  match o with
  | Op_start apple client subscribed => (start apple client subscribed m).1
  | Op_stop => stop m
  | Op_callback cb => set_intercept_callback cb m
  end.

(** What the framework expects of its caller: one client at a time, asked to
    subscribe once made, unsubscribed before it is deleted.  The state is the
    living client and whether it has been asked. *)
Definition protocol_step (call : es_call) (st : option (nat * bool)) : option (option (nat * bool)) :=
  match call, st with
  | es_new_client c, None => Some (Some (c, false))
  | es_subscribe c, Some (c', false) => if decide (c = c') then Some (Some (c, true)) else None
  | es_unsubscribe_all c, Some (c', true) => if decide (c = c') then Some (Some (c, false)) else None
  | es_delete_client c, Some (c', false) => if decide (c = c') then Some None else None
  | _, _ => None
  end.

Definition protocol (calls : list es_call) : option (option (nat * bool)) := mfold protocol_step calls None.

(** The manager's view of it. *)
Record manager_ok (m : ESFManager) : Prop := {
  mk_active : active_ m = bool_decide (is_Some (es_client_ m));
  mk_protocol : protocol (es_calls m) = Some ((fun c => (c, true)) <$> es_client_ m)
}.

(** More calls after a run that went well. *)
Lemma protocol_app l l' st : protocol l = Some st -> protocol (l ++ l') = mfold protocol_step l' st.
Proof. unfold protocol. intros E. by rewrite mfold_app, E. Qed.

Ltac run_protocol H := rewrite (protocol_app _ _ _ H); cbn; repeat (rewrite decide_True by done; cbn); try reflexivity.

Lemma stop_ok m : manager_ok m -> manager_ok (stop m) /\ is_active (stop m) = false.
Proof.
  intros Hm. unfold stop. destruct (active_ m) eqn:E; cbn [negb]; [|by split]. destruct Hm as [Ha Hp].
  destruct (es_client_ m) as [c|]; [|by rewrite E in Ha].
  split; [|done]. split; [done|]. cbn [es_calls]. run_protocol Hp.
Qed.

Lemma perform_ok m o : manager_ok m -> manager_ok (perform m o).
Proof.
  intros Hm. destruct o as [apple client subscribed| |cb]; cbn [perform]; [|by apply stop_ok|by destruct Hm; split].
  unfold start. destruct (active_ m) eqn:E; [done|]. destruct apple; [|done]. destruct client as [c|]; [|done]. cbn [negb].
  destruct Hm as [Ha Hp]. destruct (es_client_ m); [by rewrite bool_decide_eq_true_2 in Ha by eauto; congruence|].
  destruct subscribed; cbn [fst]; (split; [done|]); cbn [es_calls es_client_]; run_protocol Hp.
Qed.

(** ** Properties *)

(** C40: the clients of the endpoint security framework.  After any sequence of starts, failing at any
    point, of stops and of callback changes, the manager is active
    exactly when it holds a client, the calls it has made respect the
    framework's protocol and leave exactly that client alive, and the destructor
    leaves none. *)
Theorem clients_released ops :
  let m := foldl perform ESFManager_new ops in
  is_active m = bool_decide (is_Some (es_client_ m)) /\
  protocol (es_calls m) = Some ((fun c => (c, true)) <$> es_client_ m) /\
  protocol (es_calls (ESFManager_delete m)) = Some None.
Proof.
  intros m. assert (manager_ok m) as Hm.
  { subst m. induction ops as [|o ops IH] using rev_ind; [by split|]. rewrite foldl_app. by apply perform_ok. }
  destruct (stop_ok m Hm) as [[Hs1 Hs2] Hs3]. destruct Hm as [Ha Hp]. split_and!; [done|done|].
  unfold ESFManager_delete. unfold is_active in Hs3. rewrite Hs3 in Hs1.
  by destruct (es_client_ (stop m)).
Qed.

(** What is denied: the exec of a path that names a package manager, but not AarchGate. *)
Lemma denied_paths msg :
  (handle_es_message_internal msg).1 = ES_AUTH_RESULT_DENY <->
  exists path, event_type msg = ES_EVENT_TYPE_AUTH_EXEC /\ target_path msg = Some (Some path) /\
    is_pkg_manager path = true /\ contains path "aarchgate" = false.
Proof.
  unfold handle_es_message_internal. destruct (event_type msg), (target_path msg) as [[path|]|]; cbn [default from_option]; unfold id;
    try (split; [done|by intros (? & ? & ? & _)]).
  destruct (is_pkg_manager path) eqn:E1, (contains path "aarchgate") eqn:E2; cbn [negb andb fst]; split;
    try done; try (intros (p & _ & [= <-] & ? & ?); congruence). intros _. exists path. by split_and!.
Qed.
